(* ===== verification/_CoqProject ===== *)
-Q . S2P
Prelude.v
KeyedFifo.v
Paths.v
Naming.v
Filenames.v
Backend.v
Errors.v
Events.v
Propfind.v
Server.v
Journal.v
FsCache.v
Replay.v
StreamFinish.v
ChunkUpload.v
Versions.v
AppLocks.v
Attr.v
PathSeq.v
Bg.v
IoMode.v
ChangeLog.v
Backoff.v
Listing.v
Walkers.v
Throttle.v
ReadAhead.v
Window.v
Mount.v
Lookup.v
LiveUpload.v
ReadDir.v
Namespace.v
FuseSched.v
Dispatch.v
Read.v
Open.v
Passthrough.v
Restart.v
Restore.v
Leftovers.v
Local.v
Refresh.v
Copies.v
Validate.v
