(* ===== verification/Prelude.v ===== *)
(** * ncRS desktop client: verification development

    ncrs_core mounts a Nextcloud folder through FUSE.  The kernel's requests change a local
    picture of the server (a cache of listings, staging files, open handles), queue every
    change in a journal on disk, and leave jobs that send the changes over WebDAV; a replay
    sends what could not be sent at once.  Reads come from windows of the file fetched ahead.

    This development models that path of a request: how requests and server mutations are
    ordered, what the handlers change, what the journal promises over a crash, what becomes
    of every save whatever the server answers, and which bytes a READ returns.  Definitions
    follow src/ncrs_core/src; the comment above each names the file, the lines and the symbol.

    ** The parts

    Ordering.
    - [KeyedFifo]: the queue-per-key structure two schedulers share.
    - [PathSeq] (path_seq.rs): tickets order server mutations by path.  Conflicting
      mutations run in ticket order, the oldest can always run.
    - [FuseSched] (fuse_sched.rs): FUSE requests by inode.  A started request is exactly one
      no earlier conflicting request is ahead of; each job runs once; admission is bounded.
    - [Dispatch] (fuse_dispatch.rs): which inodes a request takes, over [FuseSched].
      Requests on one inode are isolated, a folder rename is ordered with what is below it.
    - [Bg] (bg.rs): the thread pools.  Every accepted job runs once, workers and queues stay
      within their caps, and mutations over [PathSeq] tickets cannot deadlock their pool.

    State and journal.
    - [Paths], [Naming], [Filenames] (filename_validation.rs): components, conflicted-copy
      names with their dates, the server's filename rules.
    - [Backend] (backend.rs): error classes, entry extensions with their wire form, and the
      class [CloudBackend], the interface to the server.  [Server] is an instance of it at
      which the theorems about uploads are instantiated.
    - [FsCache] (lib.rs, FsCache): inodes, listings, eviction, merging a fresh listing with
      uploads and deletes on their way.
    - [Errors] (backend.rs, propfind.rs, lib.rs): errors cross the daemon as text; what is
      read back out of the text is what was written into it.
    - [Events], [Propfind] (propfind.rs): from a server's XML to entries.  No server can smuggle
      anything in through a listing, and a listing written and parsed is the listing.
    - [Listing] (lib.rs, get_or_list_dir and the fetch jobs): how a directory's listing comes
      into the cache while readers, prefetches and refreshes run.  One fetch per directory,
      readers end, and a listing known to be out of date is not shown as current.
    - [Journal] (mutation_journal.rs): the queue of changes and every operation on it; a
      restart reads back what was saved.
    - [Replay], [StreamFinish] (mutation_journal.rs): sending the queue.  Replay ends, a save
      is never dropped before its bytes are safe, a streamed upload's assembly is the PUT.

    The mount.
    - [Attr], [IoMode] (iomode.rs), [Versions], [AppLocks] (app_locks.rs): attributes,
      kernel I/O modes per inode, etag chaining and version pins, locks for documents.
    - [Mount]: the state the handlers share ([NextCloudFs], [OpenFile]) and the jobs.
    - [Lookup]: lookup, getattr and the extended attributes.  A name is called absent only on
      a listing in hand, and getattr answers what lookup answered.
    - [ReadDir]: opendir, readdir, releasedir.  Pages add up to the listing pinned by the
      first, rows carry their own inodes, the file manager's maps follow the listing.
    - [LiveUpload]: flush(), release() and the upload jobs.  Closing a handle queues exactly
      what it wrote, and every answer of the server leaves the save accounted for.
    - [Namespace]: create, mkdir, unlink, rmdir, rename and their jobs.  Open handles follow
      their inodes over any order of requests and jobs; outcomes of renames and deletes.
    - [ChunkUpload]: write() and truncate() of a file uploaded while it is written.
    - [Open]: open().  A handle opened for writing starts from the file, whichever copy of it
      is the newest, and who may write is what getattr reports.

    Reading and pacing.
    - [Throttle], [ReadAhead], [Window]: permits and memory for read-ahead, planning and
      moving windows, the pump that fills one from range requests, and serving a READ.
    - [Read]: where a READ's bytes come from.  Whatever the source, they are the file's, and
      a program reads back what it has written.
    - [Passthrough] (ncrs_passthrough): the privileged helper that registers backing files,
      its wire format and the daemon's end.  It can be made to do no more than it is for.
    - [ChangeLog] (change_log.rs), [Backoff] (backoff.rs), [Walkers] (walkers.rs): what
      clients are told, failure backoff and the breaker, crawler limits.

    Restart.
    - [Restart], [Restore] (state_snapshot.rs): the log a daemon appends node ids, renames and
      open handles to, its compaction, and what a successor on the same kernel connection
      builds from it.  At whatever point the daemon died, a node id never names another file
      and no open handle is lost silently; a planned hand-over resumes exactly.

    - [Leftovers] (lib.rs, prepare_mount_point and adopt_orphaned_files): files saved into the
      mount point while no daemon ran are moved, not lost, and queued for upload.
    - [Local] (lib.rs, run_cache_cleanup, evict_callback, purge_callback): what takes files off
      the disk.  The cleanup keeps its limits, and no bytes a save needs are taken.

    - [Refresh] (notify_push.rs): a folder changed on the server is asked again and the
      difference told.  What is told is exact, and the server is not asked again at once.

    ** How code becomes definitions

    Shared state behind a mutex is a record and an operation a function on it; a handler,
    which the dispatcher keeps other requests on its inodes away from, is one step; a
    background job is one step per stretch it runs without its lock.  Interleavings are the
    step relations ([step], [wstep], [hstep], [nstep] and so on), their reachable states the
    reflexive transitive closures [star] or [rtc].  The server, the clock and the file
    system's answers are parameters: a world [W] with [CloudBackend W], clocks as functions
    of it, booleans for calls that may fail.  A panic or a refused call is a value of an
    option or result type.  Machine integers are [Z] with their saturation written out.

    A path is the list of its components.  Local files are a map from paths to bytes and a
    time; fsync is not modelled, a crash loses memory and keeps files.  Hash maps are [gmap];
    where the code depends on their order the theorems hold for any.

    ** Fuel

    Replay runs with fuel; [replay_fuel] is shown to be enough by [replay_terminates].  Loops
    over chunks take the length of what they cut as fuel.  A window's segment ends within its
    retries ([segment_ends]); a reader of a listing takes a bounded number of stretches once its
    deadlines are past ([reader_ends]).

    ** What is not modelled

    Starting the fetch of a READ and keeping whole files; reading the saved cache files back at
    a start; the HTTP client, which is third-party code; the control
    socket, the passing of the kernel connection at a restart and the push client, which are
    serialisation and I/O;
    the desktop application, plugins and file-manager extensions, which are programs of
    their own; the vendored FUSE library. *)
From stdpp Require Export base gmap sets list strings fin_maps sorting.
From Stdlib Require Export ZArith Lia.

(** ** Notations *)

Declare Scope ncrs_scope.
Delimit Scope ncrs_scope with ncrs.

(** Rust's [saturating_sub] on unsigned integers, modelled on [Z]. *)
Definition sat_sub (a b : Z) : Z := Z.max 0 (a - b).
Notation "a '⊖' b" := (sat_sub a b) (at level 50, left associativity) : ncrs_scope.

(** Machine bounds used where a saturating or wrapping operation shows them. *)
Definition u64_max : Z := 2 ^ 64 - 1.
Definition u32_max : Z := 2 ^ 32 - 1.
(** [u64::saturating_add]. *)
Definition sat_add (a b : Z) : Z := Z.min (a + b) u64_max.

(** Durations and instants are integer nanoseconds. *)
Abbreviation Duration := Z (only parsing).
Abbreviation Instant := Z (only parsing).
Definition ms : Z := 1000000.
Definition secs (n : Z) : Duration := (n * 1000000000)%Z.

(** ** Tactics and hint databases *)

Create HintDb ncrs.

(** Splits every boolean conjunction, disjunction and comparison in sight. *)
Ltac bool_prop :=
  repeat match goal with
  | H : _ && _ = true |- _ => apply andb_true_iff in H as [? ?]
  | H : _ || _ = false |- _ => apply orb_false_iff in H as [? ?]
  | H : negb _ = true |- _ => apply negb_true_iff in H
  | H : negb _ = false |- _ => apply negb_false_iff in H
  | H : bool_decide _ = true |- _ => apply bool_decide_eq_true in H
  | H : bool_decide _ = false |- _ => apply bool_decide_eq_false in H
  | H : (_ <? _)%Z = true |- _ => apply Z.ltb_lt in H
  | H : (_ <? _)%Z = false |- _ => apply Z.ltb_ge in H
  | H : (_ <=? _)%Z = true |- _ => apply Z.leb_le in H
  | H : (_ <=? _)%Z = false |- _ => apply Z.leb_gt in H
  | H : (_ =? _)%Z = true |- _ => apply Z.eqb_eq in H
  | H : (_ =? _)%Z = false |- _ => apply Z.eqb_neq in H
  | H : (_ <? _)%nat = true |- _ => apply Nat.ltb_lt in H
  | H : (_ <? _)%nat = false |- _ => apply Nat.ltb_ge in H
  | H : (_ <=? _)%nat = true |- _ => apply Nat.leb_le in H
  | H : (_ <=? _)%nat = false |- _ => apply Nat.leb_gt in H
  | H : (_ =? _)%nat = true |- _ => apply Nat.eqb_eq in H
  | H : (_ =? _)%nat = false |- _ => apply Nat.eqb_neq in H
  end.
(** Destructs the scrutinee of the first [match]/[if] of the goal, keeping its equation. *)
Ltac case_goal :=
  match goal with
  | |- context [match ?x with _ => _ end] => destruct x eqn:?
  end.
(** The same in a hypothesis. *)
Ltac case_hyp H :=
  match type of H with
  | context [match ?x with _ => _ end] => destruct x eqn:?
  end.

(** From an equation between pairs, the second components. *)
Ltac snd_eq H := apply (f_equal snd) in H; cbn [snd] in H; subst.

(** ** Strings *)

Lemma string_app_assoc (a b c : string) : ((a +:+ b) +:+ c = a +:+ (b +:+ c))%string.
Proof. induction a as [|x a IH]; [done|]. exact (f_equal (String x) IH). Qed.

(** ** Lists *)

(** [Iterator::take_while]. *)
Fixpoint take_while {A} (f : A → bool) (l : list A) : list A :=
  match l with
  | [] => []
  | x :: l' => if f x then x :: take_while f l' else []
  end.

Lemma take_while_app_true {A} (f : A → bool) l1 l2 :
  Forall (λ x, f x = true) l1 → take_while f (l1 ++ l2) = l1 ++ take_while f l2.
Proof. induction 1 as [|x l Hx _ IH]; simpl; [done|]. by rewrite Hx, IH. Qed.

Lemma elem_of_take_while {A} (f : A → bool) l x :
  x ∈ take_while f l → f x = true ∧ x ∈ l.
Proof.
  induction l as [|y l IH]; simpl; [by intros ?%elem_of_nil|].
  destruct (f y) eqn:Hy; [|by intros ?%elem_of_nil].
  intros [->|Hx]%elem_of_cons; [by split; [|left]|].
  destruct (IH Hx). split; [done|by right].
Qed.

(** Everything up to an element all of whose predecessors pass the test is taken. *)
Lemma take_while_prefix {A} (f : A → bool) l1 x l2 :
  Forall (λ y, f y = true) l1 → f x = true → x ∈ take_while f (l1 ++ x :: l2).
Proof.
  intros H1 Hx. rewrite take_while_app_true by done. simpl. rewrite Hx.
  apply elem_of_app. right. left.
Qed.

Lemma forallb_Forall {A} (f : A → bool) l : forallb f l = true ↔ Forall (λ x, f x = true) l.
Proof. rewrite forallb_forall, Forall_forall. by setoid_rewrite list_elem_of_In. Qed.

Lemma existsb_elem {A} (f : A → bool) l : existsb f l = true ↔ ∃ x, x ∈ l ∧ f x = true.
Proof. rewrite existsb_exists. by setoid_rewrite list_elem_of_In. Qed.

Lemma existsb_false_elem {A} (f : A → bool) l :
  existsb f l = false ↔ ∀ x, x ∈ l → f x = false.
Proof.
  rewrite <- not_true_iff_false, existsb_elem. split.
  - intros H x Hx. destruct (f x) eqn:E; [|done]. exfalso; eauto.
  - intros H (x & Hx & E). rewrite H in E by done. done.
Qed.

Lemma elem_of_filterb {A} (f : A → bool) l x : x ∈ List.filter f l ↔ x ∈ l ∧ f x = true.
Proof. rewrite !list_elem_of_In. apply filter_In. Qed.

Lemma filterb_app {A} (f : A → bool) l1 l2 :
  List.filter f (l1 ++ l2) = List.filter f l1 ++ List.filter f l2.
Proof. induction l1 as [|x l IH]; simpl; [done|]. destruct (f x); simpl; by rewrite IH. Qed.

Lemma filterb_all {A} (f : A → bool) l :
  (∀ x, x ∈ l → f x = true) → List.filter f l = l.
Proof.
  induction l as [|x l IH]; simpl; intros H; [done|].
  rewrite H by left. f_equal. apply IH. intros y Hy. apply H. by right.
Qed.

Lemma filterb_none {A} (f : A → bool) l :
  (∀ x, x ∈ l → f x = false) → List.filter f l = [].
Proof.
  induction l as [|x l IH]; simpl; intros H; [done|].
  rewrite H by left. apply IH. intros y Hy. apply H. by right.
Qed.

Lemma filterb_sublist {A} (f : A → bool) l : List.filter f l `sublist_of` l.
Proof.
  induction l as [|x l IH]; simpl; [constructor|]. destruct (f x); by constructor.
Qed.

Lemma filterb_NoDup {A} (f : A → bool) l : NoDup l → NoDup (List.filter f l).
Proof. intros. eapply sublist_NoDup; [done|apply filterb_sublist]. Qed.

Lemma filterb_length_le {A} (f : A → bool) l : length (List.filter f l) ≤ length l.
Proof. apply sublist_length, filterb_sublist. Qed.

Lemma take_add_app {A} (l : list A) n m : take (n + m) l = take n l ++ take m (drop n l).
Proof.
  revert l. induction n as [|n IH]; intros [|x l]; simpl; [done|done|by rewrite take_nil|by rewrite IH].
Qed.

(** [VecDeque::remove] of the first element that satisfies a test. *)
Fixpoint remove_first {A} (f : A → bool) (l : list A) : list A :=
  match l with
  | [] => []
  | x :: l' => if f x then l' else x :: remove_first f l'
  end.

Lemma remove_first_app {A} (f : A → bool) l1 x l2 :
  Forall (λ y, f y = false) l1 → f x = true → remove_first f (l1 ++ x :: l2) = l1 ++ l2.
Proof.
  induction 1 as [|y l Hy _ IH]; simpl; intros Hx; [by rewrite Hx|]. by rewrite Hy, IH.
Qed.

(** In-place update of the first element that satisfies a test
    ([iter_mut().find(..)] followed by an assignment). *)
Fixpoint update_first {A} (f : A → bool) (g : A → A) (l : list A) : list A :=
  match l with
  | [] => []
  | x :: l' => if f x then g x :: l' else x :: update_first f g l'
  end.

Lemma update_first_length {A} (f : A → bool) (g : A → A) l :
  length (update_first f g l) = length l.
Proof. induction l as [|x l IH]; simpl; [done|]. destruct (f x); simpl; auto. Qed.

Lemma update_first_none {A} (f : A → bool) (g : A → A) l :
  (∀ x, x ∈ l → f x = false) → update_first f g l = l.
Proof.
  induction l as [|x l IH]; simpl; intros H; [done|].
  rewrite H by left. f_equal. apply IH. intros y Hy. apply H. by right.
Qed.

Lemma update_first_map {A B} (f : A → bool) (g : A → A) (h : A → B) l :
  (∀ x, h (g x) = h x) → h <$> update_first f g l = h <$> l.
Proof.
  intros Hh. induction l as [|x l IH]; [done|]. csimpl.
  destruct (f x); csimpl; [by rewrite Hh|by rewrite IH].
Qed.

Lemma elem_of_update_first {A} (f : A → bool) (g : A → A) l x :
  x ∈ update_first f g l → x ∈ l ∨ ∃ y, y ∈ l ∧ f y = true ∧ x = g y.
Proof.
  induction l as [|y l IH]; simpl; [by left|].
  destruct (f y) eqn:Hy; intros [->|Hx]%elem_of_cons.
  - right. exists y. repeat split; [by left|done].
  - left. by right.
  - left. left.
  - destruct (IH Hx) as [?|(z & ? & ? & ?)]; [left; by right|].
    right. exists z. split; [by right|done].
Qed.

Lemma update_first_hit {A} (f : A → bool) (g : A → A) l :
  existsb f l = true → ∃ y, y ∈ l ∧ f y = true ∧ g y ∈ update_first f g l.
Proof.
  induction l as [|x l IH]; simpl; [done|]. destruct (f x) eqn:Hx.
  - intros _. exists x. split_and!; [left|done|left].
  - intros (y & ? & ? & ?)%IH. exists y. split_and!; [by right|done|by right].
Qed.

Lemma elem_of_update_first_other {A} (f : A → bool) (g : A → A) l x :
  x ∈ l → f x = false → x ∈ update_first f g l.
Proof.
  induction l as [|y l IH]; simpl; [by intros ?%elem_of_nil|].
  intros [->|Hx]%elem_of_cons Hf; [rewrite Hf; left|].
  destruct (f y); right; auto.
Qed.

(** Distinct keys tell the elements of a list apart. *)
Lemma NoDup_fmap_inj {A B} (f : A → B) (l : list A) x y :
  NoDup (f <$> l) → x ∈ l → y ∈ l → f x = f y → x = y.
Proof.
  intros Hnd [i Hi]%list_elem_of_lookup [k Hk]%list_elem_of_lookup He.
  assert (i = k) as <-; [|congruence].
  eapply (NoDup_lookup (f <$> l) i k (f x)); [done| |].
  - by rewrite list_lookup_fmap, Hi.
  - rewrite list_lookup_fmap, Hk. simpl. by rewrite He.
Qed.

(** Strictly increasing lists of identifiers. *)
Definition increasing (l : list nat) : Prop := StronglySorted lt l.

Lemma increasing_app (l1 l2 : list nat) :
  increasing (l1 ++ l2) ↔
  increasing l1 ∧ increasing l2 ∧ (∀ a b, a ∈ l1 → b ∈ l2 → a < b).
Proof.
  unfold increasing. induction l1 as [|x l IH]; simpl.
  - split; [intros; split; [constructor|]|by intros (_ & ? & _)].
    split; [done|]. by intros ? ? ?%elem_of_nil.
  - split.
    + intros [Hs Hx]%StronglySorted_inv. destruct (proj1 IH Hs) as (? & ? & Hab).
      rewrite Forall_app in Hx. destruct_and!.
      split; [by constructor|]. split; [done|].
      intros a b [->|Ha]%elem_of_cons Hb; [|by apply Hab].
      by eapply (proj1 (Forall_forall (lt x) l2)).
    + intros ([H1 Hx]%StronglySorted_inv & H2 & Hab). constructor.
      * apply IH. split; [done|]. split; [done|]. intros. apply Hab; [by right|done].
      * apply Forall_app. split; [done|]. apply Forall_forall. intros.
        apply Hab; [by left|done].
Qed.

Lemma increasing_NoDup (l : list nat) : increasing l → NoDup l.
Proof.
  induction 1 as [|x l _ IH Hx]; constructor; [|done].
  intros Hin. rewrite Forall_forall in Hx. specialize (Hx x Hin). lia.
Qed.

(** ** Maps *)

(** Removing a list of keys one by one. *)
Lemma lookup_foldl_delete `{Countable K} {A} (d : gmap K A) l p :
  foldl (λ d p, delete p d) d l !! p = if decide (p ∈ l) then None else d !! p.
Proof.
  revert d. induction l as [|q l IH]; intros d; cbn [foldl].
  - rewrite decide_False by apply not_elem_of_nil. done.
  - rewrite IH. destruct (decide (p ∈ l)) as [Hin|Hn].
    + rewrite decide_True by by right. done.
    + destruct (decide (p = q)) as [->|Hne].
      * rewrite decide_True by left. by rewrite lookup_delete_eq.
      * rewrite decide_False by (intros [->|?]%elem_of_cons; done).
        by rewrite lookup_delete_ne.
Qed.

Lemma foldl_delete_subseteq `{Countable K} {A} (d : gmap K A) l :
  foldl (λ d p, delete p d) d l ⊆ d.
Proof.
  apply map_subseteq_spec. intros p x. rewrite lookup_foldl_delete. by destruct (decide _).
Qed.

Lemma size_foldl_delete `{Countable K} {A} (d : gmap K A) l :
  NoDup l → (∀ p, p ∈ l → is_Some (d !! p)) → size (foldl (λ d p, delete p d) d l) = size d - length l.
Proof.
  revert d. induction l as [|q l IH]; intros d Hnd Hin; simpl; [lia|].
  apply NoDup_cons in Hnd as [Hq Hnd]. rewrite IH; [|done|].
  - destruct (Hin q ltac:(left)) as [x Hx]. rewrite map_size_delete, Hx. lia.
  - intros p Hp. rewrite lookup_delete_ne; [apply Hin; by right|]. by intros ->.
Qed.

(** ** Transition sequences *)

Section star.
Context {A : Type} (R : A → A → Prop).
Inductive star : A → A → Prop :=
| star_refl a : star a a
| star_snoc a b c : star a b → R b c → star a c.

Lemma star_trans a b c : star a b → star b c → star a c.
Proof. intros Hab Hbc. induction Hbc as [|x y z Hxy IH Hyz]; [done|]. apply star_snoc with y; auto. Qed.

(** Rule induction for invariants: what holds at the start and is kept by every step
    holds in every reachable state. *)
Lemma star_invariant (I : A → Prop) :
  (∀ a b, I a → R a b → I b) → ∀ a b, star a b → I a → I b.
Proof. intros Hstep a b Hs. induction Hs; eauto. Qed.
End star.

#[export] Hint Constructors star : ncrs.
#[export] Hint Resolve filterb_NoDup increasing_NoDup : ncrs.

(** ** Fallible results *)

(** [Result<A, E>]. *)
Inductive result (A E : Type) : Type :=
| Ok (a : A)
| Err (e : E).
Arguments Ok {A E} a.
Arguments Err {A E} e.

Definition result_ok {A E} (r : result A E) : option A :=
  match r with Ok a => Some a | Err _ => None end.
Definition map_ok {A B E} (f : A → B) (r : result A E) : result B E :=
  match r with Ok a => Ok (f a) | Err e => Err e end.
Definition is_ok {A E} (r : result A E) : bool := match r with Ok _ => true | Err _ => false end.

(** A call that reads and changes the state of its environment [W]. *)
Definition call (W A : Type) : Type := W → A * W.
