(* ===== verification/KeyedFifo.v ===== *)
(** Per-key FIFO queues with shared and exclusive entries.

    [path_seq.rs] (tickets on paths) and [fuse_sched.rs] (FUSE requests on inodes and
    handles) keep the same structure: one queue per key, every live item queued on each of
    its keys in one global id order.  This file holds that structure, generic in the key
    type, and its meaning: the queues are the projections of one list of live items, in id
    order ([rep]); the queue-based readiness test is "no earlier live item conflicts". *)
From S2P Require Import Prelude.

(** [path_seq::Access] and [fuse_sched::Mode]. *)
Inductive Mode := Shared | Exclusive.
#[export] Instance Mode_eq_dec : EqDecision Mode.
Proof. solve_decision. Defined.

Definition both_shared (a b : Mode) : bool :=
  match a, b with Shared, Shared => true | _, _ => false end.

Section fifo.
Context {K : Type} `{Countable K}.

Abbreviation keys := (list (K * Mode)).
Abbreviation queues := (gmap K (list (nat * Mode))).

(** One round of the merging loop: a key already listed keeps its strongest mode. *)
Fixpoint merge_one (merged : keys) (k : K) (m : Mode) : keys :=
  match merged with
  | [] => [(k, m)]
  | (q, existing) :: rest =>
      if decide (q = k)
      then (q, match m with Exclusive => Exclusive | Shared => existing end) :: rest
      else (q, existing) :: merge_one rest k m
  end.
Definition merge_keys (ks : keys) : keys :=
  foldl (λ merged '(k, m), merge_one merged k m) [] ks.

(** [st.queues.entry(k).or_default().push_back((id, m))] for every merged key. *)
Definition push_one (id : nat) (qs : queues) (km : K * Mode) : queues :=
  <[km.1 := default [] (qs !! km.1) ++ [(id, km.2)]]> qs.
Definition push_all (id : nat) (ks : keys) (qs : queues) : queues :=
  foldl (push_one id) qs ks.

(** The entries ahead of [id]: [q.iter().take_while(|(t, _)| *t != id)]. *)
Definition ahead (id : nat) (q : list (nat * Mode)) : list (nat * Mode) :=
  take_while (λ e, negb (e.1 =? id)) q.

Definition ready_on (qs : queues) (id : nat) (ks : keys) : bool :=
  forallb (λ '(k, mine),
    match qs !! k with
    | None => true
    | Some q => forallb (λ '(_, earlier), both_shared mine earlier) (ahead id q)
    end) ks.

(** ** Meaning *)

(** The mode an item asks for on a key. *)
Definition mode_of (k : K) (ks : keys) : option Mode :=
  snd <$> find (λ e, bool_decide (e.1 = k)) ks.

(** The queue of [k] as the projection of the live items, oldest first. *)
Definition queue_of (k : K) (live : list (nat * keys)) : list (nat * Mode) :=
  omap (λ t, (λ m, (t.1, m)) <$> mode_of k t.2) live.

Definition nonempty {A} (l : list A) : option (list A) :=
  match l with [] => None | _ => Some l end.

Definition rep (live : list (nat * keys)) (qs : queues) : Prop :=
  ∀ k, qs !! k = nonempty (queue_of k live).

(** Two items conflict on a key both name unless both only share it. *)
Definition conflict (a b : keys) : Prop :=
  ∃ k ma mb, (k, ma) ∈ a ∧ (k, mb) ∈ b ∧ both_shared ma mb = false.

(** ** Lemmas *)

Lemma merge_one_keys merged k m :
  (merge_one merged k m).*1 = if decide (k ∈ merged.*1) then merged.*1 else merged.*1 ++ [k].
Proof.
  induction merged as [|[q e] rest IH]; [done|]. cbn [merge_one].
  destruct (decide (q = k)) as [->|Hne]; rewrite !fmap_cons; cbn [fst].
  - rewrite decide_True; [done|left].
  - rewrite IH. repeat case_decide; set_solver.
Qed.

Lemma merge_one_NoDup merged k m : NoDup merged.*1 → NoDup (merge_one merged k m).*1.
Proof.
  intros Hnd. rewrite merge_one_keys. case_decide; [done|].
  apply NoDup_app. split; [done|]. split; [set_solver|]. apply NoDup_singleton.
Qed.

Lemma merge_keys_NoDup ks : NoDup (merge_keys ks).*1.
Proof.
  unfold merge_keys. assert (Hnil : NoDup (@nil (K * Mode)).*1) by constructor.
  revert Hnil. generalize (@nil (K * Mode)). induction ks as [|[k m] ks IH]; simpl; [done|].
  intros l Hl. apply IH. by apply merge_one_NoDup.
Qed.

Lemma mode_of_Some k ks m : mode_of k ks = Some m → (k, m) ∈ ks.
Proof.
  unfold mode_of. destruct (find _ ks) as [[k' m']|] eqn:Hf; simpl; [|done].
  intros [= <-]. apply find_some in Hf as [Hin Hk]. simpl in Hk.
  apply bool_decide_eq_true in Hk as ->. by apply list_elem_of_In.
Qed.

Lemma mode_of_elem k m ks : NoDup ks.*1 → (k, m) ∈ ks → mode_of k ks = Some m.
Proof.
  unfold mode_of. induction ks as [|[k' m'] ks IH]; simpl; intros Hnd Hin.
  { by apply elem_of_nil in Hin. }
  apply NoDup_cons in Hnd as [Hn Hnd]. apply elem_of_cons in Hin as [[= <- <-]|Hin].
  - by rewrite bool_decide_true.
  - rewrite bool_decide_false; [by apply IH|]. intros ->.
    apply Hn, list_elem_of_fmap. by exists (k, m).
Qed.

Lemma mode_of_None k ks : k ∉ ks.*1 → mode_of k ks = None.
Proof.
  intros Hn. destruct (mode_of k ks) as [m|] eqn:E; [|done].
  apply mode_of_Some in E. exfalso. apply Hn, list_elem_of_fmap. by exists (k, m).
Qed.

Lemma mode_of_cons_ne k k' m ks : k' ≠ k → mode_of k ((k', m) :: ks) = mode_of k ks.
Proof. intros. unfold mode_of. simpl. by rewrite bool_decide_false. Qed.
Lemma mode_of_cons_eq k m ks : mode_of k ((k, m) :: ks) = Some m.
Proof. unfold mode_of. simpl. by rewrite bool_decide_true. Qed.

Lemma queue_of_app k l1 l2 : queue_of k (l1 ++ l2) = queue_of k l1 ++ queue_of k l2.
Proof. apply omap_app. Qed.
Lemma queue_of_cons k id ks l :
  queue_of k ((id, ks) :: l) =
    match mode_of k ks with Some m => [(id, m)] | None => [] end ++ queue_of k l.
Proof. unfold queue_of. simpl. by destruct (mode_of k ks). Qed.

Lemma elem_of_queue_of k live id m :
  (id, m) ∈ queue_of k live ↔ ∃ ks, (id, ks) ∈ live ∧ mode_of k ks = Some m.
Proof.
  unfold queue_of. rewrite list_elem_of_omap. split.
  - intros ([id' ks] & Hin & Hm). simpl in Hm. apply fmap_Some in Hm as (? & ? & [= -> ->]). eauto.
  - intros (ks & Hin & Hm). exists (id, ks). simpl. by rewrite Hm.
Qed.

Lemma default_nonempty {A} (l : list A) : default [] (nonempty l) = l.
Proof. by destruct l. Qed.

Lemma rep_nil : rep [] ∅.
Proof. intros k. by rewrite lookup_empty. Qed.

Lemma rep_default live qs k : rep live qs → default [] (qs !! k) = queue_of k live.
Proof. intros Hr. rewrite Hr. apply default_nonempty. Qed.

Lemma push_all_lookup id ks qs k :
  NoDup ks.*1 →
  push_all id ks qs !! k =
    match mode_of k ks with
    | Some m => Some (default [] (qs !! k) ++ [(id, m)])
    | None => qs !! k
    end.
Proof.
  revert qs. induction ks as [|[k' m'] ks IH]; intros qs Hnd; simpl; [done|].
  apply NoDup_cons in Hnd as [Hn Hnd]. rewrite IH by done. unfold push_one. simpl.
  destruct (decide (k' = k)) as [->|Hne].
  - rewrite mode_of_cons_eq, (mode_of_None k ks) by done. by rewrite lookup_insert_eq.
  - by rewrite mode_of_cons_ne, !lookup_insert_ne by done.
Qed.

(** Queueing a new item behind everything live keeps the projection. *)
Lemma push_all_rep id ks live qs :
  NoDup ks.*1 → rep live qs → rep (live ++ [(id, ks)]) (push_all id ks qs).
Proof.
  intros Hnd Hr k. rewrite push_all_lookup by done.
  rewrite queue_of_app, queue_of_cons, (rep_default _ _ _ Hr). simpl.
  destruct (mode_of k ks) as [m|]; simpl.
  - by destruct (queue_of k live).
  - rewrite app_nil_r. apply Hr.
Qed.

Lemma ahead_queue_of k id ks l1 l2 m :
  id ∉ l1.*1 → mode_of k ks = Some m →
  ahead id (queue_of k (l1 ++ (id, ks) :: l2)) = queue_of k l1.
Proof.
  intros Hid Hm. rewrite queue_of_app, queue_of_cons, Hm. unfold ahead.
  rewrite take_while_app_true.
  - simpl. by rewrite Nat.eqb_refl, app_nil_r.
  - apply Forall_forall. intros [i mi] Hin. simpl.
    apply elem_of_queue_of in Hin as (ks' & Hin & _).
    apply negb_true_iff, Nat.eqb_neq. intros ->. apply Hid.
    apply list_elem_of_fmap. by exists (id, ks').
Qed.

(** The queue-based test means: no earlier live item conflicts. *)
Lemma ready_on_iff qs id ks l1 l2 :
  Forall (λ t, NoDup t.2.*1) l1 → NoDup ks.*1 → id ∉ l1.*1 →
  rep (l1 ++ (id, ks) :: l2) qs →
  ready_on qs id ks = true ↔ ∀ t, t ∈ l1 → ¬ conflict t.2 ks.
Proof.
  intros Hnds Hnd Hid Hr. unfold ready_on. rewrite forallb_Forall, Forall_forall.
  rewrite Forall_forall in Hnds. split.
  - intros Hall [i ki] Ht (k & ma & mb & Ha & Hb & Hc). simpl in *.
    specialize (Hall (k, mb) Hb). simpl in Hall.
    pose proof (mode_of_elem k mb ks Hnd Hb) as Hm.
    rewrite (Hr k) in Hall.
    assert (Hq : (i, ma) ∈ queue_of k l1).
    { apply elem_of_queue_of. exists ki. split; [done|]. apply mode_of_elem; [|done].
      by apply (Hnds (i, ki)). }
    destruct (nonempty _) as [q|] eqn:Hne.
    + assert (Hqe : q = queue_of k (l1 ++ (id, ks) :: l2)).
      { unfold nonempty in Hne. by destruct (queue_of k (l1 ++ (id, ks) :: l2)); simplify_eq. }
      rewrite Hqe, (ahead_queue_of k id ks l1 l2 mb Hid Hm) in Hall.
      rewrite forallb_Forall, Forall_forall in Hall. specialize (Hall _ Hq). simpl in Hall.
      destruct ma, mb; done.
    + rewrite queue_of_app in Hne. destruct (queue_of k l1); [by apply elem_of_nil in Hq|done].
  - intros Hno [k mine] Hk. rewrite (Hr k).
    destruct (nonempty _) as [q|] eqn:Hne; [|done].
    assert (Hqe : q = queue_of k (l1 ++ (id, ks) :: l2)).
    { unfold nonempty in Hne. by destruct (queue_of k (l1 ++ (id, ks) :: l2)); simplify_eq. }
    rewrite Hqe, (ahead_queue_of k id ks l1 l2 mine Hid (mode_of_elem _ _ _ Hnd Hk)).
    apply forallb_Forall, Forall_forall. intros [i e] Hin.
    apply elem_of_queue_of in Hin as (ki & Hin & Hm%mode_of_Some).
    destruct (both_shared mine e) eqn:Hb; [done|]. exfalso.
    apply (Hno (i, ki) Hin). exists k, e, mine. simpl. destruct e, mine; done.
Qed.

(** Live items below a point of the order are unaffected by what is queued behind. *)
Lemma queue_of_drop_key k id m ks l1 l2 :
  NoDup ((k, m) :: ks).*1 → id ∉ l1.*1 →
  queue_of k (l1 ++ (id, ks) :: l2) =
    remove_first (λ e, e.1 =? id) (queue_of k (l1 ++ (id, (k, m) :: ks) :: l2)).
Proof.
  intros Hnd Hid. apply NoDup_cons in Hnd as [Hn Hnd]. rewrite !queue_of_app, !queue_of_cons. simpl.
  rewrite mode_of_cons_eq, (mode_of_None k ks) by done. simpl.
  rewrite remove_first_app; [done| |apply Nat.eqb_refl].
  apply Forall_forall. intros [i mi] (ki & Hin & _)%elem_of_queue_of. simpl.
  apply Nat.eqb_neq. intros ->. apply Hid, list_elem_of_fmap. by exists (id, ki).
Qed.

Lemma queue_of_drop_other k k' id m ks l1 l2 :
  k' ≠ k →
  queue_of k' (l1 ++ (id, ks) :: l2) = queue_of k' (l1 ++ (id, (k, m) :: ks) :: l2).
Proof.
  intros Hne. rewrite !queue_of_app, !queue_of_cons. simpl. by rewrite mode_of_cons_ne.
Qed.

Lemma queue_of_no_keys k id l1 l2 : queue_of k (l1 ++ (id, []) :: l2) = queue_of k (l1 ++ l2).
Proof. by rewrite !queue_of_app, queue_of_cons. Qed.

(** Within one queue an item's identifier appears once. *)
Lemma queue_of_retain k id m ks l1 l2 :
  NoDup ((k, m) :: ks).*1 → id ∉ l1.*1 → id ∉ l2.*1 →
  List.filter (λ e, negb (e.1 =? id)) (queue_of k (l1 ++ (id, (k, m) :: ks) :: l2)) =
    queue_of k (l1 ++ (id, ks) :: l2).
Proof.
  intros Hnd H1 H2. apply NoDup_cons in Hnd as [Hn Hnd]. rewrite !queue_of_app, !queue_of_cons. simpl.
  rewrite mode_of_cons_eq, (mode_of_None k ks) by done. rewrite !filterb_app. simpl.
  rewrite Nat.eqb_refl. simpl.
  rewrite !filterb_all; [done| |]; intros [i mi] (ki & Hin & _)%elem_of_queue_of;
    apply negb_true_iff, Nat.eqb_neq; simpl; intros ->.
  - apply H2, list_elem_of_fmap. by exists (id, ki).
  - apply H1, list_elem_of_fmap. by exists (id, ki).
Qed.

(** Merging keeps, per key, the strongest mode asked for. *)
Lemma merge_one_mode merged k m k' :
  mode_of k' (merge_one merged k m) =
    if decide (k = k')
    then Some (match m, mode_of k' merged with
               | Exclusive, _ | _, None => m
               | Shared, Some e => e end)
    else mode_of k' merged.
Proof.
  induction merged as [|[q e] rest IH]; cbn [merge_one].
  - case_decide as Hd; [subst; rewrite mode_of_cons_eq; by destruct m|].
    by rewrite mode_of_cons_ne.
  - destruct (decide (q = k)) as [->|Hne].
    + case_decide as Hd; [subst; rewrite !mode_of_cons_eq; by destruct m|].
      by rewrite !mode_of_cons_ne.
    + destruct (decide (q = k')) as [->|Hne'].
      * rewrite !mode_of_cons_eq, decide_False by done. done.
      * by rewrite !mode_of_cons_ne.
Qed.

Lemma merge_keys_mode ks k :
  mode_of k (merge_keys ks) =
    if bool_decide ((k, Exclusive) ∈ ks) then Some Exclusive
    else if bool_decide ((k, Shared) ∈ ks) then Some Shared else None.
Proof.
  unfold merge_keys. induction ks as [|[k' m'] ks IH] using rev_ind; [done|].
  rewrite foldl_app. cbn [foldl]. rewrite merge_one_mode, IH. clear IH.
  case_decide as Hd; [subst k'|];
    repeat case_bool_decide; destruct m'; try done; exfalso; set_solver.
Qed.

Lemma merge_keys_sub ks k m : (k, m) ∈ merge_keys ks → (k, m) ∈ ks.
Proof.
  intros Hm. apply mode_of_elem in Hm; [|apply merge_keys_NoDup].
  rewrite merge_keys_mode in Hm. repeat case_bool_decide; simplify_eq; done.
Qed.

Lemma merge_keys_conflict a b : conflict (merge_keys a) (merge_keys b) ↔ conflict a b.
Proof.
  pose proof merge_keys_sub as Hin.
  assert (Hup : ∀ ks k m, (k, m) ∈ ks →
    ∃ m', (k, m') ∈ merge_keys ks ∧ (m = Exclusive → m' = Exclusive)).
  { intros ks k m Hm. pose proof (merge_keys_mode ks k) as Hmm.
    destruct m; repeat case_bool_decide; try done;
      apply mode_of_Some in Hmm; eauto. }
  split.
  - intros (k & ma & mb & Ha & Hb & Hc). exists k, ma, mb. auto.
  - intros (k & ma & mb & (ma' & Ha & Ema)%Hup & (mb' & Hb & Emb)%Hup & Hc).
    exists k, ma', mb'. split; [done|]. split; [done|].
    destruct ma, mb, ma', mb'; naive_solver.
Qed.

Lemma conflict_nil_l ks : ¬ conflict [] ks.
Proof. intros (? & ? & ? & Hin & _). by apply elem_of_nil in Hin. Qed.

Lemma conflict_cons k m a b :
  conflict ((k, m) :: a) b ↔
  (∃ mb, (k, mb) ∈ b ∧ both_shared m mb = false) ∨ conflict a b.
Proof.
  split.
  - intros (k' & ma & mb & [[= -> ->]|Hin]%elem_of_cons & Hb & Hc); [left; eauto|].
    right. by exists k', ma, mb.
  - intros [(mb & Hb & Hc)|(k' & ma & mb & Ha & Hb & Hc)].
    + exists k, m, mb. split; [left|done].
    + exists k', ma, mb. split; [by right|done].
Qed.

Lemma conflict_sym a b : conflict a b → conflict b a.
Proof.
  intros (k & ma & mb & Ha & Hb & Hc). exists k, mb, ma. split; [done|]. split; [done|].
  by destruct ma, mb.
Qed.
End fifo.

#[export] Hint Resolve merge_keys_NoDup rep_nil : ncrs.
