(* ===== verification/Paths.v ===== *)
(** Paths, as the components [std::path] compares them by.

    A [PathBuf] is the list of its normal components below the root; the root is [[]].
    [Path::starts_with], [strip_prefix], [join], [parent] and [file_name] are the standard
    library's component-wise operations on such absolute paths. *)
From S2P Require Import Prelude.

Abbreviation PathBuf := (list string).

Definition root : PathBuf := [].

(** [p.starts_with(base)]. *)
Fixpoint starts_with (p base : PathBuf) {struct base} : bool :=
  match base, p with
  | [], _ => true
  | b :: base', c :: p' => bool_decide (b = c) && starts_with p' base'
  | _ :: _, [] => false
  end.

(** [p.strip_prefix(base).ok()]. *)
Fixpoint strip_prefix (p base : PathBuf) {struct base} : option PathBuf :=
  match base, p with
  | [], _ => Some p
  | b :: base', c :: p' => if decide (b = c) then strip_prefix p' base' else None
  | _ :: _, [] => None
  end.

(** [p.join(rel)] for a relative [rel]. *)
Definition join (p rel : PathBuf) : PathBuf := p ++ rel.

(** [p.parent()]: [None] for the root. *)
Fixpoint parent (p : PathBuf) : option PathBuf :=
  match p with
  | [] => None
  | [_] => Some []
  | c :: p' => (λ q, c :: q) <$> parent p'
  end.

(** [p.file_name()]. *)
Definition file_name (p : PathBuf) : option string := last p.

(** [p.parent().unwrap_or(Path::new("/"))]. *)
Definition parent_or_root (p : PathBuf) : PathBuf := default root (parent p).

Lemma starts_with_prefix p base : starts_with p base = true ↔ base `prefix_of` p.
Proof.
  revert p. induction base as [|b base IH]; intros p; simpl.
  - split; [intros _; apply prefix_nil|done].
  - destruct p as [|c p]; [split; [done|by intros ?%prefix_nil_inv]|].
    rewrite andb_true_iff, bool_decide_eq_true, IH. split.
    + intros [-> ?]. by apply prefix_cons.
    + intros [q [= -> ->]]. split; [done|by exists q].
Qed.

Lemma starts_with_refl p : starts_with p p = true.
Proof. by apply starts_with_prefix. Qed.

Lemma strip_prefix_Some p base q : strip_prefix p base = Some q ↔ p = base ++ q.
Proof.
  revert p. induction base as [|b base IH]; intros p; simpl.
  - split; [by intros [= ->]|by intros ->].
  - destruct p as [|c p]; [done|]. case_decide as Hd.
    + rewrite IH. split; [by intros ->; subst|by intros [= -> ->]].
    + split; [done|by intros [= -> ->]].
Qed.

Lemma strip_prefix_is_Some p base : is_Some (strip_prefix p base) ↔ starts_with p base = true.
Proof.
  rewrite starts_with_prefix. split.
  - intros [q Hq%strip_prefix_Some]. by exists q.
  - intros [q ->]. exists q. by apply strip_prefix_Some.
Qed.

Lemma starts_with_join base rel : starts_with (join base rel) base = true.
Proof. apply starts_with_prefix. by exists rel. Qed.

Lemma starts_with_length p base : starts_with p base = true → length base ≤ length p.
Proof. intros ?%starts_with_prefix. by apply prefix_length. Qed.

Lemma starts_with_antisym p q : starts_with p q = true → starts_with q p = true → p = q.
Proof.
  intros H1%starts_with_prefix H2%starts_with_prefix.
  apply prefix_length_eq; [done|]. by apply prefix_length.
Qed.

Lemma starts_with_trans p q r :
  starts_with p q = true → starts_with q r = true → starts_with p r = true.
Proof. rewrite !starts_with_prefix. intros. by etrans. Qed.

#[export] Hint Resolve starts_with_refl starts_with_join : ncrs.
