(* ===== verification/Naming.v ===== *)
(** [lib.rs], names of conflicted copies: [make_conflict_name] and the calendar date it is
    stamped with ([chrono_timestamp]).

    The clock is an argument (seconds since the epoch, as [u64]).  The year is an [i32] in
    the code and an unbounded integer here: it stays in range for any date before the year
    2^31. *)
From stdpp Require Import pretty.
From S2P Require Import Prelude Paths.
Local Open Scope Z_scope.

(** ** The date *)

(* lib.rs:11918-11918 chrono_timestamp *)
Definition leap (y : Z) : bool := (y mod 4 =? 0) && (negb (y mod 100 =? 0) || (y mod 400 =? 0)).

(* lib.rs:11913-11913 chrono_timestamp *)
Definition days_in_year (y : Z) : Z := if leap y then 366 else 365.

(* lib.rs:11910-11917 chrono_timestamp *)
Fixpoint year_loop (fuel : nat) (y remaining : Z) : Z * Z :=
  match fuel with
  | O => (y, remaining)
  | S fuel => if remaining <? days_in_year y then (y, remaining)
              else year_loop fuel (y + 1) (remaining - days_in_year y)
  end.

(* lib.rs:11919-11919 chrono_timestamp *)
Definition month_days (y : Z) : list Z :=
  [31; (if leap y then 29 else 28); 31; 30; 31; 30; 31; 31; 30; 31; 30; 31].

(* lib.rs:11920-11925 chrono_timestamp *)
Fixpoint month_loop (mds : list Z) (m remaining : Z) : Z * Z :=
  match mds with
  | [] => (m, remaining)
  | md :: mds => if remaining <? md then (m, remaining) else month_loop mds (m + 1) (remaining - md)
  end.

(** Every year has at least 365 days, so this many iterations always reach the year. *)
Definition year_fuel (days : Z) : nat := S (Z.to_nat (days / 365)).

Record Date := { d_year : Z; d_month : Z; d_day : Z; d_hour : Z; d_min : Z; d_sec : Z }.

(* lib.rs:11902-11927 chrono_timestamp *)
Definition chrono_date (secs : Z) : Date :=
  let days := secs / 86400 in
  let day_secs := secs mod 86400 in
  let '(y, rem_year) := year_loop (year_fuel days) 1970 days in
  let '(m, rem_month) := month_loop (month_days y) 0 rem_year in
  {| d_year := y; d_month := m + 1; d_day := rem_month + 1;
     d_hour := day_secs / 3600; d_min := day_secs mod 3600 / 60; d_sec := day_secs mod 60 |}.

(** [{:0w}] of a natural number. *)
Definition pad (w : nat) (n : Z) : string :=
  let s := pretty n in (String.concat "" (replicate (w - String.length s) "0"%string)) +:+ s.

(* lib.rs:11902-11927 chrono_timestamp *)
Definition chrono_timestamp (secs : Z) : string :=
  let d := chrono_date secs in
  (pad 4 (d_year d) +:+ "-" +:+ pad 2 (d_month d) +:+ "-" +:+ pad 2 (d_day d) +:+ " " +:+
   pad 2 (d_hour d) +:+ "-" +:+ pad 2 (d_min d) +:+ "-" +:+ pad 2 (d_sec d))%string.

(** ** The name *)

Definition dot : Ascii.ascii := Ascii.ascii_of_nat 46.

(** The part before and after the last dot ([rsplit_file_at_dot]). *)
Fixpoint rsplit_dot (s : string) : option (string * string) :=
  match s with
  | EmptyString => None
  | String c s' =>
      match rsplit_dot s' with
      | Some (a, b) => Some (String c a, b)
      | None => if Ascii.eqb c dot then Some (""%string, s') else None
      end
  end.

(** [Path::file_stem] and [Path::extension] of a name: a leading dot starts no extension. *)
Definition stem_ext (name : string) : string * option string :=
  match rsplit_dot name with
  | Some (EmptyString, _) | None => (name, None)
  | Some (a, b) => (a, Some b)
  end.

(** [Path::with_file_name]. *)
Definition with_file_name (p : PathBuf) (n : string) : PathBuf :=
  match parent p with Some q => join q [n] | None => join p [n] end.

(* lib.rs:11891-11900 make_conflict_name *)
Definition make_conflict_name (secs : Z) (path : PathBuf) : PathBuf :=
  let '(stem, ext) := match file_name path with
    | Some n => stem_ext n
    | None => ("file"%string, None)
    end in
  let now := chrono_timestamp secs in
  with_file_name path
    (match ext with
     | Some e => stem +:+ " (conflicted copy " +:+ now +:+ ")." +:+ e
     | None => stem +:+ " (conflicted copy " +:+ now +:+ ")"
     end)%string.

(** ** Theorems *)

(** Days from 1970-01-01 to the first of January of a year, by the Gregorian rule. *)
Definition days_to_year (y : Z) : Z :=
  365 * (y - 1970) + ((y - 1) / 4 - (y - 1) / 100 + (y - 1) / 400) - (1969 / 4 - 1969 / 100 + 1969 / 400).
Definition days_to_month (y m : Z) : Z := foldr Z.add 0 (take (Z.to_nat (m - 1)) (month_days y)).

Lemma div_succ a b : 0 < b → (a + 1) / b = a / b + (if (a + 1) mod b =? 0 then 1 else 0).
Proof.
  intros Hb. pose proof (Z.div_mod a b ltac:(lia)). pose proof (Z.mod_pos_bound a b Hb).
  destruct (decide (a mod b = b - 1)) as [Hm|Hm].
  - assert (a + 1 = (a / b + 1) * b) as -> by lia.
    rewrite Z.mod_mul, Z.div_mul by lia. done.
  - rewrite <- (Z.mod_unique (a + 1) b (a / b) (a mod b + 1)), <- (Z.div_unique (a + 1) b (a / b) (a mod b + 1)) by lia.
    destruct (a mod b + 1 =? 0) eqn:E; bool_prop; lia.
Qed.

Lemma days_to_next_year y : days_to_year (y + 1) = days_to_year y + days_in_year y.
Proof.
  unfold days_to_year, days_in_year, leap.
  replace (y + 1 - 1) with ((y - 1) + 1) by lia. rewrite !div_succ by lia.
  replace (y - 1 + 1) with y by lia.
  assert (H400 : y mod 400 = 0 → y mod 100 = 0 ∧ y mod 4 = 0).
  { intros [k Hk]%Z.mod_divide; [|lia]. split; apply Z.mod_divide; try lia;
      [exists (4 * k)|exists (100 * k)]; lia. }
  assert (H100 : y mod 100 = 0 → y mod 4 = 0).
  { intros [k Hk]%Z.mod_divide; [|lia]. apply Z.mod_divide; [lia|]. exists (25 * k). lia. }
  destruct (y mod 4 =? 0) eqn:E4; destruct (y mod 100 =? 0) eqn:E1;
    destruct (y mod 400 =? 0) eqn:E5; simpl; bool_prop; try lia; exfalso; tauto.
Qed.

Lemma days_in_year_bounds y : 365 ≤ days_in_year y ≤ 366.
Proof. unfold days_in_year. destruct (leap y); lia. Qed.

Lemma year_loop_spec fuel y r :
  0 ≤ r → r / 365 < Z.of_nat fuel →
  let '(y', r') := year_loop fuel y r in
  y ≤ y' ∧ 0 ≤ r' < days_in_year y' ∧ days_to_year y' + r' = days_to_year y + r.
Proof.
  revert y r. induction fuel as [|f IH]; intros y r Hr Hf.
  { pose proof (Z.div_pos r 365 Hr ltac:(lia)). lia. }
  cbn [year_loop]. pose proof (days_in_year_bounds y). destruct (r <? days_in_year y) eqn:E; bool_prop.
  { lia. }
  specialize (IH (y + 1) (r - days_in_year y)). destruct (year_loop f _ _) as [y' r'].
  rewrite days_to_next_year in IH. destruct IH as (? & ? & ?); [lia| |lia].
  assert ((r - days_in_year y) / 365 ≤ (r - 365) / 365) by (apply Z.div_le_mono; lia).
  replace (r - 365) with (r + (-1) * 365) in * by lia. rewrite Z.div_add in * by lia. lia.
Qed.

Lemma month_loop_spec mds m r :
  0 ≤ r < foldr Z.add 0 mds → Forall (λ d, 0 < d) mds →
  let '(m', r') := month_loop mds m r in
  ∃ k, (k < length mds)%nat ∧ m' = m + Z.of_nat k ∧ foldr Z.add 0 (take k mds) + r' = r ∧
       0 ≤ r' < default 0 (mds !! k).
Proof.
  revert m r. induction mds as [|d mds IH]; intros m r Hr Hall; simpl in *; [lia|].
  apply Forall_cons in Hall as [Hd Hall]. destruct (r <? d) eqn:E; bool_prop.
  - exists 0%nat. simpl. split_and!; lia.
  - specialize (IH (m + 1) (r - d) ltac:(lia) Hall). destruct (month_loop mds _ _) as [m' r'].
    destruct IH as (k & Hk & -> & Hs & Hb). exists (S k). simpl. split_and!; try lia; try apply Hb.
Qed.

Lemma month_days_sum y : foldr Z.add 0 (month_days y) = days_in_year y.
Proof. unfold days_in_year, month_days. by destruct (leap y). Qed.

(** The stamp of a conflicted copy is the calendar date of its instant: month, day and
    time of day are in range for that month and year, and counting the days of the Gregorian
    calendar up to that date gives the instant back; the year and month loops always find
    their year and month. *)
Theorem chrono_date_correct secs :
  0 ≤ secs →
  let d := chrono_date secs in
  1970 ≤ d_year d ∧ 1 ≤ d_month d ≤ 12 ∧
  1 ≤ d_day d ≤ default 0 (month_days (d_year d) !! Z.to_nat (d_month d - 1)) ∧
  0 ≤ d_hour d < 24 ∧ 0 ≤ d_min d < 60 ∧ 0 ≤ d_sec d < 60 ∧
  (days_to_year (d_year d) + days_to_month (d_year d) (d_month d) + (d_day d - 1)) * 86400
    + d_hour d * 3600 + d_min d * 60 + d_sec d = secs.
Proof.
  intros Hs. unfold chrono_date.
  pose proof (Z.div_pos secs 86400 Hs ltac:(lia)) as Hdays.
  pose proof (year_loop_spec (year_fuel (secs / 86400)) 1970 (secs / 86400) Hdays) as Hy.
  destruct (year_loop _ _ _) as [y ry].
  destruct Hy as (Hy1 & Hy2 & Hy3).
  { unfold year_fuel. pose proof (Z.div_pos (secs / 86400) 365 Hdays ltac:(lia)). lia. }
  pose proof (month_loop_spec (month_days y) 0 ry) as Hm. rewrite month_days_sum in Hm.
  destruct (month_loop _ _ _) as [m rm].
  destruct Hm as (k & Hk & -> & Hm1 & Hm2); [done| |].
  { unfold month_days. repeat constructor; try lia. destruct (leap y); lia. }
  cbn [d_year d_month d_day d_hour d_min d_sec]. unfold month_days in Hk. simpl length in Hk.
  unfold days_to_month. replace (Z.to_nat (0 + Z.of_nat k + 1 - 1)) with k by lia.
  change (days_to_year 1970) with 0 in Hy3.
  pose proof (Z.mod_pos_bound secs 86400 ltac:(lia)).
  pose proof (Z.div_mod secs 86400 ltac:(lia)).
  set (t := secs mod 86400) in *.
  assert (t mod 60 = t mod 3600 mod 60) as ->.
  { symmetry. apply Z.mod_mod_divide. by exists 60. }
  pose proof (Z.div_mod t 3600 ltac:(lia)). pose proof (Z.mod_pos_bound t 3600 ltac:(lia)).
  set (u := t mod 3600) in *.
  pose proof (Z.div_mod u 60 ltac:(lia)). pose proof (Z.mod_pos_bound u 60 ltac:(lia)).
  split_and!; lia.
Qed.

Lemma chrono_date_correct_witness :
  0 ≤ 1709251199 ∧ chrono_timestamp 1709251199 = "2024-02-29 23-59-59"%string ∧
  1 ≤ d_month (chrono_date 1709251199) ≤ 12.
Proof.
  split; [lia|]. split; [by vm_compute|].
  exact (proj1 (proj2 (chrono_date_correct 1709251199 ltac:(lia)))).
Defined.

Lemma rsplit_dot_some s a b :
  rsplit_dot s = Some (a, b) ↔ s = (a +:+ String dot b)%string ∧ rsplit_dot b = None.
Proof.
  revert a b. induction s as [|c s IH]; intros a b.
  { split; [done|]. by intros [H _]; destruct a. }
  cbn [rsplit_dot]. destruct (rsplit_dot s) as [[a' b']|] eqn:E.
  - destruct (proj1 (IH a' b') eq_refl) as [-> Hb']. split.
    + intros [= <- <-]. done.
    + intros [H Hb]. destruct a as [|c' a]; simpl in H.
      * injection H as _ H2. exfalso. rewrite <- H2 in Hb. by rewrite E in Hb.
      * injection H as -> H2. assert (Some (a', b') = Some (a, b)) as [= -> ->]; [|done].
        apply IH. by rewrite H2.
  - destruct (Ascii.eqb c dot) eqn:Hc.
    + apply Ascii.eqb_eq in Hc as ->. split.
      * by intros [= <- <-].
      * intros [H Hb]. destruct a as [|c' a]; simpl in H; [injection H as H2; by subst|].
        injection H as _ H2. assert (None = Some (a, b)); [|done]. by apply IH.
    + split; [done|]. intros [H Hb]. destruct a as [|c' a]; simpl in H.
      * injection H as -> _. by rewrite Ascii.eqb_refl in Hc.
      * injection H as -> H2. assert (None = Some (a, b)); [|done]. by apply IH.
Qed.

Lemma parent_snoc p n : parent (p ++ [n]) = Some p.
Proof.
  induction p as [|x p IH]; [done|]. simpl. destruct (p ++ [n]) as [|y q] eqn:E.
  - by destruct p.
  - by rewrite IH.
Qed.

Lemma stem_ext_some n a e : stem_ext n = (a, Some e) → n = (a +:+ String dot e)%string ∧ rsplit_dot e = None ∧ a ≠ ""%string.
Proof.
  unfold stem_ext. destruct (rsplit_dot n) as [[[|c a'] b']|] eqn:E; try done.
  intros [= <- <-]. apply rsplit_dot_some in E as [-> ?]. done.
Qed.
Lemma stem_ext_none n a : stem_ext n = (a, None) → a = n.
Proof. unfold stem_ext. by destruct (rsplit_dot n) as [[[|c a'] b']|] eqn:E; intros [=]. Qed.

Lemma string_app_length (a b : string) : String.length (a +:+ b) = (String.length a + String.length b)%nat.
Proof. induction a as [|c a IH]; [done|]. exact (f_equal S IH). Qed.

Lemma conflict_longer (stem mid : string) (ext : option string) (n : string) :
  stem_ext n = (stem, ext) → (0 < String.length mid)%nat →
  match ext with Some e => stem +:+ mid +:+ String dot e | None => stem +:+ mid end ≠ n.
Proof.
  intros H Hm E. apply (f_equal String.length) in E. destruct ext as [e|].
  - apply stem_ext_some in H as [-> _]. rewrite !string_app_length in E. lia.
  - apply stem_ext_none in H as ->. rewrite string_app_length in E. lia.
Qed.

(** A conflicted copy is put beside the file it could not replace, never over it, and
    keeps its extension, so it opens with the same application. *)
Theorem make_conflict_name_beside secs dir name :
  let copy := make_conflict_name secs (dir ++ [name]) in
  parent copy = Some dir ∧ copy ≠ dir ++ [name] ∧
  (∀ stem e, stem_ext name = (stem, Some e) →
     ∃ n', file_name copy = Some n' ∧ (stem_ext n').2 = Some e).
Proof.
  unfold make_conflict_name, with_file_name, file_name, join. rewrite last_snoc, parent_snoc. simpl.
  destruct (stem_ext name) as [stem ext] eqn:E. split_and!.
  - by apply parent_snoc.
  - intros [= H]%app_inv_head.
    apply (conflict_longer stem (" (conflicted copy " +:+ chrono_timestamp secs +:+ ")") ext name E); [simpl; lia|].
    rewrite <- H. destruct ext; [|done]. by rewrite !string_app_assoc.
  - intros stem' e [= <- ->]. eexists. rewrite last_snoc. split; [done|].
    apply stem_ext_some in E as (_ & He & Hs). unfold stem_ext.
    rewrite (proj2 (rsplit_dot_some _ (stem +:+ " (conflicted copy " +:+ chrono_timestamp secs +:+ ")") e)).
    + destruct (stem +:+ _)%string eqn:Es; [|done]. exfalso. by destruct stem.
    + split; [|done]. by rewrite !string_app_assoc.
Qed.
