(* ===== verification/Filenames.v ===== *)
(** [filename_validation.rs]: the names the mount lets a program create.

    A name is the UTF-8 text the code validates ([OsStr::to_string_lossy]): every character
    the rules speak of is one byte, and [len] counts bytes. *)
From Stdlib Require Import Ascii String.
From S2P Require Import Prelude Paths.

(* filename_validation.rs:4-11 FilenameError *)
Inductive FilenameError :=
| Empty | TooLong | InvalidCharacter (c : ascii) | ControlCharacter | TrailingSpaceOrDot | ReservedName.

Definition EINVAL : Z := 22.
Definition ENAMETOOLONG : Z := 36.
(* filename_validation.rs:14-19 FilenameError::to_errno *)
Definition to_errno (e : FilenameError) : Z :=
  match e with TooLong => ENAMETOOLONG | _ => EINVAL end.

Abbreviation chars := list_ascii_of_string.
Definition byte (c : ascii) : nat := nat_of_ascii c.

(** Backslash, slash, colon, star, question mark, double quote, angle brackets, bar. *)
(* filename_validation.rs:35-35 INVALID_CHARS *)
Definition INVALID_CHARS : list ascii := ascii_of_nat <$> [92; 47; 58; 42; 63; 34; 60; 62; 124].

(* filename_validation.rs:37-41 RESERVED_NAMES *)
Definition RESERVED_NAMES : list string :=
  ["CON"; "PRN"; "AUX"; "NUL";
   "COM1"; "COM2"; "COM3"; "COM4"; "COM5"; "COM6"; "COM7"; "COM8"; "COM9";
   "LPT1"; "LPT2"; "LPT3"; "LPT4"; "LPT5"; "LPT6"; "LPT7"; "LPT8"; "LPT9"]%string.

(** [to_ascii_lowercase], on one byte. *)
Definition lower (c : ascii) : ascii :=
  if (65 <=? byte c) && (byte c <=? 90) then ascii_of_nat (byte c + 32) else c.
Definition eq_ignore_ascii_case (a b : list ascii) : bool := bool_decide (lower <$> a = lower <$> b).

(* filename_validation.rs:55-62 validate *)
Fixpoint check_chars (name : list ascii) : option FilenameError :=
  match name with
  | [] => None
  | c :: rest =>
      if byte c <? 32 then Some ControlCharacter
      else if bool_decide (c ∈ INVALID_CHARS) then Some (InvalidCharacter c)
      else check_chars rest
  end.

(** [name.split('.').next()]. *)
Definition stem (name : list ascii) : list ascii := take_while (λ c, negb (byte c =? 46)) name.

(* filename_validation.rs:43-68 validate *)
Definition validate (name : string) : option FilenameError :=
  let cs := chars name in
  if bool_decide (cs = []) then Some Empty
  else if 250 <? length cs then Some TooLong
  else if match last cs with Some c => (byte c =? 32) || (byte c =? 46) | None => false end
  then Some TrailingSpaceOrDot
  else match check_chars cs with
       | Some e => Some e
       | None => if existsb (λ r, eq_ignore_ascii_case (chars r) (stem cs)) RESERVED_NAMES
                 then Some ReservedName else None
       end.

(** ** Which names pass *)

Definition good_char (c : ascii) : Prop := 32 ≤ byte c ∧ c ∉ INVALID_CHARS.

Lemma check_chars_none cs : check_chars cs = None ↔ Forall good_char cs.
Proof.
  induction cs as [|c cs IH]; simpl; [by split; [constructor|]|].
  rewrite Forall_cons, <- IH. unfold good_char. destruct (Nat.ltb_spec (byte c) 32).
  - split; [done|]. intros [[? _] _]. lia.
  - case_bool_decide; [split; [done|by intros [[_ ?] _]]|]. naive_solver lia.
Qed.

Lemma check_chars_errno cs e : check_chars cs = Some e → to_errno e = EINVAL.
Proof.
  induction cs as [|c cs IH]; simpl; [done|]. repeat case_match; intros; simplify_eq; auto.
Qed.

(** A name passes validation exactly when it is not empty, has at most 250 bytes, has no
    control character and none of the characters Windows clients cannot store, does not
    end in a space or a dot, and its part before the first dot is no reserved device name
    in any case.  A rejected name is ENAMETOOLONG when it is too long and EINVAL
    otherwise; an accepted one is a proper path component: not [.] or [..], and without a
    separator. *)
Theorem validate_exact name :
  let cs := chars name in
  (validate name = None ↔
     cs ≠ [] ∧ length cs ≤ 250 ∧ Forall good_char cs ∧
     (∀ c, last cs = Some c → byte c ≠ 32 ∧ byte c ≠ 46) ∧
     (∀ r, r ∈ RESERVED_NAMES → lower <$> chars r ≠ lower <$> stem cs)) ∧
  (∀ e, validate name = Some e → to_errno e = (if 250 <? length cs then ENAMETOOLONG else EINVAL)) ∧
  (validate name = None → name ≠ "."%string ∧ name ≠ ".."%string ∧ ascii_of_nat 47 ∉ cs).
Proof.
  intros cs.
  assert (Hiff : validate name = None ↔
     cs ≠ [] ∧ length cs ≤ 250 ∧ Forall good_char cs ∧
     (∀ c, last cs = Some c → byte c ≠ 32 ∧ byte c ≠ 46) ∧
     (∀ r, r ∈ RESERVED_NAMES → lower <$> chars r ≠ lower <$> stem cs)).
  { unfold validate. fold cs. rewrite <- check_chars_none.
    case_bool_decide; [split; [done|by intros [? _]]|].
    destruct (Nat.ltb_spec 250 (length cs)); [split; [done|intros (_ & ? & _); lia]|].
    destruct (last cs) as [c|] eqn:El; [|by apply last_None in El].
    destruct ((byte c =? 32) || (byte c =? 46)) eqn:Ec.
    - split; [done|]. intros (_ & _ & _ & Hl & _). destruct (Hl c eq_refl).
      apply orb_true_iff in Ec as [?%Nat.eqb_eq|?%Nat.eqb_eq]; done.
    - apply orb_false_iff in Ec as [?%Nat.eqb_neq ?%Nat.eqb_neq].
      destruct (check_chars cs) as [e|]; [split; [done|by intros (_ & _ & ? & _)]|].
      destruct (existsb _ RESERVED_NAMES) eqn:Er.
      + split; [done|]. intros (_ & _ & _ & _ & Hr). apply existsb_elem in Er as (r & Hin & Hd).
        apply bool_decide_eq_true in Hd. by destruct (Hr r Hin).
      + split; [|done]. intros _. split_and!; try done; [by intros ? [= <-]|].
        intros r Hin Heq. apply (proj1 (existsb_false_elem _ _) Er r) in Hin.
        unfold eq_ignore_ascii_case in Hin. by rewrite bool_decide_true in Hin. }
  split_and!; [done| |].
  - intros e. unfold validate. fold cs. destruct (Nat.ltb_spec 250 (length cs)).
    + rewrite bool_decide_false; [by intros [= <-]|]. intros Hn. rewrite Hn in H. simpl in H. lia.
    + case_bool_decide; [by intros [= <-]|]. case_match; [by intros [= <-]|].
      destruct (check_chars cs) eqn:E; [intros [= <-]; by eapply check_chars_errno|].
      destruct (existsb _ _); [by intros [= <-]|done].
  - intros (_ & _ & Hg & Hl & _)%Hiff. split_and!.
    + intros ->. by destruct (Hl (ascii_of_nat 46) eq_refl).
    + intros ->. by destruct (Hl (ascii_of_nat 46) eq_refl).
    + intros Hin. eapply Forall_forall in Hg as [_ Hg]; [|done]. apply Hg. vm_compute. by right; left.
Qed.

Example validate_examples :
  validate "my file (1).pdf" = None ∧ validate "con" = Some ReservedName ∧
  validate "COM1.txt" = Some ReservedName ∧ validate "console" = None ∧
  validate "file." = Some TrailingSpaceOrDot ∧ validate "" = Some Empty.
Proof. by vm_compute. Qed.
