(* ===== verification/Backend.v ===== *)
(** [backend.rs]: the interface to the cloud server, its errors and its entries.

    [CloudBackend] is the trait as a type class over the server's state: each method is a
    call that may change it.  What a server does is a parameter of the development; the
    errors it answers with are classified here as the code does. *)
From S2P Require Import Prelude Paths.
From Stdlib Require Export Strings.Byte.

Abbreviation Etag := string.
(** Wall-clock times are nanoseconds since the epoch. *)
Abbreviation SystemTime := Z.
Abbreviation bytes := (list byte).

(** ** Entries *)

(* backend.rs:84-93 EntryExtensions *)
Record EntryExtensions := {
  permissions : option string;
  owner_id : option string;
  owner_display_name : option string;
  fileid : option Z;
  has_preview : bool;
  is_shared : bool;
  locked_by : option string;
}.

Definition ext_default : EntryExtensions :=
  {| permissions := None; owner_id := None; owner_display_name := None; fileid := None;
     has_preview := false; is_shared := false; locked_by := None |}.

(* backend.rs:96-104 EntryExtensions::str *)
Definition ext_str (e : EntryExtensions) (key : string) : option string :=
  if decide (key = "permissions"%string) then permissions e
  else if decide (key = "owner_id"%string) then owner_id e
  else if decide (key = "owner_display_name"%string) then owner_display_name e
  else if decide (key = "locked_by"%string) then locked_by e
  else None.

(* backend.rs:106-111 EntryExtensions::int *)
Definition ext_int (e : EntryExtensions) (key : string) : option Z :=
  if decide (key = "fileid"%string) then fileid e else None.

(* backend.rs:113-119 EntryExtensions::flag *)
Definition ext_flag (e : EntryExtensions) (key : string) : bool :=
  if decide (key = "has_preview"%string) then has_preview e
  else if decide (key = "is_shared"%string) then is_shared e
  else false.

(* backend.rs:123-132 EntryExtensions::set_str *)
Definition set_str (e : EntryExtensions) (key value : string) : EntryExtensions :=
  let '(Build_EntryExtensions p oi od f hp sh l) := e in
  if decide (key = "permissions"%string) then Build_EntryExtensions (Some value) oi od f hp sh l
  else if decide (key = "owner_id"%string) then Build_EntryExtensions p (Some value) od f hp sh l
  else if decide (key = "owner_display_name"%string) then Build_EntryExtensions p oi (Some value) f hp sh l
  else if decide (key = "locked_by"%string) then Build_EntryExtensions p oi od f hp sh (Some value)
  else e.

(* backend.rs:134-138 EntryExtensions::set_int *)
Definition set_int (e : EntryExtensions) (key : string) (value : Z) : EntryExtensions :=
  let '(Build_EntryExtensions p oi od f hp sh l) := e in
  if decide (key = "fileid"%string) then Build_EntryExtensions p oi od (Some value) hp sh l else e.

(* backend.rs:140-146 EntryExtensions::set_flag *)
Definition set_flag (e : EntryExtensions) (key : string) (value : bool) : EntryExtensions :=
  let '(Build_EntryExtensions p oi od f hp sh l) := e in
  if decide (key = "has_preview"%string) then Build_EntryExtensions p oi od f value sh l
  else if decide (key = "is_shared"%string) then Build_EntryExtensions p oi od f hp value l
  else e.

(* backend.rs:10-21 RemoteEntry *)
Record RemoteEntry := {
  e_path : PathBuf;
  e_is_dir : bool;
  e_size : Z;
  e_modified : option SystemTime;
  e_change_token : option Etag;
  e_content_type : option string;
  e_ext : EntryExtensions;
}.

(** The serialised form: the flat fields, plus the legacy maps that are only ever read. *)
(* backend.rs:154-179 ExtWire *)
Record ExtWire := {
  w_permissions : option string;
  w_owner_id : option string;
  w_owner_display_name : option string;
  w_fileid : option Z;
  w_has_preview : bool;
  w_is_shared : bool;
  w_locked_by : option string;
  w_strings : gmap string string;
  w_integers : gmap string Z;
  w_booleans : gmap string bool;
}.

(* backend.rs:186-198 EntryExtensions::serialize *)
Definition ext_serialize (e : EntryExtensions) : ExtWire :=
  {| w_permissions := permissions e; w_owner_id := owner_id e;
     w_owner_display_name := owner_display_name e; w_fileid := fileid e;
     w_has_preview := has_preview e; w_is_shared := is_shared e; w_locked_by := locked_by e;
     w_strings := ∅; w_integers := ∅; w_booleans := ∅ |}.

Definition or_else {A} (a b : option A) : option A := match a with Some _ => a | None => b end.

(* backend.rs:202-216 EntryExtensions::deserialize *)
Definition ext_deserialize (w : ExtWire) : EntryExtensions :=
  {| permissions := or_else (w_permissions w) (w_strings w !! "permissions"%string);
     owner_id := or_else (w_owner_id w) (w_strings w !! "owner_id"%string);
     owner_display_name := or_else (w_owner_display_name w) (w_strings w !! "owner_display_name"%string);
     fileid := or_else (w_fileid w) (w_integers w !! "fileid"%string);
     has_preview := w_has_preview w || default false (w_booleans w !! "has_preview"%string);
     is_shared := w_is_shared w || default false (w_booleans w !! "is_shared"%string);
     locked_by := w_locked_by w |}.

(** ** Errors *)

(* backend.rs:222-235 BackendWriteError *)
Inductive BackendWriteError :=
| Conflict
| Locked
| Network (msg : string)
| Forbidden
| QuotaExceeded
| Server (code : Z) (msg : string)
| Unsupported
| Withdrawn.

(* backend.rs:247-255 BackendWriteError::is_transient *)
Definition is_transient (e : BackendWriteError) : bool :=
  match e with
  | Network _ | Locked => true
  | Server code _ => (500 <=? code)%Z || (code =? 408)%Z || (code =? 429)%Z
  | Conflict | Forbidden | QuotaExceeded | Unsupported | Withdrawn => false
  end.

(* backend.rs:265-267 BackendWriteError::is_network_down *)
Definition is_network_down (e : BackendWriteError) : bool :=
  match e with Network _ => true | _ => false end.

(* backend.rs:286-297 BackendReadError *)
Inductive BackendReadError :=
| RNotFound
| RNetwork (msg : string)
| RTimeout
| RServer (code : Z) (msg : string)
| RTruncated (msg : string).

(** [webdav_ops::WriteError] and its conversion. *)
Inductive WriteError :=
| WConflict | WLocked | WNetwork (msg : string) | WServer (code : Z) (msg : string) | WWithdrawn.

(* backend.rs:639-655 From<WriteError>::from *)
Definition write_error (e : WriteError) : BackendWriteError :=
  match e with
  | WConflict => Conflict
  | WLocked => Locked
  | WNetwork s => Network s
  | WServer code s =>
      if (code =? 403)%Z then Forbidden else if (code =? 507)%Z then QuotaExceeded
      else Server code s
  | WWithdrawn => Withdrawn
  end.

(** ** The server *)

(* backend.rs:330-332 PutResult *)
Record PutResult := { new_change_token : option Etag }.

Abbreviation Session := string.

(* backend.rs:372-521 CloudBackend *)
Class CloudBackend (W : Type) := {
  list_dir : PathBuf → call W (result (option Etag * option RemoteEntry * list RemoteEntry) BackendReadError);
  put_file : PathBuf → bytes → option Etag → call W (result PutResult BackendWriteError);
  mkdir : PathBuf → call W (result unit BackendWriteError);
  delete_path : PathBuf → call W (result unit BackendWriteError);
  rename : PathBuf → PathBuf → option Etag → call W (result unit BackendWriteError);
  lock_file : PathBuf → Duration → string → call W (result string BackendWriteError);
  refresh_lock : PathBuf → string → Duration → call W (result unit BackendWriteError);
  unlock_file : PathBuf → string → call W (result unit BackendWriteError);
  put_chunk : Session → Z → bytes → call W (result unit BackendWriteError);
  finish_chunked_upload : Session → PathBuf → option Etag → option SystemTime → Z →
    call W (result PutResult BackendWriteError);
  abort_chunked_upload : Session → W → W;
}.

(** A local file: its bytes and its modification time. *)
Record LocalFile := { lf_bytes : bytes; lf_mtime : SystemTime }.

(** The local files (staging files and recovered copies), by path. *)
Abbreviation Files := (gmap PathBuf LocalFile).

(** The modification time of a staging file, in whole seconds. *)
(* lib.rs:1807-1810 staged_mtime *)
Definition staged_mtime (files : Files) (staging : PathBuf) : option SystemTime :=
  f ← files !! staging;
  if (lf_mtime f <? 0)%Z then None else Some (lf_mtime f / secs 1 * secs 1)%Z.

Section backend.
Context {W : Type} `{CloudBackend W}.

(* backend.rs:438-446 CloudBackend::put_file_from_path *)
Definition put_file_from_path (files : Files) (path staging : PathBuf) (if_match : option Etag) :
    call W (result PutResult BackendWriteError) :=
  λ w, match files !! staging with
       | None => (Err (Network "staging read"), w)
       | Some f => put_file path (lf_bytes f) if_match w
       end.

(* backend.rs:453-460 CloudBackend::put_file_settled *)
Definition put_file_settled (files : Files) (staging : PathBuf)
    (settled : option (PathBuf * option Etag)) : call W (result PutResult BackendWriteError) :=
  λ w, match settled with
       | None => (Err Withdrawn, w)
       | Some (path, if_match) => put_file_from_path files path staging if_match w
       end.

(** Retries a chunked-upload call on transient failures, [MAX_RETRIES] times. *)
Definition MAX_RETRIES : nat := 2.
Fixpoint retry_chunk_write_from {T} (retries : nat)
    (f : call W (result T BackendWriteError)) : call W (result T BackendWriteError) :=
  λ w, match f w with
       | (Ok v, w') => (Ok v, w')
       | (Err e, w') =>
           match retries with
           | S r => if is_transient e then retry_chunk_write_from r f w' else (Err e, w')
           | O => (Err e, w')
           end
       end.
(* lib.rs:2117-2137 retry_chunk_write *)
Definition retry_chunk_write {T} (f : call W (result T BackendWriteError)) :
    call W (result T BackendWriteError) := retry_chunk_write_from MAX_RETRIES f.

End backend.

(** ** Theorems *)

(** A cache entry's extensions survive being written and read back, and a cache file in
    the legacy form is read into the same flat fields. *)
Theorem ext_roundtrip e :
  ext_deserialize (ext_serialize e) = e ∧
  (∀ strs ints bools,
    ext_deserialize {| w_permissions := None; w_owner_id := None; w_owner_display_name := None;
      w_fileid := None; w_has_preview := false; w_is_shared := false; w_locked_by := None;
      w_strings := strs; w_integers := ints; w_booleans := bools |} =
    {| permissions := strs !! "permissions"%string; owner_id := strs !! "owner_id"%string;
       owner_display_name := strs !! "owner_display_name"%string; fileid := ints !! "fileid"%string;
       has_preview := default false (bools !! "has_preview"%string);
       is_shared := default false (bools !! "is_shared"%string); locked_by := None |}).
Proof.
  split; [|done]. destruct e as [p oi od f hp sh l]. unfold ext_deserialize, or_else. simpl.
  rewrite !lookup_empty. simpl. rewrite !orb_false_r. by destruct p, oi, od, f.
Qed.
