(* ===== verification/Errors.v ===== *)
(** [lib.rs], [backend.rs], [nextcloud.rs], [propfind.rs]: errors of the read side as the text
    they cross the daemon in, and what the text is taken to mean.

    A [String] is a Rocq [string] of bytes.  A status code is the [u16] of the HTTP client,
    which only ever holds 100 to 999. *)
From Stdlib Require Import Ascii String.
From stdpp Require Import pretty.
From S2P Require Import Prelude Paths Backend.
Local Open Scope string_scope.

(** ** Text *)

(** [s.strip_prefix(p)], [s.starts_with(p)], [s.contains(p)], [s.ends_with(p)]. *)
Fixpoint str_strip (p s : string) : option string :=
  match p, s with
  | EmptyString, _ => Some s
  | String a p', String b s' => if Ascii.eqb a b then str_strip p' s' else None
  | String _ _, EmptyString => None
  end.
Definition str_starts (p s : string) : bool := bool_decide (is_Some (str_strip p s)).
Fixpoint str_contains (p s : string) : bool :=
  str_starts p s || match s with EmptyString => false | String _ s' => str_contains p s' end.
Fixpoint str_ends (p s : string) : bool :=
  String.eqb p s || match s with EmptyString => false | String _ s' => str_ends p s' end.

(** [Path::display] of an absolute path. *)
Definition display (p : PathBuf) : string :=
  match p with [] => "/" | _ => String.concat "" ((λ c, "/" +:+ c) <$> p) end.

(** ** Rendering *)

(* backend.rs:302-302 SERVER_ERROR_PREFIX *)
Definition SERVER_ERROR_PREFIX : string := "server error ".
(* backend.rs:304-304 TRUNCATED_PREFIX *)
Definition TRUNCATED_PREFIX : string := "truncated: ".

(* backend.rs:307-315 BackendReadError::fmt *)
Definition render (e : BackendReadError) : string :=
  match e with
  | RNotFound => "not found"
  | RNetwork m => "network: " +:+ m
  | RTimeout => "timeout"
  | RServer code m => SERVER_ERROR_PREFIX +:+ pretty code +:+ ": " +:+ m
  | RTruncated m => TRUNCATED_PREFIX +:+ m
  end.

(* propfind.rs:37-45 PropfindError *)
Inductive PropfindError :=
| PStatus (op : string) (path : PathBuf) (code : Z) (reason : string)
| PTransport (op : string) (path : PathBuf) (timed_out : bool) (msg : string)
| PBody (msg : string).

(* propfind.rs:48-56 PropfindError::fmt *)
Definition render_propfind (e : PropfindError) : string :=
  match e with
  | PStatus op path code reason => op +:+ " " +:+ display path +:+ " returned " +:+ pretty code +:+ " " +:+ reason
  | PTransport op path _ m => op +:+ " " +:+ display path +:+ ": " +:+ m
  | PBody m => m
  end.

(* nextcloud.rs:131-140 propfind_to_read_error *)
Definition propfind_to_read_error (e : PropfindError) : BackendReadError :=
  match e with
  | PStatus _ _ code _ => if (code =? 404)%Z then RNotFound else RServer code (render_propfind e)
  | PTransport _ _ true _ => RTimeout
  | PTransport _ _ false _ => RNetwork (render_propfind e)
  | PBody m => RTruncated m
  end.

(** ** Classifying *)

Definition digit (c : ascii) : option Z :=
  let n := Z.of_nat (nat_of_ascii c) in if (48 <=? n)%Z && (n <=? 57)%Z then Some (n - 48)%Z else None.
(** [s.get(..3)?.parse::<u16>()]: three digits, or a plus sign and two. *)
Definition parse_code (s : string) : option Z :=
  match s with
  | String a (String b (String c _)) =>
      x ← (if Ascii.eqb a "+" then Some 0%Z else digit a); y ← digit b; z ← digit c;
      Some (100 * x + 10 * y + z)%Z
  | _ => None
  end.

(* backend.rs:319-321 server_error_code *)
Definition server_error_code (e : string) : option Z := str_strip SERVER_ERROR_PREFIX e ≫= parse_code.

(* lib.rs:2066-2068 is_server_error *)
Definition is_server_error (e : string) : bool := bool_decide (is_Some (server_error_code e)).

(* lib.rs:2070-2095 is_transient_network_err *)
Definition is_transient_network_err (e : string) : bool :=
  negb (is_server_error e) &&
  (str_starts "network:" e || str_starts TRUNCATED_PREFIX e
   || existsb (λ p, str_contains p e)
        ["connection reset"; "Connection reset"; "Connection refused"; "broken pipe"; "Broken pipe";
         "error sending request"; "No route to host"; "Network is unreachable"; "stream error";
         "connection closed before message completed"]).

(* lib.rs:2097-2106 is_timeout_err *)
Definition is_timeout_err (e : string) : bool :=
  negb (is_server_error e) &&
  (String.eqb e "timeout" || str_contains "timed out" e || str_starts "PROPFIND timeout" e || str_ends " timeout" e).

(* lib.rs:2146-2148 read_err_is_network_down *)
Definition read_err_is_network_down (e : string) : bool := is_timeout_err e || is_transient_network_err e.

(* lib.rs:2163-2163 OFFLINE_READ_ERR *)
Definition OFFLINE_READ_ERR : string := "network: offline — timed out waiting for connectivity".
(* lib.rs:226-226 READ_SLOTS_BUSY_ERR *)
Definition READ_SLOTS_BUSY_ERR : string := "range read: all read slots busy".
(* lib.rs:235-235 READ_HEADER_TIMEOUT_ERR *)
Definition READ_HEADER_TIMEOUT_ERR : string := "range read: server sent no response headers in time".
(* lib.rs:244-244 DNS_BUSY_ERR *)
Definition DNS_BUSY_ERR : string := "range read: name lookup refused (lookup pool busy)".

(* lib.rs:248-251 is_retry_later_err *)
Definition is_retry_later_err (e : string) : bool :=
  String.eqb e READ_SLOTS_BUSY_ERR || String.eqb e READ_HEADER_TIMEOUT_ERR || String.eqb e OFFLINE_READ_ERR
  || String.eqb e DNS_BUSY_ERR || read_err_is_network_down e.

(* lib.rs:4088-4093 is_unreachable_listing_error *)
Definition is_unreachable_listing_error (e : string) : bool :=
  is_transient_network_err e || is_timeout_err e
  || match server_error_code e with Some c => (500 <=? c)%Z || (c =? 429)%Z | None => false end.

Inductive Errno := ENOENT | EACCES | ENOSPC | EAGAIN | ETIMEDOUT | EIO.
#[export] Instance Errno_eq_dec : EqDecision Errno.
Proof. solve_decision. Defined.

Definition code_errno (code : Z) : Errno :=
  if (code =? 401)%Z || (code =? 403)%Z then EACCES
  else if (code =? 404)%Z || (code =? 410)%Z then ENOENT
  else if (code =? 507)%Z then ENOSPC
  else if (code =? 429)%Z || ((500 <=? code)%Z && (code <=? 599)%Z) then EAGAIN
  else EIO.

(* lib.rs:2449-2485 error_to_errno *)
Definition error_to_errno (err : string) : Errno :=
  match server_error_code err with
  | Some code => code_errno code
  | None =>
      if String.eqb err "not found" then ENOENT
      else if str_starts "network:" err || str_starts TRUNCATED_PREFIX err
      then if is_timeout_err err then ETIMEDOUT else EAGAIN
      else if existsb (λ p, str_contains p err) ["401"; "403"; "Unauthorized"; "Forbidden"] then EACCES
      else if existsb (λ p, str_contains p err) ["404"; "Not Found"] then ENOENT
      else if existsb (λ p, str_contains p err) ["No space left on device"; "os error 28"] then ENOSPC
      else if is_timeout_err err then ETIMEDOUT
      else if is_transient_network_err err then EAGAIN
      else EIO
  end.

(* lib.rs:2598-2603 relist_errno *)
Definition relist_errno (err : option string) : Errno :=
  match err with Some e => error_to_errno e | None => ENOENT end.

(* nextcloud.rs:147-149 answered_while_overloaded *)
Definition answered_while_overloaded (code : Z) : bool := (code =? 429)%Z || (code =? 500)%Z || (code =? 507)%Z.

(** ** The code survives the text *)

Lemma str_strip_app p s : str_strip p (p +:+ s) = Some s.
Proof.
  induction p as [|a p IH]; [done|]. change (String a p +:+ s) with (String a (p +:+ s)). cbn.
  by rewrite Ascii.eqb_refl.
Qed.

Lemma str_starts_app p s : str_starts p (p +:+ s) = true.
Proof. unfold str_starts. by rewrite str_strip_app. Qed.

Definition HTTP_CODE (c : Z) : Prop := (100 <= c <= 999)%Z.

Definition code_reads (c : Z) : bool :=
  match pretty c with
  | String _ (String _ (String _ EmptyString)) as s => bool_decide (parse_code s = Some c)
  | _ => false
  end.

Lemma codes_read c : HTTP_CODE c → code_reads c = true.
Proof.
  intros Hc. assert (H : forallb code_reads (seqZ 100 900) = true) by by vm_compute.
  rewrite forallb_forall in H. apply H, list_elem_of_In, elem_of_seqZ. unfold HTTP_CODE in Hc. lia.
Qed.

Lemma parse_pretty c rest : HTTP_CODE c → parse_code (pretty c +:+ rest) = Some c.
Proof.
  intros H%codes_read. unfold code_reads in H.
  destruct (pretty c) as [|x [|y [|z [|]]]]; try done. bool_prop. done.
Qed.

Lemma server_error_code_render c msg : HTTP_CODE c → server_error_code (render (RServer c msg)) = Some c.
Proof.
  intros H. unfold server_error_code, render. rewrite str_strip_app. cbn [mbind option_bind].
  by apply parse_pretty.
Qed.

(** What each error of the server interface stands for. *)
Definition errno_of (e : BackendReadError) : Errno :=
  match e with
  | RNotFound => ENOENT
  | RTimeout => ETIMEDOUT
  | RServer code _ => code_errno code
  | RNetwork _ | RTruncated _ => if is_timeout_err (render e) then ETIMEDOUT else EAGAIN
  end.
Definition well_coded (e : BackendReadError) : Prop :=
  match e with RServer code _ => HTTP_CODE code | _ => True end.
Definition status_of (e : BackendReadError) : option Z :=
  match e with RServer code _ => Some code | _ => None end.

(** What an error means survives the text it crosses the daemon in, whatever the message
    and the path inside it say.  The status code is read back from a server's answer and from
    nothing else; the errno is the one of the error's class, EIO only for a status no rule
    names; only an answer that never came counts as the network being down, and an outage or
    a struggling server, and nothing else, lets an expired listing be served. *)
Theorem error_class_survives e :
  well_coded e →
  server_error_code (render e) = status_of e ∧
  error_to_errno (render e) = errno_of e ∧
  read_err_is_network_down (render e) =
    match e with RNetwork _ | RTimeout | RTruncated _ => true | _ => false end ∧
  is_unreachable_listing_error (render e) =
    match e with
    | RNotFound => false
    | RServer c _ => (500 <=? c)%Z || (c =? 429)%Z
    | _ => true
    end.
Proof.
  intros H. destruct e as [|m| |c m|m].
  - split_and!; by vm_compute.
  - split_and!; [done|done| |].
    + unfold read_err_is_network_down, is_transient_network_err. by rewrite orb_true_r.
    + by unfold is_unreachable_listing_error, is_transient_network_err.
  - split_and!; by vm_compute.
  - pose proof (server_error_code_render c m H) as Hc.
    assert (Hs : is_server_error (render (RServer c m)) = true) by (unfold is_server_error; by rewrite Hc).
    split_and!; [done|unfold error_to_errno; by rewrite Hc| |].
    + unfold read_err_is_network_down, is_timeout_err, is_transient_network_err. by rewrite Hs.
    + unfold is_unreachable_listing_error, is_timeout_err, is_transient_network_err. by rewrite Hs, Hc.
  - split_and!; [done|done| |].
    + unfold read_err_is_network_down, is_transient_network_err. by rewrite orb_true_r.
    + by unfold is_unreachable_listing_error, is_transient_network_err.
Qed.

Lemma error_class_survives_witness :
  error_to_errno (render (propfind_to_read_error (PStatus "PROPFIND" ["404"] 503 "Not Found"))) = EAGAIN.
Proof.
  refine (proj1 (proj2 (error_class_survives (propfind_to_read_error (PStatus "PROPFIND" ["404"] 503 "Not Found")) _))).
  simpl. unfold HTTP_CODE. lia.
Defined.

(** The daemon's own errors carry the path too, and have no class of their own: a timeout on
    a folder whose name has 404 in it says the folder does not exist. *)
Lemma timeout_reads_path :
  error_to_errno ("PROPFIND timeout for " +:+ display ["IMG_404"]) = ENOENT ∧
  error_to_errno ("PROPFIND timeout for " +:+ display ["IMG_403"]) = EACCES ∧
  error_to_errno ("PROPFIND timeout for " +:+ display ["IMG_402"]) = ETIMEDOUT ∧
  error_to_errno (display ["IMG_404"] +:+ " not available offline") = ENOENT.
Proof. split_and!; by vm_compute. Qed.
