(* ===== verification/Events.v ===== *)
(** Texts and event streams, for the code that reads what a server sends as XML
    ([propfind.rs]).

    A Rust [str] is the list of its characters, each a code point.  quick_xml's reader is the
    list of events it still has to give; a pull parser is a function of that list, and its
    loops run with as much fuel as there are events, which [Reads] and [Loops] show to be
    enough. *)
From Stdlib Require Import Ascii String.
From S2P Require Import Prelude.
Local Open Scope N_scope.

(** ** Texts *)

Abbreviation char := N.
Abbreviation Text := (list N).

Definition txt (s : string) : Text := N_of_ascii <$> list_ascii_of_string s.

(** [char::is_control] and [char::is_whitespace]. *)
Definition is_control (c : char) : bool := (c <? 32) || ((127 <=? c) && (c <=? 159)).
Definition is_whitespace (c : char) : bool :=
  ((9 <=? c) && (c <=? 13)) || ((8192 <=? c) && (c <=? 8202)) || bool_decide (c ∈ [32; 133; 160; 5760; 8232; 8233; 8239; 8287; 12288]).

Fixpoint drop_while {A} (f : A → bool) (l : list A) : list A :=
  match l with [] => [] | x :: l' => if f x then drop_while f l' else l end.
(** [str::trim_end_matches], [str::trim_matches]. *)
Definition trim_end {A} (f : A → bool) (l : list A) : list A := rev (drop_while f (rev l)).
Definition trim_both {A} (f : A → bool) (l : list A) : list A := trim_end f (drop_while f l).
(** [str::split], always at least one part. *)
Fixpoint split (f : char → bool) (t : Text) : list Text :=
  match t with
  | [] => [[]]
  | c :: t => match split f t with
              | p :: ps => if f c then [] :: p :: ps else (c :: p) :: ps
              | [] => []
              end
  end.
Fixpoint text_prefix (p t : Text) : option Text :=
  match p, t with
  | [], _ => Some t
  | a :: p, c :: t => if a =? c then text_prefix p t else None
  | _ :: _, [] => None
  end.

(** [<u64 as FromStr>::parse] and its like, up to [max]: an optional sign, then digits. *)
Fixpoint digits (t : Text) (n : N) : option N :=
  match t with
  | [] => Some n
  | c :: t => if (48 <=? c) && (c <=? 57) then digits t (n * 10 + (c - 48)) else None
  end.
Definition parse_uint (max : N) (t : Text) : option N :=
  let t := match t with c :: ((_ :: _) as t') => if c =? 43 then t' else t | _ => t end in
  match t with
  | [] => None
  | _ => n ← digits t 0; if n <=? max then Some n else None
  end.
Example parses : parse_uint 255 (txt "+012") = Some 12 ∧ parse_uint 255 (txt "256") = None ∧ parse_uint 255 (txt "+") = None.
Proof. by vm_compute. Qed.
(** A number as text. *)
Definition decimal (n : N) : Text := txt (pretty.pretty n).

(** The bytes of a text. *)
Definition utf8_char (c : char) : list ascii :=
  ascii_of_N <$>
  if c <? 128 then [c]
  else if c <? 2048 then [192 + c / 64; 128 + c mod 64]
  else if c <? 65536 then [224 + c / 4096; 128 + (c / 64) mod 64; 128 + c mod 64]
  else [240 + c / 262144; 128 + (c / 4096) mod 64; 128 + (c / 64) mod 64; 128 + c mod 64].
Definition utf8 (t : Text) : string := string_of_list_ascii (mjoin (utf8_char <$> t)).

(** ** Pull parsers *)

(** What [read_event_into] gives.  A name is its text, empty where it is not UTF-8; a text is
    unescaped, [None] where that fails; [EvOther]: comments, CDATA, declarations. *)
Inductive Event :=
| EvStart (name : string) | EvEmpty (name : string) | EvEnd (name : string)
| EvText (t : option Text) | EvOther | EvBroken | EvEof.

(** [None]: out of fuel. *)
Definition reader (A : Type) : Type := list Event → option (result (A * list Event) string).
Definition ret {A} (a : A) : reader A := λ evs, Some (Ok (a, evs)).
Definition fail {A} (e : string) : reader A := λ _, Some (Err e).
Definition bind {A B} (r : reader A) (k : A → reader B) : reader B := λ evs,
  match r evs with
  | Some (Ok (a, evs)) => k a evs
  | Some (Err e) => Some (Err e)
  | None => None
  end.
Definition next : reader Event := λ evs, match evs with [] => Some (Ok (EvEof, [])) | e :: evs => Some (Ok (e, evs)) end.

Fixpoint loop_ {S B} (fuel : nat) (body : S → reader (S + B)) (s : S) : reader B := λ evs,
  match fuel with
  | O => None
  | Datatypes.S fuel =>
      match body s evs with
      | Some (Ok (inl s, evs)) => loop_ fuel body s evs
      | Some (Ok (inr b, evs)) => Some (Ok (b, evs))
      | Some (Err e) => Some (Err e)
      | None => None
      end
  end.
(** [loop { .. }]: [inl] goes round again, [inr] returns. *)
Definition loop {S B} (body : S → reader (S + B)) (s : S) : reader B := λ evs, loop_ (Datatypes.S (length evs)) body s evs.
(** [loop { match reader.read_event_into(..) { .. } }]. *)
Definition events {S B} (body : S → Event → reader (S + B)) : S → reader B := loop (λ s, bind next (body s)).

Declare Scope reader_scope.
Delimit Scope reader_scope with reader.
Notation "x ← r ; k" := (bind r (λ x, k)) (at level 20, r at level 100, k at level 200) : reader_scope.

(** A parser answers, and never gives events back. *)
Class Reads {A} (r : reader A) : Prop := reads evs : ∃ x, r evs = Some x ∧ ∀ a rest, x = Ok (a, rest) → (length rest ≤ length evs)%nat.
(** So does a loop's body, and it takes an event whenever it goes round. *)
Class Loops {S B} (body : S → reader (S + B)) : Prop := {
  loops_reads s :: Reads (body s);
  loops_takes s evs s' rest : body s evs = Some (Ok (inl s', rest)) → (length rest < length evs)%nat;
}.

#[export] Instance reads_ret {A} (a : A) : Reads (ret a).
Proof. intros evs. eexists. split; [done|]. by intros ? ? [= <- <-]. Qed.
#[export] Instance reads_fail {A} e : Reads (@fail A e).
Proof. intros evs. by eexists. Qed.
#[export] Instance reads_next : Reads next.
Proof. intros [|e evs]; (eexists; split; [done|]); intros ? ? [= <- <-]; cbn; lia. Qed.
#[export] Instance reads_bind {A B} (r : reader A) (k : A → reader B) : Reads r → (∀ a, Reads (k a)) → Reads (bind r k).
Proof.
  intros Hr Hk evs. unfold bind. destruct (Hr evs) as ([[a rest]|e] & -> & Hl); [|by eexists].
  destruct (Hk a rest) as (x & -> & Hx). eexists. split; [done|]. intros b rest' ->. etrans; [by eapply Hx|by eapply Hl].
Qed.
#[export] Instance reads_loop {S B} (body : S → reader (S + B)) s : Loops body → Reads (loop body s).
Proof.
  intros [Hr Ht] evs. unfold loop. generalize (Nat.lt_succ_diag_r (length evs)). generalize (Datatypes.S (length evs)). intros n.
  revert s evs. induction n as [|n IH]; intros s evs Hn; [lia|]. cbn [loop_]. destruct (Hr s evs) as ([[[s'|b] rest]|e] & E & Hl); rewrite E; [| |by eexists].
  - apply Ht in E. destruct (IH s' rest) as (x & -> & Hx); [lia|]. eexists. split; [done|]. intros b rest' ->. pose proof (Hx b rest' eq_refl). lia.
  - eexists. split; [done|]. intros ? ? [= <- <-]. by eapply Hl.
Qed.

Section loops.
Context {S B : Type} (body : S → reader (S + B)) `{!Loops body}.

Lemma loop_fuel n m s evs : (length evs < n)%nat → (length evs < m)%nat → loop_ n body s evs = loop_ m body s evs.
Proof.
  revert m s evs. induction n as [|n IH]; intros m s evs Hn Hm; [lia|]. destruct m as [|m]; [lia|]. cbn [loop_].
  destruct (body s evs) as [[[[s'|b] rest]|e]|] eqn:E; try done. apply loops_takes in E. apply IH; lia.
Qed.
(** Going round once. *)
Lemma loop_eq s evs : loop body s evs = bind (body s) (λ x, match x with inl s => loop body s | inr b => ret b end) evs.
Proof.
  unfold loop at 1, bind. cbn [loop_]. destruct (body s evs) as [[[[s'|b] rest]|e]|] eqn:E; try done. apply loops_takes in E. apply loop_fuel; lia.
Qed.
End loops.

#[export] Instance loops_events {S B} (body : S → Event → reader (S + B)) :
  (∀ s ev, Reads (body s ev)) → (∀ s evs s' rest, body s EvEof evs ≠ Some (Ok (inl s', rest))) → Loops (λ s, bind next (body s)).
Proof.
  intros Hr He. split; [apply _|]. intros s [|ev evs] s' rest Hb; [by apply He in Hb|]. change (body s ev evs = Some (Ok (inl s', rest))) in Hb.
  destruct (Hr s ev evs) as (x & E & Hx). rewrite Hb in E. injection E as <-. specialize (Hx _ _ eq_refl). cbn. lia.
Qed.

(** ** What a parser can answer *)

(** Whatever the events, an answer satisfies [Q]. *)
Definition yields {A} (r : reader A) (Q : A → Prop) : Prop := ∀ evs a rest, r evs = Some (Ok (a, rest)) → Q a.

Lemma yields_ret {A} (a : A) (Q : A → Prop) : Q a → yields (ret a) Q.
Proof. by intros Ha evs a' rest [= <- <-]. Qed.
Lemma yields_fail {A} e (Q : A → Prop) : yields (fail e) Q.
Proof. by intros evs a rest. Qed.
Lemma yields_any {A} (r : reader A) : yields r (λ _, True).
Proof. done. Qed.
Lemma yields_bind {A B} (r : reader A) (k : A → reader B) (P : A → Prop) (Q : B → Prop) :
  yields r P → (∀ a, P a → yields (k a) Q) → yields (bind r k) Q.
Proof.
  intros Hr Hk evs b rest. unfold bind. destruct (r evs) as [[[a evs']|e]|] eqn:E; try done. intros Hb. by eapply (Hk a), Hb; eapply Hr.
Qed.
Lemma yields_weaken {A} (r : reader A) (P Q : A → Prop) : yields r P → (∀ a, P a → Q a) → yields r Q.
Proof. intros Hr Hp evs a rest E. by eapply Hp, Hr. Qed.
Lemma yields_loop {S B} (body : S → reader (S + B)) (I : S → Prop) (Q : B → Prop) :
  (∀ s, I s → yields (body s) (λ x, match x with inl s => I s | inr b => Q b end)) → ∀ s, I s → yields (loop body s) Q.
Proof.
  intros Hb s Hs evs b rest. unfold loop. generalize (Datatypes.S (length evs)). intros n. revert s evs Hs.
  induction n as [|n IH]; intros s evs Hs; [done|]. cbn [loop_]. destruct (body s evs) as [[[[s'|b'] evs']|e]|] eqn:E; try done.
  - apply IH. apply (Hb s Hs _ _ _ E).
  - intros [= <- <-]. apply (Hb s Hs _ _ _ E).
Qed.
Lemma yields_events {S B} (body : S → Event → reader (S + B)) (I : S → Prop) (Q : B → Prop) :
  (∀ s ev, I s → yields (body s ev) (λ x, match x with inl s => I s | inr b => Q b end)) → ∀ s, I s → yields (events body s) Q.
Proof. intros Hb. apply yields_loop. intros s Hs. apply (yields_bind _ _ (λ _, True)); [apply yields_any|]. intros ev _. by apply Hb. Qed.

(** One event read by a loop over events. *)
Section one_event.
Context {S B : Type} (body : S → Event → reader (S + B)) `{!Loops (λ s, bind next (body s))}.
Lemma events_cons s ev evs :
  events body s (ev :: evs) = bind (body s ev) (λ x, match x with inl s => events body s | inr b => ret b end) evs.
Proof. unfold events. rewrite loop_eq by apply _. done. Qed.
Lemma events_nil s : events body s [] = bind (body s EvEof) (λ x, match x with inl s => events body s | inr b => ret b end) [].
Proof. unfold events. rewrite loop_eq by apply _. done. Qed.
Lemma events_go s ev evs s' evs' : body s ev evs = Some (Ok (inl s', evs')) → events body s (ev :: evs) = events body s' evs'.
Proof. intros E. rewrite events_cons. unfold bind. by rewrite E. Qed.
Lemma events_done s ev evs b evs' : body s ev evs = Some (Ok (inr b, evs')) → events body s (ev :: evs) = Some (Ok (b, evs')).
Proof. intros E. rewrite events_cons. unfold bind. by rewrite E. Qed.
End one_event.

(** ** Numbers *)

Lemma digits_go x s : digits (txt (pretty.pretty_N_go x s)) 0 = digits (txt s) x.
Proof.
  revert s. induction (N.lt_wf_0 x) as [x _ IH]; intros s. assert (x = 0 ∨ 0 < x) as [->|Hx] by lia; [done|].
  rewrite pretty.pretty_N_go_step, IH by (done || by apply N.div_lt). change (txt (String ?c s)) with (N_of_ascii c :: txt s). cbn [digits].
  pose proof (N.mod_lt x 10 ltac:(done)) as Hd. pose proof (N.div_mod x 10 ltac:(done)) as Hm.
  generalize dependent (x `mod` 10). generalize (x `div` 10). intros q d Hd Hm.
  assert (Hc : N_of_ascii (pretty.pretty_N_char d) = 48 + d).
  { clear Hm. assert (d = 0 ∨ d = 1 ∨ d = 2 ∨ d = 3 ∨ d = 4 ∨ d = 5 ∨ d = 6 ∨ d = 7 ∨ d = 8 ∨ d = 9) as Hn by lia. by repeat destruct Hn as [->|Hn]; subst. }
  rewrite Hc, (proj2 (N.leb_le _ _)), (proj2 (N.leb_le _ _)) by lia. cbn [andb]. f_equal. lia.
Qed.
Lemma digits_decimal n : digits (decimal n) 0 = Some n.
Proof.
  unfold decimal, pretty.pretty, pretty.pretty_N. case_decide as Hn; [by subst|]. by rewrite digits_go.
Qed.
Lemma decimal_nonempty n : decimal n ≠ [].
Proof.
  intros E. pose proof (digits_decimal n) as Hd. rewrite E in Hd. injection Hd as <-. by vm_compute in E.
Qed.
Lemma parse_decimal max n : n ≤ max → parse_uint max (decimal n) = Some n.
Proof.
  intros Hn. pose proof (digits_decimal n) as Hd. unfold parse_uint. pose proof (decimal_nonempty n) as Hne. destruct (decimal n) as [|c [|c' t]] eqn:E; [done| |].
  - rewrite Hd. cbn. by rewrite (proj2 (N.leb_le _ _)).
  - destruct (c =? 43) eqn:Ec; [apply N.eqb_eq in Ec as ->; by cbn in Hd|]. rewrite Hd. cbn. by rewrite (proj2 (N.leb_le _ _)).
Qed.
