(* ===== verification/Propfind.v ===== *)
(** [propfind.rs]: the answers to PROPFIND and SEARCH requests, from XML events to entries.

    What the server sends is not trusted: whatever it is, the parser ends, and what it hands
    on is harmless text and proper paths.  What a server means to say comes through: a listing
    written out and parsed is the listing.  quick_xml's events are the input ([Events]); the
    percent-encoding, the HTTP date and the URL parser are a class. *)
From Stdlib Require Import Ascii String.
From S2P Require Import Prelude Paths Backend Errors Events.
Local Open Scope N_scope.
Local Open Scope reader_scope.

(** [percent_decode_str(..).decode_utf8_lossy()], [httpdate::parse_http_date] and the path of
    [Url::parse]. *)
Class WebTexts := {
  percent_decode : Text → Text;
  http_date : Text → option SystemTime;
  url_path : Text → option Text;
}.

Definition u64 : N := 18446744073709551615.
Definition slash (c : char) : bool := c =? 47.
Definition quote (c : char) : bool := c =? 34.

(** ** One response *)

(* propfind.rs:523-542 RawResponse *)
Record RawResponse := {
  rr_href : Text;
  rr_is_collection : bool;
  rr_content_length : N;
  rr_oc_size : N;
  rr_last_modified : option SystemTime;
  rr_etag : option Text;
  rr_content_type : option Text;
  rr_has_preview : bool;
  rr_is_shared : bool;
  rr_permissions : option Text;
  rr_fileid : option N;
  rr_owner_id : option Text;
  rr_owner_display_name : option Text;
  rr_lock : bool;
  rr_lock_owner : option Text;
  rr_lock_owner_display : option Text;
  rr_lock_owner_type : option N;
}.
Definition raw_default : RawResponse :=
  Build_RawResponse [] false 0 0 None None None false false None None None None false None None None.
Definition set_href (v : Text) (q : RawResponse) : RawResponse :=
  let '(Build_RawResponse _ c n z m e t p s r i o d l lo ld lt) := q in Build_RawResponse v c n z m e t p s r i o d l lo ld lt.
Definition set_is_collection (v : bool) (q : RawResponse) : RawResponse :=
  let '(Build_RawResponse h _ n z m e t p s r i o d l lo ld lt) := q in Build_RawResponse h v n z m e t p s r i o d l lo ld lt.
Definition set_content_length (v : N) (q : RawResponse) : RawResponse :=
  let '(Build_RawResponse h c _ z m e t p s r i o d l lo ld lt) := q in Build_RawResponse h c v z m e t p s r i o d l lo ld lt.
Definition set_oc_size (v : N) (q : RawResponse) : RawResponse :=
  let '(Build_RawResponse h c n _ m e t p s r i o d l lo ld lt) := q in Build_RawResponse h c n v m e t p s r i o d l lo ld lt.
Definition set_last_modified (v : option SystemTime) (q : RawResponse) : RawResponse :=
  let '(Build_RawResponse h c n z _ e t p s r i o d l lo ld lt) := q in Build_RawResponse h c n z v e t p s r i o d l lo ld lt.
Definition set_etag (v : option Text) (q : RawResponse) : RawResponse :=
  let '(Build_RawResponse h c n z m _ t p s r i o d l lo ld lt) := q in Build_RawResponse h c n z m v t p s r i o d l lo ld lt.
Definition set_content_type (v : option Text) (q : RawResponse) : RawResponse :=
  let '(Build_RawResponse h c n z m e _ p s r i o d l lo ld lt) := q in Build_RawResponse h c n z m e v p s r i o d l lo ld lt.
Definition set_has_preview (v : bool) (q : RawResponse) : RawResponse :=
  let '(Build_RawResponse h c n z m e t _ s r i o d l lo ld lt) := q in Build_RawResponse h c n z m e t v s r i o d l lo ld lt.
Definition set_is_shared (v : bool) (q : RawResponse) : RawResponse :=
  let '(Build_RawResponse h c n z m e t p _ r i o d l lo ld lt) := q in Build_RawResponse h c n z m e t p v r i o d l lo ld lt.
Definition set_permissions (v : option Text) (q : RawResponse) : RawResponse :=
  let '(Build_RawResponse h c n z m e t p s _ i o d l lo ld lt) := q in Build_RawResponse h c n z m e t p s v i o d l lo ld lt.
Definition set_fileid (v : option N) (q : RawResponse) : RawResponse :=
  let '(Build_RawResponse h c n z m e t p s r _ o d l lo ld lt) := q in Build_RawResponse h c n z m e t p s r v o d l lo ld lt.
Definition set_owner_id (v : option Text) (q : RawResponse) : RawResponse :=
  let '(Build_RawResponse h c n z m e t p s r i _ d l lo ld lt) := q in Build_RawResponse h c n z m e t p s r i v d l lo ld lt.
Definition set_owner_display_name (v : option Text) (q : RawResponse) : RawResponse :=
  let '(Build_RawResponse h c n z m e t p s r i o _ l lo ld lt) := q in Build_RawResponse h c n z m e t p s r i o v l lo ld lt.
Definition set_lock (v : bool) (q : RawResponse) : RawResponse :=
  let '(Build_RawResponse h c n z m e t p s r i o d _ lo ld lt) := q in Build_RawResponse h c n z m e t p s r i o d v lo ld lt.
Definition set_lock_owner (v : option Text) (q : RawResponse) : RawResponse :=
  let '(Build_RawResponse h c n z m e t p s r i o d l _ ld lt) := q in Build_RawResponse h c n z m e t p s r i o d l v ld lt.
Definition set_lock_owner_display (v : option Text) (q : RawResponse) : RawResponse :=
  let '(Build_RawResponse h c n z m e t p s r i o d l lo _ lt) := q in Build_RawResponse h c n z m e t p s r i o d l lo v lt.
Definition set_lock_owner_type (v : option N) (q : RawResponse) : RawResponse :=
  let '(Build_RawResponse h c n z m e t p s r i o d l lo ld _) := q in Build_RawResponse h c n z m e t p s r i o d l lo ld v.


(* propfind.rs:548-553 RawResponse::locked_against *)
Definition locked_against (q : RawResponse) (me : Text) : option Text :=
  if negb (rr_lock q) || (bool_decide (rr_lock_owner_type q = Some 0) && bool_decide (rr_lock_owner q = Some me)) then None
  else Some match rr_lock_owner_display q with
            | Some d => d
            | None => default (txt "another client") (rr_lock_owner q)
            end.

(** The part after the last colon. *)
(* propfind.rs:879-882 tag_local_name *)
Fixpoint tag_local_name (s : string) : string :=
  match s with
  | EmptyString => s
  | String c s' => if existsb (Ascii.eqb ":") (list_ascii_of_string s') then tag_local_name s' else if Ascii.eqb ":" c then s' else s
  end.
Definition is_tag (name : string) (tag : string) : bool := String.eqb (tag_local_name name) tag.

(* propfind.rs:791-809 skip_element *)
Definition skip_element : reader unit :=
  events (λ depth ev,
    match ev with
    | EvStart _ => ret (inl (S depth))
    | EvEnd _ => if Nat.eqb depth 1 then ret (inr tt) else ret (inl (Nat.pred depth))
    | EvEof => ret (inr tt)
    | EvBroken => fail "XML parse"
    | _ => ret (inl depth)
    end) 1%nat.
(* propfind.rs:771-789 read_text *)
Definition read_text : reader Text :=
  events (λ text ev,
    match ev with
    | EvText (Some t) => ret (inl (text ++ t))
    | EvText None => fail "unescape"
    | EvEnd _ => ret (inr text)
    | EvStart _ => _ ← skip_element; ret (inl text)
    | EvEof => ret (inr text)
    | EvBroken => fail "XML parse"
    | _ => ret (inl text)
    end) [].
Definition no_control : Text → Text := List.filter (λ c, negb (is_control c)).
(* propfind.rs:767-769 read_label *)
Definition read_label : reader Text := t ← read_text; ret (no_control t).
(* propfind.rs:746-760 read_has_children *)
Definition children_loop (end_tag : string) : bool → reader bool :=
  events (λ found ev,
    match ev with
    | EvStart _ | EvEmpty _ => ret (inl true)
    | EvEnd n => if is_tag n end_tag then ret (inr found) else ret (inl found)
    | EvEof => ret (inr found)
    | EvBroken => fail "XML parse"
    | _ => ret (inl found)
    end).
(* propfind.rs:743-761 read_has_children *)
Definition read_has_children (end_tag : string) : reader bool := children_loop end_tag false.
(* propfind.rs:722-741 read_has_collection *)
Definition read_has_collection : reader bool :=
  events (λ found ev,
    match ev with
    | EvStart n | EvEmpty n => ret (inl (found || is_tag n "collection"))
    | EvEnd n => if is_tag n "resourcetype" then ret (inr found) else ret (inl found)
    | EvEof => fail "unexpected EOF in resourcetype"
    | EvBroken => fail "XML parse"
    | _ => ret (inl found)
    end) false.

Section propfind.
Context `{WebTexts}.

(** The etag a text holds, if any. *)
(* propfind.rs:634-648 read_propstat *)
Definition etag_of (raw : Text) : option Text :=
  let etag := trim_both is_whitespace (trim_both quote (trim_both is_whitespace raw)) in
  if bool_decide (etag = []) then None else Some etag.
Definition if_some {A} (v : option A) (f : A → RawResponse → RawResponse) (q : RawResponse) : RawResponse :=
  match v with Some a => f a q | None => q end.
(** One property, its start tag read. *)
(* propfind.rs:625-707 read_propstat *)
Definition read_property (tag : string) (q : RawResponse) : reader RawResponse :=
  let text (f : Text → RawResponse) := v ← read_text; ret (f v) in
  let label (f : Text → RawResponse) := v ← read_label; ret (f v) in
  if String.eqb tag "resourcetype" then c ← read_has_collection; ret (set_is_collection c q)
  else if String.eqb tag "getcontentlength" then text (λ v, set_content_length (default 0 (parse_uint u64 v)) q)
  else if String.eqb tag "size" then text (λ v, set_oc_size (default 0 (parse_uint u64 v)) q)
  else if String.eqb tag "getetag" then text (λ v, set_etag (etag_of v) q)
  else if String.eqb tag "getcontenttype" then text (λ v, set_content_type (Some v) q)
  else if String.eqb tag "getlastmodified" then text (λ v, set_last_modified (http_date v) q)
  else if String.eqb tag "has-preview" then text (λ v, set_has_preview (bool_decide (v = txt "true")) q)
  else if String.eqb tag "permissions" then label (λ v, set_permissions (Some v) q)
  else if String.eqb tag "fileid" then text (λ v, if_some (parse_uint u64 v) (λ i, set_fileid (Some i)) q)
  else if String.eqb tag "owner-id" then label (λ v, set_owner_id (Some v) q)
  else if String.eqb tag "owner-display-name" then label (λ v, set_owner_display_name (Some v) q)
  else if String.eqb tag "share-types" then c ← read_has_children "share-types"; ret (set_is_shared c q)
  else if String.eqb tag "lock" then text (λ v, if bool_decide (trim_both is_whitespace v = txt "1") then set_lock true q else q)
  else if String.eqb tag "lock-owner" then label (λ v, if bool_decide (v = []) then q else set_lock_owner (Some v) q)
  else if String.eqb tag "lock-owner-displayname" then label (λ v, if bool_decide (v = []) then q else set_lock_owner_display (Some v) q)
  else if String.eqb tag "lock-owner-type" then text (λ v, if_some (parse_uint 255 (trim_both is_whitespace v)) (λ t, set_lock_owner_type (Some t)) q)
  else ret q.
(* propfind.rs:616-720 read_propstat *)
Definition read_propstat : RawResponse → reader RawResponse :=
  events (λ q ev,
    match ev with
    | EvStart n => q ← read_property (tag_local_name n) q; ret (inl q)
    | EvEnd n => if is_tag n "propstat" then ret (inr q) else ret (inl q)
    | EvEof => fail "unexpected EOF in propstat"
    | EvBroken => fail "XML parse"
    | _ => ret (inl q)
    end).
(** The response so far, and how many response tags are open. *)
(* propfind.rs:588-613 read_response *)
Definition response_loop : RawResponse * nat → reader RawResponse :=
  events (λ '(q, depth) ev,
    match ev with
    | EvStart n =>
        if is_tag n "response" then ret (inl (q, S depth))
        else if is_tag n "href" then t ← read_text; ret (inl (set_href t q, depth))
        else if is_tag n "propstat" then q ← read_propstat q; ret (inl (q, depth))
        else ret (inl (q, depth))
    | EvEnd n =>
        if negb (is_tag n "response") then ret (inl (q, depth))
        else if Nat.eqb depth 1 then ret (inr q) else ret (inl (q, Nat.pred depth))
    | EvEof => fail "unexpected EOF in response"
    | EvBroken => fail "XML parse"
    | _ => ret (inl (q, depth))
    end).
(* propfind.rs:582-614 read_response *)
Definition read_response : reader RawResponse := response_loop (raw_default, 1%nat).
(* propfind.rs:566-580 next_response *)
Definition next_response : reader (option RawResponse) :=
  events (λ (_ : unit) ev,
    match ev with
    | EvStart n => if is_tag n "response" then q ← read_response; ret (inr (Some q)) else ret (inl tt)
    | EvEof => ret (inr None)
    | EvBroken => fail "XML parse"
    | _ => ret (inl tt)
    end) tt.

(** ** Entries *)

(* propfind.rs:80-96 DavEntry *)
Record DavEntry := {
  dv_path : list Text;
  dv_is_dir : bool;
  dv_size : N;
  dv_modified : option SystemTime;
  dv_etag : option Text;
  dv_content_type : option Text;
  dv_has_preview : bool;
  dv_is_shared : bool;
  dv_permissions : option Text;
  dv_fileid : option N;
  dv_owner_id : option Text;
  dv_owner_display_name : option Text;
  dv_locked_by : option Text;
}.

(* propfind.rs:470-475 webdav_prefix *)
Definition webdav_prefix (webdav_url : Text) : Text :=
  match url_path webdav_url with Some p => trim_end slash p | None => [] end.
(** The components of an absolute path. *)
Definition components (t : Text) : list Text := List.filter (λ p, negb (bool_decide (p = []) || bool_decide (p = txt "."))) (split slash t).
(* propfind.rs:494-519 href_to_remote_path *)
Definition href_to_remote_path (href prefix : Text) : option (list Text) :=
  let decoded := percent_decode href in
  if existsb (λ p, bool_decide (p = txt "..")) (split (λ c, (c =? 47) || (c =? 92)) decoded) then None
  else if existsb is_control decoded then None
  else
    let trimmed := trim_end slash decoded in
    let remote := match prefix with [] => trimmed | _ => default trimmed (text_prefix prefix trimmed) end in
    Some match remote with
         | [] => []
         | c :: _ => if slash c then components remote else components (47 :: remote)
         end.
(* propfind.rs:349-364 parse_multistatus_stream *)
Definition dav_entry (me : Text) (q : RawResponse) (path : list Text) : DavEntry :=
  {| dv_path := path; dv_is_dir := rr_is_collection q;
     dv_size := if rr_is_collection q then rr_oc_size q else rr_content_length q;
     dv_modified := rr_last_modified q; dv_etag := rr_etag q; dv_content_type := rr_content_type q;
     dv_has_preview := rr_has_preview q; dv_is_shared := rr_is_shared q; dv_permissions := rr_permissions q;
     dv_fileid := rr_fileid q; dv_owner_id := rr_owner_id q; dv_owner_display_name := rr_owner_display_name q;
     dv_locked_by := locked_against q me |}.

(** What the loop over the responses has: the directory's etag and entry, the entries. *)
Record Multi := { mu_first : bool; mu_etag : option Text; mu_self : option DavEntry; mu_entries : list DavEntry }.
(* propfind.rs:336-373 parse_multistatus_stream *)
Definition take_response (prefix me : Text) (q : RawResponse) (u : Multi) : Multi :=
  match href_to_remote_path (rr_href q) prefix with
  | None => if mu_first u then {| mu_first := false; mu_etag := rr_etag q; mu_self := mu_self u; mu_entries := mu_entries u |} else u
  | Some p =>
      let entry := dav_entry me q p in
      if mu_first u then {| mu_first := false; mu_etag := rr_etag q; mu_self := Some entry; mu_entries := mu_entries u |}
      else {| mu_first := false; mu_etag := mu_etag u; mu_self := mu_self u; mu_entries := mu_entries u ++ [entry] |}
  end.
Definition multi_start : Multi := {| mu_first := true; mu_etag := None; mu_self := None; mu_entries := [] |}.
Definition read_multi (prefix me : Text) : reader Multi :=
  loop (λ u, r ← next_response; ret match r with Some q => inl (take_response prefix me q u) | None => inr u end) multi_start.
Definition answer {A} (r : reader A) (evs : list Event) : option (result A string) :=
  match r evs with
  | Some (Ok (a, _)) => Some (Ok a)
  | Some (Err e) => Some (Err e)
  | None => None
  end.
(* propfind.rs:322-378 parse_multistatus_stream *)
Definition parse_multistatus_stream (evs : list Event) (webdav_url me : Text) : option (result (option Text * option DavEntry * list DavEntry) string) :=
  match answer (read_multi (webdav_prefix webdav_url) me) evs with
  | Some (Ok u) => Some (Ok (mu_etag u, mu_self u, mu_entries u))
  | Some (Err e) => Some (Err e)
  | None => None
  end.

(** The streamed listing: what was sent on the two channels by the time it ends, also where
    it fails.  The receiver of the entries takes [room] of them and hangs up. *)
Record Sent := { st_first : bool; st_etag : option Text; st_self : list DavEntry; st_sent : list DavEntry }.
(* propfind.rs:417-458 propfind_list_streaming *)
Definition send_response (room : nat) (prefix me : Text) (q : RawResponse) (u : Sent) : Sent * bool :=
  match href_to_remote_path (rr_href q) prefix with
  | None => (if st_first u then {| st_first := false; st_etag := rr_etag q; st_self := st_self u; st_sent := st_sent u |} else u, true)
  | Some p =>
      let entry := dav_entry me q p in
      if st_first u then ({| st_first := false; st_etag := rr_etag q; st_self := st_self u ++ [entry]; st_sent := st_sent u |}, true)
      else if (length (st_sent u) <? room)%nat
           then ({| st_first := false; st_etag := st_etag u; st_self := st_self u; st_sent := st_sent u ++ [entry] |}, true)
           else (u, false)
  end.
Definition sent_start : Sent := {| st_first := true; st_etag := None; st_self := []; st_sent := [] |}.
(** [None] out of fuel; the error where the body breaks off. *)
Fixpoint stream_ (fuel room : nat) (prefix me : Text) (u : Sent) (evs : list Event) : option (result unit string * Sent) :=
  match fuel with
  | O => None
  | S fuel =>
      match next_response evs with
      | Some (Ok (Some q, evs)) =>
          let '(u, on) := send_response room prefix me q u in
          if on then stream_ fuel room prefix me u evs else Some (Ok tt, u)
      | Some (Ok (None, _)) => Some (Ok tt, u)
      | Some (Err e) => Some (Err e, u)
      | None => None
      end
  end.
(* propfind.rs:408-460 propfind_list_streaming *)
Definition propfind_list_streaming (room : nat) (evs : list Event) (webdav_url me : Text) : option (result (option Text) string * Sent) :=
  (λ '(r, u), (map_ok (λ _, st_etag u) r, u)) <$> stream_ (S (length evs)) room (webdav_prefix webdav_url) me sent_start evs.

(** ** Looking file ids up *)

(* propfind.rs:224-302 search_fileids *)
Definition search_hits (file_ids : list N) (evs : list Event) (webdav_url me : Text) : option (result (list DavEntry) string) :=
  match file_ids with
  | [] => Some (Ok [])
  | _ =>
      match parse_multistatus_stream evs webdav_url me with
      | Some (Ok (_, self_entry, hits)) =>
          Some (Ok match self_entry with
                   | Some se => if bool_decide (dv_path se = []) then hits else hits ++ [se]
                   | None => hits
                   end)
      | Some (Err e) => Some (Err e)
      | None => None
      end
  end.
(* propfind.rs:186-197 resolve_fileids *)
Definition resolve_fileids file_ids evs webdav_url me : option (result (list (list Text)) string) :=
  map_ok (map dv_path) <$> search_hits file_ids evs webdav_url me.
(* propfind.rs:204-215 resolve_fileid_paths *)
Definition resolve_fileid_paths file_ids evs webdav_url me : option (result (gmap N (list Text)) string) :=
  map_ok (foldl (λ m e, match dv_fileid e with Some i => <[i := dv_path e]> m | None => m end) ∅) <$> search_hits file_ids evs webdav_url me.

(** ** Quota *)

(** [i64::parse], where it is not negative. *)
Definition parse_i64 (t : Text) : option N :=
  let max := 9223372036854775807 in
  match t with
  | c :: ((_ :: _) as t') =>
      if c =? 45 then (if bool_decide (digits t' 0 = Some 0) then Some 0 else None) else parse_uint max t
  | _ => parse_uint max t
  end.
(** The events of a reader that trims its texts; [None]: the texts that cannot be unescaped. *)
(* propfind.rs:849-870 propfind_quota *)
Fixpoint quota_scan (tag : string) (used available : option N) (evs : list Event) : option N * option N :=
  match evs with
  | [] | EvEof :: _ | EvBroken :: _ => (used, available)
  | EvStart n :: evs => quota_scan (tag_local_name n) used available evs
  | EvText (Some t) :: evs =>
      let t := trim_both is_whitespace t in
      if String.eqb tag "quota-used-bytes" then quota_scan tag (parse_uint u64 t) available evs
      else if String.eqb tag "quota-available-bytes" then
        quota_scan tag used (match parse_i64 t with Some v => Some v | None => available end) evs
      else quota_scan tag used available evs
  | _ :: evs => quota_scan tag used available evs
  end.
(** Used and total; the sum wraps around in a release build. *)
(* propfind.rs:840-877 propfind_quota *)
Definition propfind_quota (evs : list Event) : result (N * N) string :=
  match quota_scan "" None None evs with
  | (Some u, Some a) => Ok (u, (u + a) mod (u64 + 1))
  | (Some u, None) => Ok (u, 0)
  | _ => Err "missing quota-used-bytes"%string
  end.

(** ** What the rest of the program gets *)

(* backend.rs:615-635 From::from *)
Definition remote_entry (d : DavEntry) : RemoteEntry :=
  {| e_path := utf8 <$> dv_path d; e_is_dir := dv_is_dir d; e_size := Z.of_N (dv_size d); e_modified := dv_modified d;
     e_change_token := utf8 <$> dv_etag d; e_content_type := utf8 <$> dv_content_type d;
     e_ext := {| permissions := utf8 <$> dv_permissions d; owner_id := utf8 <$> dv_owner_id d;
                 owner_display_name := utf8 <$> dv_owner_display_name d; fileid := Z.of_N <$> dv_fileid d;
                 has_preview := dv_has_preview d; is_shared := dv_is_shared d; locked_by := utf8 <$> dv_locked_by d |} |}.
End propfind.

(** ** The parser ends *)

Ltac reads := intros; cbn beta iota; repeat (case_match || apply _); try done.
(** A loop over events: its body ends, and stops at the end of the document. *)
Ltac loops := apply loops_events; [reads|intros; by repeat case_match].

#[export] Instance reads_skip_element : Reads skip_element.
Proof. apply reads_loop. loops. Qed.
#[export] Instance reads_text : Reads read_text.
Proof. apply reads_loop. loops. Qed.
#[export] Instance reads_label : Reads read_label.
Proof. unfold read_label. apply _. Qed.
#[export] Instance reads_has_children tag : Reads (read_has_children tag).
Proof. apply reads_loop. loops. Qed.
#[export] Instance reads_has_collection : Reads read_has_collection.
Proof. apply reads_loop. loops. Qed.

Section reads.
Context `{WebTexts}.
#[export] Instance reads_property tag q : Reads (read_property tag q).
Proof. unfold read_property. repeat (case_match; [apply _|]). apply _. Qed.
#[export] Instance reads_propstat q : Reads (read_propstat q).
Proof. apply reads_loop. loops. Qed.
#[export] Instance reads_response : Reads read_response.
Proof. apply reads_loop. loops. Qed.
#[export] Instance loops_next_response : Loops (λ s, bind next ((λ (_ : unit) ev,
    match ev with
    | EvStart n => if is_tag n "response" then q ← read_response; ret (inr (Some q)) else ret (inl tt)
    | EvEof => ret (inr None)
    | EvBroken => fail "XML parse"
    | _ => ret (inl tt)
    end) s)).
Proof. loops. Qed.
#[export] Instance reads_next_response : Reads next_response.
Proof. apply reads_loop, _. Qed.
End reads.

(** ** What the server sends is harmless *)

Definition clean (t : Text) : Prop := Forall (λ c, is_control c = false) t.
(** An etag: something, with no white space around it. *)
Definition proper_etag (t : Text) : Prop := t ≠ [] ∧ trim_both is_whitespace t = t.

Section trim.
Context {A} (f : A → bool).
Lemma drop_while_idem l : drop_while f (drop_while f l) = drop_while f l.
Proof. induction l as [|x l IH]; cbn; [done|]. destruct (f x) eqn:E; cbn; [done|by rewrite E]. Qed.
Lemma drop_while_spec l : ∃ r, l = r ++ drop_while f l ∧ Forall (λ x, f x = true) r.
Proof.
  induction l as [|x l (r & E & Hr)]; cbn; [by exists []|]. destruct (f x) eqn:Ex; [|by exists []]. exists (x :: r). split; [by cbn; f_equal|by constructor].
Qed.
Lemma trim_end_spec l : ∃ r, l = trim_end f l ++ r ∧ Forall (λ x, f x = true) r.
Proof.
  destruct (drop_while_spec (rev l)) as (r & E & Hr). exists (rev r). unfold trim_end. split; [by rewrite <- rev_app_distr, <- E, rev_involutive|].
  apply Forall_forall. rewrite Forall_forall in Hr. intros x Hx. apply Hr. rewrite list_elem_of_In in *. by apply in_rev.
Qed.
Lemma trim_end_idem l : trim_end f (trim_end f l) = trim_end f l.
Proof. unfold trim_end. by rewrite rev_involutive, drop_while_idem. Qed.
Lemma drop_while_trim_end l : drop_while f l = l → drop_while f (trim_end f l) = trim_end f l.
Proof.
  intros Hl. destruct (trim_end_spec l) as (r & E & _). destruct (trim_end f l) as [|x t]; [done|]. rewrite E in Hl. cbn in Hl |- *.
  destruct (f x); [|done]. destruct (drop_while_spec (t ++ r)) as (r' & E' & _). rewrite Hl in E'.
  apply (f_equal length) in E'. rewrite !length_app in E'. cbn in E'. rewrite length_app in E'. lia.
Qed.
Lemma trim_both_idem l : trim_both f (trim_both f l) = trim_both f l.
Proof. unfold trim_both. rewrite (drop_while_trim_end (drop_while f l)) by apply drop_while_idem. apply trim_end_idem. Qed.
End trim.

Lemma no_control_clean t : clean (no_control t).
Proof. apply Forall_forall. intros c [_ Hc]%list_elem_of_In%filter_In. by apply negb_true_iff in Hc. Qed.
Lemma label_clean : yields read_label clean.
Proof. eapply yields_bind; [apply yields_any|]. intros t _. apply yields_ret, no_control_clean. Qed.
Lemma parse_uint_max max t n : parse_uint max t = Some n → n ≤ max.
Proof. unfold parse_uint. intros E. repeat case_match; try done; apply bind_Some in E as (m & _ & E); case_match eqn:Hm; simplify_eq; by apply N.leb_le in Hm. Qed.
Lemma etag_of_proper t e : etag_of t = Some e → proper_etag e.
Proof. unfold etag_of. case_bool_decide; [done|]. intros [= <-]. split; [done|apply trim_both_idem]. Qed.

Record raw_ok (q : RawResponse) : Prop := {
  ro_permissions t : rr_permissions q = Some t → clean t;
  ro_owner t : rr_owner_id q = Some t → clean t;
  ro_display t : rr_owner_display_name q = Some t → clean t;
  ro_lock_owner t : rr_lock_owner q = Some t → clean t;
  ro_lock_display t : rr_lock_owner_display q = Some t → clean t;
  ro_etag t : rr_etag q = Some t → proper_etag t;
  ro_length : rr_content_length q ≤ u64;
  ro_size : rr_oc_size q ≤ u64;
  ro_fileid i : rr_fileid q = Some i → i ≤ u64;
}.

Ltac raw := match goal with Hq : raw_ok ?q |- _ => destruct q, Hq end; split; cbn in *; try done; naive_solver.
(** A property read as a text: what is made of it keeps the response in order. *)
Ltac property :=
  match goal with
  | |- yields (bind read_label _) _ => eapply yields_bind; [apply label_clean|]
  | _ => eapply yields_bind; [apply yields_any|]
  end; intros v ?; apply yields_ret; unfold if_some; repeat case_match; try done; raw.

Section harmless.
Context `{WebTexts}.

Lemma parsed_size t : default 0 (parse_uint u64 t) ≤ u64.
Proof. destruct (parse_uint u64 t) eqn:E; [by apply parse_uint_max in E|done]. Qed.
Hint Resolve parsed_size parse_uint_max etag_of_proper : core.
Lemma property_ok tag q : raw_ok q → yields (read_property tag q) raw_ok.
Proof. intros Hq. unfold read_property. repeat (case_match; [property|]). by apply yields_ret. Qed.
Lemma propstat_ok q : raw_ok q → yields (read_propstat q) raw_ok.
Proof.
  apply yields_events. intros s ev Hs. destruct ev; try (by apply yields_fail); try (by apply yields_ret).
  - eapply yields_bind; [by apply property_ok|]. intros q' Hq'. by apply yields_ret.
  - case_match; by apply yields_ret.
Qed.
Lemma response_ok : yields read_response raw_ok.
Proof.
  unfold read_response, response_loop. apply (yields_events _ (λ x, raw_ok x.1)); [|by split]. intros [s d] ev Hs. cbn in Hs.
  destruct ev; try (by apply yields_fail); try (by apply yields_ret).
  - repeat case_match; try by apply yields_ret.
    + eapply yields_bind; [apply yields_any|]. intros t _. apply yields_ret. cbn. raw.
    + eapply yields_bind; [by apply propstat_ok|]. intros q' Hq'. by apply yields_ret.
  - repeat case_match; by apply yields_ret.
Qed.
Lemma next_response_ok : yields next_response (λ r, ∀ q, r = Some q → raw_ok q).
Proof.
  unfold next_response. apply (yields_events _ (λ _, True)); [|done]. intros s ev _. destruct ev; try (by apply yields_fail); try (by apply yields_ret).
  case_match; [|by apply yields_ret]. eapply yields_bind; [apply response_ok|]. intros q Hq. apply yields_ret. by intros ? [= <-].
Qed.
End harmless.

(** *** Paths *)

Lemma text_prefix_Some p t r : text_prefix p t = Some r ↔ t = p ++ r.
Proof.
  revert t. induction p as [|a p IH]; intros [|c t]; cbn; try naive_solver. destruct (N.eqb_spec a c) as [->|]; [rewrite IH|]; naive_solver.
Qed.

Section split.
Context (f : char → bool).
Lemma split_cons c t : ∃ p ps, split f t = p :: ps ∧ split f (c :: t) = if f c then [] :: p :: ps else (c :: p) :: ps.
Proof.
  revert c. induction t as [|d t IH]; intros c; [by exists [], []|]. destruct (IH d) as (p & ps & E & Ed). cbn [split] in *. rewrite E in *.
  destruct (f d); eexists _, _; done.
Qed.
Lemma split_nonempty t : split f t ≠ [].
Proof. destruct t as [|c t]; [done|]. destruct (split_cons c t) as (p & ps & _ & ->). by destruct (f c). Qed.
Lemma split_app_sep a c r : f c = true → split f (a ++ c :: r) = split f a ++ split f r.
Proof.
  intros Hc. induction a as [|d a IH]; cbn [app].
  - destruct (split_cons c r) as (p & ps & E & ->). by rewrite Hc, E.
  - destruct (split_cons d (a ++ c :: r)) as (p & ps & E & ->). destruct (split_cons d a) as (q & qs & E' & ->).
    rewrite IH, E' in E. injection E as <- <-. by destruct (f d).
Qed.
Lemma split_tail a b : tail (split f b) ⊆ tail (split f (a ++ b)).
Proof.
  induction a as [|d a IH]; cbn [app]; [done|]. etrans; [exact IH|]. destruct (split_cons d (a ++ b)) as (p & ps & -> & ->).
  destruct (f d); cbn; set_solver.
Qed.
Lemma split_chars t p : p ∈ split f t → Forall (λ c, f c = false ∧ c ∈ t) p.
Proof.
  revert p. induction t as [|d t IH]; intros p; [by intros ->%list_elem_of_singleton|]. destruct (split_cons d t) as (q & qs & E & ->). rewrite E in IH.
  assert (Hsub : ∀ l, Forall (λ c, f c = false ∧ c ∈ t) l → Forall (λ c, f c = false ∧ c ∈ d :: t) l).
  { intros l Hl. eapply Forall_impl; [exact Hl|]. intros c [? ?]. split; [done|by right]. }
  destruct (f d) eqn:Hd; intros [->|Hp]%elem_of_cons; [constructor|by apply Hsub, IH| |by apply Hsub, IH; right].
  constructor; [split; [done|by left]|]. apply Hsub, IH. by left.
Qed.
End split.
(** Splitting at more places splits the parts. *)
Lemma split_fine (f g : char → bool) t : (∀ c, f c = true → g c = true) → split g t = mjoin (split g <$> split f t).
Proof.
  intros Hfg. induction t as [|d t IH]; [done|]. destruct (split_cons f d t) as (q & qs & E & ->). rewrite E in IH. cbn in IH.
  destruct (split_cons g d t) as (p & ps & Eg & ->). destruct (f d) eqn:Hd.
  - rewrite (Hfg d Hd), <- Eg, IH. done.
  - destruct (split_cons g d q) as (h & hs & Eq & Edq). cbn [fmap list_fmap mjoin list_join]. rewrite Edq.
    rewrite IH, Eq in Eg. injection Eg as <- <-. by destruct (g d).
Qed.

Lemma components_elem t p : p ∈ components t → p ∈ split slash t ∧ p ≠ [] ∧ p ≠ txt ".".
Proof. intros [? Hp]%list_elem_of_In%filter_In. rewrite negb_true_iff in Hp. bool_prop. by rewrite list_elem_of_In. Qed.
Lemma components_tail t : tail (components t) ⊆ tail (split slash t).
Proof.
  unfold components. assert (Hf : ∀ l, List.filter (λ p : Text, negb (bool_decide (p = []) || bool_decide (p = txt "."))) l ⊆ l).
  { intros l p [? _]%list_elem_of_In%filter_In. by apply list_elem_of_In. }
  destruct (split slash t) as [|p l]; [done|]. cbn [List.filter tail]. destruct (negb _); cbn [tail]; [apply Hf|].
  etrans; [|apply Hf]. destruct (List.filter _ l); set_solver.
Qed.
(** A leading slash makes no component. *)
Lemma components_slash t : components (47 :: t) = components t.
Proof. unfold components. destruct (split_cons slash 47 t) as (p & ps & -> & ->). done. Qed.

(** A component of a path: not empty, not [.], without slashes and control characters. *)
Definition proper_name (p : Text) : Prop := p ≠ [] ∧ p ≠ txt "." ∧ 47 ∉ p ∧ clean p.
Definition dotdot : Text := txt "..".
(** A path below the root, an exception apart: a href that goes on after the prefix without
    a slash can begin with it. *)
Record proper_path (prefix : Text) (p : list Text) : Prop := {
  pp_names : Forall proper_name p;
  pp_tail : dotdot ∉ tail p;
  pp_head : prefix = [] → dotdot ∉ p;
}.

Section href.
Context `{WebTexts}.
Lemma href_remote href prefix p : href_to_remote_path href prefix = Some p → ∃ pre remote suf,
  percent_decode href = pre ++ remote ++ suf ∧ (pre = [] ∨ pre = prefix) ∧ Forall (λ c, slash c = true) suf ∧ p = components remote ∧
  clean (percent_decode href) ∧ dotdot ∉ split slash (percent_decode href).
Proof.
  unfold href_to_remote_path. set (d := percent_decode href). destruct (existsb _ (split _ d)) eqn:Hd; [done|].
  destruct (existsb is_control d) eqn:Hc; [done|]. intros [= <-]. destruct (trim_end_spec slash d) as (suf & E & Hs).
  set (trimmed := trim_end slash d) in *. set (remote := match prefix with [] => trimmed | _ => _ end).
  assert (Hr : ∃ pre, trimmed = pre ++ remote ∧ (pre = [] ∨ pre = prefix)).
  { subst remote. destruct prefix as [|c pre]; [exists []; by split; [|left]|]. destruct (text_prefix (c :: pre) trimmed) as [r|] eqn:Er.
    - apply text_prefix_Some in Er. exists (c :: pre). by split; [|right].
    - exists []. by split; [|left]. }
  destruct Hr as (pre & Er & Hpre). exists pre, remote, suf. split_and!; [by rewrite app_assoc, <- Er|done|done| | |].
  - clearbody remote. destruct remote as [|c r]; [done|]. case_match; [done|]. by rewrite components_slash.
  - apply Forall_forall. intros c Hin. destruct (is_control c) eqn:Ec; [|done]. rewrite <- not_true_iff_false in Hc. destruct Hc.
    apply existsb_exists. exists c. split; [by apply list_elem_of_In|done].
  - intros Hin. rewrite <- not_true_iff_false in Hd. apply Hd, existsb_exists. exists dotdot. split; [|done].
    apply list_elem_of_In. rewrite (split_fine slash _ d) by (intros c; unfold slash; intros ->; done).
    apply list_elem_of_join. exists (split (λ c, (c =? 47) || (c =? 92)) dotdot). split; [by apply list_elem_of_singleton|]. by apply list_elem_of_fmap_2.
Qed.

Lemma clean_part f t p : clean t → p ∈ split f t → clean p.
Proof.
  intros Ht Hp%split_chars. unfold clean in *. apply Forall_forall. intros c Hc. rewrite Forall_forall in Ht, Hp. by apply Ht, (Hp c).
Qed.
Lemma href_path href prefix p : href_to_remote_path href prefix = Some p → proper_path prefix p.
Proof.
  intros (pre & remote & suf & E & Hpre & Hs & -> & Hc & Hd)%href_remote. set (d := percent_decode href) in *.
  assert (Hs' : ∀ t, split slash (t ++ suf) = split slash t ++ match suf with [] => [] | _ :: r => split slash r end).
  { intros t. destruct suf as [|c r]; [by rewrite !app_nil_r|]. apply Forall_inv in Hs. by rewrite split_app_sep. }
  rewrite app_assoc in E. rewrite E, Hs', not_elem_of_app in Hd. destruct Hd as [Hd _].
  assert (Hct : clean remote) by (unfold clean in Hc; rewrite E, !Forall_app in Hc; tauto).
  split.
  - apply Forall_forall. intros c (Hin & H1 & H2)%components_elem. split_and!; [done|done| |by eapply clean_part].
    intros H47. apply split_chars in Hin. rewrite Forall_forall in Hin. by destruct (Hin 47 H47).
  - intros Hin%components_tail%(split_tail slash pre). apply Hd. by destruct (split slash (pre ++ remote)); [apply elem_of_nil in Hin|right].
  - intros ->. destruct Hpre as [->| ->]; intros [Hin _]%components_elem; by apply Hd.
Qed.
End href.

(** What an entry may carry, whoever wrote it. *)
Record harmless (prefix : Text) (d : DavEntry) : Prop := {
  hm_path : proper_path prefix (dv_path d);
  hm_labels t : dv_permissions d = Some t ∨ dv_owner_id d = Some t ∨ dv_owner_display_name d = Some t ∨ dv_locked_by d = Some t → clean t;
  hm_etag t : dv_etag d = Some t → proper_etag t;
  hm_size : dv_size d ≤ u64;
  hm_fileid i : dv_fileid d = Some i → i ≤ u64;
}.

Section parsed.
Context `{WebTexts}.

#[export] Instance loops_multi prefix me : Loops (λ u, r ← next_response; ret match r with Some q => inl (take_response prefix me q u) | None => inr u end).
Proof.
  split; [apply _|]. intros u evs u' rest. unfold bind. destruct (next_response evs) as [[[[q|] rest']|e]|] eqn:E; try done.
  intros Hr. injection Hr as _ <-. unfold next_response in E. revert E. induction evs as [|ev evs IH]; [by rewrite events_nil by apply _|].
  rewrite events_cons by apply _. destruct ev; cbn [bind ret fail]; try done; try (intros E; specialize (IH E); cbn; lia).
  destruct (is_tag name "response").
  - unfold bind, ret. destruct (reads (r := read_response) evs) as ([[q' r']|e] & -> & Hl); [|done]. specialize (Hl _ _ eq_refl). intros E. injection E as _ <-. cbn. lia.
  - intros E. specialize (IH E). cbn. lia.
Qed.

Lemma dav_entry_harmless prefix me q p : raw_ok q → proper_path prefix p → harmless prefix (dav_entry me q p).
Proof.
  intros [] Hp. split; cbn; [done| |done|by destruct (rr_is_collection q)|done]. intros t [?|[?|[?|Hl]]]; auto. revert Hl. unfold locked_against.
  destruct (negb _ || _); [done|]. intros [= <-]. destruct (rr_lock_owner_display q) as [o|] eqn:Eo; [auto|]. destruct (rr_lock_owner q) as [o|] eqn:El; cbn; [auto|].
  unfold clean. by repeat constructor.
Qed.
Definition multi_ok (prefix : Text) (u : Multi) : Prop :=
  (∀ d, mu_self u = Some d ∨ d ∈ mu_entries u → harmless prefix d) ∧ ∀ t, mu_etag u = Some t → proper_etag t.
Lemma take_ok prefix me q u : raw_ok q → multi_ok prefix u → multi_ok prefix (take_response prefix me q u).
Proof.
  intros Hq [H1 H2]. pose proof (ro_etag _ Hq) as He. unfold take_response. destruct (href_to_remote_path _ _) as [p|] eqn:Ep.
  - pose proof (dav_entry_harmless prefix me q p Hq (href_path _ _ _ Ep)) as Hd. destruct (mu_first u); split; cbn; [|done| |done].
    + intros d [[= <-]|?]; auto.
    + intros d [?|[?| ->%list_elem_of_singleton]%elem_of_app]; auto.
  - destruct (mu_first u); [split; cbn; auto|by split].
Qed.

(** C19: No server can smuggle anything in through a listing.  Whatever events its answer is
    made of, the parser ends with a listing or an error.  In a listing, every entry's path is
    made of proper names, not empty, not [.], without slashes or control characters, and no
    name but the first can be [..]; its permissions, owner and lock holder, which are echoed
    into line-framed replies, have no control characters; its size and file id fit their
    integers; and its etag and the directory's are not empty, which would match every later
    comparison, nor padded. *)
Theorem listing_harmless evs webdav_url me :
  (∃ r, parse_multistatus_stream evs webdav_url me = Some r) ∧
  ∀ etag self_entry entries, parse_multistatus_stream evs webdav_url me = Some (Ok (etag, self_entry, entries)) →
    (∀ d, self_entry = Some d ∨ d ∈ entries → harmless (webdav_prefix webdav_url) d) ∧ ∀ t, etag = Some t → proper_etag t.
Proof.
  unfold parse_multistatus_stream, answer, read_multi. set (prefix := webdav_prefix webdav_url). set (r := loop _ multi_start).
  split; [destruct (reads (r := r) evs) as ([[u rest]|e] & -> & _); by eexists|]. intros etag self_entry entries.
  assert (Hy : yields r (multi_ok prefix)).
  { apply (yields_loop _ (multi_ok prefix)); [|by split; [intros d [?|?%elem_of_nil]|]]. intros u Hu.
    eapply yields_bind; [apply next_response_ok|]. intros [q|] Hq; apply yields_ret; [by apply take_ok; [apply Hq|]|done]. }
  destruct (r evs) as [[[u rest]|e]|] eqn:E; try done. intros [= <- <- <-]. apply (Hy _ _ _ E).
Qed.
End parsed.

(** ** A listing that is written and read *)

Definition element (name : string) (content : list Event) : list Event := EvStart name :: content ++ [EvEnd name].
Definition prop (name : string) (t : Text) : list Event := element name match t with [] => [] | _ => [EvText (Some t)] end.
(** White space and comments between elements. *)
Definition is_gap (ev : Event) : Prop := match ev with EvText _ | EvOther => True | _ => False end.
Definition spread (gap : list Event) (l : list (list Event)) : list Event := mjoin ((λ x, gap ++ x) <$> l) ++ gap.

(** What a server has to say about a file or folder; [rs_missing]: properties it has not,
    echoed back empty. *)
Record Resource := {
  rs_href : Text; rs_path : list Text; rs_dir : bool; rs_size : N; rs_etag : Text; rs_date : Text; rs_type : option Text;
  rs_perms : Text; rs_id : N; rs_owner : Text; rs_owner_name : Text; rs_preview : bool; rs_shares : list Text;
  rs_lock : option (Text * Text * N); rs_missing : list string;
}.
Definition some_prop (name : string) (t : option Text) : list (list Event) := match t with Some t => [prop name t] | None => [] end.
Definition properties (r : Resource) : list (list Event) :=
  [if rs_dir r then element "d:resourcetype" [EvEmpty "d:collection"] else [EvEmpty "d:resourcetype"];
   if rs_dir r then prop "oc:size" (decimal (rs_size r)) else prop "d:getcontentlength" (decimal (rs_size r));
   prop "d:getetag" ([34] ++ rs_etag r ++ [34]); prop "d:getlastmodified" (rs_date r)] ++
  some_prop "d:getcontenttype" (rs_type r) ++
  [prop "oc:permissions" (rs_perms r); prop "oc:fileid" (decimal (rs_id r)); prop "oc:owner-id" (rs_owner r);
   prop "oc:owner-display-name" (rs_owner_name r); prop "nc:has-preview" (txt (if rs_preview r then "true" else "false"));
   element "oc:share-types" (mjoin (prop "oc:share-type" <$> rs_shares r))] ++
  match rs_lock r with
  | Some (o, d, t) => [prop "nc:lock" (txt "1"); prop "nc:lock-owner" o; prop "nc:lock-owner-displayname" d; prop "nc:lock-owner-type" (decimal t)]
  | None => [prop "nc:lock" []]
  end.
Definition write_resource (gap : list Event) (r : Resource) : list Event :=
  element "d:response" (spread gap
    [prop "d:href" (rs_href r);
     element "d:propstat" (spread gap [element "d:prop" (spread gap (properties r)); prop "d:status" (txt "HTTP/1.1 200 OK")]);
     element "d:propstat" (spread gap [element "d:prop" (EvEmpty <$> rs_missing r); prop "d:status" (txt "HTTP/1.1 404 Not Found")])]).
Definition write_listing (gap : list Event) (l : list Resource) : list Event :=
  gap ++ element "d:multistatus" (spread gap (write_resource gap <$> l)).

(** The next event goes round the loop, or ends it. *)
Ltac go := etrans; [eapply events_go; [loops|reflexivity]|]; cbn [app].
Ltac stop := eapply events_done; [loops|reflexivity].

Lemma read_text_prop t n rest : read_text (match t with [] => [] | _ => [EvText (Some t)] end ++ EvEnd n :: rest) = Some (Ok (t, rest)).
Proof. unfold read_text. destruct t as [|c t]; cbn [app]; [stop|go; stop]. Qed.
Lemma no_control_id t : clean t → no_control t = t.
Proof. unfold no_control. induction 1 as [|c t Hc _ IH]; cbn; [done|]. by rewrite Hc, IH. Qed.
Lemma read_label_prop t n rest : clean t →
  read_label (match t with [] => [] | _ => [EvText (Some t)] end ++ EvEnd n :: rest) = Some (Ok (t, rest)).
Proof. intros Ht. unfold read_label, bind. rewrite read_text_prop. unfold ret. by rewrite no_control_id. Qed.
Lemma read_collection rest :
  read_has_collection ([EvEmpty "d:collection"] ++ EvEnd "d:resourcetype" :: rest) = Some (Ok (true, rest)).
Proof. unfold read_has_collection. cbn [app]. go. stop. Qed.
Lemma read_children_shares l found rest :
  children_loop "share-types" found (mjoin (prop "oc:share-type" <$> l) ++ EvEnd "oc:share-types" :: rest) =
  Some (Ok (found || negb (bool_decide (l = [])), rest)).
Proof.
  revert found. induction l as [|t l IH]; intros found; cbn [fmap list_fmap mjoin list_join app].
  - rewrite orb_false_r. stop.
  - rewrite orb_true_r. unfold prop at 1, element. cbn [app]. rewrite <- !app_assoc. go.
    etrans; [|apply (IH true)]. destruct t as [|c t]; cbn [app]; [go; done|go; go; done].
Qed.

Section written.
Context `{WebTexts}.

Lemma propstat_start n q evs : read_propstat q (EvStart n :: evs) = bind (read_property (tag_local_name n) q) read_propstat evs.
Proof.
  unfold read_propstat at 1. rewrite events_cons by loops. unfold bind, ret. by destruct (read_property _ q evs) as [[[? ?]|]|].
Qed.
(** Reading [evs] within a propstat does [f] to the response. *)
Definition sets (evs : list Event) (f : RawResponse → RawResponse) : Prop := ∀ q rest, read_propstat q (evs ++ rest) = read_propstat (f q) rest.

Lemma sets_nil : sets [] (λ q, q).
Proof. done. Qed.
Lemma sets_app a b f g : sets a f → sets b g → sets (a ++ b) (λ q, g (f q)).
Proof. intros Ha Hb q rest. by rewrite <- app_assoc, Ha, Hb. Qed.
Lemma sets_quiet ev : is_gap ev ∨ (∃ n, ev = EvEmpty n) ∨ (∃ n, ev = EvEnd n ∧ is_tag n "propstat" = false) → sets [ev] (λ q, q).
Proof.
  intros Hev q rest. cbn [app]. destruct Hev as [Hg|[[n ->]|(n & -> & Hn)]]; [destruct ev as [| | |t| | |]; try done|..]; etrans;
    try (eapply events_go; [loops|reflexivity]); try done.
  eapply events_go; [loops|]. cbn beta iota. rewrite Hn. done.
Qed.
Lemma sets_all evs : Forall (λ ev, is_gap ev ∨ ∃ n, ev = EvEmpty n) evs → sets evs (λ q, q).
Proof.
  induction 1 as [|ev evs Hev _ IH]; [apply sets_nil|]. change (ev :: evs) with ([ev] ++ evs). apply (sets_app _ _ (λ q, q) (λ q, q)); [|done].
  apply sets_quiet. naive_solver.
Qed.
Lemma sets_spread gap l fs : Forall is_gap gap → Forall2 sets l fs → sets (spread gap l) (λ q, foldl (λ q f, f q) q fs).
Proof.
  intros Hg Hl. assert (Hgap : sets gap (λ q, q)) by (apply sets_all; eapply Forall_impl; [exact Hg|auto]). unfold spread.
  induction Hl as [|x f l fs Hx _ IH]; [done|]. cbn. rewrite <- !app_assoc. intros q rest. rewrite <- app_assoc, Hgap, <- app_assoc, Hx. by apply IH.
Qed.
(** The elements the code passes by: it reads on inside. *)
Lemma sets_element n content f : (∀ q, read_property (tag_local_name n) q = ret q) → is_tag n "propstat" = false → sets content f → sets (element n content) f.
Proof.
  intros Hn Ht Hc q rest. unfold element. cbn [app]. rewrite propstat_start, Hn, <- app_assoc. unfold bind, ret. rewrite Hc.
  apply (sets_quiet (EvEnd n)). eauto.
Qed.
(** A property the code knows. *)
Lemma sets_read n content (f : RawResponse → RawResponse) :
  (∀ q rest, read_property (tag_local_name n) q (content ++ EvEnd n :: rest) = Some (Ok (f q, rest))) → sets (element n content) f.
Proof.
  intros Hp q rest. unfold element. cbn [app]. rewrite propstat_start, <- app_assoc.
  cbn [app]. unfold bind. by rewrite Hp.
Qed.

Ltac known :=
  apply sets_read; intros q rest;
  match goal with |- context [tag_local_name ?n] => let t := eval vm_compute in (tag_local_name n) in change (tag_local_name n) with t end;
  unfold read_property; cbn [String.eqb Ascii.eqb Bool.eqb]; unfold bind;
  first [rewrite read_text_prop | rewrite read_label_prop by done | idtac]; unfold ret.

(** What the properties do to a response. *)
Definition effects (r : Resource) : list (RawResponse → RawResponse) :=
  [if rs_dir r then set_is_collection true else λ q, q;
   if rs_dir r then set_oc_size (rs_size r) else set_content_length (rs_size r);
   set_etag (Some (rs_etag r)); set_last_modified (http_date (rs_date r))] ++
  match rs_type r with Some t => [set_content_type (Some t)] | None => [] end ++
  [set_permissions (Some (rs_perms r)); set_fileid (Some (rs_id r)); set_owner_id (Some (rs_owner r));
   set_owner_display_name (Some (rs_owner_name r)); set_has_preview (rs_preview r);
   set_is_shared (negb (bool_decide (rs_shares r = [])))] ++
  match rs_lock r with
  | Some (o, d, t) => [set_lock true; set_lock_owner (Some o); set_lock_owner_display (Some d); set_lock_owner_type (Some t)]
  | None => [λ q, q]
  end.
(** What can be said of it is what a server says: texts without control characters, numbers
    that fit, an etag that is one. *)
Record sayable (r : Resource) : Prop := {
  sy_numbers : rs_size r ≤ u64 ∧ rs_id r ≤ u64;
  sy_labels : clean (rs_perms r) ∧ clean (rs_owner r) ∧ clean (rs_owner_name r);
  sy_etag : proper_etag (rs_etag r) ∧ drop_while quote (rs_etag r) = rs_etag r ∧ trim_end quote (rs_etag r) = rs_etag r;
  sy_lock o d t : rs_lock r = Some (o, d, t) → clean o ∧ clean d ∧ o ≠ [] ∧ d ≠ [] ∧ t ≤ 255;
}.

Lemma trim_end_snoc {A} (f : A → bool) l x : trim_end f (l ++ [x]) = if f x then trim_end f l else l ++ [x].
Proof. unfold trim_end. rewrite rev_app_distr. cbn. destruct (f x); [done|]. cbn. by rewrite rev_involutive. Qed.
Lemma etag_of_quoted e : proper_etag e → drop_while quote e = e → trim_end quote e = e → etag_of ([34] ++ e ++ [34]) = Some e.
Proof.
  intros [Hne Hw] Hd He. unfold etag_of. assert (E1 : trim_both is_whitespace ([34] ++ e ++ [34]) = ([34] ++ e) ++ [34]).
  { unfold trim_both. change (drop_while is_whitespace ([34] ++ e ++ [34])) with (([34] ++ e) ++ [34]). by rewrite trim_end_snoc. }
  rewrite E1. assert (E2 : trim_both quote (([34] ++ e) ++ [34]) = e).
  { unfold trim_both. cbn [app drop_while]. change (quote 34) with true. cbv iota. destruct e as [|c e]; [done|]. cbn [app drop_while] in *.
    destruct (quote c) eqn:Ec.
    - exfalso. destruct (drop_while_spec quote e) as (l & E & _). apply (f_equal length) in E. rewrite length_app, Hd in E. cbn in E. lia.
    - change (c :: e ++ [34]) with ((c :: e) ++ [34]). by rewrite trim_end_snoc. }
  rewrite E2, Hw. by case_bool_decide.
Qed.
Lemma trim_decimal n : trim_both is_whitespace (decimal n) = decimal n.
Proof.
  assert (Hd : ∀ t k m, digits t k = Some m → Forall (λ c, is_whitespace c = false) t).
  { induction t as [|c t IH]; intros k m; cbn; [constructor|]. destruct ((48 <=? c) && (c <=? 57)) eqn:Hc; [|done]. intros Hm. constructor; [|by eapply IH].
    apply andb_true_iff in Hc as [H1%N.leb_le H2%N.leb_le]. assert (Hin : c ∈ (λ n, N.of_nat n) <$> seq 48 10).
    { apply list_elem_of_fmap. exists (N.to_nat c). split; [lia|]. apply elem_of_seq. lia. }
    cbn in Hin. set_unfold. by repeat destruct Hin as [->|Hin]. }
  pose proof (Hd _ _ _ (digits_decimal n)) as Hf. generalize dependent (decimal n). intros t Hf.
  assert (E : ∀ l, Forall (λ c, is_whitespace c = false) l → drop_while is_whitespace l = l) by (intros l Hl; destruct Hl as [|c l Hc]; [done|]; cbn; by rewrite Hc).
  unfold trim_both, trim_end. rewrite (E t) by done. rewrite E; [apply rev_involutive|]. by apply List.Forall_rev.
Qed.

Lemma sets_properties r : sayable r → Forall2 sets (properties r) (effects r).
Proof.
  intros [[Hn1 Hn2] (Hl1 & Hl2 & Hl3) (He1 & He2 & He3) Hlock]. unfold properties, effects, some_prop.
  assert (Hs : ∀ n, n ≤ u64 → parse_uint u64 (decimal n) = Some n) by (intros; by apply parse_decimal).
  repeat (apply Forall2_app); repeat (apply Forall2_cons_2); try apply Forall2_nil_2.
  - destruct (rs_dir r); [known; by rewrite read_collection|apply (sets_quiet (EvEmpty _)); eauto].
  - destruct (rs_dir r); known; by rewrite Hs.
  - known. by rewrite etag_of_quoted.
  - by known.
  - destruct (rs_type r); repeat constructor. by known.
  - by known.
  - known. by rewrite Hs.
  - by known.
  - by known.
  - known. by destruct (rs_preview r).
  - known. unfold read_has_children. by rewrite read_children_shares.
  - destruct (rs_lock r) as [[[o d] t]|]; [|repeat constructor; by known].
    destruct (Hlock o d t eq_refl) as (Ho & Hd & Hno & Hnd & Ht). repeat apply Forall2_cons_2; try apply Forall2_nil_2; known.
    + done.
    + by rewrite bool_decide_false.
    + by rewrite bool_decide_false.
    + by rewrite trim_decimal, parse_decimal.
Qed.

(** The same for a response: reading [evs] does [f]. *)
Definition answers (evs : list Event) (f : RawResponse → RawResponse) : Prop :=
  ∀ q rest, response_loop (q, 1%nat) (evs ++ rest) = response_loop (f q, 1%nat) rest.
Lemma answers_gap gap : Forall is_gap gap → answers gap (λ q, q).
Proof.
  intros Hg q. induction Hg as [|ev gap Hev _ IH]; intros rest; [done|]. cbn [app]. etrans; [|apply IH].
  destruct ev; try done; (eapply events_go; [loops|reflexivity]).
Qed.
Lemma answers_spread gap l fs : Forall is_gap gap → Forall2 answers l fs → answers (spread gap l) (λ q, foldl (λ q f, f q) q fs).
Proof.
  intros Hg Hl. pose proof (answers_gap gap Hg) as Hgap. unfold spread.
  induction Hl as [|x f l fs Hx _ IH]; [done|]. cbn. rewrite <- !app_assoc. intros q rest. rewrite <- app_assoc, Hgap, <- app_assoc, Hx. by apply IH.
Qed.
Lemma answers_href t : answers (prop "d:href" t) (set_href t).
Proof.
  intros q rest. unfold prop, element. cbn [app]. rewrite <- app_assoc. eapply events_go; [loops|]. cbn beta iota.
  change (is_tag "d:href" "response") with false. change (is_tag "d:href" "href") with true. cbv iota. unfold bind. cbn [app]. by rewrite read_text_prop.
Qed.
Lemma answers_propstat content f : sets content f → answers (element "d:propstat" content) f.
Proof.
  intros Hc q rest. unfold element. cbn [app]. rewrite <- app_assoc. eapply events_go; [loops|]. cbn beta iota.
  change (is_tag "d:propstat" "response") with false. change (is_tag "d:propstat" "href") with false. change (is_tag "d:propstat" "propstat") with true.
  cbv iota. unfold bind. rewrite Hc. cbn [app]. unfold read_propstat. erewrite events_done; [|loops|reflexivity]. done.
Qed.
Lemma sets_status t : sets (prop "d:status" t) (λ q, q).
Proof. apply sets_element; [done|done|]. apply sets_all. destruct t; repeat constructor. Qed.

(** What a resource's response says. *)
Definition raw_of (r : Resource) : RawResponse := foldl (λ q f, f q) (set_href (rs_href r) raw_default) (effects r).
Lemma read_written gap r rest : Forall is_gap gap → sayable r → next_response (write_resource gap r ++ rest) = Some (Ok (Some (raw_of r), rest)).
Proof.
  intros Hg Hs. unfold write_resource. set (content := spread gap _). assert (Hr : answers content (λ q, foldl (λ q f, f q) (set_href (rs_href r) q) (effects r))).
  { set (found := λ q : RawResponse, foldl (λ q f, f q) q (effects r)).
    apply (answers_spread gap _ [set_href (rs_href r); found; λ q, q] Hg).
    repeat apply Forall2_cons_2; [apply answers_href| | |apply Forall2_nil_2]; apply answers_propstat.
    - apply (sets_spread gap _ [found; λ q, q] Hg). repeat apply Forall2_cons_2; [|apply sets_status|apply Forall2_nil_2].
      apply sets_element; [done|done|]. apply sets_spread; [done|by apply sets_properties].
    - apply (sets_spread gap _ [λ q, q; λ q, q] Hg). repeat apply Forall2_cons_2; [|apply sets_status|apply Forall2_nil_2].
      apply sets_element; [done|done|]. apply sets_all. induction (rs_missing r); constructor; eauto. }
  unfold element. cbn [app]. rewrite <- app_assoc. eapply events_done; [loops|]. cbn beta iota. change (is_tag "d:response" "response") with true.
  cbv iota. unfold bind, read_response. rewrite Hr. cbn [app]. unfold response_loop. erewrite events_done; [|loops|reflexivity]. done.
Qed.
Lemma next_gap gap rest : Forall is_gap gap → next_response (gap ++ rest) = next_response rest.
Proof.
  induction 1 as [|ev gap Hev _ IH]; [done|]. rewrite <- IH. destruct ev; try done; (eapply events_go; [loops|reflexivity]).
Qed.
Lemma next_end gap : Forall is_gap gap → next_response (EvEnd "d:multistatus" :: gap) = Some (Ok (None, [])).
Proof.
  intros Hg. etrans; [eapply events_go; [loops|reflexivity]|]. change (next_response gap = Some (Ok (None, []))). rewrite <- (app_nil_r gap), next_gap by done.
  unfold next_response. by rewrite events_nil by loops.
Qed.
End written.

(** *** Paths that are written and read *)

Definition both (c : char) : bool := (c =? 47) || (c =? 92).
Definition flat_path (p : list Text) : Text := mjoin ((λ n, 47 :: n) <$> p).
(** A name a server can give a file: proper, and nothing in it reads as [..]. *)
Definition file_like (n : Text) : Prop := proper_name n ∧ dotdot ∉ split both n.

Lemma split_one n : 47 ∉ n → split slash n = [n].
Proof.
  induction n as [|c n IH]; [done|]. intros [Hc Hn]%not_elem_of_cons. cbn [split]. rewrite IH by done. unfold slash.
  by destruct (N.eqb_spec c 47) as [->|].
Qed.
Lemma split_flat p : Forall file_like p → split slash (flat_path p) = [] :: p ∨ p = [].
Proof.
  intros Hp. destruct p as [|n p]; [by right|left]. revert n Hp. induction p as [|m p IH]; intros n [[(_ & _ & Hn & _) _] Hp]%Forall_cons.
  - cbn. rewrite app_nil_r, (split_one n) by done. done.
  - specialize (IH m Hp). change (flat_path (n :: m :: p)) with ([] ++ 47 :: (n ++ flat_path (m :: p))). rewrite (split_app_sep slash) by done.
    change (flat_path (m :: p)) with (47 :: (m ++ flat_path p)) in *. rewrite split_app_sep by done.
    change (47 :: m ++ flat_path p) with ([] ++ 47 :: (m ++ flat_path p)) in IH. rewrite (split_app_sep slash []) in IH by done.
    change (split slash []) with [@nil N] in *. cbn [app] in *. injection IH as ->. by rewrite split_one.
Qed.
Lemma components_flat p : Forall file_like p → components (flat_path p) = p.
Proof.
  intros Hp. destruct (split_flat p Hp) as [E| ->]; [|done]. unfold components. rewrite E. cbn [List.filter].
  change (negb (bool_decide ([] = []) || bool_decide ([] = txt "."))) with false. cbv iota.
  induction Hp as [|n p [(H1 & H2 & _) _] Hp IH]; [done|]. cbn [List.filter]. rewrite !bool_decide_false by done. cbn. f_equal. destruct (split_flat p Hp) as [E'| ->]; auto.
Qed.
Lemma trim_flat pre p : Forall file_like p → p ≠ [] → trim_end slash (pre ++ flat_path p) = pre ++ flat_path p.
Proof.
  intros Hp Hne. destruct p as [|n p _] using rev_ind; [done|]. apply Forall_app in Hp as [_ [[(Hn & _ & H47 & _) _] _]%Forall_cons].
  destruct n as [|c n _] using rev_ind; [done|]. unfold flat_path. rewrite fmap_app, join_app. cbn. rewrite app_nil_r, (app_comm_cons _ _ 47), !app_assoc, trim_end_snoc.
  unfold slash. destruct (N.eqb_spec c 47) as [->|]; [|done]. exfalso. set_solver.
Qed.
Lemma dotdot_flat p t : Forall file_like p → t = [] ∨ t = [47] → dotdot ∉ split both (flat_path p ++ t).
Proof.
  intros Hp Ht. induction Hp as [|n p [_ Hn] _ IH]; [by destruct Ht as [->| ->]; vm_compute; set_solver|].
  change (flat_path (n :: p) ++ t) with (([] ++ 47 :: (n ++ flat_path p)) ++ t). rewrite <- app_assoc. cbn [app].
  change (47 :: (n ++ flat_path p) ++ t) with ([] ++ 47 :: ((n ++ flat_path p) ++ t)). rewrite (split_app_sep both []) by done.
  rewrite not_elem_of_app. split; [vm_compute; set_solver|]. rewrite <- app_assoc. destruct p as [|m p].
  - destruct Ht as [->| ->]; cbn [flat_path fmap list_fmap mjoin list_join app]; [by rewrite app_nil_r|]. rewrite split_app_sep by done.
    rewrite not_elem_of_app. split; [done|]. vm_compute. set_solver.
  - change (flat_path (m :: p) ++ t) with (47 :: (m ++ flat_path p) ++ t) in *. rewrite split_app_sep by done.
    change (47 :: (m ++ flat_path p) ++ t) with ([] ++ 47 :: ((m ++ flat_path p) ++ t)) in IH. rewrite (split_app_sep both []) in IH by done.
    rewrite not_elem_of_app in *. tauto.
Qed.

Section listing.
Context `{WebTexts}.

(** Where a resource is: its href, decoded, is the folder's URL path and its own. *)
Record placed (prefix : Text) (r : Resource) : Prop := {
  pl_href : percent_decode (rs_href r) = prefix ++ flat_path (rs_path r) ++ (if rs_dir r then [47] else []);
  pl_names : Forall file_like (rs_path r);
  pl_root : rs_path r = [] → rs_dir r = true;
}.
Record plain_prefix (prefix : Text) : Prop := {
  pf_end : trim_end slash prefix = prefix;
  pf_clean : clean prefix;
  pf_parts : dotdot ∉ split both prefix;
}.

Lemma href_placed prefix r : plain_prefix prefix → placed prefix r → href_to_remote_path (rs_href r) prefix = Some (rs_path r).
Proof.
  intros [Hpe Hpc Hpp] [Hh Hn Hroot]. unfold href_to_remote_path. rewrite Hh. set (suf := if rs_dir r then [47] else []).
  assert (Hsuf : suf = [] ∨ suf = [47]) by (subst suf; destruct (rs_dir r); auto).
  assert (H1 : existsb (λ p, bool_decide (p = txt "..")) (split both (prefix ++ flat_path (rs_path r) ++ suf)) = false).
  { apply not_true_iff_false. intros (p & Hp & ->%bool_decide_eq_true)%existsb_exists. apply list_elem_of_In in Hp. revert Hp.
    change (dotdot ∉ split both (prefix ++ flat_path (rs_path r) ++ suf)).
    destruct (rs_path r) as [|n p] eqn:Ep.
    - assert (suf = [47]) as -> by (subst suf; by rewrite Hroot). change (flat_path [] ++ [47]) with [47].
      rewrite split_app_sep, not_elem_of_app by done. split; [done|vm_compute; set_solver].
    - pose proof (dotdot_flat _ _ Hn Hsuf) as Hd. change (flat_path (n :: p) ++ suf) with (47 :: (n ++ flat_path p) ++ suf) in *.
      rewrite split_app_sep by done. change (47 :: (n ++ flat_path p) ++ suf) with ([] ++ 47 :: ((n ++ flat_path p) ++ suf)) in Hd.
      rewrite (split_app_sep both []) in Hd by done. rewrite not_elem_of_app in *. tauto. }
  change (λ c, (c =? 47) || (c =? 92)) with both. rewrite H1.
  assert (H2 : existsb is_control (prefix ++ flat_path (rs_path r) ++ suf) = false).
  { apply not_true_iff_false. intros (c & Hc & Hcc)%existsb_exists. apply list_elem_of_In in Hc. unfold clean in Hpc. rewrite Forall_forall in Hpc.
    apply elem_of_app in Hc as [Hc|[Hc|Hc]%elem_of_app]; [by rewrite Hpc in Hcc| |].
    2: { destruct Hsuf as [E|E]; rewrite E in Hc; [by apply elem_of_nil in Hc|]. by apply list_elem_of_singleton in Hc as ->. }
    unfold flat_path in Hc. apply list_elem_of_join in Hc as (l & Hc & (n & -> & Hin)%list_elem_of_fmap). rewrite Forall_forall in Hn.
    destruct (Hn n Hin) as [(_ & _ & _ & Hcl) _]. unfold clean in Hcl. rewrite Forall_forall in Hcl. apply elem_of_cons in Hc as [->|Hc]; [done|by rewrite Hcl in Hcc]. }
  rewrite H2. assert (Ht : trim_end slash (prefix ++ flat_path (rs_path r) ++ suf) = prefix ++ flat_path (rs_path r)).
  { assert (Htt : trim_end slash (prefix ++ flat_path (rs_path r)) = prefix ++ flat_path (rs_path r)).
    { destruct (decide (rs_path r = [])) as [->|Hne]; [by rewrite app_nil_r|by apply trim_flat]. }
    destruct Hsuf as [-> | ->]; [by rewrite app_nil_r|]. by rewrite app_assoc, trim_end_snoc. }
  rewrite Ht. set (remote := match prefix with [] => _ | _ => _ end). assert (Hr : remote = flat_path (rs_path r)).
  { subst remote. destruct prefix as [|c pre]; [done|]. by rewrite (proj2 (text_prefix_Some _ _ _) eq_refl). }
  rewrite Hr. f_equal. destruct (rs_path r) as [|n p] eqn:Ep; [done|]. change (flat_path (n :: p)) with (47 :: n ++ flat_path p) at 1. cbn [slash].
  by apply components_flat.
Qed.

(** The entry a resource is meant to be read as. *)
Definition entry_of (me : Text) (r : Resource) : DavEntry :=
  {| dv_path := rs_path r; dv_is_dir := rs_dir r; dv_size := rs_size r; dv_modified := http_date (rs_date r);
     dv_etag := Some (rs_etag r); dv_content_type := rs_type r; dv_has_preview := rs_preview r;
     dv_is_shared := negb (bool_decide (rs_shares r = [])); dv_permissions := Some (rs_perms r); dv_fileid := Some (rs_id r);
     dv_owner_id := Some (rs_owner r); dv_owner_display_name := Some (rs_owner_name r);
     dv_locked_by := match rs_lock r with
                     | Some (o, d, t) => if bool_decide (t = 0) && bool_decide (o = me) then None else Some d
                     | None => None
                     end |}.
Lemma bool_decide_Some {A} `{EqDecision A} (x y : A) : bool_decide (Some x = Some y) = bool_decide (x = y).
Proof. apply bool_decide_ext. naive_solver. Qed.
Lemma raw_of_entry me r : dav_entry me (raw_of r) (rs_path r) = entry_of me r ∧ rr_etag (raw_of r) = Some (rs_etag r) ∧ rr_href (raw_of r) = rs_href r.
Proof.
  destruct r as [href path dir size etag date type perms id owner name prev shares lock missing].
  destruct dir, type, lock as [[[o d] t]|]; cbn; unfold dav_entry, entry_of, locked_against; cbn; split_and!; try done;
    by rewrite !bool_decide_Some.
Qed.

Lemma read_all gap prefix me l u tail_ : Forall is_gap gap → plain_prefix prefix → Forall (λ r, sayable r ∧ placed prefix r) l →
  let body := λ u, r ← next_response; ret match r with Some q => inl (take_response prefix me q u) | None => inr u end in
  loop body u (mjoin ((λ r, gap ++ write_resource gap r) <$> l) ++ tail_) = loop body (foldl (λ u r, take_response prefix me (raw_of r) u) u l) tail_.
Proof.
  intros Hg Hp Hl body. revert u. induction Hl as [|r l [Hs Hpl] _ IH]; intros u; [done|]. cbn [fmap list_fmap mjoin list_join foldl].
  rewrite <- IH, <- !app_assoc. rewrite loop_eq by apply loops_multi. unfold body at 1, bind at 1. unfold bind at 1.
  rewrite next_gap, read_written by done. done.
Qed.

Lemma read_listing gap prefix me l u : Forall is_gap gap → plain_prefix prefix → Forall (λ r, sayable r ∧ placed prefix r) l →
  let body := λ u, r ← next_response; ret match r with Some q => inl (take_response prefix me q u) | None => inr u end in
  loop body u (write_listing gap l ++ []) = Some (Ok (foldl (λ u r, take_response prefix me (raw_of r) u) u l, [])).
Proof.
  intros Hg Hp Hl body. assert (Hn : ∀ u a b, next_response a = next_response b → loop body u a = loop body u b).
  { intros v a b E. rewrite !(loop_eq body v) by apply loops_multi. unfold body at 1 3, bind. by rewrite E. }
  unfold write_listing, element, spread. cbn [app]. rewrite app_nil_r.
  set (rest := (mjoin _ ++ gap) ++ [EvEnd "d:multistatus"]). rewrite (Hn u _ rest).
  2: { rewrite next_gap by done. eapply events_go; [loops|reflexivity]. }
  subst rest. rewrite <- list_fmap_compose, <- app_assoc. rewrite (read_all gap prefix me l u) by done. fold body.
  rewrite loop_eq by apply loops_multi. unfold body at 1, bind. rewrite next_gap, next_end by done || apply Forall_nil_2. done.
Qed.


(** ** Streaming it *)

Section streamed.
Context (room : nat) (prefix me : Text).
Local Abbreviation body := (λ u, r ← next_response; ret match r with Some q => inl (take_response prefix me q u) | None => inr u end).

(** Once the first response is in, the rest only adds entries. *)
Lemma multi_grows u : mu_first u = false →
  yields (loop body u) (λ u', mu_etag u' = mu_etag u ∧ mu_self u' = mu_self u ∧ mu_entries u `prefix_of` mu_entries u').
Proof.
  intros Hf. apply (yields_loop _ (λ u', mu_first u' = false ∧ mu_etag u' = mu_etag u ∧ mu_self u' = mu_self u ∧ mu_entries u `prefix_of` mu_entries u')); [|by split_and!].
  intros v (Hv & He & Hs & Hp). apply (yields_bind _ _ (λ _, True)); [apply yields_any|]. intros [q|] _; apply yields_ret; [|done].
  unfold take_response. rewrite Hv. destruct (href_to_remote_path _ _); cbn; split_and!; try done. by apply prefix_app_r.
Qed.
Definition alike (u : Multi) (v : Sent) : Prop :=
  mu_first u = st_first v ∧ mu_etag u = st_etag v ∧ st_self v = option_list (mu_self u) ∧ st_sent v = mu_entries u ∧ (length (mu_entries u) ≤ room)%nat ∧
  (mu_first u = true → mu_self u = None).
Lemma send_alike q u v : alike u v →
  let '(v', on) := send_response room prefix me q v in let u' := take_response prefix me q u in
  if on then alike u' v' else v' = v ∧ length (mu_entries u) = room ∧ mu_first u' = false ∧ mu_etag u' = mu_etag u ∧ mu_self u' = mu_self u ∧
    mu_entries u `prefix_of` mu_entries u'.
Proof.
  intros (Hf & He & Hs & Hn & Hr & H1). unfold send_response, take_response, alike. rewrite <- Hf, Hn.
  destruct (length (mu_entries u) <? room)%nat eqn:El; bool_prop; destruct (href_to_remote_path _ _) as [p|];
    destruct (mu_first u) eqn:Ef; cbn; split_and?; try done; try (by rewrite Hs, H1); try lia; try (by apply prefix_app_r); try (by intros [=]);
    try (rewrite length_app; cbn; lia); congruence.
Qed.
Lemma stream_alike n u v evs : alike u v → (length evs < n)%nat →
  ∃ r v', stream_ n room prefix me v evs = Some (r, v') ∧
    match loop body u evs with
    | Some (Ok (u', _)) => r = Ok tt ∧ st_etag v' = mu_etag u' ∧ st_self v' = option_list (mu_self u') ∧ st_sent v' = take room (mu_entries u')
    | Some (Err e) => r = Err e ∨ r = Ok tt ∧ length (st_sent v') = room
    | None => False
    end.
Proof.
  revert u v evs. induction n as [|n IH]; intros u v evs Ha Hn; [lia|]. cbn [stream_]. rewrite loop_eq by apply loops_multi. unfold bind at 1, bind at 1.
  destruct (next_response evs) as [[[[q|] rest]|e]|] eqn:E.
  - assert (Hl : (length rest < length evs)%nat).
    { apply (loops_takes (Loops := loops_multi prefix me) u evs (take_response prefix me q u) rest). unfold bind. by rewrite E. }
    pose proof (send_alike q u v Ha) as Hs. destruct (send_response room prefix me q v) as [v1 [|]]; [by apply IH; [|lia]|].
    destruct Hs as (-> & Hroom & Hf & He & Hself & Hpre). exists (Ok tt), v. split; [done|]. unfold ret at 1.
    set (u1 := take_response prefix me q u) in *. destruct (reads (r := loop body u1) rest) as ([[u' r']|e] & El & _); rewrite El.
    + apply (multi_grows u1 Hf) in El as (He' & Hs' & Hp'). destruct Ha as (_ & He0 & Hs0 & Hn0 & _). split_and!; [done|congruence|congruence|].
      destruct (transitivity Hpre Hp') as [l ->]. by rewrite Hn0, take_app_length' by done.
    + right. destruct Ha as (_ & _ & _ & -> & _). done.
  - exists (Ok tt), v. split; [done|]. destruct Ha as (_ & He0 & Hs0 & Hn0 & Hr & _). split_and!; [done|done|done|]. by rewrite Hn0, firstn_all2.
  - exists (Err e), v. split; [done|]. by left.
  - destruct (reads (r := next_response) evs) as (x & Ex & _). congruence.
Qed.
End streamed.

(** C21: A streamed listing is the listing.  Whatever the server sends: where the whole answer
    parses, the streamed request ends with the same etag, has sent the folder's own entry on
    its channel and, to a receiver that takes [room] entries before it hangs up, exactly the
    first [room] entries in order; where the answer breaks off, it ends with the same error,
    unless the receiver had hung up before. *)
Theorem streamed_listing_same room evs webdav_url me :
  ∃ r u, propfind_list_streaming room evs webdav_url me = Some (r, u) ∧
    match parse_multistatus_stream evs webdav_url me with
    | Some (Ok (etag, self_entry, entries)) => r = Ok etag ∧ st_self u = option_list self_entry ∧ st_sent u = take room entries
    | Some (Err e) => r = Err e ∨ (∃ etag, r = Ok etag) ∧ length (st_sent u) = room
    | None => False
    end.
Proof.
  unfold propfind_list_streaming, parse_multistatus_stream, answer, read_multi. set (prefix := webdav_prefix webdav_url).
  destruct (stream_alike room prefix me (S (length evs)) multi_start sent_start evs) as (r & u & E & Hm); [|lia|].
  { split_and!; try done. cbn. lia. }
  rewrite E. exists (map_ok (λ _, st_etag u) r), u. split; [done|]. set (l := loop _ multi_start evs) in *.
  destruct l as [[[u' rest]|e]|]; [|destruct Hm as [->|[-> ?]]; [by left|right; split; [by eexists|done]]|done].
  destruct Hm as (-> & He & Hs & Hn). cbn. by rewrite He.
Qed.
End listing.

(** ** The runs behind the theorems *)

Definition hex (c : char) : option N :=
  if (48 <=? c) && (c <=? 57) then Some (c - 48) else if (65 <=? c) && (c <=? 70) then Some (c - 55)
  else if (97 <=? c) && (c <=? 102) then Some (c - 87) else None.
Fixpoint decode_escapes (t : Text) : Text :=
  match t with
  | 37 :: ((a :: b :: t') as rest) =>
      match hex a, hex b with Some x, Some y => (16 * x + y) :: decode_escapes t' | _, _ => 37 :: decode_escapes rest end
  | c :: t' => c :: decode_escapes t'
  | [] => []
  end.
(** Escapes of ASCII, URLs given as their path. *)
Definition pw_texts : WebTexts := {| percent_decode := decode_escapes; http_date := λ _, None; url_path := Some |}.
Definition pw_url : Text := txt "/dav/files/user/".
Definition pw_gap : list Event := [EvText (Some [10; 32])].
Definition pw_dir : Resource :=
  {| rs_href := txt "/dav/files/user/"; rs_path := []; rs_dir := true; rs_size := 3; rs_etag := txt "abc"; rs_date := []; rs_type := None;
     rs_perms := txt "RGDNVCK"; rs_id := 100; rs_owner := txt "user"; rs_owner_name := txt "A User"; rs_preview := false; rs_shares := [];
     rs_lock := None; rs_missing := ["nc:lock-owner"%string] |}.
Definition pw_file : Resource :=
  {| rs_href := txt "/dav/files/user/my%20file.odt"; rs_path := [txt "my file.odt"]; rs_dir := false; rs_size := 3; rs_etag := txt "def"; rs_date := [];
     rs_type := Some (txt "application/odt"); rs_perms := txt "RGDNVW"; rs_id := 101; rs_owner := txt "ana"; rs_owner_name := txt "Ana";
     rs_preview := true; rs_shares := [txt "0"]; rs_lock := Some (txt "ana", txt "Ana", 0); rs_missing := [] |}.

Ltac concrete := first [done | by vm_compute | by vm_compute; repeat constructor | by vm_compute; set_solver | by vm_compute; intros [=]].
Lemma pw_dir_ok : sayable pw_dir ∧ placed (H := pw_texts) (webdav_prefix (H := pw_texts) pw_url) pw_dir.
Proof. split; split; [split| | |..]; try concrete. Qed.
Lemma pw_file_ok : sayable pw_file ∧ placed (H := pw_texts) (webdav_prefix (H := pw_texts) pw_url) pw_file.
Proof.
  split; split; [split| | |..]; try concrete.
  apply Forall_singleton. split; [split_and!|]; concrete.
Qed.

(** The prefix is taken off wherever the text goes on: a href that continues the folder's
    name with two dots passes the check for [..] and then begins with one. *)
Lemma dotdot_after_prefix :
  href_to_remote_path (H := pw_texts) (txt "/dav/files/user../secret") (webdav_prefix (H := pw_texts) pw_url) = Some [txt ".."; txt "secret"].
Proof. by vm_compute. Qed.
(** The prefix is the URL's path as it is written there, the href is decoded first: with a
    user name that the URL escapes, no entry is below the prefix, and all come out with the
    whole URL path. *)
Lemma escaped_user_not_stripped :
  href_to_remote_path (H := pw_texts) (txt "/dav/files/john.doe/a.txt") (webdav_prefix (H := pw_texts) (txt "/dav/files/john%2Edoe/")) =
    Some [txt "dav"; txt "files"; txt "john.doe"; txt "a.txt"].
Proof. by vm_compute. Qed.
(** Used and available are each checked, their sum is not. *)
Lemma quota_sum_wraps :
  propfind_quota [EvStart "d:quota-used-bytes"; EvText (Some (decimal u64)); EvEnd "d:quota-used-bytes";
                  EvStart "d:quota-available-bytes"; EvText (Some (txt "1")); EvEnd "d:quota-available-bytes"] = Ok (u64, 0).
Proof. by vm_compute. Qed.
