(* ===== verification/Server.v ===== *)
(** A small WebDAV server, the concrete [CloudBackend] at which the theorems about uploads
    and replay are instantiated.

    It answers as HTTP and Nextcloud's chunked upload document: [If-Match] against a missing
    or different version is refused as a precondition failure, a PUT into a missing folder
    is 409, a MOVE or DELETE of a missing resource is 404, MKCOL over an existing one 405,
    and a chunk session assembles its chunks in the order of their indices. *)
From stdpp Require Import pretty.
From S2P Require Import Prelude Paths Backend.

Record Srv := {
  sv_files : gmap PathBuf (bytes * nat);
  sv_dirs : gset PathBuf;
  sv_chunks : gmap string (gmap Z bytes);
  sv_version : nat;
}.

Definition etag_of (v : nat) : Etag := pretty v.
Definition content (w : Srv) (p : PathBuf) : option bytes := fst <$> sv_files w !! p.

Definition matches (w : Srv) (p : PathBuf) (if_match : option Etag) : bool :=
  match if_match with
  | None => true
  | Some t => match sv_files w !! p with Some (_, v) => bool_decide (etag_of v = t) | None => false end
  end.
Definition folder_exists (w : Srv) (p : PathBuf) : bool :=
  match p with [] => true | _ => bool_decide (p ∈ sv_dirs w) end.

Definition set_srv (w : Srv) (f : gmap PathBuf (bytes * nat)) (d : gset PathBuf) : Srv :=
  Build_Srv f d (sv_chunks w) (S (sv_version w)).

Definition srv_put (p : PathBuf) (b : bytes) (m : option Etag) (w : Srv) :
    result PutResult BackendWriteError * Srv :=
  if negb (folder_exists w (parent_or_root p)) then (Err (Server 409 "parent"), w)
  else if matches w p m
       then (Ok {| new_change_token := Some (etag_of (sv_version w)) |},
             set_srv w (<[p := (b, sv_version w)]> (sv_files w)) (sv_dirs w))
       else (Err Conflict, w).

Definition srv_mkdir (p : PathBuf) (w : Srv) : result unit BackendWriteError * Srv :=
  if folder_exists w p then (Err (Server 405 "exists"), w)
  else (Ok tt, set_srv w (sv_files w) ({[p]} ∪ sv_dirs w)).

Definition present (w : Srv) (p : PathBuf) : bool :=
  bool_decide (is_Some (sv_files w !! p)) || bool_decide (p ∈ sv_dirs w).

Definition srv_delete (p : PathBuf) (w : Srv) : result unit BackendWriteError * Srv :=
  if present w p
  then (Ok tt, set_srv w (filter (λ q, starts_with q.1 p = false) (sv_files w))
                         (filter (λ q, starts_with q p = false) (sv_dirs w)))
  else (Err (Server 404 "gone"), w).

(** Everything at or below [from], at the same place below [to]. *)
Definition moved_path (from to q : PathBuf) : option PathBuf := (λ rel, join to rel) <$> strip_prefix q from.
Definition srv_rename (from to : PathBuf) (m : option Etag) (w : Srv) :
    result unit BackendWriteError * Srv :=
  if negb (present w from) then (Err (Server 404 "gone"), w)
  else if negb (folder_exists w (parent_or_root to)) then (Err (Server 409 "parent"), w)
  else if matches w to m then
    let kept := filter (λ q, starts_with q.1 from = false ∧ starts_with q.1 to = false) (sv_files w) in
    let arrived : list (PathBuf * (bytes * nat)) :=
      omap (λ q, (λ p, (p, q.2)) <$> moved_path from to q.1) (map_to_list (sv_files w)) in
    let kept_dirs := filter (λ q, starts_with q from = false) (sv_dirs w) in
    (Ok tt, set_srv w (list_to_map arrived ∪ kept)
              (list_to_set (omap (moved_path from to) (elements (sv_dirs w))) ∪ kept_dirs))
  else (Err Conflict, w).

(** ** Chunk sessions *)

Definition session (w : Srv) (u : string) : gmap Z bytes := default ∅ (sv_chunks w !! u).
Definition store_chunk (u : string) (i : Z) (b : bytes) (w : Srv) : Srv :=
  Build_Srv (sv_files w) (sv_dirs w) (<[u := <[i := b]> (session w u)]> (sv_chunks w)) (sv_version w).
Definition drop_session (u : string) (w : Srv) : Srv :=
  Build_Srv (sv_files w) (sv_dirs w) (delete u (sv_chunks w)) (sv_version w).

(** The chunks of [n] consecutive indices, one after the other. *)
Definition chunk_range (s : gmap Z bytes) (lo n : Z) : bytes :=
  mjoin ((λ i, default [] (s !! i)) <$> seqZ lo n).
Definition max_key (s : gmap Z bytes) : Z := map_fold (λ k _ m, Z.max k m) (-1)%Z s.
Definition assemble (s : gmap Z bytes) : bytes := chunk_range s 0 (max_key s + 1)%Z.

Definition srv_finish (u : string) (p : PathBuf) (m : option Etag) (mtime : option SystemTime) (total : Z)
    (w : Srv) : result PutResult BackendWriteError * Srv :=
  match sv_chunks w !! u with
  | None => (Err (Server 404 "session"), w)
  | Some s =>
      match srv_put p (assemble s) m w with
      | (Ok r, w) => (Ok r, drop_session u w)
      | (Err e, w) => (Err e, w)
      end
  end.

Definition listed (p : PathBuf) (dir : bool) (size : Z) (token : option Etag) : RemoteEntry :=
  {| e_path := p; e_is_dir := dir; e_size := size; e_modified := None; e_change_token := token; e_content_type := None;
     e_ext := ext_default |}.
Definition listed_file (q : PathBuf * (bytes * nat)) : RemoteEntry :=
  listed q.1 false (Z.of_nat (length q.2.1)) (Some (etag_of q.2.2)).
Definition srv_list (p : PathBuf) (w : Srv) :
    result (option Etag * option RemoteEntry * list RemoteEntry) BackendReadError * Srv :=
  (match sv_files w !! p with
   | Some f => Ok (None, Some (listed_file (p, f)), [])
   | None =>
       if folder_exists w p then
         Ok (None, Some (listed p true 0 None),
             ((λ d, listed d true 0 None) <$> filter (λ d, Paths.parent d = Some p) (elements (sv_dirs w))) ++
             (listed_file <$> filter (λ q, Paths.parent q.1 = Some p) (map_to_list (sv_files w))))
       else Err RNotFound
   end, w).

#[export] Instance reference_server : CloudBackend Srv := {|
  list_dir := srv_list;
  put_file := srv_put;
  mkdir := srv_mkdir;
  delete_path := srv_delete;
  rename := srv_rename;
  lock_file := λ _ _ _ w, (Err Unsupported, w);
  refresh_lock := λ _ _ _ w, (Err Unsupported, w);
  unlock_file := λ _ _ w, (Err Unsupported, w);
  put_chunk := λ u i b w, (Ok tt, store_chunk u i b w);
  finish_chunked_upload := srv_finish;
  abort_chunked_upload := drop_session;
|}.

(** ** Assembling by index *)

Lemma max_key_spec (s : gmap Z bytes) k : is_Some (s !! k) → (k ≤ max_key s)%Z.
Proof.
  unfold max_key. revert k.
  apply (map_fold_weak_ind (λ m s, ∀ k, is_Some (s !! k) → (k ≤ m)%Z)).
  - intros k [? Hk]. by rewrite lookup_empty in Hk.
  - intros j x s' r Hj IH k [y Hk]. destruct (decide (k = j)) as [->|Hne]; [lia|].
    rewrite lookup_insert_ne in Hk by done. specialize (IH k (mk_is_Some _ _ Hk)). lia.
Qed.
Lemma max_key_lt (s : gmap Z bytes) n :
  (0 ≤ n)%Z → (∀ k, is_Some (s !! k) → (k < n)%Z) → (-1 ≤ max_key s < n)%Z.
Proof.
  intros Hn. unfold max_key.
  apply (map_fold_weak_ind (λ m s, (∀ k, is_Some (s !! k) → (k < n)%Z) → (-1 ≤ m < n)%Z)).
  - intros _. lia.
  - intros j x s' r Hj IH Hk. assert (j < n)%Z by (apply Hk; rewrite lookup_insert_eq; eauto).
    assert (-1 ≤ r < n)%Z; [|lia]. apply IH. intros k [y Hy]. apply Hk. exists y.
    rewrite lookup_insert_ne; [done|]. intros ->. congruence.
Qed.

Lemma chunk_range_app s lo n m :
  (0 ≤ n)%Z → (0 ≤ m)%Z → chunk_range s lo (n + m) = chunk_range s lo n ++ chunk_range s (lo + n) m.
Proof.
  intros. unfold chunk_range. rewrite seqZ_app by done. by rewrite fmap_app, join_app.
Qed.
Lemma chunk_range_ext s1 s2 lo n :
  (∀ k, (lo ≤ k < lo + n)%Z → s1 !! k = s2 !! k) → chunk_range s1 lo n = chunk_range s2 lo n.
Proof.
  intros Hs. unfold chunk_range. f_equal. apply list_fmap_ext. intros i k Hk.
  apply lookup_seqZ in Hk as [-> Hk]. rewrite Hs by lia. done.
Qed.
Lemma chunk_range_none s lo n :
  (∀ k, (lo ≤ k < lo + n)%Z → s !! k = None) → chunk_range s lo n = [].
Proof.
  intros Hs. rewrite (chunk_range_ext s ∅) by (intros; by rewrite Hs, lookup_empty).
  unfold chunk_range. induction (seqZ lo n) as [|k l IH]; [done|]. csimpl. by rewrite lookup_empty, IH.
Qed.

(** Any bound above the last index will do. *)
Lemma assemble_range s n :
  (0 ≤ n)%Z → (∀ k, is_Some (s !! k) → (k < n)%Z) → assemble s = chunk_range s 0 n.
Proof.
  intros Hn Hk. pose proof (max_key_lt s n Hn Hk). unfold assemble.
  replace n with ((max_key s + 1) + (n - (max_key s + 1)))%Z by lia.
  rewrite (chunk_range_app s 0 (max_key s + 1) (n - (max_key s + 1))) by lia. rewrite (chunk_range_none s (0 + (max_key s + 1))); [by rewrite app_nil_r|].
  intros k Hr. destruct (s !! k) as [b|] eqn:E; [|done].
  pose proof (max_key_spec s k (mk_is_Some _ _ E)). lia.
Qed.

(** Pieces stored one after the other. *)
Fixpoint store_list (s : gmap Z bytes) (i : Z) (l : list bytes) : gmap Z bytes :=
  match l with
  | [] => s
  | b :: l => store_list (<[i := b]> s) (i + 1)%Z l
  end.
Lemma store_list_other s i l k : (k < i ∨ i + Z.of_nat (length l) ≤ k)%Z → store_list s i l !! k = s !! k.
Proof.
  revert s i. induction l as [|b l IH]; intros s i Hk; [done|]. simpl in *.
  rewrite IH by lia. by rewrite lookup_insert_ne by lia.
Qed.
Lemma store_list_range s i l : chunk_range (store_list s i l) i (Z.of_nat (length l)) = mjoin l.
Proof.
  revert s i. induction l as [|b l IH]; intros s i; [done|].
  cbn [length store_list]. rewrite Nat2Z.inj_succ. replace (Z.succ (Z.of_nat (length l))) with (1 + Z.of_nat (length l))%Z by lia.
  rewrite chunk_range_app by lia. csimpl. rewrite IH. f_equal.
  unfold chunk_range. rewrite (seqZ_cons i 1) by lia. csimpl.
  rewrite store_list_other by lia. rewrite lookup_insert_eq. simpl. by rewrite app_nil_r.
Qed.
