(* ===== verification/Journal.v ===== *)
(** [mutation_journal.rs]: the queue of changes still to reach the server, its persistence
    and its record of conflicts.

    The state is [MutationJournal] with the files it keeps under the cache directory: the
    journal and conflict files, and the staging files the queued uploads read.  The clock
    ([now_ms]) is an argument.  Message texts are kept as the data they are formatted from;
    what is skipped by the serializer ([in_flight], [retargeted], [dest_fixed]) is reset in
    what reaches the disk. *)
From S2P Require Import Prelude Paths Backend.

Abbreviation SeqId := nat.

(** ** Data *)

(* mutation_journal.rs:15-71 MutationOp *)
Inductive MutationOp :=
| Put (remote_path staging_path : PathBuf) (if_match_etag : option Etag)
| MkDir (path : PathBuf)
| Unlink (path : PathBuf)
| RmDir (path : PathBuf)
| Rename (from to : PathBuf) (staging : option PathBuf) (if_match : option Etag)
| FinishChunked (remote_path : PathBuf) (uploads_base : string)
    (next_index bytes_confirmed total_len : Z) (tail_path : PathBuf)
    (if_match_etag : option Etag) (sparse : bool) (head : Z) (whole : bool).

(* mutation_journal.rs:75-82 PendingUpload *)
Inductive PendingUpload :=
| Staged (p : PathBuf)
| StreamTail (tail : PathBuf) (held_from head : Z) (sparse : bool).

(** Why an entry has not reached the server, as shown to the user. *)
Inductive Message :=
| MWrite (e : BackendWriteError)
| MCopyNotSaved (copy : PathBuf) (e : BackendWriteError)
| MWaiting (dest : PathBuf)
| MText (s : string).

(* mutation_journal.rs:85-103 JournalEntry *)
Record JournalEntry := {
  seq : SeqId;
  op : MutationOp;
  created_at_ms : Z;
  attempts : nat;
  last_error : option Message;
  in_flight : bool;
  retargeted : bool;
  dest_fixed : bool;
}.

(* mutation_journal.rs:107-116 Settled *)
Inductive Settled :=
| Go (dest : PathBuf) (if_match : option Etag)
| Wait
| Deferred
| SWithdrawn.

(** What a permanent failure's description is made from. *)
Inductive Description :=
| DStagingMissing (seq : SeqId)
| DStagingUnreadable (remote : PathBuf)
| DParentNotFound (remote : PathBuf)
| DExpired (remote : PathBuf)
| DGaveUp (op : MutationOp) (last : option Message) (recovered : option PathBuf).

(* mutation_journal.rs:119-135 ConflictKind *)
Inductive ConflictKind :=
| EditConflict (local_path conflicted_copy_path : PathBuf)
| MoveSourceGone (from to : PathBuf)
| MoveDestExists (from to : PathBuf)
| PermanentFailure (description : Description).

(* mutation_journal.rs:138-143 ConflictRecord *)
Record ConflictRecord := {
  c_id : nat;
  c_kind : ConflictKind;
  c_timestamp_ms : Z;
  c_resolved : bool;
}.

(** The cache directory: the two saved files ([None]: absent or unreadable), the staging
    and recovered files, and whether a durable write succeeds at the moment. *)
Record Disk := {
  journal_file : option (list JournalEntry);
  conflicts_file : option (list ConflictRecord);
  files : Files;
  writable : bool;
}.

(* mutation_journal.rs:145-158 MutationJournal *)
Record MutationJournal := {
  entries : list JournalEntry;
  next_seq : SeqId;
  conflicts : list ConflictRecord;
  next_conflict_id : nat;
  cache_dir : PathBuf;
  dirty_version : nat;
  disk : Disk;
}.

(** ** Field updates *)

Definition set_entries (j : MutationJournal) (l : list JournalEntry) : MutationJournal :=
  Build_MutationJournal l (next_seq j) (conflicts j) (next_conflict_id j) (cache_dir j) (dirty_version j) (disk j).
Definition set_conflicts (j : MutationJournal) (l : list ConflictRecord) (n : nat) : MutationJournal :=
  Build_MutationJournal (entries j) (next_seq j) l n (cache_dir j) (dirty_version j) (disk j).
Definition set_next_seq (j : MutationJournal) (n : SeqId) : MutationJournal :=
  Build_MutationJournal (entries j) n (conflicts j) (next_conflict_id j) (cache_dir j) (dirty_version j) (disk j).
Definition set_disk (j : MutationJournal) (v : nat) (d : Disk) : MutationJournal :=
  Build_MutationJournal (entries j) (next_seq j) (conflicts j) (next_conflict_id j) (cache_dir j) v d.
Definition set_files (j : MutationJournal) (f : Files) : MutationJournal :=
  set_disk j (dirty_version j)
    (Build_Disk (journal_file (disk j)) (conflicts_file (disk j)) f (writable (disk j))).

Definition set_op (e : JournalEntry) (o : MutationOp) : JournalEntry :=
  Build_JournalEntry (seq e) o (created_at_ms e) (attempts e) (last_error e) (in_flight e) (retargeted e) (dest_fixed e).
Definition set_in_flight (e : JournalEntry) (b : bool) : JournalEntry :=
  Build_JournalEntry (seq e) (op e) (created_at_ms e) (attempts e) (last_error e) b (retargeted e) (dest_fixed e).
Definition set_dest_fixed (e : JournalEntry) (b : bool) : JournalEntry :=
  Build_JournalEntry (seq e) (op e) (created_at_ms e) (attempts e) (last_error e) (in_flight e) (retargeted e) b.
Definition set_retargeted (e : JournalEntry) (b : bool) : JournalEntry :=
  Build_JournalEntry (seq e) (op e) (created_at_ms e) (attempts e) (last_error e) (in_flight e) b (dest_fixed e).
(** A failed execution: the claim and the fixed destination are given back. *)
Definition set_failure (e : JournalEntry) (n : nat) (m : Message) : JournalEntry :=
  Build_JournalEntry (seq e) (op e) (created_at_ms e) n (Some m) false (retargeted e) false.

(** ** [MutationOp] *)

(* mutation_journal.rs:194-203 MutationOp::path *)
Definition op_path (o : MutationOp) : PathBuf :=
  match o with
  | Put p _ _ | MkDir p | Unlink p | RmDir p | Rename p _ _ _ | FinishChunked p _ _ _ _ _ _ _ _ _ => p
  end.

(* mutation_journal.rs:206-213 MutationOp::staging_path *)
Definition op_staging (o : MutationOp) : option PathBuf :=
  match o with
  | Put _ s _ => Some s
  | FinishChunked _ _ _ _ _ t _ _ _ _ => Some t
  | Rename _ _ s _ => s
  | _ => None
  end.

(* mutation_journal.rs:217-224 MutationOp::touches *)
Definition touches (o : MutationOp) (path : PathBuf) : bool :=
  match o with
  | Put p _ _ | FinishChunked p _ _ _ _ _ _ _ _ _ | Unlink p => bool_decide (p = path)
  | MkDir p | RmDir p => starts_with path p
  | Rename from to _ _ => starts_with path from || starts_with path to
  end.

(* mutation_journal.rs:228-236 MutationOp::replaces *)
Definition replaces (o : MutationOp) (path : PathBuf) : bool :=
  match o with
  | Put p _ _ | FinishChunked p _ _ _ _ _ _ _ _ _ | Unlink p => bool_decide (p = path)
  | RmDir p => starts_with path p
  | Rename _ to _ _ => starts_with path to
  | MkDir _ => false
  end.

(* mutation_journal.rs:239-241 MutationOp::is_upload_of *)
Definition is_upload_of (o : MutationOp) (path : PathBuf) : bool :=
  match o with
  | Put p _ _ | FinishChunked p _ _ _ _ _ _ _ _ _ => bool_decide (p = path)
  | _ => false
  end.

(* mutation_journal.rs:244-248 MutationOp::update_path_prefix::rewrite *)
Definition rewrite_path (p old new : PathBuf) : PathBuf :=
  match strip_prefix p old with Some suffix => join new suffix | None => p end.

(* mutation_journal.rs:243-260 MutationOp::update_path_prefix *)
Definition update_path_prefix (old new : PathBuf) (o : MutationOp) : MutationOp :=
  match o with
  | Put p s m => Put (rewrite_path p old new) s m
  | MkDir p => MkDir (rewrite_path p old new)
  | Unlink p => Unlink (rewrite_path p old new)
  | RmDir p => RmDir (rewrite_path p old new)
  | Rename f t s m => Rename (rewrite_path f old new) (rewrite_path t old new) s m
  | FinishChunked p u n b l t m sp h w => FinishChunked (rewrite_path p old new) u n b l t m sp h w
  end.

(** The condition an upload carries, and setting it. *)
Definition op_condition (o : MutationOp) : option Etag :=
  match o with
  | Put _ _ m => m
  | FinishChunked _ _ _ _ _ _ m _ _ _ => m
  | Rename _ _ _ m => m
  | _ => None
  end.
Definition set_condition (m : option Etag) (o : MutationOp) : MutationOp :=
  match o with
  | Put p s _ => Put p s m
  | FinishChunked p u n b l t _ sp h w => FinishChunked p u n b l t m sp h w
  | Rename f t s _ => Rename f t s m
  | _ => o
  end.

(** ** Persistence *)

(** What serde writes of an entry: the live flags are skipped and read back as [false]. *)
(* mutation_journal.rs:85-103 JournalEntry *)
Definition persisted (e : JournalEntry) : JournalEntry :=
  Build_JournalEntry (seq e) (op e) (created_at_ms e) (attempts e) (last_error e) false false false.

(* mutation_journal.rs:739-750 MutationJournal::save_journal *)
Definition save_journal (j : MutationJournal) : MutationJournal :=
  let d := disk j in
  set_disk j (S (dirty_version j))
    (if writable d
     then Build_Disk (Some (persisted <$> entries j)) (conflicts_file d) (files d) (writable d) else d).

(* mutation_journal.rs:752-762 MutationJournal::save_conflicts *)
Definition save_conflicts (j : MutationJournal) : MutationJournal :=
  let d := disk j in
  set_disk j (S (dirty_version j))
    (if writable d
     then Build_Disk (journal_file d) (Some (conflicts j)) (files d) (writable d) else d).

(** [let _ = std::fs::remove_file(sp)]. *)
Definition remove_file (j : MutationJournal) (sp : PathBuf) : MutationJournal :=
  set_files j (delete sp (files (disk j))).
Definition remove_files (j : MutationJournal) (l : list PathBuf) : MutationJournal :=
  foldl remove_file j l.

(** ** Conflicts *)

(* mutation_journal.rs:645-656 MutationJournal::add_conflict *)
Definition add_conflict (now_ms : Z) (kind : ConflictKind) (j : MutationJournal) : nat * MutationJournal :=
  let id := next_conflict_id j in
  (id, save_conflicts (set_conflicts j
         (conflicts j ++ [Build_ConflictRecord id kind now_ms false]) (S id))).

Definition resolved_record (c : ConflictRecord) : ConflictRecord :=
  Build_ConflictRecord (c_id c) (c_kind c) (c_timestamp_ms c) true.

(* mutation_journal.rs:658-663 MutationJournal::resolve_conflict *)
Definition resolve_conflict (id : nat) (j : MutationJournal) : MutationJournal :=
  save_conflicts (set_conflicts j
    (update_first (λ c, bool_decide (c_id c = id)) resolved_record (conflicts j)) (next_conflict_id j)).

(* mutation_journal.rs:665-670 MutationJournal::resolve_all_conflicts *)
Definition resolve_all_conflicts (j : MutationJournal) : MutationJournal :=
  save_conflicts (set_conflicts j (resolved_record <$> conflicts j) (next_conflict_id j)).

(* mutation_journal.rs:672-674 MutationJournal::unresolved_conflicts *)
Definition unresolved_conflicts (j : MutationJournal) : list ConflictRecord :=
  List.filter (λ c, negb (c_resolved c)) (conflicts j).

(* mutation_journal.rs:682-686 MutationJournal::replace_from_remote *)
Definition replace_from_remote (l : list JournalEntry) (c : list ConflictRecord) (j : MutationJournal) :
    MutationJournal :=
  set_disk (set_conflicts (set_entries j l) c (next_conflict_id j)) (S (dirty_version j)) (disk j).

(** ** Loading *)

Definition exists_file (d : Disk) (p : PathBuf) : bool := bool_decide (is_Some (files d !! p)).

(** A queued MOVE runs without a copy that is gone. *)
Definition drop_missing_copy (d : Disk) (e : JournalEntry) : JournalEntry :=
  match op e with
  | Rename f t (Some s) m => if exists_file d s then e else set_op e (Rename f t None m)
  | _ => e
  end.
(** An upload whose staging file is gone. *)
Definition orphaned (d : Disk) (e : JournalEntry) : bool :=
  match op e with
  | Rename _ _ _ _ => false
  | o => match op_staging o with Some s => negb (exists_file d s) | None => false end
  end.

(** [iter().map(..).max().unwrap_or(0)]. *)
Definition max_of (l : list nat) : nat := foldr Nat.max 0 l.

(* mutation_journal.rs:264-339 MutationJournal::load_or_create *)
Definition load_or_create (now_ms : Z) (dir : PathBuf) (d : Disk) : MutationJournal :=
  let '(loaded, next) := match journal_file d with
    | Some l => (l, S (max_of (seq <$> l)))
    | None => ([], 1)
    end in
  let loaded := drop_missing_copy d <$> loaded in
  let orphans := seq <$> List.filter (orphaned d) loaded in
  let kept := List.filter (λ e, negb (bool_decide (seq e ∈ orphans))) loaded in
  let '(cs, next_c) := match conflicts_file d with
    | Some l => (l, S (max_of (c_id <$> l)))
    | None => ([], 1)
    end in
  let j := Build_MutationJournal kept next cs next_c dir 0 d in
  let j := foldl (λ j s, (add_conflict now_ms (PermanentFailure (DStagingMissing s)) j).2) j orphans in
  match conflicts j with [] => j | _ => save_conflicts j end.

(** ** The queue *)

Definition has_server_etag (o : MutationOp) (path : PathBuf) : bool :=
  is_upload_of o path && bool_decide (is_Some (op_condition o)).

(* mutation_journal.rs:766-803 MutationJournal::coalesce_before_enqueue *)
Definition coalesce_before_enqueue (new_op : MutationOp) (j : MutationJournal) : MutationJournal :=
  match new_op with
  | Unlink path =>
      if existsb (λ e, has_server_etag (op e) path) (entries j) then j
      else
        let staging_to_delete :=
          omap (λ e, op_staging (op e)) (List.filter (λ e, is_upload_of (op e) path) (entries j)) in
        let kept := List.filter (λ e, negb (is_upload_of (op e) path)
                      && negb (match op e with MkDir p => bool_decide (p = path) | _ => false end)) (entries j) in
        let j' := set_entries j kept in
        if length kept <? length (entries j) then remove_files j' staging_to_delete else j'
  | RmDir path =>
      set_entries j (List.filter
        (λ e, negb (match op e with MkDir p => bool_decide (p = path) | _ => false end)) (entries j))
  | _ => j
  end.

(** What queueing a rename does to an earlier entry no live worker holds: its paths follow,
    and an unconditional upload that lands on the destination takes the rename's condition. *)
(* mutation_journal.rs:348-357 MutationJournal::enqueue *)
Definition follow_rename (from to : PathBuf) (if_match : option Etag) (e : JournalEntry) : JournalEntry :=
  if negb (in_flight e) && negb (retargeted e) then
    let o := update_path_prefix from to (op e) in
    set_op e (if is_upload_of o to && bool_decide (op_condition o = None) then set_condition if_match o else o)
  else e.

(* mutation_journal.rs:341-375 MutationJournal::enqueue *)
Definition enqueue (now_ms : Z) (o : MutationOp) (j : MutationJournal) : SeqId * MutationJournal :=
  let j := coalesce_before_enqueue o j in
  let j := match o with
    | Rename from to _ if_match => set_entries j (follow_rename from to if_match <$> entries j)
    | _ => j
    end in
  let s := next_seq j in
  let j := set_next_seq j (S s) in
  (s, save_journal (set_entries j
        (entries j ++ [Build_JournalEntry s o now_ms 0 None false false false]))).

(* mutation_journal.rs:377-383 MutationJournal::dequeue_front *)
Definition dequeue_front (j : MutationJournal) : option JournalEntry * MutationJournal :=
  match entries j with
  | [] => (None, j)
  | e :: l => (Some e, save_journal (set_entries j l))
  end.

(* mutation_journal.rs:385-387 MutationJournal::peek_front *)
Definition peek_front (j : MutationJournal) : option JournalEntry := head (entries j).

(* mutation_journal.rs:391-393 MutationJournal::has_pending_put *)
Definition has_pending_put (path : PathBuf) (j : MutationJournal) : bool :=
  existsb (λ e, is_upload_of (op e) path) (entries j).

Definition has_seq (s : SeqId) (e : JournalEntry) : bool := seq e =? s.

(* mutation_journal.rs:395-397 MutationJournal::contains *)
Definition contains (s : SeqId) (j : MutationJournal) : bool := existsb (has_seq s) (entries j).

(** The search of [pending_upload], newest entry first. *)
(* mutation_journal.rs:409-436 MutationJournal::pending_upload *)
Fixpoint pending_upload_in (path : PathBuf) (names : list PathBuf) (renamed_onto : bool)
    (newest_first : list JournalEntry) : option PendingUpload :=
  match newest_first with
  | [] => None
  | e :: older =>
      match op e with
      | Put p s _ =>
          if bool_decide (p ∈ names) then Some (Staged s)
          else pending_upload_in path names renamed_onto older
      | FinishChunked p _ _ confirmed _ tail _ sparse head whole =>
          if bool_decide (p ∈ names)
          then Some (if whole then Staged tail else StreamTail tail confirmed head sparse)
          else pending_upload_in path names renamed_onto older
      | Rename from to staging _ =>
          if starts_with path to then
            match staging with
            | Some s => if decide (path = to) then Some (Staged s)
                        else pending_upload_in path
                               (names ++ [join from (default [] (strip_prefix path to))]) true older
            | None => pending_upload_in path
                        (names ++ [join from (default [] (strip_prefix path to))]) true older
            end
          else pending_upload_in path names renamed_onto older
      | Unlink gone =>
          if bool_decide (gone = path) && negb renamed_onto then None
          else pending_upload_in path names renamed_onto older
      | RmDir gone =>
          if starts_with path gone && negb renamed_onto then None
          else pending_upload_in path names renamed_onto older
      | MkDir _ => pending_upload_in path names renamed_onto older
      end
  end.

(* mutation_journal.rs:409-436 MutationJournal::pending_upload *)
Definition pending_upload (path : PathBuf) (j : MutationJournal) : option PendingUpload :=
  pending_upload_in path [path] false (reverse (entries j)).

(** The entry at an index, and the queue without it. *)
Definition take_entry (i : nat) (l : list JournalEntry) : option (JournalEntry * list JournalEntry) :=
  (λ e, (e, take i l ++ drop (S i) l)) <$> l !! i.

(* mutation_journal.rs:446-469 MutationJournal::retarget_upload *)
Definition retarget_upload (from to : PathBuf) (base : option Etag) (j : MutationJournal) :
    bool * MutationJournal :=
  match List.filter (λ ie, is_upload_of (op ie.2) from) (imap pair (entries j)) with
  | [(i, e)] =>
      if dest_fixed e then (false, j)
      else match op e with
           | Put _ s None =>
               if existsb (λ ke, negb (ke.1 =? i) && touches (op ke.2) from) (imap pair (entries j))
               then (false, j)
               else match take_entry i (entries j) with
                    | None => (false, j)
                    | Some (_, rest) =>
                        (true, save_journal (set_entries j
                                 (rest ++ [set_retargeted (set_op e (Put to s base)) true])))
                    end
           | _ => (false, j)
           end
  | _ => (false, j)
  end.

(* mutation_journal.rs:621-628 MutationJournal::mark_deferred *)
Definition mark_deferred (s : SeqId) (error : Message) (j : MutationJournal) : MutationJournal :=
  save_journal (set_entries j
    (update_first (has_seq s) (λ e, set_failure e (attempts e) error) (entries j))).

(* mutation_journal.rs:607-615 MutationJournal::mark_failed *)
Definition mark_failed (s : SeqId) (error : Message) (j : MutationJournal) : MutationJournal :=
  save_journal (set_entries j
    (update_first (has_seq s) (λ e, set_failure e (S (attempts e)) error) (entries j))).

(* mutation_journal.rs:475-504 MutationJournal::settle_upload *)
Definition settle_upload (s : SeqId) (started_as : PathBuf) (if_match : option Etag)
    (j : MutationJournal) : Settled * MutationJournal :=
  match List.filter (λ ie, has_seq s ie.2) (imap pair (entries j)) with
  | [] => (SWithdrawn, j)
  | (i, e) :: _ =>
      let fix_dest := set_entries j (update_first (has_seq s) (λ e, set_dest_fixed e true) (entries j)) in
      if negb (retargeted e) then (Go started_as if_match, fix_dest)
      else
        let dest := op_path (op e) in
        if existsb (λ e', replaces (op e') dest) (drop (S i) (entries j)) then
          let j := set_entries j (take i (entries j) ++ drop (S i) (entries j)) in
          let j := match op_staging (op e) with Some sp => remove_file j sp | None => j end in
          (SWithdrawn, save_journal j)
        else
          match find (λ e', touches (op e') dest) (take i (entries j)) with
          | Some before =>
              if in_flight before || bool_decide (last_error before = None) then (Wait, j)
              else (Deferred, mark_deferred s (MWaiting dest) j)
          | None =>
              (Go dest (match op e with Put _ _ m => m | _ => None end), fix_dest)
          end
  end.

Definition waits_for_copy (uploaded_as : PathBuf) (e : JournalEntry) : bool :=
  match op e with Rename f _ None _ => bool_decide (f = uploaded_as) | _ => false end.
Definition give_copy (staging : PathBuf) (e : JournalEntry) : JournalEntry :=
  match op e with Rename f t None m => set_op e (Rename f t (Some staging) m) | _ => e end.

(* mutation_journal.rs:509-519 MutationJournal::hand_staging_to_rename *)
Definition hand_staging_to_rename (uploaded_as staging : PathBuf) (j : MutationJournal) :
    bool * MutationJournal :=
  if existsb (waits_for_copy uploaded_as) (entries j)
  then (true, save_journal (set_entries j
                (update_first (waits_for_copy uploaded_as) (give_copy staging) (entries j))))
  else (false, j).

(* mutation_journal.rs:525-532 MutationJournal::pending_base *)
Fixpoint pending_base_in (path : PathBuf) (newest_first : list JournalEntry) : option (option Etag) :=
  match newest_first with
  | [] => None
  | e :: older =>
      if is_upload_of (op e) path then Some (op_condition (op e))
      else if replaces (op e) path then Some None
      else pending_base_in path older
  end.
Definition pending_base (path : PathBuf) (j : MutationJournal) : option (option Etag) :=
  pending_base_in path (reverse (entries j)).

(** Does the entry's condition speak of [path]? *)
Definition conditioned_on (path : PathBuf) (o : MutationOp) : bool :=
  match o with
  | Put p _ _ | FinishChunked p _ _ _ _ _ _ _ _ _ => bool_decide (p = path)
  | Rename _ t _ _ => bool_decide (t = path)
  | _ => false
  end.
Definition rebase_entry (path : PathBuf) (sent : Etag) (new : option Etag) (e : JournalEntry) : JournalEntry :=
  if conditioned_on path (op e) && bool_decide (op_condition (op e) = Some sent)
  then set_op e (set_condition new (op e)) else e.

(* mutation_journal.rs:536-554 MutationJournal::rebase *)
Definition rebase (path : PathBuf) (sent new : option Etag) (j : MutationJournal) : MutationJournal :=
  match sent with
  | None => j
  | Some sent =>
      if existsb (λ e, conditioned_on path (op e) && bool_decide (op_condition (op e) = Some sent)) (entries j)
      then save_journal (set_entries j (rebase_entry path sent new <$> entries j))
      else j
  end.

(* mutation_journal.rs:557-562 MutationJournal::rename_staging *)
Definition rename_staging (s : SeqId) (j : MutationJournal) : option PathBuf :=
  e ← find (has_seq s) (entries j);
  match op e with Rename _ _ st _ => st | _ => None end.

(* mutation_journal.rs:574-582 MutationJournal::claim *)
Definition claim (s : SeqId) (j : MutationJournal) : bool * MutationJournal :=
  match find (has_seq s) (entries j) with
  | Some e => if in_flight e then (false, j)
              else (true, set_entries j (update_first (has_seq s) (λ e, set_in_flight e true) (entries j)))
  | None => (false, j)
  end.

Definition superseded (path : PathBuf) (newest : SeqId) (e : JournalEntry) : bool :=
  (seq e <? newest) && negb (in_flight e) && is_upload_of (op e) path.

(* mutation_journal.rs:586-605 MutationJournal::supersede_uploads *)
Definition supersede_uploads (path : PathBuf) (newest : SeqId) (j : MutationJournal) : MutationJournal :=
  let stale := List.filter (superseded path newest) (entries j) in
  let j' := set_entries j (List.filter (λ e, negb (superseded path newest e)) (entries j)) in
  match stale with
  | [] => j'
  | _ => save_journal (remove_files j' (omap (λ e, op_staging (op e)) stale))
  end.

(* mutation_journal.rs:630-633 MutationJournal::remove *)
Definition remove (s : SeqId) (j : MutationJournal) : MutationJournal :=
  save_journal (set_entries j (List.filter (λ e, negb (has_seq s e)) (entries j))).

(* mutation_journal.rs:639-641 MutationJournal::max_attempts *)
Definition MAX_ATTEMPTS : nat := 3.

(* mutation_journal.rs:702-735 MutationJournal::recover_staging *)
Definition recover_staging (staging_path remote_path : PathBuf) (j : MutationJournal) :
    option PathBuf * MutationJournal :=
  let recovery_dir := join (cache_dir j) ["unsynced"%string] in
  let base := default "recovered"%string (file_name remote_path) in
  let fs := files (disk j) in
  let dest0 := join recovery_dir [base] in
  let dest := if exists_file (disk j) dest0
              then match file_name staging_path with
                   | Some uniq => join recovery_dir [(base +:+ "." +:+ uniq)%string]
                   | None => dest0
                   end
              else dest0 in
  match fs !! staging_path with
  | Some f => (Some dest, set_files j (<[dest := f]> (delete staging_path fs)))
  | None => (None, j)
  end.

(** ** Every operation of the queue *)

Inductive jop :=
| JEnqueue (now_ms : Z) (o : MutationOp)
| JDequeue
| JRetarget (from to : PathBuf) (base : option Etag)
| JSettle (s : SeqId) (started_as : PathBuf) (if_match : option Etag)
| JHand (uploaded_as staging : PathBuf)
| JRebase (path : PathBuf) (sent new : option Etag)
| JClaim (s : SeqId)
| JSupersede (path : PathBuf) (newest : SeqId)
| JFailed (s : SeqId) (m : Message)
| JDeferred (s : SeqId) (m : Message)
| JRemove (s : SeqId)
| JAddConflict (now_ms : Z) (kind : ConflictKind)
| JResolve (id : nat)
| JResolveAll
| JRecover (staging_path remote_path : PathBuf).

Definition run_op (o : jop) (j : MutationJournal) : MutationJournal :=
  match o with
  | JEnqueue n o => (enqueue n o j).2
  | JDequeue => (dequeue_front j).2
  | JRetarget f t b => (retarget_upload f t b j).2
  | JSettle s p m => (settle_upload s p m j).2
  | JHand u s => (hand_staging_to_rename u s j).2
  | JRebase p s n => rebase p s n j
  | JClaim s => (claim s j).2
  | JSupersede p n => supersede_uploads p n j
  | JFailed s m => mark_failed s m j
  | JDeferred s m => mark_deferred s m j
  | JRemove s => remove s j
  | JAddConflict n k => (add_conflict n k j).2
  | JResolve id => resolve_conflict id j
  | JResolveAll => resolve_all_conflicts j
  | JRecover s r => (recover_staging s r j).2
  end.

(** ** Entries are told apart by their sequence number *)

Definition seqs_ok (j : MutationJournal) : Prop :=
  NoDup (seq <$> entries j) ∧ (∀ e, e ∈ entries j → seq e < next_seq j).

(** The queue on disk is the queue in memory, up to the live flags. *)
Definition saved (j : MutationJournal) : Prop :=
  writable (disk j) = true ∧ journal_file (disk j) = Some (persisted <$> entries j).

(** What every operation does to the queue: it may drop, reorder and rewrite entries and add
    one under the next number, and it leaves the journal file current. *)
Definition op_ok (j j' : MutationJournal) : Prop :=
  next_seq j ≤ next_seq j' ∧
  (∃ l, seq <$> entries j' ≡ₚ l ++ (if next_seq j <? next_seq j' then [next_seq j] else []) ∧
        l ⊆+ seq <$> entries j) ∧
  (saved j → saved j').

Lemma op_ok_seqs j j' : op_ok j j' → seqs_ok j → seqs_ok j'.
Proof.
  intros (Hle & (l & Hp & Hsub) & _) [Hnd Hlt].
  assert (Hl : ∀ s, s ∈ l → s < next_seq j).
  { intros s Hs. apply (elem_of_submseteq l (seq <$> entries j)) in Hs; [|done].
    apply list_elem_of_fmap in Hs as (e & -> & He). by apply Hlt. }
  split.
  - rewrite Hp. apply NoDup_app. split_and!.
    + apply submseteq_Permutation in Hsub as [k Hk]. rewrite Hk in Hnd. by apply NoDup_app in Hnd as [? _].
    + intros s Hs. apply Hl in Hs. destruct (next_seq j <? next_seq j'); [|apply not_elem_of_nil].
      intros ->%list_elem_of_singleton. lia.
    + destruct (_ <? _); [apply NoDup_singleton|constructor].
  - intros e He. assert (Hs : seq e ∈ seq <$> entries j') by by apply list_elem_of_fmap_2.
    rewrite Hp, elem_of_app in Hs. destruct Hs as [Hs%Hl|Hs]; [lia|].
    destruct (next_seq j <? next_seq j') eqn:E; [|by apply not_elem_of_nil in Hs].
    apply list_elem_of_singleton in Hs. apply Nat.ltb_lt in E. lia.
Qed.

(** The common shape: the queue replaced, then saved. *)
Lemma save_ok j j1 :
  next_seq j1 = next_seq j → writable (disk j1) = writable (disk j) →
  seq <$> entries j1 ⊆+ seq <$> entries j → op_ok j (save_journal j1).
Proof.
  intros Hn Hw Hl. split_and!; simpl; rewrite ?Hn; [done| |].
  - exists (seq <$> entries j1). rewrite (proj2 (Nat.ltb_ge _ _)) by done. by rewrite app_nil_r.
  - intros [Hsw _]. unfold saved. simpl. rewrite Hw, Hsw. by split.
Qed.

Lemma save_entries_ok j l :
  seq <$> l ⊆+ seq <$> entries j → op_ok j (save_journal (set_entries j l)).
Proof. intros. by apply save_ok. Qed.

(** Changes of the live flags alone need no save. *)
Lemma live_flags_ok j l :
  persisted <$> l = persisted <$> entries j → op_ok j (set_entries j l).
Proof.
  intros Hl. unfold op_ok. cbn [set_entries next_seq entries disk]. split_and!; [done| |].
  - exists (seq <$> l). rewrite (proj2 (Nat.ltb_ge _ _)) by done. rewrite app_nil_r. split; [done|].
    assert (E : seq <$> l = seq <$> entries j).
    { apply (f_equal (fmap seq)) in Hl. rewrite <- !list_fmap_compose in Hl. exact Hl. }
    by rewrite E.
  - intros [Hw Hf]. split; [done|]. simpl. by rewrite Hl.
Qed.

Lemma op_ok_refl j : op_ok j j.
Proof.
  split_and!; [done| |done]. exists (seq <$> entries j).
  rewrite (proj2 (Nat.ltb_ge _ _)) by done. by rewrite app_nil_r.
Qed.

(** Nothing in the queue or its file is looked at. *)
Lemma side_effect_ok j j' :
  entries j' = entries j → next_seq j' = next_seq j → writable (disk j') = writable (disk j) →
  journal_file (disk j') = journal_file (disk j) → op_ok j j'.
Proof.
  intros He Hn Hw Hf. unfold op_ok, saved. rewrite He, Hn, Hw, Hf.
  destruct (op_ok_refl j) as (? & ? & ?). done.
Qed.

Lemma op_ok_filter j f : op_ok j (save_journal (set_entries j (List.filter f (entries j)))).
Proof. apply save_entries_ok, fmap_submseteq, sublist_submseteq, filterb_sublist. Qed.

Lemma op_ok_update j f g :
  (∀ e, seq (g e) = seq e) → op_ok j (save_journal (set_entries j (update_first f g (entries j)))).
Proof. intros Hg. apply save_entries_ok. by rewrite update_first_map. Qed.

Lemma op_ok_remove_file j j' p : op_ok j j' → op_ok j (remove_file j' p).
Proof. done. Qed.
Lemma remove_files_same j l :
  entries (remove_files j l) = entries j ∧ next_seq (remove_files j l) = next_seq j ∧
  writable (disk (remove_files j l)) = writable (disk j) ∧
  journal_file (disk (remove_files j l)) = journal_file (disk j) ∧
  conflicts (remove_files j l) = conflicts j.
Proof.
  revert j. induction l as [|p l IH]; intros j; [done|]. simpl. destruct (IH (remove_file j p)) as (-> & -> & -> & -> & ->).
  done.
Qed.

(** Swapping an entry to the back, or dropping it, in the queue of numbers. *)
Lemma take_drop_seqs (l : list JournalEntry) i e :
  l !! i = Some e → seq <$> l ≡ₚ (seq <$> take i l ++ drop (S i) l) ++ [seq e].
Proof.
  intros H. rewrite <- (take_drop_middle l i e H) at 1. rewrite !fmap_app, fmap_cons.
  rewrite <- app_assoc. apply Permutation_app_head. by rewrite Permutation_cons_append.
Qed.

Lemma imap_pair_lookup (l : list JournalEntry) i e : (i, e) ∈ imap pair l → l !! i = Some e.
Proof. intros (j & x & [= -> ->] & H)%elem_of_lookup_imap. done. Qed.

Lemma coalesce_ok o j :
  let j' := coalesce_before_enqueue o j in
  next_seq j' = next_seq j ∧ writable (disk j') = writable (disk j) ∧
  (seq <$> entries j') ⊆+ (seq <$> entries j).
Proof.
  assert (Hf : ∀ f, (seq <$> List.filter f (entries j)) ⊆+ (seq <$> entries j)).
  { intros f. apply fmap_submseteq, sublist_submseteq, filterb_sublist. }
  destruct o; simpl; try done.
  - destruct (existsb _ _); [done|]. destruct (_ <? _); [|split_and!; [done|done|apply Hf]].
    destruct (remove_files_same (set_entries j (List.filter (λ e, negb (is_upload_of (op e) path)
      && negb (match op e with MkDir p => bool_decide (p = path) | _ => false end)) (entries j)))
      (omap (λ e, op_staging (op e)) (List.filter (λ e, is_upload_of (op e) path) (entries j))))
      as (E1 & E2 & E3 & _).
    rewrite E1, E2, E3. split_and!; [done|done|apply Hf].
Qed.

Lemma enqueue_ok n o j : op_ok j (enqueue n o j).2.
Proof.
  unfold enqueue. destruct (coalesce_ok o j) as (Hn & Hw & Hl). cbv zeta in *.
  set (j1 := coalesce_before_enqueue o j) in *.
  set (j2 := match o with Rename _ _ _ _ => _ | _ => j1 end).
  assert (H2 : next_seq j2 = next_seq j ∧ writable (disk j2) = writable (disk j) ∧
               seq <$> entries j2 = seq <$> entries j1).
  { unfold j2. destruct o; try (by split_and!). split_and!; [done|done|].
    simpl. rewrite <- list_fmap_compose. apply list_fmap_ext. intros i e _. simpl.
    unfold follow_rename. by destruct (_ && _). }
  destruct H2 as (Hn2 & Hw2 & Hl2). split_and!.
  - simpl. lia.
  - simpl. exists (seq <$> entries j1). rewrite Hn2, (proj2 (Nat.ltb_lt _ _)) by lia.
    rewrite fmap_app, Hl2. done.
  - intros [Hsw _]. unfold saved. simpl. rewrite Hw2, Hsw. by split.
Qed.

Lemma persisted_update (f : JournalEntry → bool) (g : JournalEntry → JournalEntry) l :
  (∀ e, persisted (g e) = persisted e) → persisted <$> update_first f g l = persisted <$> l.
Proof. apply update_first_map. Qed.

Lemma retarget_ok from to base j : op_ok j (retarget_upload from to base j).2.
Proof.
  unfold retarget_upload.
  destruct (List.filter _ (imap pair (entries j))) as [|[i e] [|]] eqn:E; try apply op_ok_refl.
  destruct (dest_fixed e); [apply op_ok_refl|].
  destruct (op e) as [p s [m|]| | | | |]; try apply op_ok_refl.
  destruct (existsb _ _); [apply op_ok_refl|].
  assert (Hi : entries j !! i = Some e).
  { apply imap_pair_lookup. assert (Hin : (i, e) ∈ [(i, e)]) by left. rewrite <- E in Hin.
    by apply elem_of_filterb in Hin as [? _]. }
  unfold take_entry. rewrite Hi. simpl. apply save_entries_ok.
  rewrite (take_drop_seqs _ _ _ Hi). by rewrite !fmap_app.
Qed.

Lemma settle_ok s p m j : op_ok j (settle_upload s p m j).2.
Proof.
  unfold settle_upload.
  destruct (List.filter _ (imap pair (entries j))) as [|[i e] l] eqn:E; [apply op_ok_refl|].
  assert (Hi : entries j !! i = Some e).
  { apply imap_pair_lookup. assert (Hin : (i, e) ∈ (i, e) :: l) by left. rewrite <- E in Hin.
    by apply elem_of_filterb in Hin as [? _]. }
  destruct (negb (retargeted e)).
  { apply live_flags_ok. by apply persisted_update. }
  destruct (existsb _ _).
  - cbn [snd]. destruct (op_staging (op e)); apply save_ok; try done;
      cbn [entries set_entries remove_file set_files set_disk];
      rewrite (take_drop_seqs _ _ _ Hi); by apply submseteq_inserts_r.
  - destruct (find _ _) as [b|].
    + destruct (in_flight b || _); [apply op_ok_refl|]. by apply op_ok_update.
    + apply live_flags_ok. by apply persisted_update.
Qed.

Lemma run_op_ok o j : op_ok j (run_op o j).
Proof.
  destruct o; cbn [run_op].
  - apply enqueue_ok.
  - unfold dequeue_front. destruct (entries j) as [|e l] eqn:E; [apply op_ok_refl|].
    apply save_entries_ok. rewrite E. csimpl. by apply submseteq_cons.
  - apply retarget_ok.
  - apply settle_ok.
  - unfold hand_staging_to_rename. destruct (existsb _ _); [|apply op_ok_refl].
    apply op_ok_update. intros e. unfold give_copy. by destruct (op e) as [| | | |? ? [|] ?|].
  - unfold rebase. destruct sent as [sent|]; [|apply op_ok_refl].
    destruct (existsb _ _); [|apply op_ok_refl]. apply save_entries_ok.
    rewrite <- list_fmap_compose. erewrite list_fmap_ext; [done|]. intros i e _. simpl.
    unfold rebase_entry. by destruct (_ && _).
  - unfold claim. destruct (find _ _) as [e|]; [|apply op_ok_refl].
    destruct (in_flight e); [apply op_ok_refl|]. apply live_flags_ok. by apply persisted_update.
  - unfold supersede_uploads. destruct (List.filter (superseded path newest) (entries j)) as [|e l] eqn:E.
    + rewrite filterb_all; [apply side_effect_ok; try done; apply op_ok_refl|].
      intros e He. apply negb_true_iff. destruct (superseded path newest e) eqn:Hs; [|done].
      assert (Hin : e ∈ List.filter (superseded path newest) (entries j)) by by apply elem_of_filterb.
      rewrite E in Hin. by apply elem_of_nil in Hin.
    + destruct (remove_files_same (set_entries j (List.filter (λ e, negb (superseded path newest e)) (entries j)))
        (omap (λ e, op_staging (op e)) (e :: l))) as (E1 & E2 & E3 & _).
      apply save_ok; rewrite ?E1, ?E2, ?E3; try done.
      apply fmap_submseteq, sublist_submseteq, filterb_sublist.
  - by apply op_ok_update.
  - by apply op_ok_update.
  - apply op_ok_filter.
  - apply side_effect_ok; try done; simpl; by destruct (writable (disk j)) eqn:?.
  - apply side_effect_ok; try done; simpl; by destruct (writable (disk j)) eqn:?.
  - apply side_effect_ok; try done; simpl; by destruct (writable (disk j)) eqn:?.
  - unfold recover_staging. destruct (files (disk j) !! staging_path); [|apply op_ok_refl].
    by apply side_effect_ok.
Qed.

Definition run_ops (l : list jop) (j : MutationJournal) : MutationJournal := foldl (λ j o, run_op o j) j l.

Lemma run_ops_inv l j : seqs_ok j → saved j → seqs_ok (run_ops l j) ∧ saved (run_ops l j).
Proof.
  revert j. induction l as [|o l IH]; intros j Hs Hd; [done|]. simpl.
  pose proof (run_op_ok o j) as Hok. apply IH; [by eapply op_ok_seqs|]. by apply Hok.
Qed.

(** Recording the orphans' failures leaves the loaded queue as it is. *)
Lemma report_orphans now l j :
  let j' := foldl (λ j s, (add_conflict now (PermanentFailure (DStagingMissing s)) j).2) j l in
  entries j' = entries j ∧ next_seq j' = next_seq j ∧
  (∀ c, c ∈ conflicts j → c ∈ conflicts j') ∧
  (∀ s, s ∈ l → ∃ c, c ∈ conflicts j' ∧ c_kind c = PermanentFailure (DStagingMissing s) ∧ c_resolved c = false).
Proof.
  revert j. induction l as [|s l IH]; intros j; simpl.
  { split_and!; [done|done|done|]. by intros s ?%elem_of_nil. }
  destruct (IH (add_conflict now (PermanentFailure (DStagingMissing s)) j).2) as (E1 & E2 & E3 & E4).
  split_and!; [done|done| |].
  - intros c Hc. apply E3. simpl. apply elem_of_app. by left.
  - intros s' [->|Hs]%elem_of_cons; [|by apply E4].
    exists (Build_ConflictRecord (next_conflict_id j) (PermanentFailure (DStagingMissing s)) now false).
    split; [|done]. apply E3. simpl. apply elem_of_app. right. left.
Qed.

Lemma max_of_le l x : x ∈ l → x ≤ max_of l.
Proof.
  induction l as [|y l IH]; [by intros ?%elem_of_nil|]. simpl.
  intros [->|Hx]%elem_of_cons; [lia|]. apply IH in Hx. lia.
Qed.

Lemma drop_missing_copy_seq d e : seq (drop_missing_copy d e) = seq e.
Proof. unfold drop_missing_copy. destruct (op e) as [| | | |? ? [s|] ?|]; try done. by destruct (exists_file d s). Qed.

(** The loaded queue: the saved one, less uploads whose bytes are gone. *)
Lemma load_entries now dir d l :
  journal_file d = Some l → NoDup (seq <$> l) →
  let j := load_or_create now dir d in
  entries j = List.filter (λ e, negb (orphaned d e)) (drop_missing_copy d <$> l) ∧
  next_seq j = S (max_of (seq <$> l)) ∧
  (∀ e, e ∈ drop_missing_copy d <$> l → orphaned d e = true →
     ∃ c, c ∈ conflicts j ∧ c_kind c = PermanentFailure (DStagingMissing (seq e)) ∧ c_resolved c = false).
Proof.
  intros Hf Hnd. unfold load_or_create. rewrite Hf.
  set (loaded := drop_missing_copy d <$> l).
  assert (Hnd' : NoDup (seq <$> loaded)).
  { unfold loaded. rewrite <- list_fmap_compose. erewrite list_fmap_ext; [exact Hnd|].
    intros i e _. simpl. apply drop_missing_copy_seq. }
  assert (Hkept : List.filter (λ e, negb (bool_decide (seq e ∈ seq <$> List.filter (orphaned d) loaded))) loaded
          = List.filter (λ e, negb (orphaned d e)) loaded).
  { apply filter_ext_in. intros e He. apply list_elem_of_In in He. f_equal.
    destruct (orphaned d e) eqn:Ho.
    - apply bool_decide_eq_true. apply list_elem_of_fmap_2. by apply elem_of_filterb.
    - apply bool_decide_eq_false. intros (e2 & Hs & [He2 Ho2]%elem_of_filterb)%list_elem_of_fmap.
      assert (e = e2) as <-; [|congruence].
      by apply (NoDup_fmap_inj seq loaded). }
  rewrite Hkept.
  destruct (match conflicts_file d with Some _ => _ | None => ([], 1) end) as [cs nc].
  set (j0 := Build_MutationJournal _ _ cs nc dir 0 d).
  destruct (report_orphans now (seq <$> List.filter (orphaned d) loaded) j0) as (E1 & E2 & _ & E4).
  set (j1 := foldl _ j0 _) in *.
  assert (Hfin : ∀ j2, j2 = match conflicts j1 with [] => j1 | _ => save_conflicts j1 end →
    entries j2 = entries j1 ∧ next_seq j2 = next_seq j1 ∧ conflicts j2 = conflicts j1).
  { intros j2 ->. destruct (conflicts j1) eqn:Ec; by rewrite <- Ec. }
  destruct (Hfin _ eq_refl) as (-> & -> & ->). rewrite E1, E2. split_and!; [done|done|].
  intros e He Ho. apply E4, list_elem_of_fmap_2, elem_of_filterb. done.
Qed.


(** A queue of an upload and a delete, with the upload's bytes on disk. *)
Definition journal_demo : MutationJournal :=
  let d := Build_Disk (Some []) None {[ ["w1"%string] := Build_LocalFile [] 0 ]} true in
  run_ops [JEnqueue 0 (Put ["d"; "a"]%string ["w1"%string] None); JEnqueue 0 (Unlink ["b"%string])]
    (load_or_create 0 [] d).

Lemma journal_demo_ok : seqs_ok journal_demo ∧ saved journal_demo.
Proof.
  apply run_ops_inv.
  - split; [constructor|]. simpl. by intros e ?%elem_of_nil.
  - by split.
Qed.


(** ** Reading what has not reached the server yet *)

(** Where an upload's bytes are. *)
Definition upload_bytes (o : MutationOp) : option PendingUpload :=
  match o with
  | Put _ s _ => Some (Staged s)
  | FinishChunked _ _ _ confirmed _ tail _ sparse head whole =>
      Some (if whole then Staged tail else StreamTail tail confirmed head sparse)
  | _ => None
  end.
Definition renames_onto (o : MutationOp) (path : PathBuf) : bool :=
  match o with Rename _ to _ _ => starts_with path to | _ => false end.

(** Entries a search that already followed a rename passes over. *)
Lemma search_skips path names l rest :
  (∀ e, e ∈ l → (∀ n, n ∈ names → is_upload_of (op e) n = false) ∧ renames_onto (op e) path = false) →
  pending_upload_in path names true (l ++ rest) = pending_upload_in path names true rest.
Proof.
  induction l as [|e l IH]; intros H; [done|].
  destruct (H e ltac:(left)) as [Hn Hr].
  assert (IH' : pending_upload_in path names true (l ++ rest) = pending_upload_in path names true rest).
  { apply IH. intros e' He'. apply H. by right. }
  simpl. destruct (op e) as [p s m|p|p|p|f t st m|p u ni bc tl ta m sp h w]; simpl in *;
    rewrite ?andb_false_r; try done.
  - rewrite bool_decide_eq_false_2; [done|]. intros Hin%Hn. by rewrite bool_decide_eq_true_2 in Hin.
  - by rewrite Hr.
  - rewrite bool_decide_eq_false_2; [done|]. intros Hin%Hn. by rewrite bool_decide_eq_true_2 in Hin.
Qed.

Lemma search_finds path names r e rest n :
  n ∈ names → is_upload_of (op e) n = true →
  pending_upload_in path names r (e :: rest) = upload_bytes (op e).
Proof.
  intros Hn Hu. simpl.
  destruct (op e) as [p s m|p|p|p|f t st m|p u ni bc tl ta m sp h w]; simpl in *; try done;
    apply bool_decide_eq_true in Hu as ->; by rewrite bool_decide_eq_true_2.
Qed.

Lemma rewrite_path_cases p old new :
  (∃ x, p = old ++ x ∧ rewrite_path p old new = new ++ x) ∨
  (starts_with p old = false ∧ rewrite_path p old new = p).
Proof.
  unfold rewrite_path. destruct (strip_prefix p old) as [x|] eqn:E.
  - left. exists x. split; [by apply strip_prefix_Some|done].
  - right. split; [|done]. apply not_true_iff_false. intros [x Hx]%strip_prefix_is_Some. congruence.
Qed.

Lemma disjoint_trees from to r1 r2 :
  starts_with from to = false → starts_with to from = false → from ++ r1 ≠ to ++ r2.
Proof.
  intros Hft%not_true_iff_false Htf%not_true_iff_false Heq.
  rewrite starts_with_prefix in Hft, Htf.
  destruct (prefix_weak_total from to (from ++ r1)) as [Hp|Hp];
    [by exists r1|rewrite Heq; by exists r2|done|done].
Qed.

Lemma starts_with_app_cancel p q r : starts_with (r ++ p) (r ++ q) = starts_with p q.
Proof. induction r as [|x r IH]; [done|]. simpl. by rewrite bool_decide_eq_true_2, IH. Qed.

Lemma follow_rename_upload from to m e n :
  is_upload_of (op (follow_rename from to m e)) n =
  is_upload_of (if negb (in_flight e) && negb (retargeted e) then update_path_prefix from to (op e) else op e) n.
Proof.
  unfold follow_rename. destruct (_ && _); [|done]. simpl.
  destruct (is_upload_of _ to && _); [|done]. by destruct (op e).
Qed.
Lemma follow_rename_bytes from to m e : upload_bytes (op (follow_rename from to m e)) = upload_bytes (op e).
Proof.
  unfold follow_rename. destruct (_ && _); [|done]. simpl.
  destruct (is_upload_of _ to && _); by destruct (op e).
Qed.
Lemma follow_rename_onto from to m e path :
  renames_onto (op (follow_rename from to m e)) path =
  renames_onto (if negb (in_flight e) && negb (retargeted e) then update_path_prefix from to (op e) else op e) path.
Proof.
  unfold follow_rename. destruct (_ && _); [|done]. simpl.
  destruct (is_upload_of _ to && _); [|done]. by destruct (op e).
Qed.

(** No live or rewritten entry gains a claim on either name of the moved file. *)
Lemma rewritten_unrelated from to rel p :
  starts_with from to = false → starts_with to from = false →
  p ≠ from ++ rel → p ≠ to ++ rel →
  rewrite_path p from to ≠ from ++ rel ∧ rewrite_path p from to ≠ to ++ rel.
Proof.
  intros Hft Htf Hf Ht. destruct (rewrite_path_cases p from to) as [(x & -> & ->)|[_ ->]]; [|done].
  split; [intros E; by apply (disjoint_trees from to rel x)|].
  intros E%app_inv_head. by subst.
Qed.
Lemma rewritten_not_onto from to rel t :
  starts_with from to = false → starts_with to from = false →
  starts_with (from ++ rel) t = false → starts_with (to ++ rel) t = false →
  starts_with (to ++ rel) (rewrite_path t from to) = false.
Proof.
  intros Hft Htf Hf Ht. destruct (rewrite_path_cases t from to) as [(x & -> & ->)|[_ ->]]; [|done].
  by rewrite starts_with_app_cancel in *.
Qed.

Definition unrelated (from to rel : PathBuf) (o : MutationOp) : Prop :=
  is_upload_of o (from ++ rel) = false ∧ is_upload_of o (to ++ rel) = false ∧
  renames_onto o (from ++ rel) = false ∧ renames_onto o (to ++ rel) = false.

Lemma follow_rename_unrelated from to m rel e :
  starts_with from to = false → starts_with to from = false → unrelated from to rel (op e) →
  (∀ n, n ∈ [to ++ rel; from ++ rel] → is_upload_of (op (follow_rename from to m e)) n = false) ∧
  renames_onto (op (follow_rename from to m e)) (to ++ rel) = false.
Proof.
  intros Hft Htf (H1 & H2 & H3 & H4). split.
  - intros n Hn. rewrite follow_rename_upload.
    assert (Hdone : is_upload_of (op e) n = false).
    { apply elem_of_cons in Hn as [->|Hn]; [done|]. by apply list_elem_of_singleton in Hn as ->. }
    destruct (_ && _); [|done].
    destruct (op e) as [p s c|p|p|p|f t st c|p u ni bc tl ta c sp h w]; simpl in *; try done;
      apply bool_decide_eq_false in H1, H2; apply bool_decide_eq_false;
      destruct (rewritten_unrelated from to rel p Hft Htf H1 H2);
      apply elem_of_cons in Hn as [->|Hn]; try done; by apply list_elem_of_singleton in Hn as ->.
  - rewrite follow_rename_onto. destruct (_ && _); [|done].
    destruct (op e) as [p s c|p|p|p|f t st c|p u ni bc tl ta c sp h w]; simpl in *; try done.
    by apply rewritten_not_onto.
Qed.

(** A rename never hides bytes still on their way up: reading the moved file (or a file
    inside the moved folder) at its new name finds the newest queued upload it had under the
    old one, whether that upload waits in the queue (its entry was re-pointed) or a live
    worker holds it under the old name, and whatever deletes are queued behind it. *)
Theorem rename_reads_upload now from to m rel j l1 e l2 :
  starts_with from to = false → starts_with to from = false →
  entries j = l1 ++ e :: l2 →
  is_upload_of (op e) (join from rel) = true →
  (∀ e', e' ∈ l2 → unrelated from to rel (op e')) →
  pending_upload (join to rel) (enqueue now (Rename from to None m) j).2 = upload_bytes (op e).
Proof.
  intros Hft Htf Hj Hu Hl2. unfold pending_upload, enqueue. simpl.
  rewrite reverse_snoc, Hj, fmap_app, fmap_cons, reverse_app, reverse_cons. simpl.
  rewrite starts_with_join, (proj2 (strip_prefix_Some _ _ rel)) by done. simpl. unfold join in *.
  rewrite <- app_assoc, search_skips.
  - simpl app. rewrite <- (follow_rename_bytes from to m e).
    eapply (search_finds _ _ _ _ _ (if negb (in_flight e) && negb (retargeted e) then to ++ rel else from ++ rel)).
    + destruct (_ && _); [left|right; left].
    + rewrite follow_rename_upload. destruct (_ && _); [|done].
      destruct (op e) as [p s c|p|p|p|f t st c|p u ni bc tl ta c sp h w]; simpl in *; try done;
        apply bool_decide_eq_true in Hu as ->; apply bool_decide_eq_true; unfold rewrite_path;
        by rewrite (proj2 (strip_prefix_Some _ _ rel)).
  - intros e2 He2. rewrite elem_of_reverse in He2.
    apply list_elem_of_fmap in He2 as (e3 & -> & He3).
    by apply follow_rename_unrelated; [..|apply Hl2].
Qed.

Lemma rename_reads_upload_witness :
  pending_upload ["c"; "a"]%string (enqueue 0 (Rename ["d"%string] ["c"%string] None None) journal_demo).2
  = Some (Staged ["w1"%string]).
Proof.
  refine (rename_reads_upload 0 ["d"%string] ["c"%string] None ["a"%string] journal_demo []
    (Build_JournalEntry 1 (Put ["d"; "a"]%string ["w1"%string] None) 0 0 None false false false)
    [Build_JournalEntry 2 (Unlink ["b"%string]) 0 0 None false false false]
    eq_refl eq_refl _ eq_refl _); [by vm_compute|].
  intros e' ->%list_elem_of_singleton. by split_and!.
Defined.

(** ** Naming the destination of a live upload *)

Lemma settle_entry s j i e l :
  List.filter (λ ie, has_seq s ie.2) (imap pair (entries j)) = (i, e) :: l →
  entries j !! i = Some e ∧ seq e = s.
Proof.
  intros E. assert (Hin : (i, e) ∈ (i, e) :: l) by left. rewrite <- E in Hin.
  apply elem_of_filterb in Hin as [Hin Hs]. split; [by apply imap_pair_lookup|].
  by apply Nat.eqb_eq in Hs.
Qed.

Lemma fixed_stays s j i e :
  seqs_ok j → entries j !! i = Some e → seq e = s →
  set_dest_fixed e true ∈ update_first (has_seq s) (λ e, set_dest_fixed e true) (entries j).
Proof.
  intros [Hnd _] Hi Hs.
  assert (He : e ∈ entries j) by by eapply list_elem_of_lookup_2.
  destruct (update_first_hit (has_seq s) (λ e, set_dest_fixed e true) (entries j)) as (y & Hy & Hys & Hin).
  { apply existsb_elem. exists e. split; [done|]. by apply Nat.eqb_eq. }
  apply Nat.eqb_eq in Hys. assert (y = e) as ->; [|done].
  apply (NoDup_fmap_inj seq (entries j)); congruence.
Qed.

(** An entry whose destination is fixed is not re-pointed. *)
Lemma retarget_keeps_fixed from to base j e :
  e ∈ entries j → dest_fixed e = true → e ∈ entries (retarget_upload from to base j).2.
Proof.
  intros He Hf. unfold retarget_upload.
  destruct (List.filter _ (imap pair (entries j))) as [|[i e2] [|]] eqn:E; try done.
  destruct (dest_fixed e2) eqn:Hf2; [done|].
  destruct (op e2) as [p s [m|]| | | | |]; try done.
  destruct (existsb _ _); [done|].
  assert (Hi : entries j !! i = Some e2).
  { apply imap_pair_lookup. assert (Hin : (i, e2) ∈ [(i, e2)]) by left. rewrite <- E in Hin.
    by apply elem_of_filterb in Hin as [? _]. }
  unfold take_entry. rewrite Hi. simpl. apply elem_of_app. left.
  rewrite <- (take_drop_middle _ _ _ Hi) in He. rewrite !elem_of_app, elem_of_cons in *.
  destruct He as [?|[->|?]]; [by left|congruence|by right].
Qed.

(** C36: A live upload is told to send its bytes to a destination only when that is right: an
    upload nobody re-pointed goes where it started with its own condition; a re-pointed one
    goes to its current path under its current condition, only once no earlier change to
    that path is still queued and while nothing queued later replaces it. From then on its
    destination is fixed: neither re-pointing nor queueing a rename while the worker holds
    it changes where the entry says the bytes go. *)
Theorem settle_upload_go s started_as if_match j dest cond j' :
  seqs_ok j →
  settle_upload s started_as if_match j = (Go dest cond, j') →
  ∃ i e, entries j !! i = Some e ∧ seq e = s ∧
    (if retargeted e
     then dest = op_path (op e) ∧
          (∀ p st m, op e = Put p st m → cond = m) ∧
          (∀ e', e' ∈ take i (entries j) → touches (op e') dest = false) ∧
          (∀ e', e' ∈ drop (S i) (entries j) → replaces (op e') dest = false)
     else dest = started_as ∧ cond = if_match) ∧
    set_dest_fixed e true ∈ entries j' ∧
    (∀ from to base, set_dest_fixed e true ∈ entries (retarget_upload from to base j').2) ∧
    (∀ now from to st m, in_flight e = true →
       set_dest_fixed e true ∈ entries (enqueue now (Rename from to st m) j').2).
Proof.
  intros Hok. unfold settle_upload.
  destruct (List.filter _ (imap pair (entries j))) as [|[i e] l] eqn:E; [done|].
  destruct (settle_entry _ _ _ _ _ E) as [Hi Hs].
  assert (Hstay := fixed_stays s j i e Hok Hi Hs).
  set (jf := set_entries j (update_first (has_seq s) (λ e, set_dest_fixed e true) (entries j))).
  assert (Htail : set_dest_fixed e true ∈ entries jf ∧
    (∀ from to base, set_dest_fixed e true ∈ entries (retarget_upload from to base jf).2) ∧
    (∀ now from to st m, in_flight e = true →
       set_dest_fixed e true ∈ entries (enqueue now (Rename from to st m) jf).2)).
  { split_and!; [done|intros; by apply retarget_keeps_fixed|].
    intros now from to st m Hfl. simpl. apply elem_of_app. left. apply list_elem_of_fmap.
    exists (set_dest_fixed e true). split; [|done]. unfold follow_rename. simpl. by rewrite Hfl. }
  destruct (retargeted e) eqn:Hr; simpl negb; cbv iota.
  - destruct (existsb _ (drop _ _)) eqn:Hrep; [done|].
    destruct (find _ _) as [b|] eqn:Hfind; [by destruct (in_flight b || _)|].
    intros [= <- <- <-]. exists i, e. rewrite Hr. split_and!; try done; try apply Htail.
    + intros p st m Ho. by rewrite Ho.
    + intros e' He'. apply list_elem_of_In in He'. by apply (find_none _ _ Hfind e' He').
    + intros e' He'. by apply (proj1 (existsb_false_elem _ _) Hrep).
  - intros [= <- <- <-]. exists i, e. rewrite Hr. split_and!; try done; apply Htail.
Qed.

(** The upload of [/t], claimed, then re-pointed at [/doc]. *)
Lemma settle_upload_go_witness :
  let j := (retarget_upload ["t"%string] ["doc"%string] (Some "v1"%string)
    (run_ops [JEnqueue 0 (Put ["t"%string] ["w2"%string] None); JClaim 3] journal_demo)).2 in
  ∃ e j', settle_upload 3 ["t"%string] None j = (Go ["doc"%string] (Some "v1"%string), j') ∧
    seq e = 3 ∧ set_dest_fixed e true ∈ entries (retarget_upload ["doc"%string] ["x"%string] None j').2.
Proof.
  cbv zeta.
  set (j := (retarget_upload _ _ _ _).2).
  assert (Hok : seqs_ok j).
  { unfold j. eapply op_ok_seqs; [apply retarget_ok|]. apply run_ops_inv; apply journal_demo_ok. }
  destruct (settle_upload 3 ["t"%string] None j) as [r j'] eqn:E.
  assert (Hr : r = Go ["doc"%string] (Some "v1"%string)).
  { transitivity (settle_upload 3 ["t"%string] None j).1; [by rewrite E|]. by vm_compute. }
  subst r.
  destruct (settle_upload_go 3 ["t"%string] None j ["doc"%string] (Some "v1"%string) j' Hok E)
    as (i & e & _ & Hs & _ & _ & H & _).
  exists e, j'. split; [done|]. split; [exact Hs|exact (H ["doc"%string] ["x"%string] None)].
Defined.
