(* ===== verification/FsCache.v ===== *)
(** [lib.rs], [FsCache]: inode numbers, cached directory listings, pending (streaming)
    listings and the freshness of cached files.

    Clock readings ([Instant::now], [SystemTime::now]) are arguments.  The LRU tick is the
    static [ACCESS_TICK], kept here as a field.  A channel's receiver is what was sent on it
    and not yet received, with whether the sender is gone. *)
From S2P Require Import Prelude Paths Backend.

(** ** Data *)

(* lib.rs:606-636 DirCacheEntry *)
Record DirCacheEntry := {
  d_files : list RemoteEntry;
  d_self_entry : option RemoteEntry;
  d_etag : option Etag;
  d_at : Instant;
  d_fetched_at : SystemTime;
  d_refreshing : bool;
  d_invalidated : bool;
  d_hard_expired : bool;
  d_expiry_retry_after : option Instant;
  d_last_access : nat;
}.

(** [mpsc::Receiver]: sent and not received yet, oldest first; is the sender gone? *)
Record Receiver (A : Type) := { r_buf : list A; r_gone : bool }.
Arguments r_buf {A}. Arguments r_gone {A}. Arguments Build_Receiver {A}.
Inductive TryRecv (A : Type) := RecvOk (x : A) (rest : Receiver A) | RecvEmpty | RecvDisconnected.
Arguments RecvOk {A}. Arguments RecvEmpty {A}. Arguments RecvDisconnected {A}.
Definition try_recv {A} (r : Receiver A) : TryRecv A :=
  match r_buf r with
  | x :: rest => RecvOk x (Build_Receiver rest (r_gone r))
  | [] => if r_gone r then RecvDisconnected else RecvEmpty
  end.

(* lib.rs:646-654 PendingDir *)
Record PendingDir := {
  p_entries : list RemoteEntry;
  p_rx : Receiver RemoteEntry;
  p_etag_rx : Receiver (result (option Etag) string);
  p_self_rx : Receiver RemoteEntry;
  p_etag : option Etag;
  p_self_entry : option RemoteEntry;
  p_failed : option string;
}.

(* lib.rs:656-662 FileCacheEntry *)
Record FileCacheEntry := {
  fc_local_path : PathBuf;
  fc_remote_modified : option SystemTime;
  fc_etag : option Etag;
  fc_kept : bool;
  fc_size : Z;
}.

(* lib.rs:3078-3113 FsCache *)
Record FsCache := {
  inodes : gmap nat PathBuf;
  paths : gmap PathBuf nat;
  next_inode : nat;
  dir_cache : gmap PathBuf DirCacheEntry;
  dir_cache_max_dirs : nat;
  pending_dirs : gmap PathBuf PendingDir;
  file_cache : gmap PathBuf FileCacheEntry;
  uploading : gset PathBuf;
  deleting : gset PathBuf;
  not_dirs : gset PathBuf;
  trackerignore_hidden : bool;
  access_tick : nat;
}.

Definition with_inodes (c : FsCache) (i : gmap nat PathBuf) (p : gmap PathBuf nat) (n : nat) : FsCache :=
  Build_FsCache i p n (dir_cache c) (dir_cache_max_dirs c) (pending_dirs c) (file_cache c)
    (uploading c) (deleting c) (not_dirs c) (trackerignore_hidden c) (access_tick c).
Definition with_dirs (c : FsCache) (d : gmap PathBuf DirCacheEntry) : FsCache :=
  Build_FsCache (inodes c) (paths c) (next_inode c) d (dir_cache_max_dirs c) (pending_dirs c)
    (file_cache c) (uploading c) (deleting c) (not_dirs c) (trackerignore_hidden c) (access_tick c).
Definition with_pending (c : FsCache) (p : gmap PathBuf PendingDir) : FsCache :=
  Build_FsCache (inodes c) (paths c) (next_inode c) (dir_cache c) (dir_cache_max_dirs c) p
    (file_cache c) (uploading c) (deleting c) (not_dirs c) (trackerignore_hidden c) (access_tick c).
Definition with_guards (c : FsCache) (u d : gset PathBuf) : FsCache :=
  Build_FsCache (inodes c) (paths c) (next_inode c) (dir_cache c) (dir_cache_max_dirs c)
    (pending_dirs c) (file_cache c) u d (not_dirs c) (trackerignore_hidden c) (access_tick c).
Definition with_not_dirs (c : FsCache) (n : gset PathBuf) : FsCache :=
  Build_FsCache (inodes c) (paths c) (next_inode c) (dir_cache c) (dir_cache_max_dirs c)
    (pending_dirs c) (file_cache c) (uploading c) (deleting c) n (trackerignore_hidden c) (access_tick c).
Definition with_tick (c : FsCache) (t : nat) : FsCache :=
  Build_FsCache (inodes c) (paths c) (next_inode c) (dir_cache c) (dir_cache_max_dirs c)
    (pending_dirs c) (file_cache c) (uploading c) (deleting c) (not_dirs c) (trackerignore_hidden c) t.

(* lib.rs:642-644 next_access_tick *)
Definition next_access_tick (c : FsCache) : nat * FsCache :=
  (access_tick c, with_tick c (S (access_tick c))).

(** ** Inodes *)

(* lib.rs:3116-3123 FsCache::storage_totals *)
Definition storage_totals (c : FsCache) : Z * Z :=
  map_fold (λ _ e '(kept, cached),
    if fc_kept e then (kept + fc_size e, cached)%Z else (kept, cached + fc_size e)%Z) (0%Z, 0%Z)
    (file_cache c).

(* lib.rs:3125-3127 FsCache::get_path *)
Definition get_path (c : FsCache) (inode : nat) : option PathBuf := inodes c !! inode.

(* lib.rs:3129-3131 FsCache::get_inode *)
Definition get_inode (c : FsCache) (path : PathBuf) : option nat := paths c !! path.

(** One move of the loop: the inode keeps its number, what it displaces loses its path. *)
(* lib.rs:3146-3161 FsCache::move_path *)
Definition move_one (from to : PathBuf) (c : FsCache) (mv : PathBuf * nat) : FsCache :=
  let '(old, ino) := mv in
  let new := match strip_prefix old from with
             | Some (x :: rel) => join to (x :: rel)
             | _ => to
             end in
  let paths1 := delete old (paths c) in
  let inodes1 := <[ino := new]> (inodes c) in
  let inodes2 := match paths1 !! new with
                 | Some displaced => if decide (displaced = ino) then inodes1 else delete displaced inodes1
                 | None => inodes1
                 end in
  with_inodes c inodes2 (<[new := ino]> paths1) (next_inode c).

(* lib.rs:3136-3163 FsCache::move_path *)
Definition move_path (c : FsCache) (from to : PathBuf) (subtree : bool) : FsCache :=
  let own := match paths c !! from with Some ino => [(from, ino)] | None => [] end in
  let below := if subtree
    then List.filter (λ pi, starts_with pi.1 from && negb (bool_decide (pi.1 = from))) (map_to_list (paths c))
    else [] in
  foldl (move_one from to) c (own ++ below).

(* lib.rs:3165-3176 FsCache::allocate_inode *)
Definition allocate_inode (c : FsCache) (path : PathBuf) : nat * FsCache :=
  match paths c !! path with
  | Some ino => (ino, c)
  | None =>
      let ino := next_inode c in
      (ino, with_inodes c (<[ino := path]> (inodes c)) (<[path := ino]> (paths c)) (S ino))
  end.

(** ** Directory listings *)

Definition touch_access (e : DirCacheEntry) (tick : nat) : DirCacheEntry :=
  Build_DirCacheEntry (d_files e) (d_self_entry e) (d_etag e) (d_at e) (d_fetched_at e)
    (d_refreshing e) (d_invalidated e) (d_hard_expired e) (d_expiry_retry_after e) tick.
Definition set_expiry (e : DirCacheEntry) (hard : bool) (retry : option Instant) : DirCacheEntry :=
  Build_DirCacheEntry (d_files e) (d_self_entry e) (d_etag e) (d_at e) (d_fetched_at e)
    (d_refreshing e) (d_invalidated e) hard retry (d_last_access e).
Definition set_refreshing (e : DirCacheEntry) (r : bool) : DirCacheEntry :=
  Build_DirCacheEntry (d_files e) (d_self_entry e) (d_etag e) (d_at e) (d_fetched_at e)
    r (d_invalidated e) (d_hard_expired e) (d_expiry_retry_after e) (d_last_access e).
Definition set_files (e : DirCacheEntry) (f : list RemoteEntry) : DirCacheEntry :=
  Build_DirCacheEntry f (d_self_entry e) (d_etag e) (d_at e) (d_fetched_at e)
    (d_refreshing e) (d_invalidated e) (d_hard_expired e) (d_expiry_retry_after e) (d_last_access e).

Definition put_entry (c : FsCache) (path : PathBuf) (e : DirCacheEntry) : FsCache :=
  with_dirs c (<[path := e]> (dir_cache c)).

(** [now] is the monotonic clock, [wall] the system clock; a fetch time in the future makes
    [elapsed] fail and counts as infinitely old. *)
(* lib.rs:3178-3210 FsCache::get_cached_dir *)
Definition get_cached_dir (c0 : FsCache) (path : PathBuf) (ttl : Duration) (max_stale : option Duration)
    (now : Instant) (wall : SystemTime) : option (list RemoteEntry * bool) * FsCache :=
  let '(tick, c) := next_access_tick c0 in
  match dir_cache c !! path with
  | None => (None, c)
  | Some e0 =>
      let e := touch_access e0 tick in
      if d_invalidated e || d_hard_expired e then (None, put_entry c path e)
      else
        let cooling := match d_expiry_retry_after e with Some t => (now <? t)%Z | None => false end in
        if cooling then (Some (d_files e, false), put_entry c path e)
        else
          let e := set_expiry e (d_hard_expired e) None in
          let too_old := match max_stale with
            | Some mx => (wall <? d_fetched_at e)%Z || (mx <=? wall - d_fetched_at e)%Z
            | None => false
            end in
          if too_old then (None, put_entry c path (set_expiry e true None))
          else
            let stale := (ttl <=? now - d_at e)%Z in
            let needs_refresh := stale && negb (d_refreshing e) in
            let e := if needs_refresh then set_refreshing e true else e in
            (Some (d_files e, needs_refresh), put_entry c path e)
  end.

(* lib.rs:3212-3217 FsCache::get_cached_dir_readonly *)
Definition get_cached_dir_readonly (c : FsCache) (path : PathBuf) : option (list RemoteEntry) * FsCache :=
  match dir_cache c !! path with
  | None => (None, c)
  | Some e => let '(tick, c') := next_access_tick c in
              (Some (d_files e), put_entry c' path (touch_access e tick))
  end.

(* lib.rs:3222-3229 FsCache::nc_dir_perms *)
Definition nc_dir_perms (c : FsCache) (dir_inode : nat) : option string * FsCache :=
  match get_path c dir_inode ≫= (λ p, (λ q, (p, q)) <$> parent p) with
  | None => (None, c)
  | Some (dir_path, par) =>
      match get_cached_dir_readonly c par with
      | (None, c') => (None, c')
      | (Some files, c') =>
          (find (λ e, bool_decide (e_path e = dir_path)) files ≫= λ e, ext_str (e_ext e) "permissions", c')
      end
  end.

(* lib.rs:3231-3233 FsCache::cached_dir_etag *)
Definition cached_dir_etag (c : FsCache) (path : PathBuf) : option Etag :=
  dir_cache c !! path ≫= d_etag.

Definition has_path (p : PathBuf) (e : RemoteEntry) : bool := bool_decide (e_path e = p).

(** [f.size = old.size; f.modified = old.modified; f.change_token = old.change_token]. *)
Definition keep_upload (old f : RemoteEntry) : RemoteEntry :=
  {| e_path := e_path f; e_is_dir := e_is_dir f; e_size := e_size old; e_modified := e_modified old;
     e_change_token := e_change_token old; e_content_type := e_content_type f; e_ext := e_ext f |}.

(** Keeps one in-flight upload of the old listing in the new one. *)
(* lib.rs:3253-3264 FsCache::put_dir_cache *)
Definition merge_upload (files : list RemoteEntry) (old : RemoteEntry) : list RemoteEntry :=
  if existsb (has_path (e_path old)) files
  then update_first (has_path (e_path old)) (keep_upload old) files
  else files ++ [old].

(* lib.rs:11669-11671 trackerignore_path *)
Definition trackerignore_path : PathBuf := [".trackerignore"%string].

(* lib.rs:11675-11685 trackerignore_entry *)
Definition trackerignore_entry : RemoteEntry :=
  {| e_path := trackerignore_path; e_is_dir := false; e_size := 1; e_modified := None;
     e_change_token := None; e_content_type := Some "text/plain"%string; e_ext := ext_default |}.

(** The listing [put_dir_cache] stores for a directory: the server's, with uploads of ours
    kept, deletes of ours left out and the marker file overlaid on the root. *)
(* lib.rs:3249-3283 FsCache::put_dir_cache *)
Definition merged_listing (c : FsCache) (tracker_ignore : bool) (path : PathBuf)
    (files : list RemoteEntry) : list RemoteEntry :=
  let files1 := match dir_cache c !! path with
    | Some old => foldl merge_upload files
                    (List.filter (λ e, bool_decide (e_path e ∈ uploading c)) (d_files old))
    | None => files
    end in
  let files2 := List.filter (λ f, negb (bool_decide (e_path f ∈ deleting c))) files1 in
  if bool_decide (path = root) && negb (trackerignore_hidden c) && tracker_ignore
     && negb (existsb (has_path trackerignore_path) files2)
  then files2 ++ [trackerignore_entry] else files2.

Definition by_tick (a b : nat * PathBuf) : Prop := a.1 ≤ b.1.
#[export] Instance by_tick_dec : RelDecision by_tick.
Proof. intros a b. unfold by_tick. apply _. Defined.
#[export] Instance by_tick_total : Total by_tick.
Proof. intros a b. unfold by_tick. lia. Qed.
#[export] Instance by_tick_trans : Transitive by_tick.
Proof. intros a b c. unfold by_tick. lia. Qed.

(** Drops least-recently-used listings once there are too many: listings being refreshed
    and parents of uploads in flight are no candidates. *)
(* lib.rs:3299-3336 FsCache::evict_dir_cache *)
Definition evict_candidates (c : FsCache) : list (nat * PathBuf) :=
  let upload_parents : list PathBuf := omap parent (elements (uploading c)) in
  merge_sort by_tick
    ((λ pe, (d_last_access pe.2, pe.1)) <$>
      List.filter (λ pe, negb (d_refreshing pe.2) && negb (bool_decide (pe.1 ∈ upload_parents)))
        (map_to_list (dir_cache c))).

(* lib.rs:3299-3336 FsCache::evict_dir_cache *)
Definition evict_dir_cache (c : FsCache) : FsCache :=
  let mx := dir_cache_max_dirs c in
  if (mx =? 0) || (size (dir_cache c) <=? mx) then c
  else
    let target := mx - mx / 10 in
    let to_drop := size (dir_cache c) - target in
    with_dirs c (foldl (λ d p, delete p d) (dir_cache c) (take to_drop (evict_candidates c)).*2).

(* lib.rs:3235-3285 FsCache::put_dir_cache *)
Definition put_dir_cache (c : FsCache) (tracker_ignore : bool) (now : Instant) (wall : SystemTime)
    (path : PathBuf) (etag : option Etag) (self_entry : option RemoteEntry)
    (files : list RemoteEntry) : FsCache :=
  let is_file := match self_entry with Some se => negb (e_is_dir se) | None => false end in
  if is_file
  then with_not_dirs (with_dirs c (delete path (dir_cache c))) ({[path]} ∪ not_dirs c)
  else
    let c := with_not_dirs c (not_dirs c ∖ {[path]}) in
    let listing := merged_listing c tracker_ignore path files in
    let '(tick, c) := next_access_tick c in
    evict_dir_cache (put_entry c path
      {| d_files := listing; d_self_entry := self_entry; d_etag := etag; d_at := now;
         d_fetched_at := wall; d_refreshing := false; d_invalidated := false;
         d_hard_expired := false; d_expiry_retry_after := None; d_last_access := tick |}).

Definition with_size (e : RemoteEntry) (size : Z) (modified : SystemTime) : RemoteEntry :=
  {| e_path := e_path e; e_is_dir := e_is_dir e; e_size := size; e_modified := Some modified;
     e_change_token := e_change_token e; e_content_type := e_content_type e; e_ext := e_ext e |}.

(* lib.rs:3342-3357 FsCache::set_entry_size *)
Definition set_entry_size (c : FsCache) (path : PathBuf) (size : Z) (wall : SystemTime) : bool * FsCache :=
  let par := parent_or_root path in
  match dir_cache c !! par with
  | None => (false, c)
  | Some dir =>
      match find (has_path path) (d_files dir) with
      | None => (false, c)
      | Some entry =>
          if (e_size entry =? size)%Z then (false, c)
          else (true, put_entry c par
                 (set_files dir (update_first (has_path path) (λ e, with_size e size wall) (d_files dir))))
      end
  end.

(* lib.rs:3359-3367 FsCache::touch_dir_cache *)
Definition touch_dir_cache (c : FsCache) (path : PathBuf) (now : Instant) (wall : SystemTime) : FsCache :=
  match dir_cache c !! path with
  | None => c
  | Some e => put_entry c path
      (Build_DirCacheEntry (d_files e) (d_self_entry e) (d_etag e) now wall false false false
         (d_expiry_retry_after e) (d_last_access e))
  end.

(** ** Pending (streaming) listings *)

(* lib.rs:3369-3379 FsCache::start_pending *)
Definition start_pending (c : FsCache) (path : PathBuf) (rx : Receiver RemoteEntry)
    (etag_rx : Receiver (result (option Etag) string)) (self_rx : Receiver RemoteEntry) : FsCache :=
  with_pending c (<[path := {| p_entries := []; p_rx := rx; p_etag_rx := etag_rx; p_self_rx := self_rx;
                               p_etag := None; p_self_entry := None; p_failed := None |}]> (pending_dirs c)).

Definition recv_opt {A} (r : Receiver A) : option A :=
  match try_recv r with RecvOk x _ => Some x | _ => None end.

(* lib.rs:3400-3426 FsCache::promote_pending *)
Definition promote_pending (c : FsCache) (tracker_ignore : bool) (now : Instant) (wall : SystemTime)
    (path : PathBuf) : result (option RemoteEntry) string * FsCache :=
  match pending_dirs c !! path with
  | None => (Ok None, c)
  | Some p =>
      let c := with_pending c (delete path (pending_dirs c)) in
      let entries := p_entries p ++ r_buf (p_rx p) in
      let '(etag, failed) := match recv_opt (p_etag_rx p) with
        | Some (Ok etag) => (etag, p_failed p)
        | Some (Err e) => (p_etag p, Some e)
        | None => (p_etag p, p_failed p)
        end in
      match failed with
      | Some e => (Err e, c)
      | None =>
          let self_entry := match p_self_entry p with
            | Some se => Some se
            | None => recv_opt (p_self_rx p)
            end in
          (Ok self_entry, put_dir_cache c tracker_ignore now wall path etag self_entry entries)
      end
  end.

(** Draining the entry channel: everything sent so far, and whether the sender is gone. *)
(* lib.rs:3428-3464 FsCache::get_pending_snapshot *)
Definition get_pending_snapshot (c : FsCache) (tracker_ignore : bool) (now : Instant) (wall : SystemTime)
    (path : PathBuf) : result (option (list RemoteEntry)) string * FsCache :=
  match pending_dirs c !! path with
  | None => (Ok None, c)
  | Some p =>
      let '(self_entry, self_rx) := match p_self_entry p with
        | Some se => (Some se, p_self_rx p)
        | None => match try_recv (p_self_rx p) with
                  | RecvOk se rest => (Some se, rest)
                  | _ => (None, p_self_rx p)
                  end
        end in
      let entries := p_entries p ++ r_buf (p_rx p) in
      let p' := {| p_entries := entries; p_rx := Build_Receiver [] (r_gone (p_rx p));
                   p_etag_rx := p_etag_rx p; p_self_rx := self_rx; p_etag := p_etag p;
                   p_self_entry := self_entry; p_failed := p_failed p |} in
      let c := with_pending c (<[path := p']> (pending_dirs c)) in
      if r_gone (p_rx p)
      then match promote_pending c tracker_ignore now wall path with
           | (Err e, c') => (Err e, c')
           | (Ok _, c') => (Ok (d_files <$> dir_cache c' !! path), c')
           end
      else match entries with
           | [] => (Ok None, c)
           | _ => (Ok (Some entries), c)
           end
  end.

(* lib.rs:3388-3398 FsCache::subdir_paths_for_prefetch *)
Definition subdir_paths_for_prefetch (c : FsCache) (tracker_ignore : bool) (now : Instant)
    (wall : SystemTime) (path : PathBuf) : list PathBuf * FsCache :=
  let c := if decide (is_Some (pending_dirs c !! path))
           then (promote_pending c tracker_ignore now wall path).2 else c in
  (match dir_cache c !! path with
   | None => []
   | Some e => omap (λ f, (λ n, join path [n]) <$> file_name (e_path f)) (List.filter e_is_dir (d_files e))
   end, c).

Definition EXPIRY_RETRY_COOLDOWN : Duration := secs 60.

(* lib.rs:3470-3478 FsCache::take_hard_expired_fallback *)
Definition take_hard_expired_fallback (c : FsCache) (path : PathBuf) (now : Instant) :
    option (list RemoteEntry * option RemoteEntry) * FsCache :=
  match dir_cache c !! path with
  | None => (None, c)
  | Some e =>
      if negb (d_hard_expired e) || d_invalidated e then (None, c)
      else (Some (d_files e, d_self_entry e),
            put_entry c path (set_expiry e false (Some (now + EXPIRY_RETRY_COOLDOWN)%Z)))
  end.

(* lib.rs:3486-3500 FsCache::confirm_dir_fresh *)
Definition confirm_dir_fresh (c : FsCache) (path : PathBuf) (now : Instant) (wall : SystemTime) : bool * FsCache :=
  match dir_cache c !! path with
  | Some e =>
      if d_invalidated e then (false, c)
      else (true, put_entry c path
        (Build_DirCacheEntry (d_files e) (d_self_entry e) (d_etag e) now wall (d_refreshing e)
           (d_invalidated e) false None (d_last_access e)))
  | None => (false, c)
  end.

(* lib.rs:3504-3508 FsCache::invalidate_dir *)
Definition invalidate_dir (c : FsCache) (path : PathBuf) : FsCache :=
  match dir_cache c !! path with
  | None => c
  | Some e => put_entry c path
      (Build_DirCacheEntry (d_files e) (d_self_entry e) (d_etag e) (d_at e) (d_fetched_at e)
         (d_refreshing e) true (d_hard_expired e) (d_expiry_retry_after e) (d_last_access e))
  end.

(* lib.rs:3514-3516 FsCache::may_serve_pending_snapshot *)
Definition may_serve_pending_snapshot (c : FsCache) (path : PathBuf) : bool :=
  match dir_cache c !! path with
  | None => true
  | Some e => negb (d_invalidated e) && negb (d_hard_expired e)
  end.

(* lib.rs:3518-3522 FsCache::clear_refreshing *)
Definition clear_refreshing (c : FsCache) (path : PathBuf) : FsCache :=
  match dir_cache c !! path with
  | None => c
  | Some e => put_entry c path (set_refreshing e false)
  end.

(** ** Entries and cached files *)

Definition has_name (name : string) (e : RemoteEntry) : bool :=
  bool_decide (default ""%string (file_name (e_path e)) = name).

(* lib.rs:3524-3531 FsCache::is_known_directory *)
Definition is_known_directory (c : FsCache) (path : PathBuf) : option bool :=
  par ← parent path; name ← file_name path; dc ← dir_cache c !! par;
  Some (existsb (λ f, has_name name f && e_is_dir f) (d_files dc)).

(* lib.rs:3568-3582 FsCache::find_entry *)
Definition find_entry (c : FsCache) (path : PathBuf) : option RemoteEntry :=
  name ← file_name path; dc ← dir_cache c !! parent_or_root path; find (has_name name) (d_files dc).

(* lib.rs:3533-3535 FsCache::remote_modified_for *)
Definition remote_modified_for (c : FsCache) (path : PathBuf) : option SystemTime :=
  find_entry c path ≫= e_modified.

(* lib.rs:3537-3539 FsCache::remote_etag_for *)
Definition remote_etag_for (c : FsCache) (path : PathBuf) : option Etag :=
  find_entry c path ≫= e_change_token.

(* lib.rs:3552-3566 FsCache::file_cache_matches_remote *)
Definition file_cache_matches_remote (c : FsCache) (path : PathBuf) : bool :=
  if bool_decide (path ∈ uploading c) then false
  else match file_cache c !! path with
       | None => false
       | Some fc =>
           match fc_etag fc, remote_etag_for c path with
           | Some cached, Some current => bool_decide (cached = current)
           | _, _ =>
               match fc_remote_modified fc, remote_modified_for c path with
               | Some cached, Some current => bool_decide (cached = current)
               | _, _ => true
               end
           end
       end.

(** ** Inode maps stay inverse of each other *)

Definition inode_wf (c : FsCache) : Prop :=
  (∀ i p, inodes c !! i = Some p ↔ paths c !! p = Some i) ∧
  (∀ i p, inodes c !! i = Some p → i < next_inode c).

(** Where a move puts a path below [from]. *)
Lemma move_target old from to :
  starts_with old from = true →
  ∃ rel, old = from ++ rel ∧
    match strip_prefix old from with Some (x :: rel) => join to (x :: rel) | _ => to end = to ++ rel.
Proof.
  intros [rel Hrel]%strip_prefix_is_Some. exists rel. split; [by apply strip_prefix_Some|].
  rewrite Hrel. destruct rel; [by rewrite app_nil_r|done].
Qed.

Lemma move_one_paths from to c old ino rel :
  old = from ++ rel →
  paths (move_one from to c (old, ino)) = <[to ++ rel := ino]> (delete old (paths c)).
Proof.
  intros Ho. unfold move_one. simpl.
  destruct (move_target old from to) as (rel' & Hr & ->).
  { subst. apply starts_with_prefix. by exists rel. }
  subst old. apply app_inv_head in Hr as <-. done.
Qed.

Lemma move_one_wf from to c old ino :
  inode_wf c → paths c !! old = Some ino → starts_with old from = true →
  inode_wf (move_one from to c (old, ino)).
Proof.
  intros [Hb Hn] Hold Hs. destruct (move_target old from to Hs) as (rel & Hr & Hnew).
  unfold move_one. rewrite Hnew. clear Hnew. set (new := to ++ rel).
  assert (Hino : inodes c !! ino = Some old) by by apply Hb.
  assert (Hinj : ∀ i p, paths c !! p = Some i → i = ino → p = old).
  { intros i p Hp ->. apply Hb in Hp. congruence. }
  split; simpl.
  - intros i p. destruct (delete old (paths c) !! new) as [dd|] eqn:Hd.
    + apply lookup_delete_Some in Hd as [Hne Hd].
      assert (dd ≠ ino) as Hdd by (intros ->; by apply Hne, eq_sym, (Hinj ino)).
      rewrite decide_False by done. rewrite lookup_delete_Some, !lookup_insert_Some, lookup_delete_Some.
      pose proof (Hb i p). pose proof (Hb dd new). naive_solver.
    + apply lookup_delete_None in Hd. rewrite !lookup_insert_Some, lookup_delete_Some, (Hb i p).
      split.
      * intros [[-> ->]|[Hne Hp]]; [by left|]. right.
        destruct Hd as [<-|Hd]; split_and!; try done; intros E; congruence.
      * intros [[-> ->]|(Hne & Hno & Hp)]; [by left|]. right. split; [|done].
        intros E. apply Hno, eq_sym, (Hinj i); [done|by symmetry].
  - intros i p Hi. assert (∃ q, inodes c !! i = Some q) as [q Hq]; [|by apply (Hn i q)].
    repeat case_match; try case_decide; rewrite ?lookup_delete_Some, ?lookup_insert_Some in Hi; naive_solver.
Qed.

(** The whole loop, for any order of the collected moves. *)
Lemma move_all_spec from to mvs c :
  inode_wf c → starts_with from to = false → starts_with to from = false →
  NoDup mvs.*1 →
  (∀ old ino, (old, ino) ∈ mvs → paths c !! old = Some ino ∧ starts_with old from = true) →
  let c' := foldl (move_one from to) c mvs in
  inode_wf c' ∧
  (∀ rel ino, (from ++ rel, ino) ∈ mvs → paths c' !! (to ++ rel) = Some ino) ∧
  (∀ old, old ∈ mvs.*1 → paths c' !! old = None) ∧
  (∀ p, p ∉ mvs.*1 → (∀ rel, p = to ++ rel → from ++ rel ∉ mvs.*1) → paths c' !! p = paths c !! p).
Proof.
  intros Hwf Hft Htf Hnd Hall. revert c Hwf Hnd Hall.
  assert (Hdis : ∀ r1 r2, from ++ r1 ≠ to ++ r2).
  { intros r1 r2 Heq. apply not_true_iff_false in Hft, Htf.
    rewrite starts_with_prefix in Hft, Htf.
    destruct (prefix_weak_total from to (from ++ r1)) as [Hp|Hp]; [by exists r1|rewrite Heq; by exists r2|done|done]. }
  induction mvs as [|[old ino] mvs IH]; intros c Hwf Hnd Hall; simpl.
  { split_and!; [done|by intros ? ? ?%elem_of_nil|by intros ? ?%elem_of_nil|done]. }
  rewrite fmap_cons in Hnd. apply NoDup_cons in Hnd as [Hni Hnd].
  destruct (Hall old ino ltac:(left)) as [Hold Hs].
  destruct (move_target old from to Hs) as (rel0 & Ho & _).
  pose proof (move_one_paths from to c old ino rel0 Ho) as Hp1.
  destruct (IH (move_one from to c (old, ino))) as (I1 & I2 & I3 & I4).
  { by apply move_one_wf. }
  { done. }
  { intros old' ino' Hin. destruct (Hall old' ino' ltac:(by right)) as [Hold' Hs']. split; [|done].
    destruct (move_target old' from to Hs') as (r' & Hr' & _). rewrite Hp1.
    rewrite lookup_insert_ne by (rewrite Hr'; intros E; by apply (Hdis r' rel0)).
    rewrite lookup_delete_ne; [done|]. intros <-. apply Hni.
    apply list_elem_of_fmap. by exists (old, ino'). }
  split_and!.
  - done.
  - intros rel i [[= E ->]|Hin]%elem_of_cons; [|by apply I2].
    subst old. apply app_inv_head in E as ->. rewrite I4.
    + rewrite Hp1. apply lookup_insert_eq.
    + intros ([q j] & Hq & Hin)%list_elem_of_fmap. simpl in Hq. subst q.
      destruct (Hall _ _ (list_elem_of_further _ _ _ Hin)) as [_ Hs'].
      destruct (move_target _ from to Hs') as (r' & Hr' & _). by apply (Hdis r' rel0).
    + intros r E. apply app_inv_head in E as <-. done.
  - intros q [->|Hq]%elem_of_cons; [|by apply I3]. simpl.
    destruct (decide (old ∈ mvs.*1)); [done|]. rewrite I4; [|done|].
    + rewrite Hp1, lookup_insert_ne, lookup_delete_eq; [done|]. rewrite Ho. intros E. by apply (Hdis rel0 rel0).
    + intros r E. exfalso. apply (Hdis rel0 r). by rewrite <- Ho.
  - intros p Hp Hno. apply not_elem_of_cons in Hp as [Hp1' Hp2].
    rewrite I4; [|done|].
    + rewrite Hp1, lookup_insert_ne, lookup_delete_ne; [done|congruence|].
      intros E. apply (Hno rel0); [done|]. rewrite <- Ho. left.
    + intros r E Hin. apply (Hno r E). by right.
Qed.

(** The moves of a subtree: every path at or below [from]. *)
Lemma subtree_moves c from :
  let own := match paths c !! from with Some ino => [(from, ino)] | None => [] end in
  let below := List.filter (λ pi, starts_with pi.1 from && negb (bool_decide (pi.1 = from)))
                 (map_to_list (paths c)) in
  NoDup (own ++ below).*1 ∧
  (∀ old ino, (old, ino) ∈ own ++ below ↔ paths c !! old = Some ino ∧ starts_with old from = true).
Proof.
  intros own below.
  assert (Hb : ∀ old ino, (old, ino) ∈ below ↔
    paths c !! old = Some ino ∧ starts_with old from = true ∧ old ≠ from).
  { intros old ino. unfold below. rewrite elem_of_filterb, elem_of_map_to_list. simpl.
    rewrite andb_true_iff, negb_true_iff, bool_decide_eq_false. naive_solver. }
  assert (Ho : ∀ old ino, (old, ino) ∈ own ↔ old = from ∧ paths c !! from = Some ino).
  { intros old ino. unfold own. destruct (paths c !! from).
    - rewrite list_elem_of_singleton. naive_solver.
    - rewrite elem_of_nil. naive_solver. }
  split.
  - rewrite fmap_app. apply NoDup_app. split_and!.
    + unfold own. destruct (paths c !! from); [apply NoDup_singleton|constructor].
    + intros p ([q i] & -> & [-> _]%Ho)%list_elem_of_fmap ([q' j] & E & [_ [_ Hne]]%Hb)%list_elem_of_fmap.
      simpl in *. congruence.
    + unfold below. eapply sublist_NoDup; [apply (NoDup_fst_map_to_list (paths c))|].
      apply fmap_sublist, filterb_sublist.
  - intros old ino. rewrite elem_of_app, Ho, Hb. split.
    + intros [[-> ?]|(? & ? & ?)]; [|done]. split; [done|apply starts_with_refl].
    + intros [? ?]. destruct (decide (old = from)) as [->|]; [by left|by right].
Qed.

(** The same for any [subtree], in terms of inodes: what moves goes below [to], an inode whose
    path nothing arrives at keeps it. *)
Lemma move_path_spec c from to sub :
  inode_wf c → starts_with from to = false → starts_with to from = false →
  let c' := move_path c from to sub in
  let moves rel := rel = [] ∨ sub = true in
  inode_wf c' ∧
  (∀ rel ino, get_path c ino = Some (from ++ rel) → moves rel → get_path c' ino = Some (to ++ rel)) ∧
  (∀ p ino, get_path c ino = Some p → (∀ rel, p = from ++ rel → ¬ moves rel) →
     (∀ rel, p = to ++ rel → moves rel → get_inode c (from ++ rel) = None) → get_path c' ino = Some p).
Proof.
  intros Hwf Hft Htf c' moves. destruct (subtree_moves c from) as [Hnd Hin].
  set (own := match paths c !! from with Some ino => [(from, ino)] | None => [] end) in *.
  set (below := List.filter _ _) in *.
  assert (Hmv : ∃ mvs, c' = foldl (move_one from to) c mvs ∧ NoDup mvs.*1 ∧
    ∀ old ino, (old, ino) ∈ mvs ↔ paths c !! old = Some ino ∧ ∃ rel, old = from ++ rel ∧ moves rel).
  { exists (own ++ if sub then below else []). split; [done|]. unfold moves. destruct sub.
    - split; [done|]. intros old ino. rewrite Hin, starts_with_prefix. unfold prefix. naive_solver.
    - rewrite app_nil_r. assert (Ho : ∀ old ino, (old, ino) ∈ own ↔ old = from ∧ paths c !! from = Some ino).
      { intros old ino. unfold own. destruct (paths c !! from);
          [rewrite list_elem_of_singleton|rewrite elem_of_nil]; naive_solver. }
      split; [rewrite fmap_app in Hnd; by apply NoDup_app in Hnd as [? _]|].
      intros old ino. rewrite Ho. split.
      + intros [-> ?]. split; [done|]. exists []. rewrite app_nil_r. by split; [|left].
      + intros (Hp & rel & -> & [->|?]); [|done]. rewrite app_nil_r in *. done. }
  destruct Hmv as (mvs & -> & Hnd' & Hm). clear Hin Hnd own below.
  destruct (move_all_spec from to mvs c Hwf Hft Htf Hnd') as (H1 & H2 & H3 & H4).
  { intros old ino (Hp & rel & -> & _)%Hm. split; [done|apply starts_with_join]. }
  assert (Hkey : ∀ q, q ∈ mvs.*1 → is_Some (paths c !! q) ∧ ∃ rel, q = from ++ rel ∧ moves rel).
  { intros q ([q' i] & -> & [Hp Hr]%Hm)%list_elem_of_fmap. split; [by eexists|done]. }
  split_and!; [done| |].
  - intros rel ino Hp Hmo. apply H1, H2, Hm. apply (proj1 Hwf) in Hp. split; [done|]. by exists rel.
  - intros p ino Hp Hno Hto. apply (proj1 H1). apply (proj1 Hwf) in Hp. rewrite H4; [done| |].
    + intros (_ & rel & Hr & Hmo)%Hkey. by apply (Hno rel).
    + intros rel Hr [Hs (rel' & E & Hmo)]%Hkey. apply app_inv_head in E as <-.
      destruct Hs as [i Hi]. pose proof (Hto rel Hr Hmo) as Hn. unfold get_inode in Hn. congruence.
Qed.

(** Renaming a folder keeps every inode the kernel knows: each inode at or below [from]
    resolves to the same place below [to], nothing is left under the old name, paths outside
    both are untouched and the two inode maps stay inverse of each other, whatever order
    the hash map yields the moves in. *)
Theorem move_path_inodes c from to :
  inode_wf c → starts_with from to = false → starts_with to from = false →
  let c' := move_path c from to true in
  inode_wf c' ∧
  (∀ rel ino, get_inode c (from ++ rel) = Some ino → get_path c' ino = Some (to ++ rel)) ∧
  (∀ rel, get_inode c' (from ++ rel) = None) ∧
  (∀ p, starts_with p from = false → starts_with p to = false → get_inode c' p = get_inode c p).
Proof.
  intros Hwf Hft Htf. destruct (subtree_moves c from) as [Hnd Hin].
  destruct (move_all_spec from to _ c Hwf Hft Htf Hnd) as (H1 & H2 & H3 & H4).
  { intros old ino. apply Hin. }
  split_and!.
  - done.
  - intros rel ino Hg. apply H1. apply H2, Hin. split; [done|apply starts_with_join].
  - intros rel. unfold get_inode. destruct (paths c !! (from ++ rel)) as [ino|] eqn:E.
    + apply H3, list_elem_of_fmap. exists (from ++ rel, ino). split; [done|].
      apply Hin. split; [done|apply starts_with_join].
    + rewrite <- E. apply H4.
      * intros ([q j] & Hq & [Hj _]%Hin)%list_elem_of_fmap. simpl in *. subst. congruence.
      * intros r Hr. exfalso. apply not_true_iff_false in Hft, Htf.
        rewrite starts_with_prefix in Hft, Htf.
        destruct (prefix_weak_total from to (from ++ rel)); [by exists rel|rewrite Hr; by exists r|done|done].
  - intros p Hpf Hpt. apply H4.
    + intros ([q j] & Hq & [_ Hs]%Hin)%list_elem_of_fmap. simpl in *. subst. congruence.
    + intros r ->. by rewrite starts_with_join in Hpt.
Qed.

Lemma allocate_inode_wf c path : inode_wf c → inode_wf (allocate_inode c path).2.
Proof.
  intros [Hb Hn]. unfold allocate_inode. destruct (paths c !! path) as [ino|] eqn:E; [by split|].
  assert (Hf : ∀ p, inodes c !! next_inode c ≠ Some p) by (intros p Hp%Hn; lia).
  split; simpl.
  - intros i p. rewrite !lookup_insert_Some. pose proof (Hb i p). specialize (Hf p). naive_solver.
  - intros i p [[<- _]|[_ Hi%Hn]]%lookup_insert_Some; lia.
Qed.

(** A folder of two open documents moves over a name another inode had. *)
Definition move_demo : FsCache :=
  Build_FsCache (list_to_map [(2, ["d"]); (3, ["d"; "f"]); (4, ["e"])]%string)
    (list_to_map [(["d"], 2); (["d"; "f"], 3); (["e"], 4)]%string) 5 ∅ 0 ∅ ∅ ∅ ∅ ∅ false 0.

Lemma move_demo_wf : inode_wf move_demo.
Proof.
  split.
  - intros i p. unfold move_demo. simpl. rewrite !lookup_insert_Some, !lookup_empty.
    split.
    + intros [[<- <-]|[? [[<- <-]|[? [[<- <-]|[? ?]]]]]]; try done;
        [by left|right; split; [done|by left]|right; split; [done|right; split; [done|by left]]].
    + intros [[<- <-]|[? [[<- <-]|[? [[<- <-]|[? ?]]]]]]; try done;
        [by left|right; split; [done|by left]|right; split; [done|right; split; [done|by left]]].
  - intros i p. unfold move_demo. simpl. rewrite !lookup_insert_Some, !lookup_empty.
    intros [[<- <-]|[? [[<- <-]|[? [[<- <-]|[? ?]]]]]]; try done; lia.
Qed.

Lemma move_path_inodes_witness :
  let c' := move_path move_demo ["d"]%string ["e"]%string true in
  get_path c' 3 = Some ["e"; "f"]%string ∧ get_path c' 4 = None ∧ inode_wf c'.
Proof.
  destruct (move_path_inodes move_demo ["d"]%string ["e"]%string move_demo_wf eq_refl eq_refl)
    as (Hwf & Hm & _ & _).
  split; [exact (Hm ["f"]%string 3 eq_refl)|]. split; [by vm_compute|exact Hwf].
Defined.

(** ** What a fresh listing keeps of ours *)

Lemma merge_upload_paths files old :
  e_path <$> merge_upload files old =
  if existsb (has_path (e_path old)) files then e_path <$> files else (e_path <$> files) ++ [e_path old].
Proof.
  unfold merge_upload. destruct (existsb _ files).
  - by apply update_first_map.
  - by rewrite fmap_app.
Qed.

Definition same_version (old f : RemoteEntry) : Prop :=
  e_path f = e_path old ∧ e_size f = e_size old ∧ e_modified f = e_modified old ∧
  e_change_token f = e_change_token old.

Lemma merge_upload_hit files old : ∃ f, f ∈ merge_upload files old ∧ same_version old f.
Proof.
  unfold merge_upload, same_version. destruct (existsb _ files) eqn:E.
  - destruct (update_first_hit (has_path (e_path old)) (keep_upload old) files E) as (y & _ & Hy & Hin).
    exists (keep_upload old y). unfold has_path in Hy. apply bool_decide_eq_true in Hy. by split_and!.
  - exists old. split; [|by split_and!]. apply elem_of_app. right. left.
Qed.

Lemma merge_upload_other files old f :
  f ∈ files → e_path f ≠ e_path old → f ∈ merge_upload files old.
Proof.
  intros Hf Hne. unfold merge_upload. destruct (existsb _ files).
  - apply elem_of_update_first_other; [done|]. by apply bool_decide_eq_false.
  - apply elem_of_app. by left.
Qed.

Lemma merge_uploads_keep ups files f :
  f ∈ files → e_path f ∉ e_path <$> ups → f ∈ foldl merge_upload files ups.
Proof.
  revert files. induction ups as [|u ups IH]; intros files Hf Hn; [done|]. csimpl in Hn.
  apply not_elem_of_cons in Hn as [Hu Hn]. apply IH; [|done]. by apply merge_upload_other.
Qed.

Lemma merge_uploads_hit ups files old :
  NoDup (e_path <$> ups) → old ∈ ups →
  ∃ f, f ∈ foldl merge_upload files ups ∧ same_version old f.
Proof.
  revert files. induction ups as [|u ups IH]; intros files Hnd; [by intros ?%elem_of_nil|].
  csimpl in Hnd. apply NoDup_cons in Hnd as [Hu Hnd]. intros [->|Ho]%elem_of_cons; simpl.
  - destruct (merge_upload_hit files u) as (f & Hf & Hs). exists f. split; [|done].
    apply merge_uploads_keep; [done|]. destruct Hs as [-> _]. done.
  - by apply IH.
Qed.

Lemma evict_subset c : dir_cache (evict_dir_cache c) ⊆ dir_cache c.
Proof.
  unfold evict_dir_cache. cbv zeta. destruct (_ || _); [done|]. apply foldl_delete_subseteq.
Qed.

Lemma put_dir_cache_files c ti now wall path etag self files e :
  (∀ se, self = Some se → e_is_dir se = true) →
  dir_cache (put_dir_cache c ti now wall path etag self files) !! path = Some e →
  d_files e = merged_listing c ti path files.
Proof.
  intros Hd. unfold put_dir_cache.
  destruct (match self with Some se => negb (e_is_dir se) | None => false end) eqn:E.
  { destruct self as [se|]; [|done]. by rewrite Hd in E. }
  simpl. intros H.
  pose proof (lookup_weaken _ _ _ _ H (evict_subset _)) as H'. simpl in H'.
  rewrite lookup_insert_eq in H'. injection H' as <-. done.
Qed.

(** A listing that arrives while our own changes are still on their way never undoes
    them locally: a file being uploaded stays listed with the size, mtime and etag we
    showed, a file being deleted stays away, and every other entry the server lists is
    there unchanged; only the root's opt-out marker may be added. *)
Theorem put_dir_cache_merge c ti now wall path etag self files e :
  (∀ se, self = Some se → e_is_dir se = true) →
  (∀ old, dir_cache c !! path = Some old → NoDup (e_path <$> d_files old)) →
  dir_cache (put_dir_cache c ti now wall path etag self files) !! path = Some e →
  (∀ old up, dir_cache c !! path = Some old → up ∈ d_files old →
     e_path up ∈ uploading c → e_path up ∉ deleting c →
     ∃ f, f ∈ d_files e ∧ same_version up f) ∧
  (∀ f, f ∈ d_files e → e_path f ∈ deleting c → path = root ∧ f = trackerignore_entry) ∧
  (∀ f, f ∈ files → e_path f ∉ uploading c → e_path f ∉ deleting c → f ∈ d_files e).
Proof.
  intros Hdir Hnd He. rewrite (put_dir_cache_files _ _ _ _ _ _ _ _ _ Hdir He). clear He e.
  unfold merged_listing.
  set (files1 := match dir_cache c !! path with Some _ => _ | None => files end).
  set (files2 := List.filter _ files1).
  assert (Hincl : ∀ f l, f ∈ files2 → f ∈ (if (l : bool) then files2 ++ [trackerignore_entry] else files2)).
  { intros f [] Hf; [apply elem_of_app; by left|done]. }
  assert (Hin2 : ∀ f, f ∈ files1 → e_path f ∉ deleting c → f ∈ files2).
  { intros f Hf Hd. apply elem_of_filterb. split; [done|]. by rewrite bool_decide_eq_false_2. }
  split_and!.
  - intros old up Hold Hup Hu Hd.
    destruct (merge_uploads_hit (List.filter (λ e, bool_decide (e_path e ∈ uploading c)) (d_files old)) files up)
      as (f & Hf & Hs).
    { eapply sublist_NoDup; [by apply (Hnd old)|]. apply fmap_sublist, filterb_sublist. }
    { apply elem_of_filterb. split; [done|]. by apply bool_decide_eq_true. }
    exists f. split; [|done]. apply Hincl, Hin2; [unfold files1; by rewrite Hold|].
    destruct Hs as [-> _]. done.
  - intros f Hf Hd. assert (f ∉ files2) as Hn.
    { intros [_ Hx]%elem_of_filterb. by rewrite bool_decide_eq_true_2 in Hx. }
    destruct (bool_decide (path = root) && _ && _ && _) eqn:E; [|done].
    apply elem_of_app in Hf as [Hf| ->%list_elem_of_singleton]; [done|]. bool_prop. done.
  - intros f Hf Hu Hd. apply Hincl, Hin2; [|done]. unfold files1.
    destruct (dir_cache c !! path) as [old|] eqn:E; [|done]. apply merge_uploads_keep; [done|].
    intros (g & Hg & [_ Hx]%elem_of_filterb)%list_elem_of_fmap. bool_prop. congruence.
Qed.

Definition demo_file (name : string) (size : Z) (tok : string) : RemoteEntry :=
  {| e_path := [name]; e_is_dir := false; e_size := size; e_modified := None;
     e_change_token := Some tok; e_content_type := None; e_ext := ext_default |}.

(** [a] is being uploaded, [b] deleted; the server still lists the old [a] and [b]. *)
Definition merge_demo : FsCache :=
  Build_FsCache ∅ ∅ 2
    {[ root := {| d_files := [demo_file "a" 7 "local"; demo_file "b" 1 "x"]; d_self_entry := None;
                  d_etag := None; d_at := 0; d_fetched_at := 0; d_refreshing := true;
                  d_invalidated := false; d_hard_expired := false; d_expiry_retry_after := None;
                  d_last_access := 0 |} ]}
    10 ∅ ∅ {[ ["a"%string] ]} {[ ["b"%string] ]} ∅ false 1.

Lemma put_dir_cache_merge_witness :
  ∃ e, dir_cache (put_dir_cache merge_demo true 5 5 root None None
         [demo_file "a" 3 "old"; demo_file "b" 1 "x"; demo_file "c" 9 "y"]%string) !! root = Some e ∧
       (∃ f, f ∈ d_files e ∧ same_version (demo_file "a" 7 "local") f) ∧
       demo_file "c" 9 "y" ∈ d_files e.
Proof.
  destruct (dir_cache (put_dir_cache merge_demo true 5 5 root None None
         [demo_file "a" 3 "old"; demo_file "b" 1 "x"; demo_file "c" 9 "y"]%string) !! root) as [e|] eqn:E;
    [|by vm_compute in E].
  assert (Hnd : ∀ old, dir_cache merge_demo !! root = Some old → NoDup (e_path <$> d_files old)).
  { intros old H. change (Some {| d_files := [demo_file "a" 7 "local"; demo_file "b" 1 "x"]; d_self_entry := None;
                  d_etag := None; d_at := 0; d_fetched_at := 0; d_refreshing := true;
                  d_invalidated := false; d_hard_expired := false; d_expiry_retry_after := None;
                  d_last_access := 0 |} = Some old) in H. injection H as <-.
    apply (bool_decide_unpack _). by vm_compute. }
  destruct (put_dir_cache_merge merge_demo true 5 5 root None None
    [demo_file "a" 3 "old"; demo_file "b" 1 "x"; demo_file "c" 9 "y"]%string e
    ltac:(done) Hnd E) as (H1 & _ & H3).
  exists e. split; [done|]. split.
  - eapply H1; [reflexivity| | |].
    + left.
    + apply (bool_decide_unpack _). by vm_compute.
    + apply (bool_decide_unpack _). by vm_compute.
  - apply H3; [right; right; left| |]; apply (bool_decide_unpack _); by vm_compute.
Defined.

(** ** Eviction *)

Definition upload_parent (c : FsCache) (p : PathBuf) : Prop := ∃ u, u ∈ uploading c ∧ parent u = Some p.

Lemma upload_parent_elem c p : p ∈ omap parent (elements (uploading c)) ↔ upload_parent c p.
Proof. rewrite list_elem_of_omap. unfold upload_parent. by setoid_rewrite elem_of_elements. Qed.

#[export] Instance upload_parent_dec c p : Decision (upload_parent c p).
Proof.
  destruct (decide (p ∈ omap parent (elements (uploading c)))) as [Hp|Hp];
    rewrite upload_parent_elem in Hp; [by left|by right].
Defined.

Lemma elem_of_candidates c t p :
  (t, p) ∈ evict_candidates c ↔
  ∃ e, dir_cache c !! p = Some e ∧ d_last_access e = t ∧ d_refreshing e = false ∧ ¬ upload_parent c p.
Proof.
  unfold evict_candidates. rewrite merge_sort_Permutation, list_elem_of_fmap.
  split.
  - intros ([q e] & [= -> ->] & [Hq Hf]%elem_of_filterb). apply elem_of_map_to_list in Hq.
    exists e. simpl in Hf. bool_prop. split_and!; try done. by rewrite <- upload_parent_elem.
  - intros (e & He & <- & Hr & Hn). exists (p, e). split; [done|]. apply elem_of_filterb.
    split; [by apply elem_of_map_to_list|]. simpl. rewrite Hr, bool_decide_eq_false_2; [done|].
    by rewrite upload_parent_elem.
Qed.

Lemma candidates_NoDup c : NoDup (evict_candidates c).*2.
Proof.
  unfold evict_candidates. rewrite merge_sort_Permutation, <- list_fmap_compose.
  eapply sublist_NoDup; [apply (NoDup_fst_map_to_list (dir_cache c))|].
  apply (fmap_sublist fst), filterb_sublist.
Qed.

Lemma candidates_sorted c : StronglySorted by_tick (evict_candidates c).
Proof. apply StronglySorted_merge_sort; apply _. Qed.

(** Sorted lists cut anywhere: what is taken is at most what is left. *)
Lemma sorted_take_drop n l x y :
  StronglySorted by_tick l → x ∈ take n l → y ∈ drop n l → by_tick x y.
Proof.
  intros Hs Hx Hy. rewrite <- (take_drop n l) in Hs.
  by apply (StronglySorted_app_1_elem_of by_tick (take n l) (drop n l)).
Qed.

(** Eviction keeps the listing cache bounded and never drops what is needed: a dropped
    listing was neither being refreshed nor the parent of an upload in flight (whose entry
    exists nowhere else), every listing that could have been dropped instead was used at
    least as recently, and the cache ends at its bound unless only such protected listings
    are left. *)
Theorem evict_dir_cache_lru c :
  let c' := evict_dir_cache c in
  dir_cache c' ⊆ dir_cache c ∧
  (∀ p e, dir_cache c !! p = Some e → dir_cache c' !! p = None →
     d_refreshing e = false ∧ ¬ upload_parent c p ∧
     (∀ q e', dir_cache c' !! q = Some e' → d_refreshing e' = false → ¬ upload_parent c q →
        d_last_access e ≤ d_last_access e')) ∧
  (dir_cache_max_dirs c ≠ 0 →
   size (dir_cache c') ≤ dir_cache_max_dirs c ∨
   ∀ q e', dir_cache c' !! q = Some e' → d_refreshing e' = true ∨ upload_parent c q).
Proof.
  cbv zeta. split; [apply evict_subset|].
  unfold evict_dir_cache. cbv zeta. destruct (_ || _) eqn:Hg.
  { split; [intros; congruence|]. intros Hm. left. apply orb_true_iff in Hg as [Hg|Hg].
    - by apply Nat.eqb_eq in Hg.
    - by apply Nat.leb_le in Hg. }
  set (k := size (dir_cache c) - _). set (cs := evict_candidates c).
  cbn [with_dirs dir_cache uploading]. set (dr := (take k cs).*2).
  assert (Hsome : ∀ p, p ∈ cs.*2 → is_Some (dir_cache c !! p)).
  { intros p ([t q] & -> & (e & He & _)%elem_of_candidates)%list_elem_of_fmap. by exists e. }
  assert (Hdr : ∀ p, p ∈ dr → p ∈ cs.*2).
  { intros p (x & -> & Hx)%list_elem_of_fmap. apply list_elem_of_fmap_2.
    rewrite <- (take_drop k cs). apply elem_of_app. by left. }
  split.
  - intros p e He. rewrite lookup_foldl_delete. case_decide as Hd; [intros _|congruence].
    apply list_elem_of_fmap in Hd as ([t p'] & Hp & Hx). simpl in Hp. subst p'.
    assert (Hc : (t, p) ∈ cs) by (rewrite <- (take_drop k cs); apply elem_of_app; by left).
    destruct (proj1 (elem_of_candidates c t p) Hc) as (e2 & He2 & Ht & Hr & Hn).
    rewrite He in He2. injection He2 as <-. split_and!; [done|done|].
    intros q e' Hq Hqr Hqn. rewrite lookup_foldl_delete in Hq. case_decide as Hqd; [done|].
    assert (Hqc : (d_last_access e', q) ∈ cs) by (apply elem_of_candidates; by exists e').
    rewrite <- (take_drop k cs) in Hqc. apply elem_of_app in Hqc as [Hqc|Hqc].
    + exfalso. apply Hqd. apply list_elem_of_fmap. by exists (d_last_access e', q).
    + subst t. by apply (sorted_take_drop k cs (d_last_access e, p) (d_last_access e', q) (candidates_sorted c)).
  - intros Hm. assert (Hnd : NoDup dr).
    { eapply sublist_NoDup; [apply (candidates_NoDup c)|]. apply fmap_sublist, sublist_take. }
    assert (Hle : dir_cache_max_dirs c / 10 ≤ dir_cache_max_dirs c) by (apply Nat.Div0.div_le_upper_bound; lia).
    rewrite size_foldl_delete by auto. unfold dr. rewrite length_fmap, length_take.
    destruct (decide (k ≤ length cs)) as [Hk|Hk]; [left; unfold k in *; lia|right].
    intros q e' Hq. rewrite lookup_foldl_delete in Hq. case_decide as Hqd; [done|].
    destruct (d_refreshing e') eqn:Hr; [by left|right]. apply dec_stable. intros Hn.
    apply Hqd. unfold dr. rewrite take_ge by lia. apply list_elem_of_fmap.
    exists (d_last_access e', q). split; [done|]. apply elem_of_candidates. by exists e'.
Qed.

(** ** Serving a cached listing *)

(** The age of a listing on the system clock; unknown when fetched "in the future". *)
Definition age_ok (e : DirCacheEntry) (max_stale : option Duration) (wall : SystemTime) : Prop :=
  match max_stale with
  | None => True
  | Some mx => (d_fetched_at e ≤ wall)%Z ∧ (wall - d_fetched_at e < mx)%Z
  end.
Definition cooling (e : DirCacheEntry) (now : Instant) : Prop :=
  ∃ t, d_expiry_retry_after e = Some t ∧ (now < t)%Z.

(** A cached listing is served only while trusted: not invalidated, not hard-expired,
    and younger than the bound except during the cooldown after a failed re-list. Exactly
    one caller is told to refresh it: a refresh is asked for only when the listing is older
    than the TTL and none is under way, and from then on nobody else is told to, at any
    later time, until the flag is reset. *)
Theorem get_cached_dir_serves c path ttl mx now wall files refresh c' :
  get_cached_dir c path ttl mx now wall = (Some (files, refresh), c') →
  (∃ e, dir_cache c !! path = Some e ∧ files = d_files e ∧
     d_invalidated e = false ∧ d_hard_expired e = false ∧
     (cooling e now ∨ age_ok e mx wall) ∧
     (refresh = true → (ttl ≤ now - d_at e)%Z ∧ d_refreshing e = false ∧ ¬ cooling e now) ∧
     ((ttl ≤ now - d_at e)%Z → ¬ cooling e now → d_refreshing e = false → refresh = true)) ∧
  (refresh = true → ∀ ttl' mx' now' wall' files' r' c'',
     get_cached_dir c' path ttl' mx' now' wall' = (Some (files', r'), c'') → r' = false).
Proof.
  unfold get_cached_dir, next_access_tick. simpl.
  destruct (dir_cache c !! path) as [e|] eqn:He; [|done]. intros H.
  destruct (d_invalidated e || d_hard_expired e) eqn:Hbad; [done|]. bool_prop.
  destruct (match d_expiry_retry_after e with Some t => (now <? t)%Z | None => false end) eqn:Hcool.
  - injection H as <- <- <-. split; [|done].
    assert (cooling e now) as Hc.
    { unfold cooling. destruct (d_expiry_retry_after e) as [t|]; [|done]. exists t. split; [done|lia]. }
    exists e. split_and!; try done. by left.
  - assert (¬ cooling e now) as Hnc.
    { intros (t & Ht & Hlt). rewrite Ht in Hcool. lia. }
    cbn [set_expiry touch_access d_fetched_at d_at d_refreshing d_hard_expired] in H.
    destruct (match mx with Some _ => _ | None => false end) eqn:Hold; [done|].
    destruct ((ttl <=? now - d_at e)%Z && negb (d_refreshing e)) eqn:Hr;
      injection H as <- <- <-; (split; [|intros Hrr]).
    + exists e. bool_prop. split_and!; try done.
      right. unfold age_ok. destruct mx; [|done]. bool_prop. lia.
    + intros ttl' mx' now' wall' files' r' c''. simpl. rewrite lookup_insert_eq. simpl.
      rewrite orb_false_r || idtac.
      repeat case_match; intros; simplify_eq; try done; bool_prop; try done;
        by rewrite andb_false_r.
    + exists e. split_and!; try done.
      * right. unfold age_ok. destruct mx; [|done]. bool_prop. lia.
      * intros Hl _ Hf. rewrite Hf in Hr. apply Z.leb_le in Hl. by rewrite Hl in Hr.
    + done.
Qed.

Lemma get_cached_dir_serves_witness :
  let c := put_dir_cache merge_demo true 5 5 root None None [demo_file "c" 9 "y"] in
  let '(r, c') := get_cached_dir c root 100 (Some 1000%Z) 200 200 in
  (snd <$> r) = Some true ∧
  ∀ fs b c'', get_cached_dir c' root 100 None 500 500 = (Some (fs, b), c'') → b = false.
Proof.
  cbv zeta.
  destruct (get_cached_dir (put_dir_cache merge_demo true 5 5 root None None [demo_file "c" 9 "y"])
    root 100 (Some 1000%Z) 200 200) as [[[files r]|] c'] eqn:E; [|by vm_compute in E].
  assert (r = true) as ->.
  { assert (Hr : (snd <$> (get_cached_dir (put_dir_cache merge_demo true 5 5 root None None
       [demo_file "c" 9 "y"]) root 100 (Some 1000%Z) 200 200).1) = Some true) by by vm_compute.
    rewrite E in Hr. by injection Hr. }
  split; [done|]. intros fs b c'' H.
  exact (proj2 (get_cached_dir_serves _ _ _ _ _ _ _ _ _ E) eq_refl _ _ _ _ _ _ _ H).
Defined.

(** A listing found too old is not served again: whatever the clocks read later, every
    lookup answers "re-list" until the listing is stored anew, confirmed fresh, touched, or
    the re-list failed and the fallback hands it out once for the cooldown. *)
Theorem get_cached_dir_expired_sticks c path ttl mx now wall c' :
  is_Some (dir_cache c !! path) →
  get_cached_dir c path ttl mx now wall = (None, c') →
  (∀ ttl' mx' now' wall', (get_cached_dir c' path ttl' mx' now' wall').1 = None) ∧
  may_serve_pending_snapshot c' path = false ∧
  (∀ now' fallback c'', take_hard_expired_fallback c' path now' = (Some fallback, c'') →
     ∀ ttl' mx' now'' wall', (now'' < now' + EXPIRY_RETRY_COOLDOWN)%Z →
     (get_cached_dir c'' path ttl' mx' now'' wall').1 = Some (fallback.1, false)).
Proof.
  intros [e He] H. unfold get_cached_dir, next_access_tick in H. simpl in H. rewrite He in H.
  assert (∃ e', dir_cache c' !! path = Some e' ∧ d_invalidated e' || d_hard_expired e' = true) as (e' & He' & Hb).
  { destruct (d_invalidated e || d_hard_expired e) eqn:Hbad.
    { injection H as <-. eexists. simpl. rewrite lookup_insert_eq. split; [done|]. done. }
    repeat case_match; simplify_eq; try done.
    all: eexists; simpl; rewrite lookup_insert_eq; split; [done|]; simpl; by rewrite orb_true_r. }
  split_and!.
  - intros. unfold get_cached_dir, next_access_tick. simpl. rewrite He'. simpl. by rewrite Hb.
  - unfold may_serve_pending_snapshot. rewrite He'. rewrite <- negb_orb. by rewrite Hb.
  - intros now' fb c''. unfold take_hard_expired_fallback. rewrite He'.
    destruct (negb (d_hard_expired e') || d_invalidated e') eqn:Hg; [done|]. bool_prop.
    intros [= <- <-] ttl' mx' now'' wall' Hlt. unfold get_cached_dir, next_access_tick. simpl.
    rewrite lookup_insert_eq. simpl. rewrite H1. simpl.
    by rewrite (proj2 (Z.ltb_lt _ _) Hlt).
Qed.

Lemma get_cached_dir_expired_sticks_witness :
  let c := put_dir_cache merge_demo true 5 5 root None None [demo_file "c" 9 "y"] in
  ∃ c', get_cached_dir c root 100 (Some 1000%Z) 5000 5000 = (None, c') ∧
        (get_cached_dir c' root 100 None 0 0).1 = None.
Proof.
  cbv zeta.
  destruct (get_cached_dir (put_dir_cache merge_demo true 5 5 root None None [demo_file "c" 9 "y"])
    root 100 (Some 1000%Z) 5000 5000) as [[?|] c'] eqn:E; [by vm_compute in E|].
  exists c'. split; [done|].
  refine (proj1 (get_cached_dir_expired_sticks _ _ _ _ _ _ _ _ E) _ _ _ _).
  eexists. reflexivity.
Defined.
