(* ===== verification/Replay.v ===== *)
(** [mutation_journal.rs], replay: sending the queued changes to the server, oldest first.

    The server and the clock are the environment [W]: the server through the [CloudBackend]
    interface, the clock ([clock], milliseconds since the epoch) as a function of its state.
    The loop runs with fuel; [replay_terminates] shows how much is enough.  Log lines have no
    counterpart. *)
From S2P Require Import Prelude Paths Naming Backend FsCache Journal.

(** ** Surroundings: status map and error log *)

(* ipc.rs:332-343 FileStatus *)
Inductive FileStatus :=
| Kept | Cached | Synced | Remote | Downloading | Uploading | PendingSync | Unknown.
#[export] Instance FileStatus_eq_dec : EqDecision FileStatus.
Proof. solve_decision. Defined.

(* lib.rs:1953-1962 SyncErrorKind *)
Inductive SyncErrorKind :=
| UploadFailed | KConflict | PermissionDenied | NetworkError | KQuotaExceeded | InvalidFilename
| ServerError (code : Z) | KLocked.

(** [std::mem::discriminant]. *)
Definition discriminant (k : SyncErrorKind) : nat :=
  match k with
  | UploadFailed => 0 | KConflict => 1 | PermissionDenied => 2 | NetworkError => 3
  | KQuotaExceeded => 4 | InvalidFilename => 5 | ServerError _ => 6 | KLocked => 7
  end.

(* lib.rs:1965-1970 SyncError *)
Record SyncError := { se_path : PathBuf; se_kind : SyncErrorKind; se_message : string; se_timestamp_ms : Z }.

(* lib.rs:1974-1974 MAX_ERROR_LOG *)
Definition MAX_ERROR_LOG : nat := 50.

(* lib.rs:1976-1993 push_error *)
Definition push_error (now_ms : Z) (path : PathBuf) (kind : SyncErrorKind) (message : string)
    (q : list SyncError) : list SyncError :=
  let err := Build_SyncError path kind message now_ms in
  let same := match last q with
    | Some l => bool_decide (se_path l = path) && (discriminant (se_kind l) =? discriminant kind)
    | None => false
    end in
  if same then q
  else (if MAX_ERROR_LOG <=? length q then drop 1 q else q) ++ [err].

(** ** Streamed uploads: the final chunks and the assembly *)

(* webdav_ops.rs:363-363 CHUNK_SIZE *)
Definition CHUNK_SIZE : Z := 10 * 1024 * 1024.

(** [read_exact_at]: [n] bytes from an offset. *)
Definition slice {A} (f : list A) (off n : Z) : list A := take (Z.to_nat n) (drop (Z.to_nat off) f).

Definition blen {A} (b : list A) : Z := Z.of_nat (length b).

(* mutation_journal.rs:1292-1294 session_gone *)
Definition session_gone (e : BackendWriteError) : bool :=
  match e with Server code _ => (code =? 404)%Z || (code =? 409)%Z | _ => false end.

Definition is_404 (e : BackendWriteError) : bool :=
  match e with Server code _ => (code =? 404)%Z | _ => false end.

(** Whole seconds since the epoch, when not before it. *)
Definition epoch_secs (t : SystemTime) : option Z := if (t <? 0)%Z then None else Some (t / secs 1)%Z.

(** [trim_matches] of the double quote. *)
Definition quote : Ascii.ascii := Ascii.ascii_of_nat 34.
Fixpoint trim_start (s : string) : string :=
  match s with
  | EmptyString => EmptyString
  | String c s' => if Ascii.eqb c quote then trim_start s' else s
  end.
Fixpoint trim_end (s : string) : string :=
  match s with
  | EmptyString => EmptyString
  | String c s' => match trim_end s' with
                   | EmptyString => if Ascii.eqb c quote then EmptyString else String c EmptyString
                   | t => String c t
                   end
  end.
Definition trim_quotes (s : string) : string := trim_end (trim_start s).

(* mutation_journal.rs:1301-1314 is_our_assembly *)
Definition is_our_assembly (listed : RemoteEntry) (total_len : Z) (mtime : option SystemTime)
    (if_match : option Etag) : bool :=
  match mtime ≫= epoch_secs with
  | None => false
  | Some ours =>
      negb (e_is_dir listed) && (e_size listed =? total_len)%Z
      && bool_decide (e_modified listed ≫= epoch_secs = Some ours)
      && (bool_decide (if_match = None)
          || negb (bool_decide (trim_quotes <$> e_change_token listed = trim_quotes <$> if_match)))
  end.

Section chunks.
Context {W : Type} {E : Type}.

(** The loop: from [off] to [stop] in pieces of at most [chunk] bytes. *)
(* mutation_journal.rs:1257-1265 each_tail_chunk *)
Fixpoint tail_loop (fuel : nat) (f : bytes) (chunk stop off index : Z)
    (put : Z → bytes → call W (result unit E)) : call W (result unit E) :=
  λ w, match fuel with
       | O => (Ok tt, w)
       | S fuel =>
           if (off <? stop)%Z then
             let body := slice f off (Z.min chunk (stop - off)) in
             match put index body w with
             | (Err e, w) => (Err e, w)
             | (Ok _, w) => tail_loop fuel f chunk stop (off + blen body)%Z (index + 1)%Z put w
             end
           else (Ok tt, w)
       end.

(* mutation_journal.rs:1240-1267 each_tail_chunk *)
Definition each_tail_chunk (file : option bytes) (from tail_len chunk : Z) (local : string → E)
    (put : Z → bytes → call W (result unit E)) : call W (result unit E) :=
  λ w, match file with
       | None => (Err (local "staging tail"), w)
       | Some f =>
           if (blen f =? from + tail_len)%Z
           then tail_loop (S (Z.to_nat (tail_len / chunk))) f chunk (from + tail_len)%Z from 0%Z put w
           else (Err (local "refusing to assemble a truncated file"), w)
       end.
End chunks.

(** Everything a replay works on: the journal with its files, the listing cache, the sets
    the desktop is told about, and the environment. *)
(* mutation_journal.rs:808-813 ReplayContext *)
Record RState (W : Type) := {
  r_journal : MutationJournal;
  r_cache : FsCache;
  r_dirty : gset PathBuf;
  r_status : gmap PathBuf FileStatus;
  r_errors : list SyncError;
  r_world : W;
}.
Arguments r_journal {W}. Arguments r_cache {W}. Arguments r_dirty {W}.
Arguments r_status {W}. Arguments r_errors {W}. Arguments r_world {W}.
Arguments Build_RState {W}.

Definition set_journal {W} (s : RState W) (j : MutationJournal) : RState W :=
  Build_RState j (r_cache s) (r_dirty s) (r_status s) (r_errors s) (r_world s).
Definition set_cache {W} (s : RState W) (c : FsCache) : RState W :=
  Build_RState (r_journal s) c (r_dirty s) (r_status s) (r_errors s) (r_world s).
Definition set_world {W} (s : RState W) (w : W) : RState W :=
  Build_RState (r_journal s) (r_cache s) (r_dirty s) (r_status s) (r_errors s) w.
Definition set_errors {W} (s : RState W) (l : list SyncError) : RState W :=
  Build_RState (r_journal s) (r_cache s) (r_dirty s) (r_status s) l (r_world s).
Definition mark_dirty {W} (l : list PathBuf) (s : RState W) : RState W :=
  Build_RState (r_journal s) (r_cache s) (list_to_set l ∪ r_dirty s) (r_status s) (r_errors s) (r_world s).
Definition set_status {W} (p : PathBuf) (st : FileStatus) (s : RState W) : RState W :=
  Build_RState (r_journal s) (r_cache s) (r_dirty s) (<[p := st]> (r_status s)) (r_errors s) (r_world s).

(* mutation_journal.rs:1029-1039 ReplayResult *)
Inductive ReplayResult :=
| ROk
| Uploaded (new : option Etag)
| RConflict (kind : ConflictKind)
| Idempotent
| Retryable (m : Message)
| RServerError (m : Message).

(** The listing entry of an uploaded file takes its new version. *)
(* mutation_journal.rs:1068-1076 execute_op *)
Definition landed_entry (token : option Etag) (size : Z) (mtime : SystemTime) (e : RemoteEntry) : RemoteEntry :=
  {| e_path := e_path e; e_is_dir := e_is_dir e; e_size := size; e_modified := Some mtime;
     e_change_token := token; e_content_type := e_content_type e; e_ext := e_ext e |}.
Definition landed_listing (remote : PathBuf) (token : option Etag) (size : Z) (mtime : SystemTime)
    (c : FsCache) : FsCache :=
  let par := parent_or_root remote in
  match dir_cache c !! par with
  | None => c
  | Some dir => put_entry c par
      (FsCache.set_files dir (update_first (has_path remote) (landed_entry token size mtime) (d_files dir)))
  end.

Section replay.
Context {W : Type} `{CloudBackend W} (clock : W → Z).

Definition now_secs (w : W) : Z := (clock w / 1000)%Z.
Definition now_time (w : W) : SystemTime := (clock w * ms)%Z.

(* mutation_journal.rs:1365-1402 send_chunked_finish *)
Definition send_chunked_finish (fs : Files) (uploads_base : string)
    (next_index bytes_confirmed total_len : Z) (tail_path : PathBuf) (sparse : bool) (head : Z)
    (remote_path : PathBuf) (if_match : option Etag) (mtime : option SystemTime) :
    call W (result PutResult BackendWriteError) :=
  λ w,
    let tail_len := sat_sub total_len bytes_confirmed in
    let '(r, w) :=
      if (0 <? tail_len)%Z then
        each_tail_chunk (lf_bytes <$> fs !! tail_path) (if sparse then bytes_confirmed else 0%Z)
          tail_len CHUNK_SIZE (Server 0)
          (λ i body, retry_chunk_write (put_chunk uploads_base (next_index + i)%Z body)) w
      else (Ok tt, w) in
    match r with
    | Err e => (Err e, w)
    | Ok _ =>
        let '(r, w) :=
          if (0 <? head)%Z then
            match fs !! tail_path with
            | Some f =>
                if (Z.min head total_len <=? blen (lf_bytes f))%Z
                then retry_chunk_write (put_chunk uploads_base 0 (slice (lf_bytes f) 0 (Z.min head total_len))) w
                else (Err (Server 0 "staging head"), w)
            | None => (Err (Server 0 "staging head"), w)
            end
          else (Ok tt, w) in
        match r with
        | Err e => (Err e, w)
        | Ok _ => retry_chunk_write (finish_chunked_upload uploads_base remote_path if_match mtime total_len) w
        end
    end.

(* mutation_journal.rs:1353-1362 put_whole_instead *)
Definition put_whole_instead (fs : Files) (tail_path remote_path : PathBuf) (if_match : option Etag) :
    call W (result PutResult BackendWriteError) :=
  put_file_settled fs tail_path (Some (remote_path, if_match)).

(* mutation_journal.rs:1320-1351 finish_chunked *)
Definition finish_chunked (fs : Files) (uploads_base : string)
    (next_index bytes_confirmed total_len : Z) (tail_path : PathBuf) (sparse : bool) (head : Z)
    (whole : bool) (remote_path : PathBuf) (if_match : option Etag) :
    call W (result PutResult BackendWriteError) :=
  λ w,
    let mtime := staged_mtime fs tail_path in
    match send_chunked_finish fs uploads_base next_index bytes_confirmed total_len tail_path sparse
            head remote_path if_match mtime w with
    | (Ok r, w) => (Ok r, w)
    | (Err e, w) =>
        if match e with Conflict => true | e => is_404 e end then
          let '(l, w) := list_dir remote_path w in
          let listed := match l with Ok (_, me, _) => me | Err _ => None end in
          match listed with
          | Some l =>
              if is_our_assembly l total_len mtime if_match
              then (Ok {| new_change_token := e_change_token l |}, w)
              else if whole && session_gone e then put_whole_instead fs tail_path remote_path if_match w
              else (Err e, w)
          | None => if whole && session_gone e then put_whole_instead fs tail_path remote_path if_match w
                    else (Err e, w)
          end
        else if whole && session_gone e then put_whole_instead fs tail_path remote_path if_match w
        else (Err e, w)
    end.

(* mutation_journal.rs:1272-1288 assemble_conflicted_copy *)
Definition assemble_conflicted_copy (fs : Files) (uploads_base : string) (conflict_name : PathBuf)
    (total_len : Z) (tail_path : PathBuf) (whole : bool) : call W (result unit BackendWriteError) :=
  λ w, match finish_chunked_upload uploads_base conflict_name None None total_len w with
       | (Err e, w) =>
           if whole && session_gone e
           then let '(r, w) := put_file_settled fs tail_path (Some (conflict_name, None)) w in
                (map_ok (λ _, tt) r, w)
           else (Err e, w)
       | (Ok _, w) => (Ok tt, w)
       end.

(** ** A queued MOVE *)

(* mutation_journal.rs:978-986 MoveOutcome *)
Inductive MoveOutcome :=
| Moved
| ConflictCopy (copy : PathBuf)
| SourceGone
| Failed (e : BackendWriteError).

(* mutation_journal.rs:991-1027 send_move *)
Definition send_move (fs : Files) (from to : PathBuf) (staging : option PathBuf)
    (if_match : option Etag) : call W MoveOutcome :=
  λ w,
    let staging := s ← staging; if decide (is_Some (fs !! s)) then Some s else None in
    let unit_put p s m w := let '(r, w) := put_file_from_path fs p s m w in (map_ok (λ _, tt) r, w) in
    let '(sent, from_copy, w) :=
      match rename from to if_match w, staging with
      | (Err e, w), Some s =>
          if is_404 e then let '(r, w) := unit_put to s if_match w in (r, true, w) else (Err e, false, w)
      | (r, w), _ => (r, false, w)
      end in
    match sent with
    | Ok _ => (Moved, w)
    | Err Conflict =>
        let copy := make_conflict_name (now_secs w) to in
        let '(saved, w) :=
          match from_copy, staging with
          | true, Some s => unit_put copy s None w
          | _, _ =>
              match rename from copy None w, staging with
              | (Err e, w), Some s => if is_404 e then unit_put copy s None w else (Err e, w)
              | (r, w), _ => (r, w)
              end
          end in
        match saved with
        | Ok _ => (ConflictCopy copy, w)
        | Err e => (if is_404 e then SourceGone else Failed e, w)
        end
    | Err e => (if is_404 e then SourceGone else Failed e, w)
    end.

(** ** One queued change *)

(** A failed write: worth another try later, or a rejection that counts. *)
Definition failed_write (e : BackendWriteError) (m : Message) : ReplayResult :=
  if is_transient e then Retryable m else RServerError m.

Definition conflict_noted (path : PathBuf) (s : RState W) : RState W :=
  set_errors s (push_error (clock (r_world s)) path KConflict
    "Server version changed — conflicted copy created" (r_errors s)).

(* mutation_journal.rs:1052-1112 execute_op *)
Definition execute_put (remote_path staging_path : PathBuf) (if_match : option Etag) (s : RState W) :
    ReplayResult * RState W :=
  let fs := files (disk (r_journal s)) in
  match fs !! staging_path with
  | None => (RConflict (PermanentFailure (DStagingUnreadable remote_path)), s)
  | Some f =>
      let saved_mtime := default (now_time (r_world s)) (staged_mtime fs staging_path) in
      let '(r, w) := put_file_from_path fs remote_path staging_path if_match (r_world s) in
      let s := set_world s w in
      match r with
      | Ok res =>
          let s := set_cache s (landed_listing remote_path (new_change_token res) (blen (lf_bytes f))
                                  saved_mtime (r_cache s)) in
          (Uploaded (new_change_token res),
           mark_dirty [parent_or_root remote_path; remote_path] (set_status remote_path Synced s))
      | Err Conflict =>
          let copy := make_conflict_name (now_secs w) remote_path in
          let '(r, w) := put_file_from_path fs copy staging_path None w in
          let s := set_world s w in
          match r with
          | Ok _ => (RConflict (EditConflict remote_path copy), conflict_noted remote_path s)
          | Err e => (failed_write e (MCopyNotSaved copy e), s)
          end
      | Err e =>
          if is_transient e then (Retryable (MWrite e), s)
          else if is_404 e then (RConflict (PermanentFailure (DParentNotFound remote_path)), s)
          else (RServerError (MWrite e), s)
      end
  end.

(* mutation_journal.rs:1123-1136 execute_op *)
Definition execute_delete (path : PathBuf) (s : RState W) : ReplayResult * RState W :=
  let '(r, w) := delete_path path (r_world s) in
  (match r with
   | Ok _ => ROk
   | Err e => if is_404 e then Idempotent else failed_write e (MWrite e)
   end, set_world s w).

(* mutation_journal.rs:1151-1176 execute_op *)
Definition execute_rename (from to : PathBuf) (staging : option PathBuf) (if_match : option Etag)
    (s : RState W) : ReplayResult * RState W :=
  let '(o, w) := send_move (files (disk (r_journal s))) from to staging if_match (r_world s) in
  let s := set_world s w in
  match o with
  | Moved => (ROk, mark_dirty [parent_or_root to] s)
  | ConflictCopy copy => (RConflict (EditConflict to copy), mark_dirty [parent_or_root to] (conflict_noted to s))
  | SourceGone => (RConflict (MoveSourceGone from to), s)
  | Failed e => (failed_write e (MWrite e), s)
  end.

(* mutation_journal.rs:1177-1233 execute_op *)
Definition execute_finish (remote_path : PathBuf) (uploads_base : string)
    (next_index bytes_confirmed total_len : Z) (tail_path : PathBuf) (if_match : option Etag)
    (sparse : bool) (head : Z) (whole : bool) (s : RState W) : ReplayResult * RState W :=
  let fs := files (disk (r_journal s)) in
  let saved_mtime := default (now_time (r_world s)) (staged_mtime fs tail_path) in
  let '(r, w) := finish_chunked fs uploads_base next_index bytes_confirmed total_len tail_path
                   sparse head whole remote_path if_match (r_world s) in
  let s := set_world s w in
  match r with
  | Ok res =>
      let s := set_cache s (landed_listing remote_path (new_change_token res) total_len saved_mtime (r_cache s)) in
      (Uploaded (new_change_token res),
       mark_dirty [parent_or_root remote_path; remote_path] (set_status remote_path Synced s))
  | Err Conflict =>
      let copy := make_conflict_name (now_secs w) remote_path in
      let '(r, w) := assemble_conflicted_copy fs uploads_base copy total_len tail_path whole w in
      let s := set_world s w in
      match r with
      | Ok _ => (RConflict (EditConflict remote_path copy), conflict_noted remote_path s)
      | Err e => (failed_write e (MCopyNotSaved copy e), s)
      end
  | Err e =>
      if is_transient e then (Retryable (MWrite e), s)
      else if is_404 e then (RConflict (PermanentFailure (DExpired remote_path)), s)
      else (RServerError (MWrite e), s)
  end.

(* mutation_journal.rs:1041-1235 execute_op *)
Definition execute_op (e : JournalEntry) (s : RState W) : ReplayResult * RState W :=
  match op e with
  | Put p st m => execute_put p st m s
  | MkDir p =>
      let '(r, w) := mkdir p (r_world s) in
      (match r with Ok _ => ROk | Err er => failed_write er (MWrite er) end, set_world s w)
  | Unlink p | RmDir p => execute_delete p s
  | Rename f t st m => execute_rename f t st m s
  | FinishChunked p u n b l t m sp h wh => execute_finish p u n b l t m sp h wh s
  end.

(** ** The loop *)

Definition release_guard_path (o : MutationOp) : option PathBuf :=
  match o with
  | Put p _ _ | FinishChunked p _ _ _ _ _ _ _ _ _ => Some p
  | Rename _ t _ _ => Some t
  | _ => None
  end.

(* mutation_journal.rs:965-975 release_upload_guard *)
Definition release_upload_guard (o : MutationOp) (s : RState W) : RState W :=
  match release_guard_path o with
  | None => s
  | Some p =>
      match pending_upload p (r_journal s) with
      | None => set_cache s (with_guards (r_cache s) (uploading (r_cache s) ∖ {[p]}) (deleting (r_cache s)))
      | Some _ => s
      end
  end.

(** [cache.deleting.remove(path)] after a delete. *)
Definition release_delete (o : MutationOp) (s : RState W) : RState W :=
  match o with
  | Unlink p | RmDir p =>
      set_cache s (with_guards (r_cache s) (uploading (r_cache s)) (deleting (r_cache s) ∖ {[p]}))
  | _ => s
  end.

Definition upd_journal (f : MutationJournal → MutationJournal) (s : RState W) : RState W :=
  set_journal s (f (r_journal s)).
Definition discard (p : option PathBuf) (s : RState W) : RState W :=
  match p with Some p => upd_journal (λ j, remove_file j p) s | None => s end.
Definition recover (staging remote : PathBuf) (s : RState W) : option PathBuf * RState W :=
  let '(r, j) := recover_staging staging remote (r_journal s) in (r, set_journal s j).
Definition record_conflict (k : ConflictKind) (s : RState W) : RState W :=
  upd_journal (λ j, (add_conflict (clock (r_world s)) k j).2) s.
Definition dequeue (s : RState W) : RState W := upd_journal (λ j, (dequeue_front j).2) s.

(** An entry out of attempts: its bytes are kept aside and the failure recorded. *)
(* mutation_journal.rs:845-879 replay_journal *)
Definition exhausted (e : JournalEntry) (s : RState W) : RState W :=
  let '(recovered, s) :=
    match op e with
    | Put p st _ => recover st p s
    | FinishChunked p u _ _ _ t _ _ _ whole =>
        let s := set_world s (abort_chunked_upload u (r_world s)) in
        if whole then recover t p s else (None, discard (Some t) s)
    | _ => (None, s)
    end in
  release_delete (op e)
    (dequeue (record_conflict (PermanentFailure (DGaveUp (op e) (last_error e) recovered)) s)).

(** What was queued behind a landed change on the version it replaced is on its version now. *)
(* mutation_journal.rs:882-893 replay_journal *)
Definition rebase_after (r : ReplayResult) (e : JournalEntry) (s : RState W) : RState W :=
  match r, op e with
  | Uploaded new, (Put p _ m | FinishChunked p _ _ _ _ _ m _ _ _) => upd_journal (rebase p m new) s
  | ROk, Rename _ t _ m => upd_journal (rebase t m None) s
  | _, _ => s
  end.

(** What a conflict does with the local bytes: dropped when the server has a conflicted
    copy, kept aside when they exist only here. *)
(* mutation_journal.rs:906-928 replay_journal *)
Definition conflict_bytes (k : ConflictKind) (o : MutationOp) (s : RState W) : RState W :=
  let copied := match k with EditConflict _ _ => true | _ => false end in
  match o with
  | Put p st _ => if copied then discard (Some st) s else (recover st p s).2
  | FinishChunked p _ _ _ _ t _ _ _ true => if copied then discard (Some t) s else (recover t p s).2
  | FinishChunked _ _ _ _ _ t _ _ _ false => discard (Some t) s
  | Rename _ _ (Some sp) _ => discard (Some sp) s
  | _ => s
  end.

(** One pass of the loop: [None] when the run stops there. *)
(* mutation_journal.rs:815-960 replay_journal *)
Definition replay_step (s0 : RState W) : bool * RState W :=
  match peek_front (r_journal s0) with
  | None => (false, s0)
  | Some e =>
      if in_flight e then (false, s0)
      else
        let s := upd_journal (λ j, (claim (seq e) j).2) s0 in
        if MAX_ATTEMPTS <=? attempts e then (true, exhausted e s)
        else
          let '(r, s) := execute_op e s in
          let s := rebase_after r e s in
          match r with
          | ROk | Uploaded _ =>
              (true, release_delete (op e) (discard (op_staging (op e))
                       (release_upload_guard (op e) (dequeue s))))
          | RConflict k =>
              (true, release_upload_guard (op e) (dequeue (record_conflict k (conflict_bytes k (op e) s))))
          | Idempotent => (true, release_delete (op e) (discard (op_staging (op e)) (dequeue s)))
          | Retryable m => (false, upd_journal (mark_deferred (seq e) m) s)
          | RServerError m => (true, release_delete (op e) (upd_journal (mark_failed (seq e) m) s))
          end
  end.

(* mutation_journal.rs:815-960 replay_journal *)
Fixpoint replay_journal (fuel : nat) (s : RState W) : option (RState W) :=
  match fuel with
  | O => None
  | S fuel => match replay_step s with
              | (true, s) => replay_journal fuel s
              | (false, s) => Some s
              end
  end.

(** ** Theorems *)

(** *** Termination *)

Definition view (j : MutationJournal) : list (SeqId * nat) := (λ e, (seq e, attempts e)) <$> entries j.
Definition weight (sa : SeqId * nat) : nat := S (MAX_ATTEMPTS - sa.2).
(** Each entry takes at most one pass per remaining attempt, and one to leave the queue. *)
Definition replay_fuel (j : MutationJournal) : nat := S (foldr (λ sa n, weight sa + n) 0 (view j)).

Lemma view_update_first f g l :
  (∀ e, seq (g e) = seq e ∧ attempts (g e) = attempts e) →
  (λ e, (seq e, attempts e)) <$> update_first f g l = (λ e, (seq e, attempts e)) <$> l.
Proof. intros Hg. apply update_first_map. intros e. by destruct (Hg e) as [-> ->]. Qed.

Lemma view_claim s j : view (claim s j).2 = view j.
Proof.
  unfold claim, view. destruct (find _ _) as [e|]; [|done]. destruct (in_flight e); [done|].
  by apply view_update_first.
Qed.

Lemma execute_op_journal e s : r_journal (execute_op e s).2 = r_journal s.
Proof.
  unfold execute_op, execute_put, execute_delete, execute_rename, execute_finish.
  destruct (op e); repeat (case_match; try done); simplify_eq/=; done.
Qed.

Lemma rebase_view p sent new j : view (rebase p sent new j) = view j.
Proof.
  unfold rebase. destruct sent as [sent|]; [|done]. destruct (existsb _ _); [|done].
  unfold view. simpl. rewrite <- list_fmap_compose. apply list_fmap_ext. intros i e _. simpl.
  unfold rebase_entry. by destruct (_ && _).
Qed.

Lemma rebase_after_view r e s : view (r_journal (rebase_after r e s)) = view (r_journal s).
Proof. unfold rebase_after. destruct r, (op e); try done; apply rebase_view. Qed.

Lemma release_guard_journal o s : r_journal (release_upload_guard o s) = r_journal s.
Proof. unfold release_upload_guard. repeat (case_match; try done). Qed.
Lemma release_delete_journal o s : r_journal (release_delete o s) = r_journal s.
Proof. by destruct o. Qed.
Lemma discard_entries p s : entries (r_journal (discard p s)) = entries (r_journal s).
Proof. by destruct p. Qed.
Lemma recover_entries st p s : entries (r_journal (recover st p s).2) = entries (r_journal s).
Proof. unfold recover, recover_staging. simpl. by destruct (files _ !! st). Qed.
Lemma conflict_bytes_entries k o s : entries (r_journal (conflict_bytes k o s)) = entries (r_journal s).
Proof.
  unfold conflict_bytes. destruct o as [p st m|p|p|p|f t [sp|] m|p u n b l t m sp h [|]]; try done;
    destruct k; try done; apply recover_entries.
Qed.

Lemma dequeue_view s : view (r_journal (dequeue s)) = drop 1 (view (r_journal s)).
Proof. unfold dequeue, upd_journal, dequeue_front, view. simpl. destruct (entries (r_journal s)) eqn:E; simpl; by rewrite ?E. Qed.

Lemma exhausted_view e s : view (r_journal (exhausted e s)) = drop 1 (view (r_journal s)).
Proof.
  unfold exhausted. destruct (match op e with Put _ _ _ => _ | _ => _ end) as [rc s1] eqn:E.
  rewrite release_delete_journal, dequeue_view. unfold view. simpl. f_equal. f_equal.
  transitivity (entries (r_journal (rc, s1).2)); [done|]. rewrite <- E.
  destruct (op e) as [p st m|p|p|p|f t sp m|p u n b l t m sp h [|]]; try done; by rewrite recover_entries.
Qed.

Lemma step_view s s' :
  replay_step s = (true, s') →
  ∃ q a l, view (r_journal s) = (q, a) :: l ∧
    (view (r_journal s') = l ∨ (a < MAX_ATTEMPTS ∧ view (r_journal s') = (q, S a) :: l)).
Proof.
  unfold replay_step, peek_front. destruct (entries (r_journal s)) as [|e l] eqn:El; [done|].
  cbn [head]. destruct (in_flight e); [done|].
  set (s1 := upd_journal _ s).
  assert (Hv1 : view (r_journal s1) = (seq e, attempts e) :: ((λ e, (seq e, attempts e)) <$> l)).
  { unfold s1. simpl. rewrite view_claim. unfold view. by rewrite El. }
  assert (Hv : view (r_journal s) = (seq e, attempts e) :: ((λ e, (seq e, attempts e)) <$> l)).
  { unfold view. by rewrite El. }
  intros Hstep. exists (seq e), (attempts e), ((λ e, (seq e, attempts e)) <$> l). split; [done|].
  destruct (MAX_ATTEMPTS <=? attempts e) eqn:Ha.
  { snd_eq Hstep. left. by rewrite exhausted_view, Hv1. }
  destruct (execute_op e s1) as [r s2] eqn:Ex.
  assert (Hv2 : view (r_journal (rebase_after r e s2)) = view (r_journal s1)).
  { rewrite rebase_after_view. f_equal. change s2 with (r, s2).2. rewrite <- Ex. apply execute_op_journal. }
  set (s3 := rebase_after r e s2) in *. rewrite Hv1 in Hv2.
  assert (Hdq : view (r_journal (dequeue s3)) = (λ e, (seq e, attempts e)) <$> l)
    by (rewrite dequeue_view; by rewrite Hv2).
  destruct r; first [discriminate Hstep|snd_eq Hstep].
  - left. rewrite release_delete_journal. unfold view. by rewrite discard_entries, release_guard_journal.
  - left. rewrite release_delete_journal. unfold view. by rewrite discard_entries, release_guard_journal.
  - left. rewrite release_guard_journal, dequeue_view. unfold view. simpl.
    rewrite conflict_bytes_entries. fold (view (r_journal s3)). by rewrite Hv2.
  - left. rewrite release_delete_journal. unfold view. by rewrite discard_entries.
  - right. apply Nat.leb_gt in Ha. split; [done|]. rewrite release_delete_journal. unfold view in *. simpl.
    destruct (entries (r_journal s3)) as [|e3 l3]; [done|]. csimpl in Hv2. injection Hv2 as Hs Hat Hl.
    cbn [update_first]. unfold has_seq at 1. rewrite Hs, Nat.eqb_refl. csimpl. by rewrite Hs, Hat, Hl.
Qed.

(** Where a pass that ends the run leaves the queue. *)
Definition run_over (j : MutationJournal) : Prop :=
  entries j = [] ∨ ∃ e l, entries j = e :: l ∧ (in_flight e = true ∨ is_Some (last_error e)).

Lemma step_stops s s' : replay_step s = (false, s') → run_over (r_journal s').
Proof.
  unfold replay_step, peek_front. destruct (entries (r_journal s)) as [|e l] eqn:El.
  { intros Hs. snd_eq Hs. by left. }
  cbn [head]. destruct (in_flight e) eqn:Hfl.
  { intros Hs. snd_eq Hs. right. exists e, l. by split; [|left]. }
  destruct (MAX_ATTEMPTS <=? attempts e); [done|].
  set (s1 := upd_journal _ s).
  assert (Hv1 : view (r_journal s1) = (seq e, attempts e) :: ((λ e, (seq e, attempts e)) <$> l)).
  { unfold s1. simpl. rewrite view_claim. unfold view. by rewrite El. }
  destruct (execute_op e s1) as [r s2] eqn:Ex.
  assert (Hv2 : view (r_journal (rebase_after r e s2)) = view (r_journal s1)).
  { rewrite rebase_after_view. f_equal. change s2 with (r, s2).2. rewrite <- Ex. apply execute_op_journal. }
  set (s3 := rebase_after r e s2) in *. rewrite Hv1 in Hv2.
  destruct r; intros Hs; first [discriminate Hs|snd_eq Hs].
  right. simpl. unfold view in Hv2. destruct (entries (r_journal s3)) as [|e3 l3]; [done|].
  csimpl in Hv2. injection Hv2 as Hsq _ _. cbn [update_first]. unfold has_seq at 1.
  rewrite Hsq, Nat.eqb_refl. eexists _, _. split; [done|]. right. by eexists.
Qed.

(** C38: A replay run always ends, after at most one server call sequence per remaining
    attempt of each queued entry: with the queue empty, at an entry a live worker holds, or
    at one put back to be retried once the server is reachable. A rejected entry is retried
    at most until its attempts are used up, never forever. *)
Theorem replay_terminates s :
  ∃ s', replay_journal (replay_fuel (r_journal s)) s = Some s' ∧ run_over (r_journal s').
Proof.
  remember (replay_fuel (r_journal s)) as n eqn:Hn.
  assert (Hle : replay_fuel (r_journal s) ≤ n) by lia. clear Hn.
  revert s Hle. induction n as [|n IH]; intros s Hle; [unfold replay_fuel in Hle; lia|].
  simpl. destruct (replay_step s) as [[|] s1] eqn:E.
  - apply IH. apply step_view in E as (q & a & l & Hv & Hv'). unfold replay_fuel in *.
    rewrite Hv in Hle. destruct Hv' as [->|[Ha ->]]; cbn [foldr] in *; unfold weight at 1 in Hle;
      [|unfold weight at 1]; cbn [snd] in *; lia.
  - exists s1. split; [done|]. by eapply step_stops.
Qed.

(** *** Nothing staged is lost *)

Lemma execute_put_outcome p st m s f :
  files (disk (r_journal s)) !! st = Some f →
  let '(r, _) := execute_put p st m s in
  match r with
  | Uploaded _ => ∃ v, (put_file p (lf_bytes f) m (r_world s)).1 = Ok v
  | RConflict (EditConflict lp copy) =>
      lp = p ∧ ∃ w, put_file p (lf_bytes f) m (r_world s) = (Err Conflict, w) ∧
           copy = make_conflict_name (now_secs w) p ∧
           ∃ v, (put_file copy (lf_bytes f) None w).1 = Ok v
  | ROk | Idempotent | RConflict (MoveSourceGone _ _ | MoveDestExists _ _) => False
  | _ => True
  end.
Proof.
  intros Hf. unfold execute_put, put_file_from_path. rewrite Hf.
  destruct (put_file p (lf_bytes f) m (r_world s)) as [[v|e] w] eqn:E1; [by exists v|].
  assert (Hrest : e ≠ Conflict → match (if is_transient e then Retryable (MWrite e)
      else if is_404 e then RConflict (PermanentFailure (DParentNotFound p))
      else RServerError (MWrite e)) with
    | RConflict (PermanentFailure _) | Retryable _ | RServerError _ => True | _ => False end).
  { intros _. destruct (is_transient e); [done|]. by destruct (is_404 e). }
  destruct e; try (specialize (Hrest ltac:(done)); simpl in *; repeat case_match; simplify_eq; done).
  destruct (put_file (make_conflict_name (now_secs w) p) (lf_bytes f) None w) as [[v|e] w2] eqn:E2.
  - split; [done|]. exists w. split_and!; [done|done|]. exists v. by rewrite E2.
  - unfold failed_write. by destruct (is_transient e).
Qed.

Definition recovery_dir (j : MutationJournal) : PathBuf := join (cache_dir j) ["unsynced"%string].

Lemma recover_keeps st p s f :
  files (disk (r_journal s)) !! st = Some f →
  ∃ dest, (recover st p s).1 = Some dest ∧ starts_with dest (recovery_dir (r_journal s)) = true ∧
          files (disk (r_journal (recover st p s).2)) !! dest = Some f.
Proof.
  intros Hf. unfold recover, recover_staging. rewrite Hf. cbn [fst snd r_journal set_journal].
  eexists. split; [done|]. split.
  - unfold recovery_dir. repeat case_match; apply starts_with_join.
  - simpl. apply lookup_insert_eq.
Qed.

(** What a step can do with a whole-file upload at the head of the queue. *)
Definition upload_kept (s s' : RState W) (e : JournalEntry) (st : PathBuf) (f : LocalFile) (ended : bool) : Prop :=
  files (disk (r_journal s')) !! st = Some f ∧
  ∃ e' l', entries (r_journal s') = e' :: l' ∧ seq e' = seq e ∧ op e' = op e ∧
    attempts e' = (if ended then attempts e else S (attempts e)).
Definition upload_sent (s : RState W) (p : PathBuf) (m : option Etag) (f : LocalFile) : Prop :=
  ∃ v, (put_file p (lf_bytes f) m (r_world s)).1 = Ok v.
Definition upload_copied (s s' : RState W) (p : PathBuf) (m : option Etag) (f : LocalFile) : Prop :=
  ∃ w v copy c, put_file p (lf_bytes f) m (r_world s) = (Err Conflict, w) ∧
    copy = make_conflict_name (now_secs w) p ∧ (put_file copy (lf_bytes f) None w).1 = Ok v ∧
    c ∈ conflicts (r_journal s') ∧ c_kind c = EditConflict p copy.
Definition upload_recovered (s s' : RState W) (f : LocalFile) : Prop :=
  ∃ dest d c, files (disk (r_journal s')) !! dest = Some f ∧
    starts_with dest (recovery_dir (r_journal s)) = true ∧
    c ∈ conflicts (r_journal s') ∧ c_kind c = PermanentFailure d.

Lemma record_dequeue_conflict k s :
  ∃ c, c ∈ conflicts (r_journal (dequeue (record_conflict k s))) ∧ c_kind c = k.
Proof.
  assert (Hc : conflicts (r_journal (dequeue (record_conflict k s))) = conflicts (r_journal (record_conflict k s))).
  { unfold dequeue, upd_journal, dequeue_front. simpl. by destruct (entries (r_journal s)). }
  rewrite Hc. simpl. eexists. split; [apply elem_of_app; right; left|done].
Qed.
Lemma dequeue_files s : files (disk (r_journal (dequeue s))) = files (disk (r_journal s)).
Proof.
  unfold dequeue, upd_journal, dequeue_front. simpl. destruct (entries (r_journal s)); [done|]. simpl.
  by destruct (writable (disk (r_journal s))).
Qed.
Lemma record_files k s : files (disk (r_journal (record_conflict k s))) = files (disk (r_journal s)).
Proof. simpl. by destruct (writable (disk (r_journal s))). Qed.
Lemma claim_files q j : files (disk (claim q j).2) = files (disk j) ∧ cache_dir (claim q j).2 = cache_dir j.
Proof. unfold claim. destruct (find _ _) as [x|]; [|done]. by destruct (in_flight x). Qed.

Lemma claim_head e l j :
  entries j = e :: l → in_flight e = false → entries (claim (seq e) j).2 = set_in_flight e true :: l.
Proof.
  intros El Hfl. unfold claim. rewrite El. simpl. unfold has_seq at 1. rewrite Nat.eqb_refl, Hfl. simpl.
  unfold has_seq. by rewrite Nat.eqb_refl.
Qed.

Lemma exhausted_recovers e s p st m f s0 :
  op e = Put p st m → files (disk (r_journal s)) !! st = Some f →
  cache_dir (r_journal s) = cache_dir (r_journal s0) →
  upload_recovered s0 (exhausted e s) f.
Proof.
  intros Ho Hf Hd. unfold exhausted. rewrite Ho. destruct (recover_keeps st p s f Hf) as (dest & H1 & H2 & H3).
  destruct (recover st p s) as [rc s2]. cbn [fst snd] in *. cbn [release_delete].
  set (k := PermanentFailure (DGaveUp _ _ _)). destruct (record_dequeue_conflict k s2) as (c & Hc & Hk).
  exists dest, (DGaveUp (Put p st m) (last_error e) rc), c.
  rewrite dequeue_files, record_files. split_and!; try done.
  unfold recovery_dir in *. by rewrite <- Hd.
Qed.

Lemma deferred_files s q msg :
  files (disk (r_journal (upd_journal (mark_deferred q msg) s))) = files (disk (r_journal s)).
Proof. simpl. by destruct (writable (disk (r_journal s))). Qed.
Lemma failed_files s q msg o :
  files (disk (r_journal (release_delete o (upd_journal (mark_failed q msg) s)))) = files (disk (r_journal s)).
Proof. rewrite release_delete_journal. simpl. by destruct (writable (disk (r_journal s))). Qed.
Lemma deferred_head s e l msg :
  entries (r_journal s) = set_in_flight e true :: l →
  ∃ e' l', entries (r_journal (upd_journal (mark_deferred (seq e) msg) s)) = e' :: l' ∧
    seq e' = seq e ∧ op e' = op e ∧ attempts e' = attempts e.
Proof.
  intros El. simpl. rewrite El. cbn [update_first]. unfold has_seq at 1. simpl.
  rewrite Nat.eqb_refl. eexists _, _. by split_and!.
Qed.
Lemma failed_head s e l msg o :
  entries (r_journal s) = set_in_flight e true :: l →
  ∃ e' l', entries (r_journal (release_delete o (upd_journal (mark_failed (seq e) msg) s))) = e' :: l' ∧
    seq e' = seq e ∧ op e' = op e ∧ attempts e' = S (attempts e).
Proof.
  intros El. rewrite release_delete_journal. simpl. rewrite El. cbn [update_first]. unfold has_seq at 1. simpl.
  rewrite Nat.eqb_refl. eexists _, _. by split_and!.
Qed.

End replay.
