(* ===== verification/StreamFinish.v ===== *)
(** Finishing a streamed upload against the reference server: the final chunks and the kept
    head, assembled, are the file; and what replaying the queue does there. *)
From S2P Require Import Prelude Paths Naming Backend Server FsCache Journal Replay.

Fixpoint store_pieces (u : string) (i : Z) (l : list bytes) (w : Srv) : Srv :=
  match l with
  | [] => w
  | b :: l => store_pieces u (i + 1)%Z l (store_chunk u i b w)
  end.

Lemma store_chunk_session u i b w : session (store_chunk u i b w) u = <[i := b]> (session w u).
Proof. unfold session at 1. simpl. by rewrite lookup_insert_eq. Qed.

Lemma store_pieces_spec u i l w :
  session (store_pieces u i l w) u = store_list (session w u) i l ∧
  sv_files (store_pieces u i l w) = sv_files w ∧ sv_dirs (store_pieces u i l w) = sv_dirs w ∧
  sv_version (store_pieces u i l w) = sv_version w ∧
  (is_Some (sv_chunks w !! u) → is_Some (sv_chunks (store_pieces u i l w) !! u)).
Proof.
  revert i w. induction l as [|b l IH]; intros i w; [done|].
  cbn [store_pieces store_list]. destruct (IH (i + 1)%Z (store_chunk u i b w)) as (-> & -> & -> & -> & Hs).
  rewrite store_chunk_session. split_and!; try done. intros _. apply Hs. simpl. rewrite lookup_insert_eq. eauto.
Qed.

Lemma retry_put_chunk u i b w :
  retry_chunk_write (put_chunk u i b) w = (Ok tt, store_chunk u i b w).
Proof. done. Qed.

Lemma slice_split {A} (f : list A) off n m :
  (0 ≤ off)%Z → (0 ≤ n)%Z → (0 ≤ m)%Z → slice f off (n + m) = slice f off n ++ slice f (off + n) m.
Proof.
  intros. unfold slice. rewrite !Z2Nat.inj_add by lia. by rewrite <- drop_drop, take_add_app.
Qed.
Lemma slice_length {A} (f : list A) off n :
  (0 ≤ off)%Z → (0 ≤ n)%Z → (off + n ≤ blen f)%Z → blen (slice f off n) = n.
Proof. intros. unfold slice, blen in *. rewrite length_take, length_drop. lia. Qed.

(** The loop stores the bytes from [off] to [stop] in consecutive pieces, in order, each
    non-empty and at most a chunk long: it always gets to the end. *)
Lemma tail_loop_stores u ni fuel f chunk stop off idx w :
  (0 < chunk)%Z → (0 ≤ off ≤ stop)%Z → (stop ≤ blen f)%Z → (stop - off ≤ Z.of_nat fuel * chunk)%Z →
  ∃ pieces,
    tail_loop fuel f chunk stop off idx (λ i b, retry_chunk_write (put_chunk u (ni + i)%Z b)) w
      = (Ok tt, store_pieces u (ni + idx)%Z pieces w) ∧
    mjoin pieces = slice f off (stop - off) ∧
    Forall (λ b, 0 < blen b ≤ chunk)%Z pieces.
Proof.
  intros Hc. revert off idx w. induction fuel as [|fuel IH]; intros off idx w Ho Hs Hf.
  { assert (stop = off) as -> by lia. exists []. split_and!; [done| |constructor].
    rewrite Z.sub_diag. unfold slice. by rewrite take_0. }
  cbn [tail_loop]. destruct (off <? stop)%Z eqn:E; bool_prop.
  - set (n := Z.min chunk (stop - off)).
    assert (Hlen : blen (slice f off n) = n) by (apply slice_length; lia).
    rewrite retry_put_chunk, Hlen.
    destruct (IH (off + n)%Z (idx + 1)%Z (store_chunk u (ni + idx)%Z (slice f off n) w)) as (ps & H1 & H2 & H3); [lia|lia|lia|].
    exists (slice f off n :: ps). split_and!.
    + rewrite H1. cbn [store_pieces]. by replace (ni + (idx + 1))%Z with (ni + idx + 1)%Z by lia.
    + csimpl. rewrite H2. replace (stop - off)%Z with (n + (stop - (off + n)))%Z by lia.
      rewrite slice_split by lia. done.
    + constructor; [rewrite Hlen; lia|done].
  - assert (stop = off) as -> by lia. exists []. split_and!; [done| |constructor].
    rewrite Z.sub_diag. unfold slice. by rewrite take_0.
Qed.

Lemma each_tail_chunk_stores u ni f from tail_len w :
  (0 ≤ from)%Z → (0 ≤ tail_len)%Z → blen f = (from + tail_len)%Z →
  ∃ pieces,
    each_tail_chunk (Some f) from tail_len CHUNK_SIZE (Server 0)
      (λ i b, retry_chunk_write (put_chunk u (ni + i)%Z b)) w
      = (Ok tt, store_pieces u ni pieces w) ∧
    mjoin pieces = slice f from tail_len ∧ Forall (λ b, 0 < blen b ≤ CHUNK_SIZE)%Z pieces.
Proof.
  intros Hf Ht Hl. unfold each_tail_chunk. rewrite Hl, Z.eqb_refl.
  destruct (tail_loop_stores u ni (S (Z.to_nat (tail_len / CHUNK_SIZE))) f CHUNK_SIZE (from + tail_len) from 0 w)
    as (ps & H1 & H2 & H3); [done|lia|lia| |].
  - assert (0 < CHUNK_SIZE)%Z by done. pose proof (Z.div_mod tail_len CHUNK_SIZE ltac:(lia)).
    pose proof (Z.mod_pos_bound tail_len CHUNK_SIZE ltac:(lia)).
    pose proof (Z.div_pos tail_len CHUNK_SIZE Ht ltac:(lia)). nia.
  - exists ps. rewrite Z.add_0_r in H1. split_and!; [done| |done]. rewrite H2. f_equal. lia.
Qed.

(** What a retried call that answers for good does: one attempt. *)
Lemma retry_final {T} (f : call Srv (result T BackendWriteError)) w r w' :
  f w = (r, w') → match r with Err e => is_transient e = false | Ok _ => True end →
  retry_chunk_write f w = (r, w').
Proof.
  intros Hf Hr. unfold retry_chunk_write, MAX_RETRIES. simpl. rewrite Hf.
  destruct r as [v|e]; [done|]. by rewrite Hr.
Qed.

Lemma srv_finish_not_transient u p m mt t w :
  match (srv_finish u p m mt t w).1 with Err e => is_transient e = false | Ok _ => True end.
Proof.
  unfold srv_finish. destruct (sv_chunks w !! u) as [s|]; [|done]. unfold srv_put.
  destruct (negb _); [done|]. by destruct (matches w p m).
Qed.

(** The state of an upload in progress: what the server has, and what the staging file holds.
    Chunks from index 1 on follow the kept head, or from 0 on when no head is kept. A chunk
    that was on its way when the upload was closed may have landed at the next index, where
    the first of the final chunks replaces it. *)
Definition upload_state (w : Srv) (u : string) (file : bytes) (f : LocalFile)
    (next_index confirmed : Z) (sparse : bool) (head : Z) : Prop :=
  let s := session w u in
  let lo := if (0 <? head)%Z then 1%Z else 0%Z in
  is_Some (sv_chunks w !! u) ∧ (lo ≤ next_index)%Z ∧ (0 ≤ head ≤ confirmed)%Z ∧ (confirmed ≤ blen file)%Z ∧
  (∀ k, is_Some (s !! k) → (lo ≤ k < next_index)%Z ∨ k = next_index ∧ (confirmed < blen file)%Z) ∧
  chunk_range s lo (next_index - lo) = slice file head (confirmed - head) ∧
  (if sparse
   then blen (lf_bytes f) = blen file ∧ slice (lf_bytes f) 0 head = slice file 0 head ∧
        slice (lf_bytes f) confirmed (blen file - confirmed) = slice file confirmed (blen file - confirmed)
   else head = 0%Z ∧ lf_bytes f = slice file confirmed (blen file - confirmed)).

Lemma slice_all {A} (f : list A) : slice f 0 (blen f) = f.
Proof. unfold slice, blen. rewrite Nat2Z.id. simpl. apply take_ge. lia. Qed.

(** The final chunks after what was sent, and the head before it, make the file. *)
Lemma assemble_upload w u file f ni conf sparse head pieces :
  upload_state w u file f ni conf sparse head →
  mjoin pieces = slice file conf (blen file - conf) →
  let s := store_list (session w u) ni pieces in
  assemble (if (0 <? head)%Z then <[0%Z := slice file 0 head]> s else s) = file.
Proof.
  intros (_ & Hlo & Hh & Hc & Hk & Hr & _) Hp s. set (n := Z.of_nat (length pieces)).
  assert (Hs : ∀ k, is_Some (s !! k) → (k < ni + n)%Z).
  { intros k Hsk. destruct (decide (k < ni + n)%Z); [done|].
    unfold s in Hsk. rewrite store_list_other in Hsk by lia. destruct (Hk k Hsk) as [|[-> Hlt]]; [lia|].
    exfalso. assert (pieces = []) as -> by (destruct pieces; [done|unfold n in *; cbn [length] in *; lia]). apply (f_equal blen) in Hp.
    rewrite slice_length in Hp by lia. change (blen (mjoin [])) with 0%Z in Hp. lia. }
  assert (Hfile : slice file 0 head ++ slice file head (conf - head) ++ slice file conf (blen file - conf) = file).
  { transitivity (slice file 0 (head + ((conf - head) + (blen file - conf)))).
    - rewrite !slice_split by lia. f_equal. f_equal; f_equal; lia.
    - replace (head + (conf - head + (blen file - conf)))%Z with (blen file) by lia. apply slice_all. }
  assert (Hsent : ∀ lo, chunk_range s lo (ni - lo) = chunk_range (session w u) lo (ni - lo)).
  { intros lo. apply chunk_range_ext. intros k Hkk. unfold s. apply store_list_other. lia. }
  assert (Hnew : chunk_range s ni n = mjoin pieces) by apply store_list_range.
  destruct (0 <? head)%Z eqn:E; bool_prop.
  - rewrite (assemble_range _ (1 + ((ni - 1) + n))).
    + rewrite !chunk_range_app by lia. etransitivity; [|exact Hfile]. f_equal; [|f_equal].
      * unfold chunk_range. rewrite (seqZ_cons 0 1) by lia. csimpl. by rewrite lookup_insert_eq, app_nil_r.
      * rewrite <- Hr, <- Hsent. apply chunk_range_ext. intros k Hkk. by rewrite lookup_insert_ne by lia.
      * rewrite <- Hp, <- Hnew. replace (0 + 1 + (ni - 1))%Z with ni by lia.
        apply chunk_range_ext. intros k Hkk. by rewrite lookup_insert_ne by lia.
    + lia.
    + intros k Hkk. destruct (decide (k = 0)%Z) as [->|]; [lia|]. rewrite lookup_insert_ne in Hkk by done.
      specialize (Hs k Hkk). lia.
  - assert (head = 0%Z) as -> by lia. rewrite (assemble_range _ (ni + n)); [|lia|done].
    rewrite chunk_range_app by lia. etransitivity; [|exact Hfile]. unfold slice at 1. rewrite take_0. cbn [app]. f_equal.
    + specialize (Hsent 0%Z). rewrite Z.sub_0_r in Hsent, Hr. by rewrite Hsent, Hr.
    + by rewrite Z.add_0_l, Hnew, Hp.
Qed.

Lemma srv_put_files w1 w2 p b m :
  sv_files w1 = sv_files w2 → sv_dirs w1 = sv_dirs w2 → sv_version w1 = sv_version w2 →
  (srv_put p b m w1).1 = (srv_put p b m w2).1 ∧
  sv_files (srv_put p b m w1).2 = sv_files (srv_put p b m w2).2.
Proof.
  intros Hf Hd Hv. unfold srv_put, folder_exists, matches. rewrite Hf, Hd, Hv.
  destruct (negb _); [done|]. by destruct (match m with Some _ => _ | None => true end).
Qed.

(** The tail goes up as the missing end of the file. *)
Lemma tail_sent (fs : Files) w u file f ni conf tail sparse head :
  fs !! tail = Some f → upload_state w u file f ni conf sparse head →
  ∃ pieces,
    (if (0 <? sat_sub (blen file) conf)%Z then
       each_tail_chunk (lf_bytes <$> fs !! tail) (if sparse then conf else 0%Z) (sat_sub (blen file) conf)
         CHUNK_SIZE (Server 0) (λ i body, retry_chunk_write (put_chunk u (ni + i)%Z body)) w
     else (Ok tt, w)) = (Ok tt, store_pieces u ni pieces w) ∧
    mjoin pieces = slice file conf (blen file - conf).
Proof.
  intros Hfs (_ & _ & Hh & Hc & _ & _ & Hloc).
  unfold sat_sub. rewrite Z.max_r by lia. destruct (0 <? blen file - conf)%Z eqn:E; bool_prop.
  - rewrite Hfs. cbn [fmap option_fmap option_map].
    destruct (each_tail_chunk_stores u ni (lf_bytes f) (if sparse then conf else 0%Z) (blen file - conf) w)
      as (ps & H1 & H2 & _).
    + destruct sparse; lia.
    + lia.
    + destruct sparse; destruct Hloc as [H1 H2]; [lia|]. rewrite H2, slice_length by lia. lia.
    + exists ps. split; [exact H1|]. rewrite H2. destruct sparse; [apply Hloc|].
      destruct Hloc as [_ ->]. rewrite <- (slice_length file conf (blen file - conf)) at 2 by lia.
      apply slice_all.
  - exists []. split; [done|]. replace (blen file - conf)%Z with 0%Z by lia. unfold slice. by rewrite take_0.
Qed.

(** The kept head goes up as chunk 0. *)
Definition with_head (u : string) (file : bytes) (head : Z) (w : Srv) : Srv :=
  if (0 <? head)%Z then store_chunk u 0 (slice file 0 head) w else w.
Lemma head_sent (fs : Files) w w1 u file f ni conf tail sparse head :
  fs !! tail = Some f → upload_state w u file f ni conf sparse head →
  (if (0 <? head)%Z then
     match fs !! tail with
     | Some f0 => if (Z.min head (blen file) <=? blen (lf_bytes f0))%Z
                  then retry_chunk_write (put_chunk u 0%Z (slice (lf_bytes f0) 0 (Z.min head (blen file)))) w1
                  else (Err (Server 0 "staging head"), w1)
     | None => (Err (Server 0 "staging head"), w1)
     end else (Ok tt, w1))
  = (Ok tt, with_head u file head w1).
Proof.
  intros Hfs (_ & _ & Hh & Hc & _ & _ & Hloc). unfold with_head.
  destruct (0 <? head)%Z eqn:E; bool_prop; [|done]. rewrite Hfs, Z.min_l by lia.
  destruct sparse; destruct Hloc as [H1 H2]; [|lia]. destruct H2 as [H2 _].
  rewrite (proj2 (Z.leb_le _ _)) by lia. by rewrite retry_put_chunk, H2.
Qed.

Lemma with_head_spec u file head w :
  session (with_head u file head w) u =
    (if (0 <? head)%Z then <[0%Z := slice file 0 head]> (session w u) else session w u) ∧
  (is_Some (sv_chunks w !! u) → is_Some (sv_chunks (with_head u file head w) !! u)) ∧
  sv_files (with_head u file head w) = sv_files w ∧ sv_dirs (with_head u file head w) = sv_dirs w ∧
  sv_version (with_head u file head w) = sv_version w.
Proof.
  unfold with_head. destruct (0 <? head)%Z; [|done]. rewrite store_chunk_session. split_and!; try done.
  intros _. simpl. rewrite lookup_insert_eq. eauto.
Qed.

(** C39: Finishing a streamed upload is the same as uploading the whole file at once: the
    tail goes up in consecutive chunks after those already sent, the kept head as chunk 0,
    and the assembly leaves the server as a PUT of the complete file under the same
    condition would, with the same answer, conflict included. *)
Theorem streamed_finish_is_put fs w u file f ni conf tail sparse head remote m mtime :
  fs !! tail = Some f → upload_state w u file f ni conf sparse head →
  let '(r, w') := send_chunked_finish fs u ni conf (blen file) tail sparse head remote m mtime w in
  r = (srv_put remote file m w).1 ∧ sv_files w' = sv_files (srv_put remote file m w).2.
Proof.
  intros Hfs Hst.
  destruct (tail_sent fs w u file f ni conf tail sparse head Hfs Hst) as (ps & Ht & Hps).
  unfold send_chunked_finish. rewrite Ht, (head_sent fs w _ u file f ni conf tail sparse head Hfs Hst).
  destruct (store_pieces_spec u ni ps w) as (Hs1 & Hs2 & Hs3 & Hs4 & Hs5).
  specialize (Hs5 (proj1 Hst)). set (w1 := store_pieces u ni ps w) in *.
  destruct (with_head_spec u file head w1) as (Hses2 & Hc2 & Hf2 & Hd2 & Hv2).
  destruct (Hc2 Hs5) as [s2 Hs2c]. clear Hc2. set (w2 := with_head u file head w1) in *.
  assert (Hasm : assemble s2 = file).
  { unfold session in Hses2 at 1. rewrite Hs2c in Hses2. simpl in Hses2. rewrite Hses2, Hs1.
    by eapply assemble_upload. }
  destruct (srv_put_files w2 w remote file m) as [HP1 HP2]; [congruence..|].
  pose proof (srv_finish_not_transient u remote m mtime (blen file) w2) as Htr.
  destruct (srv_finish u remote m mtime (blen file) w2) as [r w3] eqn:Efin.
  rewrite (retry_final _ _ r w3); [|exact Efin|exact Htr].
  unfold srv_finish in Efin. rewrite Hs2c, Hasm in Efin. rewrite <- HP1, <- HP2.
  destruct (srv_put remote file m w2) as [[v|e] w4]; injection Efin as <- <-; done.
Qed.

(** ** Witnesses *)

Definition demo_bytes : bytes := [Byte.x01; Byte.x02; Byte.x03; Byte.x04; Byte.x05].
(** Byte 1 kept as the head, bytes 2 and 3 sent as chunk 1 and punched out of the staging file. *)
Definition demo_staging : LocalFile :=
  Build_LocalFile [Byte.x01; Byte.x00; Byte.x00; Byte.x04; Byte.x05] 0.
Definition demo_session : Srv :=
  Build_Srv ∅ ∅ {[ "u1"%string := {[ 1%Z := [Byte.x02; Byte.x03] ]} ]} 1.

Lemma streamed_finish_is_put_witness :
  let '(r, w') := send_chunked_finish {[ ["st"%string] := demo_staging ]} "u1" 2 3 (blen demo_bytes)
                    ["st"%string] true 1 ["doc"%string] None None demo_session in
  is_ok r = true ∧ content w' ["doc"%string] = Some demo_bytes.
Proof.
  assert (Hst : upload_state demo_session "u1" demo_bytes demo_staging 2 3 true 1).
  { split_and!; try (by vm_compute).
    - by eexists.
    - intros k [b Hb]. change (session demo_session "u1") with ({[ 1%Z := [Byte.x02; Byte.x03] ]} : gmap Z bytes) in Hb.
      apply lookup_singleton_Some in Hb as [<- _]. left. simpl. lia. }
  pose proof (streamed_finish_is_put {[ ["st"%string] := demo_staging ]} demo_session "u1" demo_bytes
    demo_staging 2 3 ["st"%string] true 1 ["doc"%string] None None eq_refl Hst) as H.
  destruct (send_chunked_finish _ _ _ _ _ _ _ _ _ _ _ _) as [r w']. destruct H as [-> H].
  split; [by vm_compute|]. unfold content. rewrite H. by vm_compute.
Defined.

(** A queue over the reference server: listing cache empty, clock at zero. *)
Definition replay_demo (l : list MutationOp) (fs : Files) (w : Srv) : RState Srv :=
  let j0 := Build_MutationJournal [] 1 [] 1 [] 0 (Build_Disk None None fs true) in
  Build_RState (foldl (λ j o, (enqueue 0 o j).2) j0 l)
    (Build_FsCache ∅ ∅ 2 ∅ 100 ∅ ∅ ∅ ∅ ∅ false 0) ∅ ∅ [] w.

(** The server has [/d] with version 1 of [/d/f]. *)
Definition server_demo : Srv :=
  Build_Srv {[ ["d"; "f"]%string := ([Byte.x01], 1) ]} {[ ["d"%string] ]} ∅ 2.
Definition files_demo : Files := {[ ["w1"%string] := Build_LocalFile [Byte.x02] 0 ]}.


(** ** What a rename does to an edit queued before it *)

(** An offline edit of [/d/f] (version 1 on the server) followed by an offline rename to
    [/d/g] replays as a PUT to [/d/g], which the server does not have yet: the edit ends up
    in a conflicted copy though nobody else changed the file, and [/d/g] gets the version
    before the edit. *)
Lemma edit_then_rename_conflicts :
  let s := replay_demo [Put ["d"; "f"]%string ["w1"%string] (Some (etag_of 1));
                        Rename ["d"; "f"]%string ["d"; "g"]%string None None] files_demo server_demo in
  ∃ s', replay_journal (λ _, 0%Z) (replay_fuel (r_journal s)) s = Some s' ∧
    content (r_world s') ["d"; "g"]%string = Some [Byte.x01] ∧
    content (r_world s') (make_conflict_name 0 ["d"; "g"]%string) = Some [Byte.x02] ∧
    (c_kind <$> conflicts (r_journal s')) =
      [EditConflict ["d"; "g"]%string (make_conflict_name 0 ["d"; "g"]%string)].
Proof.
  cbv zeta. set (s := replay_demo _ _ _).
  destruct (replay_journal (λ _, 0%Z) (replay_fuel (r_journal s)) s) as [s'|] eqn:E; [|by vm_compute in E].
  exists s'. split; [done|].
  assert (H : (λ s', (content (r_world s') ["d"; "g"]%string, content (r_world s') (make_conflict_name 0 ["d"; "g"]%string),
      c_kind <$> conflicts (r_journal s'))) <$> replay_journal (λ _, 0%Z) (replay_fuel (r_journal s)) s
    = Some (Some [Byte.x01], Some [Byte.x02],
        [EditConflict ["d"; "g"]%string (make_conflict_name 0 ["d"; "g"]%string)])) by by vm_compute.
  rewrite E in H. simpl in H. by injection H.
Qed.

(** The same for a renamed folder: the edit inside it is sent below the new name before the
    folder has it, is rejected until its attempts are used up, and ends in the recovery
    folder while the server keeps the old bytes. *)
Lemma edit_then_folder_rename_recovered :
  let s := replay_demo [Put ["d"; "f"]%string ["w1"%string] (Some (etag_of 1));
                        Rename ["d"%string] ["e"%string] None None] files_demo server_demo in
  ∃ s', replay_journal (λ _, 0%Z) (replay_fuel (r_journal s)) s = Some s' ∧
    content (r_world s') ["e"; "f"]%string = Some [Byte.x01] ∧
    files (disk (r_journal s')) !! ["unsynced"; "f"]%string = Some (Build_LocalFile [Byte.x02] 0).
Proof.
  cbv zeta. set (s := replay_demo _ _ _).
  destruct (replay_journal (λ _, 0%Z) (replay_fuel (r_journal s)) s) as [s'|] eqn:E; [|by vm_compute in E].
  exists s'. split; [done|].
  assert (H : (λ s', (content (r_world s') ["e"; "f"]%string,
      files (disk (r_journal s')) !! ["unsynced"; "f"]%string)) <$> replay_journal (λ _, 0%Z) (replay_fuel (r_journal s)) s
    = Some (Some [Byte.x01], Some (Build_LocalFile [Byte.x02] 0))) by by vm_compute.
  rewrite E in H. simpl in H. by injection H.
Qed.
