(* ===== verification/ChunkUpload.v ===== *)
(** [lib.rs], uploading a large file while it is being written: [ChunkUploadState], the
    verdict on each write, the background uploader, and what release() commits.

    Positions and sizes are integers; a staging file is its bytes, with a punched range reading
    as zeros. [CHUNK] stands for [webdav_ops::CHUNK_SIZE], any positive size; [STREAM_HEAD]
    is one chunk. The server is the reference server of [Server]. A request on the inode is
    one step (the scheduler runs them one at a time); the uploader's job is one step per
    thing it does without its lock. *)
From S2P Require Import Prelude Backend Server Replay StreamFinish.
Local Open Scope Z_scope.

(** ** Staging files *)

(** [pwrite]: past the end of the file the gap reads as zeros. *)
Definition write_at (f : bytes) (off : Z) (d : bytes) : bytes :=
  (λ i, let z := Z.of_nat i in
        if (off <=? z) && (z <? off + blen d) then default Byte.x00 (d !! Z.to_nat (z - off))
        else default Byte.x00 (f !! i))
  <$> seq 0 (Z.to_nat (Z.max (blen f) (if 0 <? blen d then off + blen d else 0))).

(** [FALLOC_FL_PUNCH_HOLE], which a filesystem may refuse. *)
(* lib.rs:1824-1838 free_sent_chunk *)
Definition free_sent_chunk (ok : bool) (f : bytes) (off len : Z) : bytes :=
  if ok then imap (λ i b, if (off <=? Z.of_nat i) && (Z.of_nat i <? off + len) then Byte.x00 else b) f else f.

(** ** The session *)

(* lib.rs:1213-1232 PumpState *)
Record PumpState := {
  next_index : Z; bytes_confirmed : Z; claimed : Z;
  punching : bool; busy : bool; failed : bool; closed : bool; frozen : bool;
}.

(* lib.rs:1302-1310 StreamWrite *)
Inductive StreamWrite := Keep | Abandon | Fail.

(* lib.rs:1312-1324 stream_write_verdict *)
Definition stream_write_verdict (off len total_written head : Z) (p : PumpState) (offline : bool) : StreamWrite :=
  let in_head := sat_add off len <=? head in
  let in_tail := (claimed p <=? off) && (off <=? total_written) in
  let healthy := (in_head || in_tail) && negb (failed p) && negb (closed p) && negb (offline && negb (punching p)) in
  match healthy, punching p with
  | true, _ => Keep
  | false, false => Abandon
  | false, true => Fail
  end.

Section chunk.
Context (CHUNK : Z) (uploads_base : string).

(* lib.rs:1333-1333 STREAM_HEAD *)
Definition STREAM_HEAD : Z := CHUNK.
(* lib.rs:1329-1329 STREAM_MAX_UNSENT *)
Definition STREAM_MAX_UNSENT : Z := 2 * CHUNK.

(* lib.rs:1196-1201 ChunkUploadState *)
Record ChunkUploadState := { head : Z; pump : PumpState }.

(* lib.rs:1236-1239 ChunkUploadState::resumed *)
Definition resumed (next_index bytes_confirmed head : Z) (punching : bool) : ChunkUploadState :=
  {| head := head;
     pump := {| next_index := next_index; bytes_confirmed := bytes_confirmed; claimed := bytes_confirmed;
                punching := punching; busy := false; failed := false; closed := false; frozen := false |} |}.

Definition set_pump (cs : ChunkUploadState) (p : PumpState) : ChunkUploadState := {| head := head cs; pump := p |}.
Definition set_flags (p : PumpState) (busy failed closed frozen : bool) : PumpState :=
  {| next_index := next_index p; bytes_confirmed := bytes_confirmed p; claimed := claimed p; punching := punching p;
     busy := busy; failed := failed; closed := closed; frozen := frozen |}.

(* lib.rs:1251-1256 ChunkUploadState::close *)
Definition close (p : PumpState) : PumpState := set_flags p (busy p) (failed p) true (frozen p).
(* lib.rs:1259-1267 ChunkUploadState::freeze *)
Definition freeze (p : PumpState) : PumpState :=
  set_flags p (busy p) (failed p) true (if closed p then frozen p else true).
(* lib.rs:1270-1277 ChunkUploadState::thaw *)
Definition thaw (p : PumpState) : PumpState :=
  if frozen p then set_flags p (busy p) (failed p) false false else p.
(* lib.rs:1294-1297 ChunkUploadState::lost *)
Definition lost (p : PumpState) : bool := punching p && (failed p || closed p).

(* lib.rs:1384-1390 stream_reserve_bytes *)
Definition stream_reserve_bytes (configured_mb fs_size : Z) : Z :=
  if 0 <? configured_mb then Z.min (configured_mb * (1024 * 1024)) u64_max else Z.max (2 * 2 ^ 30) (fs_size / 20).

(* lib.rs:1443-1446 stream_should_graduate *)
Definition stream_should_graduate (total_written : Z) (session : option ChunkUploadState) (threshold : Z) : bool :=
  let unsent := sat_sub total_written (default STREAM_HEAD ((λ s, claimed (pump s)) <$> session)) in
  Z.max threshold CHUNK <=? unsent.

(** [room]: the pool takes the job, or a disk-low write runs it itself. The [bool] says that a
    job is now queued. *)
(* lib.rs:1505-1527 kick_chunk_pump *)
Definition kick_chunk_pump (room held : bool) (p : PumpState) : PumpState * bool :=
  if busy p && negb held then (p, false)
  else if closed p || failed p || (claimed p <=? bytes_confirmed p) then (set_flags p false (failed p) (closed p) (frozen p), false)
  else if room then (set_flags p true (failed p) (closed p) (frozen p), true)
  else (set_flags p false (failed p) (closed p) (frozen p), false).

(* lib.rs:5773-5786 start_punching *)
Definition start_punching (ok : bool) (cs : ChunkUploadState) (staging : bytes) : ChunkUploadState * bytes :=
  let p := pump cs in
  if punching p || closed p || failed p then (cs, staging)
  else (set_pump cs {| next_index := next_index p; bytes_confirmed := bytes_confirmed p; claimed := claimed p;
                       punching := true; busy := busy p; failed := failed p; closed := closed p; frozen := frozen p |},
        free_sent_chunk ok staging (head cs) (bytes_confirmed p - head cs)).

(** ** A handle being written *)

(** The uploader's job: queued, or sending chunk [index] from [from], its bytes once read. *)
Inductive Job := Queued | Sending (index from : Z) (chunk : option bytes).

(** [file] is what the program has written, and is not state of the code. *)
Record Writer := {
  file : bytes;
  staging : bytes;
  total_written : Z;
  stream_eligible : bool;
  chunk_upload : option ChunkUploadState;
  upload_failed : bool;
  job : option Job;
  server : Srv;
}.

Definition with_session (w : Writer) (cs : option ChunkUploadState) (j : option Job) : Writer :=
  {| file := file w; staging := staging w; total_written := total_written w; stream_eligible := stream_eligible w;
     chunk_upload := cs; upload_failed := upload_failed w; job := j; server := server w |}.
Definition with_staging (w : Writer) (f : bytes) : Writer :=
  {| file := file w; staging := f; total_written := total_written w; stream_eligible := stream_eligible w;
     chunk_upload := chunk_upload w; upload_failed := upload_failed w; job := job w; server := server w |}.
Definition fail_handle (w : Writer) : Writer :=
  {| file := file w; staging := staging w; total_written := total_written w; stream_eligible := stream_eligible w;
     chunk_upload := chunk_upload w; upload_failed := true; job := job w; server := server w |}.

(** MKCOL of the session's folder. *)
Definition open_session (s : Srv) : Srv :=
  Build_Srv (sv_files s) (sv_dirs s) (<[uploads_base := ∅]> (sv_chunks s)) (sv_version s).

(** [opened]: the session could be opened; [low]: the disk is low and can punch holes. *)
(* lib.rs:5670-5705 start_stream *)
Definition start_stream (opened low : bool) (w : Writer) : Writer :=
  if opened then
    {| file := file w; staging := staging w; total_written := total_written w; stream_eligible := stream_eligible w;
       chunk_upload := Some (resumed 1 STREAM_HEAD STREAM_HEAD low); upload_failed := upload_failed w; job := None;
       server := open_session (server w) |}
  else
    {| file := file w; staging := staging w; total_written := total_written w; stream_eligible := false;
       chunk_upload := None; upload_failed := upload_failed w; job := job w; server := server w |}.

(** Claims the next chunk and wakes the uploader; its waiting is a step of its own below. *)
(* lib.rs:5722-5735 feed_stream *)
Definition feed_stream (claim room : bool) (cs : ChunkUploadState) (w : Writer) : Writer :=
  let p := pump cs in
  let p := {| next_index := next_index p; bytes_confirmed := bytes_confirmed p;
              claimed := if claim then claimed p + CHUNK else claimed p; punching := punching p;
              busy := busy p; failed := failed p; closed := closed p; frozen := frozen p |} in
  let '(p, queued) := kick_chunk_pump room false p in
  with_session w (Some (set_pump cs p)) (if queued then Some Queued else job w).

(** Conditions a write finds around it. *)
Record Around := { offline : bool; opened : bool; low : bool; room : bool; punched : bool; threshold : Z }.

(** The streaming path: into the staging file, then the uploader's share. *)
(* lib.rs:8596-8641 write *)
Definition write_fast (e : Around) (off : Z) (d : bytes) (w : Writer) : Writer :=
  let w1 := {| file := write_at (file w) off d;
               staging := if off =? total_written w then staging w ++ d else write_at (staging w) off d;
               total_written := Z.max (total_written w) (off + blen d); stream_eligible := stream_eligible w;
               chunk_upload := chunk_upload w; upload_failed := upload_failed w; job := job w; server := server w |} in
  let due := stream_should_graduate (total_written w1) (chunk_upload w1) (threshold e) in
  let w2 := match chunk_upload w1 with
            | Some _ => w1
            | None => if due then start_stream (opened e) (low e) w1 else w1
            end in
  match chunk_upload w2 with
  | None => w2
  | Some cs =>
      let '(cs, st) := if due && negb (punching (pump cs)) && low e then start_punching (punched e) cs (staging w2)
                       else (cs, staging w2) in
      feed_stream due (room e) cs (with_staging w2 st)
  end.

(** The plain path: the staging file alone, uploaded whole at release. *)
(* lib.rs:8578-8594 write *)
Definition write_slow (off : Z) (d : bytes) (w : Writer) : Writer :=
  {| file := write_at (file w) off d; staging := write_at (staging w) off d; total_written := total_written w;
     stream_eligible := false; chunk_upload := None; upload_failed := upload_failed w; job := None; server := server w |}.

(** The [bool] is whether the write succeeded; otherwise it is EIO. *)
(* lib.rs:8490-8560 write *)
Definition write (e : Around) (off : Z) (d : bytes) (w : Writer) : Writer * bool :=
  if upload_failed w then (w, false)
  else
    match chunk_upload w with
    | Some cs =>
        match stream_write_verdict off (blen d) (total_written w) (head cs) (pump cs) (offline e) with
        | Keep => (write_fast e off d w, true)
        | Abandon => (write_slow off d w, true)
        | Fail => (fail_handle w, false)
        end
    | None =>
        if stream_eligible w && (off <=? total_written w) && negb (offline e)
        then (write_fast e off d w, true) else (write_slow off d w, true)
    end.

(** [ftruncate]. *)
Definition set_len (f : bytes) (n : Z) : bytes := take (Z.to_nat n) f ++ replicate (Z.to_nat n - length f) Byte.x00.

(** A resize through the handle; the [bool] is whether it succeeded. *)
(* lib.rs:8360-8426 setattr *)
Definition truncate (new_size : Z) (w : Writer) : Writer * bool :=
  let cs := match chunk_upload w with
            | Some cs => if negb (punching (pump cs)) && negb (new_size =? total_written w) then None else Some cs
            | None => None
            end in
  match cs with
  | Some _ => if new_size =? total_written w then (w, true) else (fail_handle w, false)
  | None =>
      ({| file := set_len (file w) new_size; staging := set_len (staging w) new_size; total_written := new_size;
          stream_eligible := false; chunk_upload := None; upload_failed := upload_failed w;
          job := None; server := server w |}, true)
  end.

(** ** The uploader's job, step by step *)

(* lib.rs:1455-1463 run_chunk_pump *)
Definition job_begin (w : Writer) (cs : ChunkUploadState) : Writer :=
  let p := pump cs in
  if closed p || failed p || (claimed p <=? bytes_confirmed p)
  then with_session w (Some (set_pump cs (set_flags p false (failed p) (closed p) (frozen p)))) None
  else with_session w (chunk_upload w) (Some (Sending (next_index p) (bytes_confirmed p) None)).

(** Reads the chunk out of the staging file, all of it or an error. *)
(* lib.rs:1464-1472 run_chunk_pump *)
Definition job_read (w : Writer) (from : Z) : option bytes :=
  if from + CHUNK <=? blen (staging w) then Some (slice (staging w) from CHUNK) else None.

(** The job's end: it queues itself again while there is more to send. *)
Definition job_end (room : bool) (w : Writer) (cs : ChunkUploadState) (p : PumpState) : Writer :=
  let '(p, queued) := kick_chunk_pump room true p in
  with_session w (Some (set_pump cs p)) (if queued then Some Queued else None).

(* lib.rs:1473-1490 run_chunk_pump *)
Definition job_sent (room ok : bool) (w : Writer) (cs : ChunkUploadState) (from : Z) : Writer :=
  let p := pump cs in
  if closed p then job_end room w cs p
  else
    let p' := {| next_index := next_index p + 1; bytes_confirmed := bytes_confirmed p + CHUNK; claimed := claimed p;
                 punching := punching p; busy := busy p; failed := failed p; closed := closed p; frozen := frozen p |} in
    job_end room (with_staging w (if punching p then free_sent_chunk ok (staging w) from CHUNK else staging w)) cs p'.

(* lib.rs:1491-1498 run_chunk_pump *)
Definition job_failed (w : Writer) (cs : ChunkUploadState) : Writer :=
  let p := pump cs in job_end false w cs (set_flags p (busy p) true (closed p) (frozen p)).

(** What release() makes of the handle: the end of the streamed upload, the staging file
    whole, or an upload that is lost (the staging file is deleted and close() told EIO). *)
Inductive Commit := FinishStream (p : PumpState) (head total_len : Z) (whole : bool) | PutWhole (f : bytes) | Lost.

(* lib.rs:6031-6066 commit_released *)
Definition commit_released (offline : bool) (w : Writer) : Commit :=
  match chunk_upload w with
  | None => PutWhole (staging w)
  | Some cs =>
      let p := close (pump cs) in
      match failed p, punching p with
      | false, true => FinishStream p (head cs) (total_written w) false
      | false, false => if offline then PutWhole (staging w) else FinishStream p (head cs) (total_written w) true
      | true, false => PutWhole (staging w)
      | true, true => Lost
      end
  end.

(** *** Every interleaving of writes and the uploader *)

Inductive wstep : Writer → Writer → Prop :=
| w_write e off d w : 0 ≤ off → off + blen d ≤ u64_max → wstep w (write e off d w).1
| w_truncate n w : 0 ≤ n → wstep w (truncate n w).1
(** [feed_stream] gives up on a disk-low upload that can no longer be finished. *)
| w_feed_err w cs : chunk_upload w = Some cs → lost (pump cs) = true → wstep w (fail_handle w)
| w_begin w cs : chunk_upload w = Some cs → job w = Some Queued → wstep w (job_begin w cs)
| w_read w cs i from b :
    chunk_upload w = Some cs → job w = Some (Sending i from None) → job_read w from = Some b →
    wstep w (with_session w (Some cs) (Some (Sending i from (Some b))))
(** The PUT reaches the server, perhaps more than once. *)
| w_land w i from b :
    job w = Some (Sending i from (Some b)) →
    wstep w {| file := file w; staging := staging w; total_written := total_written w; stream_eligible := stream_eligible w;
               chunk_upload := chunk_upload w; upload_failed := upload_failed w; job := job w;
               server := store_chunk uploads_base i b (server w) |}
| w_sent w cs i from b room ok :
    chunk_upload w = Some cs → job w = Some (Sending i from (Some b)) →
    session (server w) uploads_base !! i = Some b → wstep w (job_sent room ok w cs from)
| w_failed w cs i from c :
    chunk_upload w = Some cs → job w = Some (Sending i from c) → wstep w (job_failed w cs)
| w_close w cs : chunk_upload w = Some cs → wstep w (with_session w (Some (set_pump cs (close (pump cs)))) (job w))
| w_freeze w cs : chunk_upload w = Some cs → wstep w (with_session w (Some (set_pump cs (freeze (pump cs)))) (job w))
| w_thaw w cs : chunk_upload w = Some cs → wstep w (with_session w (Some (set_pump cs (thaw (pump cs)))) (job w)).
End chunk.

(** ** Staging files, byte by byte *)

Lemma blen_nonneg {A} (b : list A) : 0 ≤ blen b.
Proof. unfold blen. lia. Qed.

Lemma write_at_length f off d : 0 ≤ off ≤ blen f → blen (write_at f off d) = Z.max (blen f) (off + blen d).
Proof.
  intros H. pose proof (blen_nonneg d). unfold write_at. unfold blen at 1. rewrite length_fmap, length_seq.
  destruct (0 <? blen d) eqn:E; bool_prop; lia.
Qed.

Lemma write_at_lookup f off d (i : nat) : 0 ≤ off ≤ blen f →
  write_at f off d !! i =
    if (off <=? Z.of_nat i) && (Z.of_nat i <? off + blen d) then d !! Z.to_nat (Z.of_nat i - off) else f !! i.
Proof.
  intros H. pose proof (write_at_length f off d H) as Hl. unfold blen in Hl at 1.
  destruct (decide (i < length (write_at f off d))%nat) as [Hi|Hi].
  - unfold write_at in *. rewrite length_fmap, length_seq in Hi. rewrite list_lookup_fmap, lookup_seq_lt by done. cbn [fmap option_fmap option_map].
    rewrite Nat.add_0_l. rewrite length_fmap, length_seq in Hl. destruct (_ && _) eqn:E.
    + bool_prop. destruct (lookup_lt_is_Some_2 d (Z.to_nat (Z.of_nat i - off))) as [b Hb]; [unfold blen in *; lia|]. by rewrite Hb.
    + apply andb_false_iff in E. destruct (lookup_lt_is_Some_2 f i) as [b Hb]; [|by rewrite Hb].
      unfold blen in *. destruct E as [E|E]; bool_prop; lia.
  - rewrite (lookup_ge_None_2 (write_at f off d)) by lia. pose proof (blen_nonneg d). destruct (_ && _) eqn:E; bool_prop.
    + unfold blen in *. lia.
    + symmetry. apply lookup_ge_None_2. unfold blen in *. lia.
Qed.

(** An append is a write at the end. *)
Lemma write_at_end f d : f ++ d = write_at f (blen f) d.
Proof.
  pose proof (blen_nonneg f). apply list_eq. intros i. rewrite write_at_lookup by lia. destruct (_ && _) eqn:E.
  - bool_prop. rewrite lookup_app_r by (unfold blen in *; lia). f_equal. unfold blen. lia.
  - destruct (decide (i < length f)%nat); [by rewrite lookup_app_l|].
    rewrite (lookup_ge_None_2 f) by lia. apply lookup_ge_None_2. rewrite length_app.
    apply andb_false_iff in E. unfold blen in E. destruct E as [E|E]; bool_prop; lia.
Qed.

Lemma punched_length ok f off len : blen (free_sent_chunk ok f off len) = blen f.
Proof. unfold free_sent_chunk, blen. destruct ok; [by rewrite length_imap|done]. Qed.
Lemma punched_lookup ok f off len (i : nat) :
  Z.of_nat i < off ∨ off + len ≤ Z.of_nat i → free_sent_chunk ok f off len !! i = f !! i.
Proof.
  intros H. unfold free_sent_chunk. destruct ok; [|done]. rewrite list_lookup_imap.
  destruct (f !! i); cbn; [|done]. destruct (_ && _) eqn:E; [|done]. bool_prop. lia.
Qed.

Lemma slice_ext (f g : bytes) a n :
  0 ≤ a → (∀ i : nat, a ≤ Z.of_nat i < a + n → f !! i = g !! i) → slice f a n = slice g a n.
Proof.
  intros Ha H. unfold slice. apply list_eq. intros i. destruct (decide (i < Z.to_nat n)%nat).
  - rewrite !lookup_take_lt, !lookup_drop by done. apply H. lia.
  - by rewrite !lookup_take_ge by lia.
Qed.

Section chunk_proofs.
Context (CHUNK : Z) (u : string).
Hypothesis HCHUNK : 0 < CHUNK.

Definition in_flight_ok (f : bytes) (p : PumpState) (j : option Job) : Prop :=
  match j with
  | Some (Sending i from c) =>
      i = next_index p ∧ from = bytes_confirmed p ∧ bytes_confirmed p < claimed p ∧
      (∀ b, c = Some b → b = slice f from CHUNK)
  | _ => True
  end.

(** A session under way: what is on the server and what the staging file holds make the file. *)
Definition streaming_ok (f st : bytes) (total : Z) (cs : ChunkUploadState) (j : option Job) (srv : Srv) : Prop :=
  let p := pump cs in
  head cs = CHUNK ∧ total = blen f ∧ blen st = blen f ∧
  CHUNK ≤ bytes_confirmed p ≤ claimed p ∧ claimed p ≤ total ∧
  (1 ≤ next_index p ∧ bytes_confirmed p = next_index p * CHUNK ∧ ∃ n, claimed p = n * CHUNK) ∧
  (∀ i : nat, punching p = false ∨ Z.of_nat i < CHUNK ∨ bytes_confirmed p ≤ Z.of_nat i → st !! i = f !! i) ∧
  (is_Some (sv_chunks srv !! u) ∧
   (∀ k, is_Some (session srv u !! k) → 1 ≤ k < next_index p ∨ k = next_index p ∧ bytes_confirmed p < claimed p) ∧
   chunk_range (session srv u) 1 (next_index p - 1) = slice f CHUNK (bytes_confirmed p - CHUNK)) ∧
  in_flight_ok f p j ∧ (busy p = false → j = None).

Definition writer_ok (w : Writer) : Prop :=
  upload_failed w = true ∨
  match chunk_upload w with
  | None => staging w = file w ∧ (stream_eligible w = true → total_written w = blen (file w))
  | Some cs => streaming_ok (file w) (staging w) (total_written w) cs (job w) (server w)
  end.

(** Only the two flags that end a session change, or the uploader's mark. *)
Lemma streaming_flags f st total cs j j' srv b fl c fr :
  streaming_ok f st total cs j srv → in_flight_ok f (pump cs) j' → (b = false → j' = None) →
  streaming_ok f st total (set_pump cs (set_flags (pump cs) b fl c fr)) j' srv.
Proof.
  intros (H1 & H2 & H3 & H4 & H5 & H6 & H7 & H8 & _ & _) Hj Hb.
  unfold streaming_ok. cbn [pump set_pump set_flags head next_index bytes_confirmed claimed punching busy].
  exact (conj H1 (conj H2 (conj H3 (conj H4 (conj H5 (conj H6 (conj H7 (conj H8 (conj Hj Hb))))))))).
Qed.

Lemma kick_ok f st total cs srv room held j :
  streaming_ok f st total cs j srv → (held = true → j = None) →
  let '(p, q) := kick_chunk_pump room held (pump cs) in
  streaming_ok f st total (set_pump cs p) (if q then Some Queued else j) srv.
Proof.
  intros Hs Hh. unfold kick_chunk_pump. pose proof Hs as (_ & _ & _ & _ & _ & _ & _ & _ & Hj & Hb).
  destruct (busy (pump cs) && negb held) eqn:E; [by destruct cs as [h [ ]]|].
  assert (Hj' : j = None). { destruct held; [by apply Hh|]. apply Hb. by destruct (busy (pump cs)). }
  destruct (closed (pump cs) || _ || _); [|destruct room]; subst; by apply (streaming_flags _ _ _ _ None).
Qed.

(** A write into bytes not handed over, or into the kept head, leaves everything in place. *)
Lemma streaming_write f st total cs j srv off d :
  streaming_ok f st total cs j srv → 0 ≤ off →
  off + blen d ≤ CHUNK ∨ claimed (pump cs) ≤ off ≤ total →
  streaming_ok (write_at f off d) (if off =? total then st ++ d else write_at st off d) (Z.max total (off + blen d)) cs j srv.
Proof.
  intros (H1 & H2 & H3 & H4 & H5 & H6 & H7 & (H8 & H9 & H10) & H11 & H12) H0 Hw. pose proof (blen_nonneg d).
  assert (Hoff : 0 ≤ off ≤ blen f) by lia.
  assert (Est : (if off =? total then st ++ d else write_at st off d) = write_at st off d).
  { destruct (off =? total) eqn:E; bool_prop; [|done]. rewrite write_at_end. f_equal. lia. }
  rewrite Est.
  assert (Hsl : ∀ a n, CHUNK ≤ a → a + n ≤ claimed (pump cs) → slice (write_at f off d) a n = slice f a n).
  { intros a n Ha Hn. apply slice_ext; [lia|]. intros i Hi. rewrite write_at_lookup by done.
    destruct (_ && _) eqn:E; [|done]. bool_prop. lia. }
  unfold streaming_ok. rewrite !write_at_length by lia. split_and!; try done; try lia; try apply H6.
  - intros i Hi. rewrite !write_at_lookup by lia. destruct (_ && _); [done|]. by apply H7.
  - rewrite Hsl by lia. done.
  - unfold in_flight_ok in *. destruct j as [[|i from c]|]; try done. destruct H11 as (-> & -> & Hlt & Hc).
    split_and!; try done. intros b Hb. rewrite Hsl; [by apply Hc|lia|].
    destruct H6 as (_ & E & n & En). rewrite E, En in Hlt. rewrite E, En, <- Z.mul_succ_l.
    apply Z.mul_le_mono_nonneg_r; [lia|]. apply Zmult_lt_reg_r in Hlt; lia.
Qed.

Lemma next_chunk_fits f st total cs j srv :
  streaming_ok f st total cs j srv → bytes_confirmed (pump cs) < claimed (pump cs) →
  bytes_confirmed (pump cs) + CHUNK ≤ claimed (pump cs).
Proof.
  intros (_ & _ & _ & _ & _ & (_ & E & n & En) & _) Hlt. rewrite E, En in *. rewrite <- Z.mul_succ_l.
  apply Z.mul_le_mono_nonneg_r; [lia|]. apply Zmult_lt_reg_r in Hlt; lia.
Qed.

Lemma punching_ok ok f st total cs j srv cs' st' :
  streaming_ok f st total cs j srv → start_punching ok cs st = (cs', st') →
  streaming_ok f st' total cs' j srv ∧ claimed (pump cs') = claimed (pump cs).
Proof.
  intros Hs. unfold start_punching. destruct (punching (pump cs) || _ || _) eqn:E; intros [= <- <-]; [done|].
  split; [|done]. destruct Hs as (H1 & H2 & H3 & H4 & H5 & H6 & H7 & H8 & H9 & H10).
  assert (H7' : ∀ i : nat, true = false ∨ Z.of_nat i < CHUNK ∨ bytes_confirmed (pump cs) ≤ Z.of_nat i →
    free_sent_chunk ok st (head cs) (bytes_confirmed (pump cs) - head cs) !! i = f !! i).
  { intros i [|Hi]; [done|]. rewrite punched_lookup by (rewrite H1; lia). apply H7. by right. }
  unfold streaming_ok. cbn [pump set_pump head next_index bytes_confirmed claimed punching busy].
  rewrite punched_length.
  exact (conj H1 (conj H2 (conj H3 (conj H4 (conj H5 (conj H6 (conj H7' (conj H8 (conj H9 H10))))))))).
Qed.

Lemma feed_ok claim room w cs :
  streaming_ok (file w) (staging w) (total_written w) cs (job w) (server w) →
  (claim = true → claimed (pump cs) + CHUNK ≤ total_written w) → writer_ok (feed_stream CHUNK claim room cs w).
Proof.
  intros Hs Hc. unfold feed_stream.
  set (p := {| next_index := _; bytes_confirmed := _; claimed := _; punching := _; busy := _; failed := _; closed := _; frozen := _ |}).
  assert (Hp : streaming_ok (file w) (staging w) (total_written w) (set_pump cs p) (job w) (server w)).
  { destruct Hs as (H1 & H2 & H3 & H4 & H5 & (H6 & H6' & n & Hn) & H7 & (H8 & H8' & H8'') & H9 & H10).
    unfold streaming_ok, p. cbn [pump set_pump head next_index bytes_confirmed claimed punching busy].
    split_and!; try done; try (destruct claim; [specialize (Hc eq_refl)|]; lia).
    - destruct claim; [exists (n + 1); lia|by exists n].
    - intros k Hk. destruct (H8' k Hk) as [|[]]; [by left|right]. destruct claim; split; done || lia.
    - unfold in_flight_ok in *. destruct (job w) as [[|i from c]|]; try done. destruct H9 as (? & ? & ? & ?).
      cbn [next_index bytes_confirmed claimed]. split_and!; try done. destruct claim; lia. }
  pose proof (kick_ok _ _ _ _ _ room false _ Hp ltac:(done)) as Hk. cbn [pump set_pump] in Hk.
  destruct (kick_chunk_pump room false p) as [p' q]. right. exact Hk.
Qed.

Lemma graduate_spec total cs th :
  stream_should_graduate CHUNK total (Some cs) th = true → claimed (pump cs) + CHUNK ≤ total.
Proof.
  unfold stream_should_graduate. intros H. apply Z.leb_le in H.
  change (default _ _) with (claimed (pump cs)) in H. unfold sat_sub in H. lia.
Qed.

Lemma fresh_ok f low srv : 2 * CHUNK ≤ blen f →
  streaming_ok f f (blen f) (resumed 1 (STREAM_HEAD CHUNK) (STREAM_HEAD CHUNK) low) None (open_session u srv).
Proof.
  intros H. unfold streaming_ok, resumed, STREAM_HEAD. cbn [pump head next_index bytes_confirmed claimed punching busy].
  unfold session. cbn [open_session sv_chunks]. rewrite lookup_insert_eq.
  split_and!; try done; try lia; [exists 1; lia|intros k [x Hx]; cbn in Hx; by rewrite lookup_empty in Hx|].
  rewrite !Z.sub_diag. unfold slice, chunk_range. by rewrite take_0.
Qed.

Lemma write_fast_ok e off d w :
  0 ≤ off → writer_ok w → upload_failed w = false →
  match chunk_upload w with
  | Some cs => off + blen d ≤ CHUNK ∨ claimed (pump cs) ≤ off ≤ total_written w
  | None => stream_eligible w = true ∧ off ≤ total_written w
  end → writer_ok (write_fast CHUNK u e off d w).
Proof.
  intros H0 [Hf|Hok] Hnf Hw; [congruence|]. pose proof (blen_nonneg d). unfold write_fast.
  set (w1 := {| file := _; staging := _; total_written := _; stream_eligible := _; chunk_upload := _; upload_failed := _; job := _; server := _ |}).
  set (due := stream_should_graduate _ _ _ _).
  assert (Hsess : ∀ w2 cs, streaming_ok (file w2) (staging w2) (total_written w2) cs (job w2) (server w2) →
    (due = true → claimed (pump cs) + CHUNK ≤ total_written w2) →
    writer_ok (let '(cs, st) := if due && negb (punching (pump cs)) && low e then start_punching (punched e) cs (staging w2)
                       else (cs, staging w2) in feed_stream CHUNK due (room e) cs (with_staging w2 st))).
  { intros w2 cs Hs Hdue. destruct (_ && low e).
    - destruct (start_punching _ _ _) as [cs' st'] eqn:Ep. destruct (punching_ok _ _ _ _ _ _ _ _ _ Hs Ep) as [Hs' Hcl].
      apply feed_ok; [exact Hs'|]. rewrite Hcl. exact Hdue.
    - apply feed_ok; [exact Hs|exact Hdue]. }
  destruct (chunk_upload w) as [cs|] eqn:Ecs; cbn [chunk_upload w1]; rewrite ?Ecs.
  - apply Hsess; [by apply (streaming_write _ _ _ _ _ _ off d) in Hok|]. intros Hd. unfold due in Hd.
    cbn [chunk_upload w1] in Hd. by apply graduate_spec in Hd.
  - destruct Hok as [Est Htot]. destruct Hw as [Hel Hoff]. specialize (Htot Hel).
    assert (Hst1 : staging w1 = file w1).
    { cbn. destruct (off =? _) eqn:E; bool_prop; [|by rewrite Est]. rewrite Est, write_at_end, <- Htot. by subst. }
    assert (Ht1 : total_written w1 = blen (file w1)) by (cbn; rewrite write_at_length by lia; lia).
    destruct due eqn:Edue; [|right; cbn; rewrite ?Ecs; split; [exact Hst1|by intros _]].
    unfold start_stream. destruct (opened e); [|right; cbn; by split].
    assert (Hbig : 2 * CHUNK ≤ blen (file w1)).
    { unfold due in Edue. cbn [chunk_upload w1] in Edue. rewrite Ht1 in Edue.
      unfold stream_should_graduate in Edue. apply Z.leb_le in Edue. change (default _ _) with CHUNK in Edue. unfold sat_sub in Edue. lia. }
    apply Hsess; cbn [file staging total_written job server chunk_upload].
    + rewrite Ht1, Hst1. by apply fresh_ok.
    + intros _. rewrite Ht1. unfold resumed, STREAM_HEAD. cbn [pump claimed]. lia.
Qed.

Lemma write_ok e off d w : 0 ≤ off → off + blen d ≤ u64_max → writer_ok w → writer_ok (write CHUNK u e off d w).1.
Proof.
  intros H0 Hmax Hok. pose proof Hok as Hok'. unfold write. destruct (upload_failed w) eqn:Ef; [by left|].
  destruct Hok' as [|Hst]; [congruence|].
  destruct (chunk_upload w) as [cs|] eqn:Ecs.
  - unfold stream_write_verdict. destruct (_ && _ && _ && _) eqn:E; [|destruct (punching (pump cs)) eqn:Ep].
    + bool_prop. pose proof (proj1 Hst) as Hh. apply write_fast_ok; try done. rewrite Ecs. unfold sat_add in *. apply orb_true_iff in H as [H|H]; bool_prop; [left|right]; lia.
    + by left.
    + right. cbn. assert (staging w = file w) as ->; [|by split].
      apply list_eq. intros i. apply Hst. by left.
  - destruct (_ && negb (offline e)) eqn:E.
    + bool_prop. apply write_fast_ok; try done. by rewrite Ecs.
    + right. cbn. destruct Hst as [-> _]. by split.
Qed.

Lemma truncate_ok n w : 0 ≤ n → writer_ok w → writer_ok (truncate n w).1.
Proof.
  intros H0 Hok. unfold truncate. destruct Hok as [Hf|Hst].
  { left. destruct (chunk_upload w); repeat case_goal; done. }
  destruct (chunk_upload w) as [cs|] eqn:Ecs.
  - destruct (negb (punching (pump cs)) && negb (n =? total_written w)) eqn:E.
    + right. cbn. bool_prop. assert (staging w = file w) as ->; [|by split].
      apply list_eq. intros i. apply Hst. by left.
    + destruct (n =? total_written w); [right; cbn; by rewrite Ecs|by left].
  - right. cbn. destruct Hst as [-> _]. by split.
Qed.

Lemma drop_job f st total cs j srv : streaming_ok f st total cs j srv → streaming_ok f st total cs None srv.
Proof.
  intros (H1 & H2 & H3 & H4 & H5 & H6 & H7 & H8 & _ & _). unfold streaming_ok.
  exact (conj H1 (conj H2 (conj H3 (conj H4 (conj H5 (conj H6 (conj H7 (conj H8 (conj I (λ _, eq_refl)))))))))).
Qed.

Lemma job_end_ok room w cs p :
  upload_failed w = true ∨ streaming_ok (file w) (staging w) (total_written w) (set_pump cs p) None (server w) →
  writer_ok (job_end room w cs p).
Proof.
  intros H. unfold job_end. destruct (kick_chunk_pump room true p) as [p' q] eqn:E. destruct H as [H|H]; [by left|right].
  pose proof (kick_ok _ _ _ _ _ room true None H ltac:(done)) as Hk. cbn [pump set_pump] in Hk. rewrite E in Hk. exact Hk.
Qed.

(** A chunk the server has and the session counts. *)
Lemma sent_ok ok f st total cs srv i from b :
  streaming_ok f st total cs (Some (Sending i from (Some b))) srv → session srv u !! i = Some b →
  let p := pump cs in
  streaming_ok f (if punching p then free_sent_chunk ok st from CHUNK else st) total
    (set_pump cs {| next_index := next_index p + 1; bytes_confirmed := bytes_confirmed p + CHUNK; claimed := claimed p;
                    punching := punching p; busy := busy p; failed := failed p; closed := closed p; frozen := frozen p |}) None srv.
Proof.
  intros Hs Hb. cbv zeta. pose proof (next_chunk_fits _ _ _ _ _ _ Hs) as Hfit.
  destruct Hs as (H1 & H2 & H3 & H4 & H5 & (H6 & H6' & H6'') & H7 & (H8 & H8' & H8'') & (-> & -> & Hlt & Hc) & H10).
  specialize (Hfit Hlt). specialize (Hc b eq_refl).
  unfold streaming_ok. cbn [pump set_pump head next_index bytes_confirmed claimed punching busy].
  split_and!; try done; try lia.
  - destruct (punching (pump cs)); [by rewrite punched_length|done].
  - intros k Hk. destruct (punching (pump cs)); [destruct Hk as [|Hk]; [done|]; rewrite punched_lookup by lia; apply H7; right; lia|].
    apply H7. by left.
  - intros k Hk. destruct (H8' k Hk) as [|[-> _]]; left; lia.
  - replace (next_index (pump cs) + 1 - 1) with ((next_index (pump cs) - 1) + 1) by lia. rewrite chunk_range_app, H8'' by lia.
    replace (bytes_confirmed (pump cs) + CHUNK - CHUNK) with ((bytes_confirmed (pump cs) - CHUNK) + CHUNK) by lia.
    rewrite slice_split by lia. f_equal. replace (CHUNK + (bytes_confirmed (pump cs) - CHUNK)) with (bytes_confirmed (pump cs)) by lia.
    rewrite <- Hc. unfold chunk_range. rewrite (seqZ_cons _ 1) by lia. replace (1 + (next_index (pump cs) - 1)) with (next_index (pump cs)) by lia.
    csimpl. by rewrite Hb, app_nil_r.
Qed.

Lemma land_ok f st total cs i from b srv :
  streaming_ok f st total cs (Some (Sending i from (Some b))) srv →
  streaming_ok f st total cs (Some (Sending i from (Some b))) (store_chunk u i b srv).
Proof.
  intros (H1 & H2 & H3 & H4 & H5 & H6 & H7 & (H8 & H8' & H8'') & H9 & H10). pose proof H9 as (-> & _ & Hlt & _).
  unfold streaming_ok. rewrite store_chunk_session. split_and!; try done; try apply H6; try lia.
  - cbn. rewrite lookup_insert_eq. eauto.
  - intros k Hk. destruct (decide (k = next_index (pump cs))) as [->|]; [by right|].
    rewrite lookup_insert_ne in Hk by done. by apply H8'.
  - rewrite <- H8''. apply chunk_range_ext. intros k Hk. by rewrite lookup_insert_ne by lia.
Qed.

Lemma wstep_ok w w' : writer_ok w → wstep CHUNK u w w' → writer_ok w'.
Proof.
  intros Hok Hs. destruct Hs.
  - by apply write_ok.
  - by apply truncate_ok.
  - by left.
  - unfold job_begin. destruct Hok as [Hf|Hst]; [case_match; by left|right]. rewrite H in Hst. rewrite H0 in Hst.
    destruct (closed (pump cs) || _ || _) eqn:E; cbn.
    + by apply (streaming_flags _ _ _ _ (Some Queued)).
    + rewrite H. apply orb_false_iff in E as [_ E]. bool_prop. destruct Hst as (? & ? & ? & ? & ? & ? & ? & ? & ? & Hb).
      unfold streaming_ok. split_and!; try done; try naive_solver.
  - destruct Hok as [Hf|Hst]; [by left|right]. rewrite H, H0 in Hst. cbn.
    pose proof (next_chunk_fits _ _ _ _ _ _ Hst) as Hfit.
    destruct Hst as (H2 & H3 & H4 & H5 & H6 & H7 & H8 & H9 & (-> & -> & Hlt & Hc) & Hb). specialize (Hfit Hlt).
    unfold streaming_ok. split_and!; try done; try apply H7; try apply H9; try lia.
    + split_and!; try done. intros b0 [= <-]. unfold job_read in H1. destruct (_ <=? _); [|done]. injection H1 as <-.
      apply slice_ext; [lia|]. intros i Hi. apply H8. right. lia.
    + intros Hbu. specialize (Hb Hbu). done.
  - destruct Hok as [Hf|Hst]; [by left|right]. cbn. destruct (chunk_upload w) as [cs|]; [|done].
    rewrite H in *. by apply land_ok.
  - unfold job_sent. destruct Hok as [Hf|Hst]; [destruct (closed _); apply job_end_ok; by left|]. rewrite H, H0 in Hst.
    destruct (closed (pump cs)); apply job_end_ok; right; [destruct cs; by eapply drop_job|]. by eapply sent_ok.
  - unfold job_failed. apply job_end_ok. destruct Hok as [Hf|Hst]; [by left|right]. rewrite H in Hst.
    apply drop_job in Hst. by apply (streaming_flags _ _ _ _ None).
  - destruct Hok as [Hf|Hst]; [by left|right]. rewrite H in Hst. cbn. apply (streaming_flags _ _ _ _ (job w)); apply Hst || done.
  - destruct Hok as [Hf|Hst]; [by left|right]. rewrite H in Hst. cbn. apply (streaming_flags _ _ _ _ (job w)); apply Hst || done.
  - destruct Hok as [Hf|Hst]; [by left|right]. rewrite H in Hst. cbn. unfold thaw. destruct (frozen (pump cs)); [|by destruct cs].
    apply (streaming_flags _ _ _ _ (job w)); apply Hst || done.
Qed.

Lemma wsteps_ok w w' : writer_ok w → rtc (wstep CHUNK u) w w' → writer_ok w'.
Proof. intros Hok Hr. induction Hr; eauto using wstep_ok. Qed.

(** What release() commits of a session, once its uploader is idle, is an upload in progress
    in the sense of [StreamFinish]: sent chunks, head and tail make the file. *)
Lemma streaming_upload_state f st total cs srv mtime :
  streaming_ok f st total cs None srv →
  upload_state srv u f (Build_LocalFile st mtime) (next_index (pump cs)) (bytes_confirmed (pump cs)) true (head cs).
Proof.
  intros (H1 & H2 & H3 & H4 & H5 & H6 & H7 & (H8 & H8' & H8'') & _). unfold upload_state. rewrite H1.
  rewrite (proj2 (Z.ltb_lt _ _)) by done. cbn [lf_bytes]. split_and!; try done; try lia.
  - intros k Hk. destruct (H8' k Hk) as [|[]]; [by left|right]. split; [done|lia].
  - apply slice_ext; [lia|]. intros i Hi. apply H7. right. lia.
  - apply slice_ext; [lia|]. intros i Hi. apply H7. right. lia.
Qed.
End chunk_proofs.

(** A writable handle on a new file, or on one whose content was staged at open. *)
Definition opened_writer (content : bytes) (created : bool) (srv : Srv) : Writer :=
  {| file := content; staging := content; total_written := 0; stream_eligible := created;
     chunk_upload := None; upload_failed := false; job := None; server := srv |}.

(** C6: A file uploaded while it is being written comes out as written. Whatever the writes,
    resizes, freezes for a hand-over, failures and the uploader's progress, and however they
    interleave: of a handle that has reported no failure, what release() hands over is the
    file — the staging file whole, or a session that, finished once its uploader is idle,
    leaves the server exactly as a PUT of the file would, with the same answer. Only a
    disk-low session that lost a chunk has nothing to commit, and release() reports that. *)
Theorem streamed_write_exact CHUNK u content created srv w off fs tail remote m mtime :
  0 < CHUNK → (created = true → content = []) →
  rtc (wstep CHUNK u) (opened_writer content created srv) w → upload_failed w = false →
  fs !! tail = Some (Build_LocalFile (staging w) mtime) →
  match commit_released off w with
  | PutWhole f => f = file w
  | FinishStream p h total whole =>
      total = blen (file w) ∧ (whole = true → staging w = file w) ∧
      (job w = None →
       let '(r, srv') := send_chunked_finish fs u (next_index p) (bytes_confirmed p) total tail true h remote m (Some mtime) (server w) in
       r = (srv_put remote (file w) m (server w)).1 ∧ sv_files srv' = sv_files (srv_put remote (file w) m (server w)).2)
  | Lost => ∃ cs, chunk_upload w = Some cs ∧ failed (pump cs) = true ∧ punching (pump cs) = true
  end.
Proof.
  intros HC Hcr Hr Hnf Hfs.
  assert (Hok : writer_ok CHUNK u w).
  { eapply wsteps_ok; [done| |done]. right. cbn. split; [done|]. intros Hc. by rewrite (Hcr Hc). }
  destruct Hok as [|Hst]; [congruence|]. unfold commit_released.
  destruct (chunk_upload w) as [cs|] eqn:Ecs; [|apply Hst].
  assert (Hwhole : punching (pump cs) = false → staging w = file w).
  { intros Hp. apply list_eq. intros i. apply Hst. by left. }
  assert (Hfin : ∀ whole, (whole = true → punching (pump cs) = false) →
    total_written w = blen (file w) ∧ (whole = true → staging w = file w) ∧
    (job w = None → let '(r, srv') := send_chunked_finish fs u (next_index (pump cs)) (bytes_confirmed (pump cs))
         (total_written w) tail true (head cs) remote m (Some mtime) (server w) in
       r = (srv_put remote (file w) m (server w)).1 ∧ sv_files srv' = sv_files (srv_put remote (file w) m (server w)).2)).
  { intros whole Hw. split_and!; [apply Hst|by intros H; apply Hwhole, Hw|]. intros Hj. rewrite Hj in Hst.
    replace (total_written w) with (blen (file w)) by (symmetry; apply Hst).
    apply (streamed_finish_is_put fs (server w) u (file w) (Build_LocalFile (staging w) mtime)); [done|].
    by apply (streaming_upload_state CHUNK u HC (file w) (staging w) (total_written w)). }
  cbn [failed punching close set_flags]. destruct (failed (pump cs)) eqn:Ef, (punching (pump cs)) eqn:Ep.
  - by exists cs.
  - by apply Hwhole.
  - by apply (Hfin false).
  - destruct off; [by apply Hwhole|]. by apply (Hfin true).
Qed.

(** *** Witness: six bytes in chunks of two; the second is sent, and punched out, while the
    file is open. *)

Definition demo_server : Srv := Build_Srv ∅ ∅ ∅ 1.
Definition demo_file : bytes := [Byte.x01; Byte.x02; Byte.x03; Byte.x04; Byte.x05; Byte.x06].
Definition demo_env : Around :=
  {| offline := false; opened := true; low := true; room := true; punched := true; threshold := 4 |}.
Definition demo_open : Writer := opened_writer [] true demo_server.
Definition demo_written : Writer := (write 2 "u" demo_env 0 demo_file demo_open).1.
Definition demo_cs (w : Writer) : ChunkUploadState := default (resumed 0 0 0 false) (chunk_upload w).
Definition demo_begun : Writer := job_begin demo_written (demo_cs demo_written).
Definition demo_chunk : bytes := [Byte.x03; Byte.x04].
Definition demo_read : Writer := with_session demo_begun (Some (demo_cs demo_begun)) (Some (Sending 1 2 (Some demo_chunk))).
Definition demo_landed : Writer :=
  {| file := file demo_read; staging := staging demo_read; total_written := total_written demo_read;
     stream_eligible := stream_eligible demo_read; chunk_upload := chunk_upload demo_read;
     upload_failed := upload_failed demo_read; job := job demo_read; server := store_chunk "u" 1 demo_chunk (server demo_read) |}.
Definition demo_sent : Writer := job_sent 2 true true demo_landed (demo_cs demo_landed) 2.

Lemma demo_steps : rtc (wstep 2 "u") demo_open demo_sent.
Proof.
  eapply rtc_l; [apply (w_write 2 "u" demo_env 0 demo_file); unfold u64_max; vm_compute; discriminate|].
  eapply (rtc_l _ _ demo_begun); [by apply w_begin|].
  eapply (rtc_l _ _ demo_read); [by apply (w_read 2 "u" demo_begun (demo_cs demo_begun) 1 2 demo_chunk)|].
  eapply (rtc_l _ _ demo_landed); [by apply (w_land 2 "u" demo_read 1 2 demo_chunk)|].
  eapply (rtc_l _ _ demo_sent); [|apply rtc_refl].
  by apply (w_sent 2 "u" demo_landed (demo_cs demo_landed) 1 2 demo_chunk).
Qed.

Lemma streamed_write_exact_witness :
  staging demo_sent = [Byte.x01; Byte.x02; Byte.x00; Byte.x00; Byte.x05; Byte.x06] ∧
  let '(r, srv') := send_chunked_finish {[ ["t"%string] := Build_LocalFile (staging demo_sent) 0 ]} "u" 2 4 6 ["t"%string] true 2
                      ["doc"%string] None (Some 0) (server demo_sent) in
  is_ok r = true ∧ content srv' ["doc"%string] = Some demo_file.
Proof.
  split; [vm_compute; reflexivity|].
  pose proof (streamed_write_exact 2 "u" [] true demo_server demo_sent false
    {[ ["t"%string] := Build_LocalFile (staging demo_sent) 0 ]} ["t"%string] ["doc"%string] None 0
    ltac:(lia) ltac:(done) demo_steps ltac:(vm_compute; reflexivity) ltac:(by rewrite lookup_singleton_eq)) as H.
  assert (E : commit_released false demo_sent = FinishStream (close (pump (demo_cs demo_sent))) 2 6 false) by (vm_compute; reflexivity).
  rewrite E in H. destruct H as (_ & _ & H). specialize (H ltac:(vm_compute; reflexivity)).
  change (next_index (close (pump (demo_cs demo_sent)))) with 2 in H.
  change (bytes_confirmed (close (pump (demo_cs demo_sent)))) with 4 in H.
  destruct (send_chunked_finish _ _ _ _ _ _ _ _ _ _ _ _) as [r srv']. destruct H as [-> H].
  split; [vm_compute; reflexivity|]. unfold content. rewrite H. vm_compute. reflexivity.
Defined.
