(* ===== verification/Versions.v ===== *)
(** [lib.rs], which version of a file the mount is working on: the version a handle's reads
    are pinned to ([VersionPin]), the versions last served and made here ([ServedVersions]),
    and the etag a save is made conditional on ([UploadOrder]).

    Each structure is behind its own mutex and every method takes it once, so a method is one
    step. *)
From S2P Require Import Prelude Paths Backend.

(* lib.rs:1673-1676 ServedVersion *)
Record ServedVersion := { v_served : option Etag; ours : list Etag }.
(* lib.rs:1670-1670 ServedVersions *)
Definition ServedVersions : Type := gmap PathBuf ServedVersion.
Definition no_version : ServedVersion := {| v_served := None; ours := [] |}.

(* lib.rs:1681-1681 SERVED_VERSIONS_MAX *)
Definition SERVED_VERSIONS_MAX : Z := 20000.

(* lib.rs:1684-1690 ServedVersions::serve *)
Definition serve (m : ServedVersions) (path : PathBuf) (etag : Etag) : ServedVersions :=
  let m := if (SERVED_VERSIONS_MAX <=? Z.of_nat (size m))%Z && negb (bool_decide (is_Some (m !! path)))
           then filter (λ q, ours q.2 ≠ []) m else m in
  <[path := {| v_served := Some etag; ours := ours (default no_version (m !! path)) |}]> m.

(* lib.rs:1692-1694 ServedVersions::served *)
Definition served (m : ServedVersions) (path : PathBuf) : option Etag := m !! path ≫= v_served.

(* lib.rs:1696-1704 ServedVersions::wrote *)
Definition wrote (m : ServedVersions) (path : PathBuf) (etag : Etag) : ServedVersions :=
  let l := ours (default no_version (m !! path)) ++ [etag] in
  <[path := {| v_served := Some etag; ours := drop (length l - 4) l |}]> m.

(* lib.rs:1706-1708 ServedVersions::is_ours *)
Definition is_ours (m : ServedVersions) (path : PathBuf) (etag : Etag) : bool :=
  match m !! path with Some v => bool_decide (etag ∈ ours v) | None => false end.

(** The entries below [from], one by one, in the map's own order. *)
(* lib.rs:1711-1720 ServedVersions::moved *)
Definition served_moved (m : ServedVersions) (from to : PathBuf) : ServedVersions :=
  let m := delete to m in
  let under := filter (λ p, starts_with p from = true) (map_to_list m).*1 in
  foldl (λ m p, match m !! p, strip_prefix p from with
                | Some v, Some rel => <[match rel with [] => to | _ => join to rel end := v]> (delete p m)
                | _, _ => m
                end) m under.

(* lib.rs:1722-1724 ServedVersions::forget *)
Definition served_forget (m : ServedVersions) (path : PathBuf) : ServedVersions := delete path m.
(* lib.rs:1727-1731 ServedVersions::unknown *)
Definition unknown (m : ServedVersions) (path : PathBuf) : ServedVersions :=
  match m !! path with Some v => <[path := {| v_served := None; ours := ours v |}]> m | None => m end.

(** ** The pin of a handle *)

(* lib.rs:1628-1631 PinState *)
Record PinState := { pin_etag : option Etag; pin_frozen : bool }.
(* lib.rs:1638-1640 VersionPin::freeze *)
Definition freeze (p : PinState) : PinState := {| pin_etag := pin_etag p; pin_frozen := true |}.

(** [got] is the response's etag, [vouched] whether our own lock on the file is; the [bool] is
    whether the response may be served. *)
(* lib.rs:1643-1662 VersionPin::admit *)
Definition admit_version (p : PinState) (m : ServedVersions) (vouched : bool) (path : PathBuf) (got : option Etag)
    : bool * PinState * ServedVersions :=
  match got with
  | None => (true, p, m)
  | Some got =>
      match pin_etag p with
      | Some pinned =>
          if bool_decide (pinned = got) then (true, p, m)
          else if negb (pin_frozen p) && (is_ours m path got || vouched)
          then (true, {| pin_etag := Some got; pin_frozen := pin_frozen p |}, m)
          else (false, p, m)
      | None =>
          if negb (pin_frozen p) then (true, {| pin_etag := Some got; pin_frozen := pin_frozen p |}, serve m path got)
          else (false, p, m)
      end
  end.

(** One response of a handle's reads, with what the mount knew when it came. *)
Record Response := { r_known : ServedVersions; r_vouched : bool; r_etag : option Etag }.

(** The versions whose bytes a handle got, in order. *)
Fixpoint admitted (p : PinState) (path : PathBuf) (l : list Response) : list Etag :=
  match l with
  | [] => []
  | r :: l =>
      let '(ok, p', _) := admit_version p (r_known r) (r_vouched r) path (r_etag r) in
      (if ok then option_list (r_etag r) else []) ++ admitted p' path l
  end.

(** Each version of a run is the one before it, or one [allowed]. *)
Fixpoint chained (allowed : Etag → Prop) (prev : option Etag) (l : list Etag) : Prop :=
  match l with
  | [] => True
  | e :: l => (prev = None ∨ prev = Some e ∨ allowed e) ∧ chained allowed (Some e) l
  end.

Lemma admit_cases p m v path e :
  let '(ok, p', _) := admit_version p m v path (Some e) in
  (ok = true ∧ pin_etag p' = Some e ∧ pin_frozen p' = pin_frozen p ∧
   (pin_etag p = Some e ∨ pin_frozen p = false ∧ (pin_etag p = None ∨ is_ours m path e || v = true))) ∨
  (ok = false ∧ p' = p).
Proof.
  unfold admit_version. destruct (pin_etag p) as [pinned|] eqn:Ep.
  - case_bool_decide; subst; [left; by split_and!; auto|].
    destruct (negb (pin_frozen p) && _) eqn:E; [left; bool_prop; by split_and!; auto|by right].
  - destruct (negb (pin_frozen p)) eqn:E; [left; bool_prop; by split_and!; auto|by right].
Qed.

(** A handle never serves a splice of two versions of its file. Of the responses to its
    reads, those served are all of the version it was pinned to (at open, or by the first
    response), except that it moves on to a version this mount's own upload made or that is
    the etag change of our own lock; once frozen, because a rename replaced its file, it
    serves no version but its own. *)
Theorem version_pin_never_splices p path l :
  let ok e := ∃ r, r ∈ l ∧ r_etag r = Some e ∧ (is_ours (r_known r) path e || r_vouched r) = true in
  chained ok (pin_etag p) (admitted p path l) ∧
  (pin_frozen p = true → Forall (λ e, pin_etag p = Some e) (admitted p path l)) ∧
  ((∀ r e, r ∈ l → r_etag r = Some e → (is_ours (r_known r) path e || r_vouched r) = false) →
   ∃ e, Forall (λ x, x = e) (admitted p path l)).
Proof.
  intros ok.
  assert (Hmono : ∀ (P Q : Etag → Prop) prev l, (∀ e, P e → Q e) → chained P prev l → chained Q prev l).
  { clear. intros P Q prev l H. revert prev. induction l as [|e l IH]; cbn; [done|]. naive_solver. }
  assert (H1 : chained ok (pin_etag p) (admitted p path l) ∧
    (pin_frozen p = true → Forall (λ e, pin_etag p = Some e) (admitted p path l))).
  { unfold ok. clear ok. revert p. induction l as [|r l IH]; intros p; [done|]. cbn [admitted].
    destruct (r_etag r) as [e|] eqn:Er.
    - pose proof (admit_cases p (r_known r) (r_vouched r) path e) as Hc.
      destruct (admit_version _ _ _ _ _) as [[ok p'] m']. destruct (IH p') as [IH1 IH2].
      destruct Hc as [(-> & Hp' & Hf & Hwhy)|[-> ->]].
      + cbn [option_list app chained]. rewrite Hp' in IH1, IH2. split; [split|].
        * destruct Hwhy as [|[_ [|]]]; [by right; left|by left|]. right. right. exists r. split; [left|done].
        * eapply Hmono; [|exact IH1]. intros x (r' & ? & ?). exists r'. split; [by right|done].
        * intros Hfr. destruct Hwhy as [He|[Hc _]]; [|congruence]. constructor; [done|].
          rewrite He. apply IH2. by rewrite Hf.
      + cbn [app]. split; [|exact IH2]. eapply Hmono; [|exact IH1].
        intros x (r' & ? & ?). exists r'. split; [by right|done].
    - cbn [admit_version option_list app]. destruct (IH p) as [IH1 IH2]. split; [|exact IH2].
      eapply Hmono; [|exact IH1]. intros x (r' & ? & ?). exists r'. split; [by right|done]. }
  split_and!; [apply H1|apply H1|]. intros Hno.
  assert (Hch : chained (λ _, False) (pin_etag p) (admitted p path l)).
  { eapply Hmono; [|apply H1]. intros e (r & Hr & He & Hk). by rewrite (Hno r e Hr He) in Hk. }
  revert Hch. generalize (admitted p path l). clear. intros la. destruct la as [|e la]; [exists ""%string; constructor|].
  intros [_ Hch]. exists e. constructor; [done|]. revert Hch. induction la as [|x la IH]; [constructor|].
  intros [[|[[= ->]|[]]] Hch]; [done|]. constructor; [done|by apply IH].
Qed.

(** ** The etag a save is conditional on *)

(* lib.rs:1736-1743 UploadOrder *)
Record UploadOrder := {
  committed : gmap PathBuf (Z * option Etag);
  gen : Z;
  versions : ServedVersions;
}.

(* lib.rs:1746-1748 UploadOrder::generation *)
Definition generation (o : UploadOrder) : Z := gen o.
(* lib.rs:1750-1755 UploadOrder::etag_for *)
Definition etag_for (o : UploadOrder) (path : PathBuf) (opened_gen : Z) (original : option Etag) : option Etag :=
  match committed o !! path with
  | Some (g, etag) => if (opened_gen <? g)%Z then etag else original
  | None => original
  end.
(* lib.rs:1757-1763 UploadOrder::record *)
Definition record (o : UploadOrder) (path : PathBuf) (etag : option Etag) : UploadOrder :=
  {| committed := <[path := ((gen o + 1)%Z, etag)]> (committed o);
     gen := (gen o + 1)%Z;
     versions := match etag with Some e => wrote (versions o) path e | None => versions o end |}.
(* lib.rs:1765-1771 UploadOrder::moved *)
Definition moved (o : UploadOrder) (from to : PathBuf) : UploadOrder :=
  {| committed := match committed o !! from with
                  | Some v => <[to := v]> (delete from (committed o))
                  | None => committed o
                  end;
     gen := gen o; versions := served_moved (versions o) from to |}.
(* lib.rs:1773-1776 UploadOrder::forget *)
Definition forget (o : UploadOrder) (path : PathBuf) : UploadOrder :=
  {| committed := delete path (committed o); gen := gen o; versions := served_forget (versions o) path |}.

Inductive Op := Recorded (p : PathBuf) (etag : option Etag) | Moved (from to : PathBuf) | Forgot (p : PathBuf).
Definition apply_op (o : UploadOrder) (x : Op) : UploadOrder :=
  match x with
  | Recorded p e => record o p e
  | Moved f t => moved o f t
  | Forgot p => forget o p
  end.

Definition no_uploads : UploadOrder := {| committed := ∅; gen := 0; versions := ∅ |}.

(** How many uploads a history has recorded. *)
Fixpoint uploads (ops : list Op) : Z :=
  match ops with [] => 0%Z | Recorded _ _ :: ops => (1 + uploads ops)%Z | _ :: ops => uploads ops end.

(** The latest upload of the file now at [path], newest operation first: its number and its
    etag, looked up under the name the file had then. *)
Fixpoint last_upload (path : PathBuf) (ops : list Op) : option (Z * option Etag) :=
  match ops with
  | [] => None
  | Recorded p e :: ops => if decide (p = path) then Some ((uploads ops + 1)%Z, e) else last_upload path ops
  | Moved f t :: ops =>
      match last_upload f ops with
      | Some v => if decide (t = path) then Some v else if decide (f = path) then None else last_upload path ops
      | None => last_upload path ops
      end
  | Forgot p :: ops => if decide (p = path) then None else last_upload path ops
  end.

Lemma history_spec ops : let o := foldr (λ x o, apply_op o x) no_uploads ops in
  gen o = uploads ops ∧ (∀ path, committed o !! path = last_upload path ops) ∧
  (∀ path n e, last_upload path ops = Some (n, e) → (0 < n ≤ uploads ops)%Z).
Proof.
  induction ops as [|x ops (Hg & Hc & Hn)]; cbn [foldr]; [split_and!; [done|intros; apply lookup_empty|done]|].
  set (o := foldr _ _ _) in *. assert (H0 : (0 ≤ uploads ops)%Z).
  { clear. induction ops as [|[]]; cbn; lia. }
  destruct x as [p e|f t|p]; cbn [apply_op uploads last_upload].
  - split_and!; [cbn; lia| |].
    + intros path. cbn. destruct (decide (p = path)) as [->|Hne]; [by rewrite lookup_insert_eq, Hg|by rewrite lookup_insert_ne].
    + intros path n e'. destruct (decide _); [intros [= <- <-]; lia|]. intros H. specialize (Hn _ _ _ H). lia.
  - split_and!; [done| |].
    + intros path. cbn. rewrite Hc. destruct (last_upload f ops) as [v|]; [|apply Hc].
      destruct (decide (t = path)) as [->|Hne]; [by rewrite lookup_insert_eq|]. rewrite lookup_insert_ne by done.
      destruct (decide (f = path)) as [->|]; [apply lookup_delete_eq|]. rewrite lookup_delete_ne by done. apply Hc.
    + intros path n e. destruct (last_upload f ops) as [v|] eqn:Ef; [|apply Hn].
      destruct (decide _); [intros [= ->]; by eapply Hn|]. destruct (decide _); [done|apply Hn].
  - split_and!; [done| |].
    + intros path. cbn. destruct (decide (p = path)) as [->|]; [apply lookup_delete_eq|]. rewrite lookup_delete_ne by done. apply Hc.
    + intros path n e. destruct (decide _); [done|apply Hn].
Qed.

(** A save is made conditional on the right version: on the etag of this mount's own latest
    upload of the file when that upload came after the handle was opened (a rename of the
    file itself followed), and otherwise on the version the handle was opened on. So two
    handles saving one after the other never conflict with each other, and an edit based on
    someone else's version never passes for one based on ours. *)
Theorem etag_for_latest ops path opened original :
  let o := foldr (λ x o, apply_op o x) no_uploads ops in
  etag_for o path opened original =
    match last_upload path ops with
    | Some (n, e) => if (opened <? n)%Z then e else original
    | None => original
    end ∧
  etag_for o path (generation o) original = original ∧
  (∀ e, (opened ≤ generation o)%Z → etag_for (record o path e) path opened original = e).
Proof.
  destruct (history_spec ops) as (Hg & Hc & Hn). cbv zeta in *. set (o := foldr _ _ _) in *. unfold etag_for, generation.
  rewrite Hc, Hg. split_and!; [done| |].
  - destruct (last_upload path ops) as [[n e]|] eqn:El; [|done]. specialize (Hn _ _ _ El).
    by rewrite (proj2 (Z.ltb_ge _ _)) by lia.
  - intros e Ho. cbn. rewrite lookup_insert_eq. by rewrite (proj2 (Z.ltb_lt _ _)) by lia.
Qed.

(** [moved] follows the renamed path itself but not the paths below it, though
    [ServedVersions::moved] does: a handle open on a file of a renamed folder is back to the
    etag it was opened on, although this mount has uploaded the file since. *)
Lemma folder_rename_forgets_upload :
  let f := ["d"; "f"]%string in let f' := ["x"; "f"]%string in
  let o := record no_uploads f (Some "e2"%string) in
  etag_for o f 0 (Some "e1"%string) = Some "e2"%string ∧
  etag_for (moved o ["d"%string] ["x"%string]) f' 0 (Some "e1"%string) = Some "e1"%string ∧
  is_ours (versions (moved o ["d"%string] ["x"%string])) f' "e2"%string = true.
Proof. vm_compute. done. Qed.
