(* ===== verification/AppLocks.v ===== *)
(** [app_locks.rs] and its loop in [lib.rs]: server locks for documents an application has
    open.

    While an editor's lock file exists and its process runs, the document gets a WebDAV lock
    that is refreshed every [REFRESH_EVERY] and released when the editor is gone and no save
    of the document is pending.  The table of held locks is one map behind a mutex.  The
    server and the clock are the environment [W]; what the kernel knows of processes is
    [tgid_of] and [comm_of]; whether a token is in use is the server's business. *)
From Stdlib Require Import Ascii String.
From S2P Require Import Prelude Paths Backend FsCache Journal Versions.

(** ** Lock files *)

(* app_locks.rs:39-44 DocName *)
Inductive DocName := Exact (n : string) | OfficeOwner (rest : string).

(** [str::strip_prefix], [str::strip_suffix], [str::ends_with] on text as its bytes. *)
Fixpoint strip_str (p s : list ascii) : option (list ascii) :=
  match p, s with
  | [], _ => Some s
  | a :: p, b :: s => if decide (a = b) then strip_str p s else None
  | _ :: _, [] => None
  end.
Definition strip_end (p s : list ascii) : option (list ascii) := reverse <$> strip_str (reverse p) (reverse s).

Abbreviation chars := list_ascii_of_string.
Abbreviation text := string_of_list_ascii.

(** [chars().count()]: a UTF-8 continuation byte starts no character. *)
Definition starts_char (c : ascii) : bool := let n := nat_of_ascii c in negb ((128 <=? n) && (n <? 192)).
Definition char_count (s : list ascii) : nat := length (List.filter starts_char s).

(* app_locks.rs:47-55 DocName::matches *)
Definition matches (d : DocName) (candidate : string) : bool :=
  match d with
  | Exact n => bool_decide (candidate = n)
  | OfficeOwner rest =>
      bool_decide (candidate = rest)
      || (bool_decide (is_Some (strip_end (chars rest) (chars candidate)))
          && (char_count (chars candidate) =? char_count (chars rest) + 2))
  end.

Definition nonempty_doc (app : string) (d : string → DocName) (s : list ascii) : option (string * DocName) :=
  match s with [] => None | _ => Some (app, d (text s)) end.

Definition dot : ascii := ascii_of_nat 46.

(** [rsplit_once('.')]. *)
Fixpoint rsplit_dot (s : list ascii) : option (list ascii * list ascii) :=
  match s with
  | [] => None
  | c :: s => match rsplit_dot s with
              | Some (a, b) => Some (c :: a, b)
              | None => if decide (c = dot) then Some ([], s) else None
              end
  end.

(* app_locks.rs:72-72 document_for *)
Definition vim_swap (ext : list ascii) : bool :=
  match ext with
  | [s; w; x] => bool_decide (text [s; w] = "sw"%string)
                 && (97 <=? nat_of_ascii x) && (nat_of_ascii x <=? 112)
  | _ => false
  end.

(* app_locks.rs:59-74 document_for *)
Definition document_for (name : string) : option (string * DocName) :=
  match strip_str (chars ".~lock.") (chars name) ≫= strip_end (chars "#") with
  | Some doc => nonempty_doc "LibreOffice" Exact doc
  | None =>
      match strip_str (chars "~$") (chars name) with
      | Some rest => nonempty_doc "Office" OfficeOwner rest
      | None =>
          hidden ← strip_str [dot] (chars name);
          match strip_end (chars ".kate-swp") hidden with
          | Some doc => nonempty_doc "Kate" Exact doc
          | None => '(doc, ext) ← rsplit_dot hidden;
                    if vim_swap ext then nonempty_doc "Vim" Exact doc else None
          end
      end
  end.

Example document_for_examples :
  document_for ".~lock.a.odt#" = Some ("LibreOffice", Exact "a.odt")%string ∧
  document_for "~$report.docx" = Some ("Office", OfficeOwner "report.docx")%string ∧
  document_for ".notes.txt.swo" = Some ("Vim", Exact "notes.txt")%string ∧
  document_for ".a.kate-swp" = Some ("Kate", Exact "a")%string ∧
  document_for ".hidden.txt" = None ∧ document_for ".x.swq" = None ∧ document_for "~$" = None ∧
  matches (OfficeOwner "port.docx") "report.docx" = true ∧
  matches (OfficeOwner "port.docx") "my report.docx" = false.
Proof. by vm_compute. Qed.

(** ** The table of held locks *)

(* app_locks.rs:27-27 LOCK_TIMEOUT *)
Definition LOCK_TIMEOUT : Duration := secs 60.
(* app_locks.rs:29-29 REFRESH_EVERY *)
Definition REFRESH_EVERY : Duration := secs 20.
(* app_locks.rs:33-33 LOCK_FILE_GRACE *)
Definition LOCK_FILE_GRACE : Duration := secs 10.
(* lib.rs:2737-2737 APP_LOCK_RENEW_AFTER *)
Definition APP_LOCK_RENEW_AFTER : Duration := secs (30 * 60).

(* app_locks.rs:78-106 Held *)
Record Held := {
  h_doc : PathBuf;
  h_lock_file : PathBuf;
  h_app : string;
  h_pid : nat;
  h_comm : string;
  h_token : option string;
  h_locked_at : option Instant;
  h_refreshed_at : option Instant;
  h_vouched : bool;
  h_lock_file_gone_at : option Instant;
  h_ours : bool;
}.

Abbreviation Table := (gmap PathBuf Held).

(* app_locks.rs:127-129 token_for *)
Definition token_for (t : Table) (path : PathBuf) : option string := t !! path ≫= h_token.

(* app_locks.rs:134-136 holds *)
Definition holds (t : Table) (path : PathBuf) : bool :=
  match t !! path with Some h => bool_decide (is_Some (h_token h)) || h_ours h | None => false end.

Definition set_lock (h : Held) (token : option string) (at_ refreshed : option Instant) (vouched ours : bool) : Held :=
  {| h_doc := h_doc h; h_lock_file := h_lock_file h; h_app := h_app h; h_pid := h_pid h; h_comm := h_comm h;
     h_token := token; h_locked_at := at_; h_refreshed_at := refreshed; h_vouched := vouched;
     h_lock_file_gone_at := h_lock_file_gone_at h; h_ours := ours |}.
Definition update (f : Held → Held) (doc : PathBuf) (t : Table) : Table :=
  match t !! doc with Some h => <[doc := f h]> t | None => t end.

(* app_locks.rs:139-144 refused *)
Definition refused (doc : PathBuf) : Table → Table :=
  update (λ h, set_lock h (h_token h) (h_locked_at h) (h_refreshed_at h) false false) doc.

(* app_locks.rs:148-153 condition_for *)
Definition condition_for (t : Table) (path : PathBuf) : option string * bool :=
  match t !! path with
  | Some h => match h_token h with Some tk => (Some tk, h_vouched h) | None => (None, false) end
  | None => (None, false)
  end.

(* app_locks.rs:157-159 vouched *)
Definition vouched (t : Table) (path : PathBuf) : bool :=
  match t !! path with Some h => h_vouched h | None => false end.

(* app_locks.rs:163-167 set_vouched *)
Definition set_vouched (doc : PathBuf) (on : bool) : Table → Table :=
  update (λ h, set_lock h (h_token h) (h_locked_at h) (h_refreshed_at h) on (h_ours h)) doc.

(* app_locks.rs:198-212 set_token *)
Definition set_token (doc : PathBuf) (token : option string) (now : Instant) : Table → Table :=
  update (λ h,
    let taken := bool_decide (is_Some token) && negb (bool_decide (h_token h = token)) in
    let at_ := if taken then Some now else h_locked_at h in
    match token with
    | None => set_lock h None None None false (h_ours h)
    | Some _ => set_lock h token at_ (Some now) (h_vouched h) (if taken then true else h_ours h)
    end) doc.

(* app_locks.rs:214-218 mark_refreshed *)
Definition mark_refreshed (doc : PathBuf) (now : Instant) : Table → Table :=
  update (λ h, set_lock h (h_token h) (h_locked_at h) (Some now) (h_vouched h) (h_ours h)) doc.

(* app_locks.rs:221-225 untrack *)
Definition untrack (doc : PathBuf) (t : Table) : option Held * Table := (t !! doc, delete doc t).

Definition set_lock_file (h : Held) (lf : PathBuf) (pid : nat) (comm : string) (gone : option Instant) : Held :=
  {| h_doc := h_doc h; h_lock_file := lf; h_app := h_app h; h_pid := pid; h_comm := comm;
     h_token := h_token h; h_locked_at := h_locked_at h; h_refreshed_at := h_refreshed_at h;
     h_vouched := h_vouched h; h_lock_file_gone_at := gone; h_ours := h_ours h |}.

(** The first entry, in the map's order, made for this lock file. *)
(* app_locks.rs:229-233 lock_file_removed *)
Definition lock_file_removed (lock_file : PathBuf) (now : Instant) (t : Table) : Table :=
  match find (λ dh, bool_decide (h_lock_file dh.2 = lock_file)) (map_to_list t) with
  | Some (doc, h) => <[doc := set_lock_file h (h_lock_file h) (h_pid h) (h_comm h) (Some now)]> t
  | None => t
  end.

(* app_locks.rs:237-239 refresh_timeout *)
Definition refresh_timeout (locked_at now : Instant) : Duration := (sat_sub now locked_at + LOCK_TIMEOUT)%Z.

(* app_locks.rs:276-285 readopt *)
Definition readopt (h : Held) (t : Table) : Table :=
  <[h_doc h := {| h_doc := h_doc h; h_lock_file := h_lock_file h; h_app := h_app h; h_pid := h_pid h;
     h_comm := h_comm h; h_token := None; h_locked_at := None; h_refreshed_at := None; h_vouched := false;
     h_lock_file_gone_at := None; h_ours := false |}]> t.

(** ** The loop *)

(** What the loop works on; every helper locks one of its parts at a time. *)
Record AState (W : Type) := {
  a_table : Table;
  a_cache : FsCache;
  a_journal : MutationJournal;
  a_uploads : UploadOrder;
  a_world : W;
}.
Arguments a_table {W}. Arguments a_cache {W}. Arguments a_journal {W}. Arguments a_uploads {W}.
Arguments a_world {W}. Arguments Build_AState {W}.

Definition with_table {W : Type} (f : Table → Table) (s : AState W) : AState W :=
  Build_AState (f (a_table s)) (a_cache s) (a_journal s) (a_uploads s) (a_world s).
Definition with_cache {W : Type} (c : FsCache) (s : AState W) : AState W :=
  Build_AState (a_table s) c (a_journal s) (a_uploads s) (a_world s).
Definition with_uploads {W : Type} (u : UploadOrder) (s : AState W) : AState W :=
  Build_AState (a_table s) (a_cache s) (a_journal s) u (a_world s).
Definition with_world {W : Type} (w : W) (s : AState W) : AState W :=
  Build_AState (a_table s) (a_cache s) (a_journal s) (a_uploads s) w.

Section locks.
Context {W : Type} `{CloudBackend W} (mono : W → Instant).
Context (tgid_of : W → nat → option nat) (comm_of : W → nat → option string) (owner_text : string → string).

(** [t.elapsed()]. *)
Definition elapsed (s : AState W) (t : Instant) : Duration := sat_sub (mono (a_world s)) t.

(* app_locks.rs:243-245 process_alive *)
Definition process_alive (s : AState W) (pid : nat) (comm : string) : bool :=
  bool_decide (comm_of (a_world s) pid = Some comm).

(* app_locks.rs:175-195 track *)
Definition track (doc lock_file : PathBuf) (app : string) (pid : nat) (s : AState W) : bool * AState W :=
  match tgid_of (a_world s) pid with
  | None => (false, s)
  | Some tgid =>
      let comm := default ""%string (comm_of (a_world s) tgid) in
      match a_table s !! doc with
      | Some e =>
          (false, match h_lock_file_gone_at e with
                  | Some _ => with_table (insert doc (set_lock_file e lock_file tgid comm None)) s
                  | None => s
                  end)
      | None =>
          (true, with_table (insert doc
             {| h_doc := doc; h_lock_file := lock_file; h_app := app; h_pid := tgid; h_comm := comm;
                h_token := None; h_locked_at := None; h_refreshed_at := None; h_vouched := false;
                h_lock_file_gone_at := None; h_ours := false |}) s)
      end
  end.

(* lib.rs:2652-2657 server_state *)
Definition server_state (path : PathBuf) (s : AState W) :
    option (Etag * Z * option SystemTime) * AState W :=
  let '(r, w) := list_dir path (a_world s) in
  (match r with
   | Ok (_, Some now, _) =>
       if e_is_dir now then None else (λ t, (t, e_size now, e_modified now)) <$> e_change_token now
   | _ => None
   end, with_world w s).

(* lib.rs:2689-2692 knows_version *)
Definition knows_version (s : AState W) (path : PathBuf) (etag : Etag) : bool :=
  bool_decide (served (versions (a_uploads s)) path = Some etag)
  || bool_decide (find_entry (a_cache s) path ≫= e_change_token = Some etag).

Definition is_version (path : PathBuf) (before : Etag) (e : RemoteEntry) : bool :=
  bool_decide (e_path e = path) && bool_decide (e_change_token e = Some before).
Definition with_token (t : option Etag) (e : RemoteEntry) : RemoteEntry :=
  {| e_path := e_path e; e_is_dir := e_is_dir e; e_size := e_size e; e_modified := e_modified e;
     e_change_token := t; e_content_type := e_content_type e; e_ext := e_ext e |}.

(** The listed entry of that version gets the new etag. *)
(* lib.rs:2677-2684 adopt_lock_etag *)
Definition relabel (path : PathBuf) (before after : Etag) (c : FsCache) : FsCache :=
  match dir_cache c !! parent_or_root path with
  | Some d => put_entry c (parent_or_root path)
                (FsCache.set_files d (update_first (is_version path before) (with_token (Some after)) (d_files d)))
  | None => c
  end.

(* lib.rs:2664-2686 adopt_lock_etag *)
Definition adopt_lock_etag (path : PathBuf) (before : option (Etag * Z * option SystemTime)) (s : AState W) :
    bool * AState W :=
  match before with
  | None => (false, s)
  | Some (before, size, mtime) =>
      let known := knows_version s path before in
      match server_state path s with
      | (None, s) => (false, s)
      | (Some (after, size2, mtime2), s) =>
          if bool_decide (before = after) then (known, s)
          else if negb (size =? size2)%Z || negb (bool_decide (mtime = mtime2)) then (false, s)
          else
            let s := if known then with_uploads (record (a_uploads s) path (Some after)) s else s in
            (known, with_cache (relabel path before after (a_cache s)) s)
      end
  end.

(* lib.rs:2697-2704 doc_writes_pending *)
Definition doc_writes_pending (s : AState W) (doc : PathBuf) : bool :=
  bool_decide (doc ∈ uploading (a_cache s))
  || bool_decide (is_Some (pending_upload doc (a_journal s)))
  || existsb (λ e, match op e with
                   | Rename from to _ _ => bool_decide (from = doc) || bool_decide (to = doc)
                   | _ => false
                   end) (entries (a_journal s)).

(* lib.rs:2708-2720 release_app_lock *)
Definition release_app_lock (doc : PathBuf) (s : AState W) : AState W :=
  if doc_writes_pending s doc then s
  else
    let '(held, t) := untrack doc (a_table s) in
    let s := with_table (λ _, t) s in
    match held ≫= h_token with
    | None => s
    | Some token =>
        let '(before, s) := server_state doc s in
        let s := with_world (unlock_file doc token (a_world s)).2 s in
        (adopt_lock_etag doc before s).2
    end.

(* lib.rs:2725-2732 lock_file_gone *)
Definition lock_file_gone (lock_file : PathBuf) (s : AState W) : bool * AState W :=
  if bool_decide (is_Some (pending_upload lock_file (a_journal s))) then (false, s)
  else
    let '(listed, c) := get_cached_dir_readonly (a_cache s) (parent_or_root lock_file) in
    (match listed with
     | Some files => negb (existsb (has_path lock_file) files)
     | None => false
     end, with_cache c s).

(* lib.rs:2770-2774 run_app_locks *)
Definition file_gone (h : Held) (due online : bool) (s : AState W) : bool * AState W :=
  if due && online then
    match lock_file_gone (h_lock_file h) s with
    | (true, s) =>
        let '(r, w) := list_dir (h_lock_file h) (a_world s) in
        (match r with Ok (_, None, _) => true | Err RNotFound => true | _ => false end, with_world w s)
    | (false, s) => (false, s)
    end
  else (false, s).

(** Taking the lock, retried every [REFRESH_EVERY]. *)
(* lib.rs:2809-2831 run_app_locks *)
Definition take_lock (h : Held) (now : Instant) (s : AState W) : AState W :=
  let s := with_table (mark_refreshed (h_doc h) now) s in
  match server_state (h_doc h) s with
  | (None, s) => s
  | (Some before, s) =>
      let s := with_table (set_vouched (h_doc h) (knows_version s (h_doc h) before.1.1)) s in
      let '(r, w) := lock_file (h_doc h) LOCK_TIMEOUT (owner_text (h_app h)) (a_world s) in
      let s := with_world w s in
      match r with
      | Ok token =>
          let s := with_table (set_token (h_doc h) (Some token) now) s in
          let '(ours, s) := adopt_lock_etag (h_doc h) (Some before) s in
          with_table (set_vouched (h_doc h) ours) s
      | Err Locked => with_table (refused (h_doc h)) s
      | Err _ => with_table (set_vouched (h_doc h) false) s
      end
  end.

(* lib.rs:2791-2808 run_app_locks *)
Definition keep_lock (h : Held) (is_done : bool) (s : AState W) : AState W :=
  let now := mono (a_world s) in
  match h_token h, h_locked_at h with
  | Some token, Some at_ =>
      if (APP_LOCK_RENEW_AFTER <=? sat_sub now at_)%Z then
        let '(before, s) := server_state (h_doc h) s in
        let s := with_world (unlock_file (h_doc h) token (a_world s)).2 s in
        let s := (adopt_lock_etag (h_doc h) before s).2 in
        with_table (set_token (h_doc h) None now) s
      else
        let '(r, w) := refresh_lock (h_doc h) token (refresh_timeout at_ now) (a_world s) in
        let s := with_world w s in
        match r with
        | Ok _ => with_table (mark_refreshed (h_doc h) now) s
        | Err Conflict => with_table (set_token (h_doc h) None now) s
        | Err _ => s
        end
  | _, _ => if is_done then s else take_lock h now s
  end.

(** One entry of the snapshot a round works through. *)
(* lib.rs:2765-2833 run_app_locks *)
Definition lock_step (active online : bool) (h : Held) (s : AState W) : AState W :=
  let due := match h_refreshed_at h with None => true | Some t => (REFRESH_EVERY <=? elapsed s t)%Z end in
  let deleted := match h_lock_file_gone_at h with Some t => (LOCK_FILE_GRACE <=? elapsed s t)%Z | None => false end in
  let '(is_done, s) :=
    if negb active || deleted || negb (process_alive s (h_pid h) (h_comm h)) then (true, s)
    else file_gone h due online s in
  if is_done && (online || bool_decide (h_token h = None)) && negb (doc_writes_pending s (h_doc h))
  then release_app_lock (h_doc h) s
  else if negb online || negb due then s
  else if (bool_decide (h_token h = None)
           || match h_locked_at h with Some at_ => (APP_LOCK_RENEW_AFTER <=? elapsed s at_)%Z | None => false end)
          && doc_writes_pending s (h_doc h)
  then s
  else keep_lock h is_done s.

(* lib.rs:2761-2833 run_app_locks *)
Definition lock_round (active online : bool) (s : AState W) : AState W :=
  foldl (λ s h, lock_step active online h s) s (map_to_list (a_table s)).*2.

(** What the last run left is released, and taken again for programs still running. *)
(* lib.rs:2752-2760 run_app_locks *)
Definition adopt_previous (previous : list Held) (s : AState W) : AState W :=
  foldl (λ s h,
    let s := match h_token h with
             | Some token => with_world (unlock_file (h_doc h) token (a_world s)).2 s
             | None => s
             end in
    if process_alive s (h_pid h) (h_comm h) then with_table (readopt h) s else s) s previous.

#[local] Arguments adopt_lock_etag : simpl never.
#[local] Arguments server_state : simpl never.
#[local] Arguments doc_writes_pending : simpl never.

(** ** What a step leaves alone *)

Lemma readonly_frame c p : let c' := (get_cached_dir_readonly c p).2 in
  uploading c' = uploading c.
Proof. unfold get_cached_dir_readonly. destruct (dir_cache c !! p); [|done]. simpl. by destruct c. Qed.

Lemma file_gone_frame h due online s : let s' := (file_gone h due online s).2 in
  a_table s' = a_table s ∧ a_journal s' = a_journal s ∧ a_uploads s' = a_uploads s ∧
  uploading (a_cache s') = uploading (a_cache s).
Proof.
  unfold file_gone, lock_file_gone. destruct (due && online); [|done].
  case_bool_decide; [done|].
  pose proof (readonly_frame (a_cache s) (parent_or_root (h_lock_file h))) as Hu.
  destruct (get_cached_dir_readonly _ _) as [l c]. simpl in Hu.
  destruct l as [files|]; [destruct (negb _)|]; simpl; [destruct (list_dir _ _)|..]; done.
Qed.

Lemma server_state_frame p s : let s' := (server_state p s).2 in
  a_table s' = a_table s ∧ a_journal s' = a_journal s ∧ a_cache s' = a_cache s ∧ a_uploads s' = a_uploads s.
Proof. unfold server_state. by destruct (list_dir p (a_world s)). Qed.

Lemma adopt_frame p b s : a_table (adopt_lock_etag p b s).2 = a_table s.
Proof.
  unfold adopt_lock_etag. destruct b as [[[before size] mtime]|]; [|done].
  pose proof (server_state_frame p s) as (Ht & _). destruct (server_state p s) as [[[[after s2] m2]|] s']; [|done].
  simpl in Ht. case_bool_decide; [done|]. destruct (negb _ || _); [done|].
  by destruct (knows_version s p before).
Qed.

Lemma doc_writes_pending_same s s' doc :
  a_journal s' = a_journal s → uploading (a_cache s') = uploading (a_cache s) →
  doc_writes_pending s' doc = doc_writes_pending s doc.
Proof. unfold doc_writes_pending. by intros -> ->. Qed.

Lemma update_lookup f doc t d : update f doc t !! d = if decide (d = doc) then f <$> t !! d else t !! d.
Proof.
  unfold update. case_decide as Hd; [subst d|].
  - destruct (t !! doc) eqn:E; simpl; [apply lookup_insert_eq|done].
  - destruct (t !! doc); [by rewrite lookup_insert_ne|done].
Qed.

(** ** The table's invariant *)

(** A lock counts as vouched for, as taken at some time and as ours only with a token. *)
Record held_ok (h : Held) : Prop := {
  ok_vouched : h_vouched h = true → is_Some (h_token h);
  ok_at : is_Some (h_token h) ↔ is_Some (h_locked_at h);
  ok_refreshed : is_Some (h_token h) → is_Some (h_refreshed_at h);
  ok_ours : is_Some (h_token h) → h_ours h = true;
}.
Definition table_ok (t : Table) : Prop := ∀ doc h, t !! doc = Some h → h_doc h = doc ∧ held_ok h.

Lemma table_ok_update f doc t :
  table_ok t → (∀ h, t !! doc = Some h → held_ok h → h_doc (f h) = h_doc h ∧ held_ok (f h)) →
  table_ok (update f doc t).
Proof.
  intros Ht Hf d h. rewrite update_lookup. case_decide as Hd; [subst d|apply Ht].
  intros (h0 & Hl & ->)%fmap_Some. destruct (Ht _ _ Hl) as [Hdoc Hok].
  destruct (Hf h0 Hl Hok) as [-> ?]. done.
Qed.

Lemma set_token_ok doc tk now t : table_ok t → table_ok (set_token doc tk now t).
Proof.
  intros Ht. apply table_ok_update; [done|]. intros h Hl [Hv Ha Hr Ho].
  destruct tk as [tk|]; cbv zeta; simpl; (split; [done|]).
  - destruct (bool_decide (h_token h = Some tk)) eqn:E; [apply bool_decide_eq_true in E|]; simpl.
    + split; simpl; rewrite ?E in *; eauto.
    + split; simpl; try (split; intros _); eauto.
  - split; simpl; try done; split; by intros [? ?].
Qed.

Lemma mark_refreshed_ok doc now t : table_ok t → table_ok (mark_refreshed doc now t).
Proof.
  intros Ht. apply table_ok_update; [done|]. intros h Hl [Hv Ha Hr Ho]. split; [done|].
  split; simpl; try done.
Qed.

Lemma delete_ok doc t : table_ok t → table_ok (delete doc t).
Proof. intros Ht d h [_ ?]%lookup_delete_Some. by apply Ht. Qed.

Lemma insert_fresh_ok h t :
  table_ok t → h_token h = None → h_vouched h = false → h_locked_at h = None → table_ok (<[h_doc h := h]> t).
Proof.
  intros Ht Htok Hv Ha d h' [[<- <-]|[_ ?]]%lookup_insert_Some; [|by apply Ht]. split; [done|].
  split; rewrite ?Htok, ?Hv, ?Ha; try done; by intros [? ?].
Qed.

Lemma set_lock_file_ok doc h lf pid comm g t :
  table_ok t → t !! doc = Some h → table_ok (<[doc := set_lock_file h lf pid comm g]> t).
Proof.
  intros Ht Hl d h' [[<- <-]|[_ ?]]%lookup_insert_Some; [|by apply Ht].
  destruct (Ht _ _ Hl) as [Hd [Hv Ha Hr Ho]]. split; [done|]. by split.
Qed.

(** Whether the entry still has no token where the snapshot had none: only the loop ever
    gives an entry a token. *)
Definition current (t : Table) (h : Held) : Prop :=
  ∀ e, t !! h_doc h = Some e → h_token h = None → h_token e = None.

(** The invariant while the lock on [d0] is being taken: all of it but [ok_vouched] there. *)
Definition core (d0 : PathBuf) (t : Table) : Prop :=
  ∀ doc h, t !! doc = Some h → h_doc h = doc ∧ (doc ≠ d0 → held_ok h) ∧
    held_ok (set_lock h (h_token h) (h_locked_at h) (h_refreshed_at h) false (h_ours h)).

Lemma table_core d0 t : table_ok t → core d0 t.
Proof.
  intros Ht doc h Hl. destruct (Ht _ _ Hl) as [Hd Hok]. split_and!; [done|done|].
  destruct Hok as [_ ? ? ?]. by split.
Qed.

Lemma core_table d0 t :
  core d0 t → (∀ h, t !! d0 = Some h → h_vouched h = true → is_Some (h_token h)) → table_ok t.
Proof.
  intros Hc Hv doc h Hl. destruct (Hc _ _ Hl) as (Hd & Hne & [_ ? ? ?]). split; [done|].
  destruct (decide (doc = d0)) as [->|]; [|by apply Hne]. split; [by apply Hv|done..].
Qed.

Lemma core_vouched d0 on t : core d0 t → core d0 (set_vouched d0 on t).
Proof.
  intros Hc doc h. unfold set_vouched. rewrite update_lookup. case_decide as Hd; [subst doc|apply Hc].
  intros (h0 & Hl & ->)%fmap_Some. destruct (Hc _ _ Hl) as (? & _ & [_ ? ? ?]). by split_and!.
Qed.

Lemma core_token d0 tk now t : core d0 t → core d0 (set_token d0 (Some tk) now t).
Proof.
  intros Hc doc h. unfold set_token. rewrite update_lookup. case_decide as Hd; [subst doc|apply Hc].
  intros (h0 & Hl & ->)%fmap_Some. destruct (Hc _ _ Hl) as (? & _ & [_ Ha Hr Ho]). simpl in *.
  destruct (bool_decide (h_token h0 = Some tk)) eqn:E; [apply bool_decide_eq_true in E|]; simpl;
    (split_and!; [done|done|]); split; simpl; rewrite ?E in *; eauto; split; eauto.
Qed.

Lemma take_lock_ok h now s :
  table_ok (a_table s) → (∀ e, a_table s !! h_doc h = Some e → h_token e = None) →
  table_ok (a_table (take_lock h now s)) ∧
  (∀ d, d ≠ h_doc h → a_table (take_lock h now s) !! d = a_table s !! d).
Proof.
  intros Ht Hn. unfold take_lock. set (d0 := h_doc h) in *.
  set (s0 := with_table (mark_refreshed d0 now) s).
  assert (H0 : table_ok (a_table s0)) by by apply mark_refreshed_ok.
  assert (Hn0 : ∀ e, a_table s0 !! d0 = Some e → h_token e = None).
  { intros e. unfold s0, mark_refreshed. simpl. rewrite update_lookup, decide_True by done.
    intros (e0 & He0 & ->)%fmap_Some. simpl. by apply Hn. }
  assert (Ho : ∀ d, d ≠ d0 → a_table s0 !! d = a_table s !! d).
  { intros d Hd. unfold s0, mark_refreshed. simpl. by rewrite update_lookup, decide_False. }
  clearbody s0. clear Ht Hn. pose proof (server_state_frame d0 s0) as (E & _).
  destruct (server_state d0 s0) as [[before|] s1]; simpl in E; [|by rewrite E].
  rewrite <- E in *. clear E s0.
  set (k := knows_version s1 d0 before.1.1).
  destruct (lock_file _ _ _ _) as [r w]. simpl.
  assert (Hc : core d0 (set_vouched d0 k (a_table s1))) by by apply core_vouched, table_core.
  destruct r as [token|e]; simpl.
  - set (s2 := with_table (set_token d0 (Some token) now) _).
    pose proof (adopt_frame d0 (Some before) s2) as E. destruct (adopt_lock_etag _ _ s2) as [ours s3].
    simpl in E |- *. rewrite E. split.
    + apply core_table with d0; [by apply core_vouched, core_token|].
      intros h' Hl _. revert Hl. unfold set_vouched, set_token.
      rewrite update_lookup, decide_True by done. intros (e1 & He1 & ->)%fmap_Some.
      rewrite update_lookup, decide_True in He1 by done. apply fmap_Some in He1 as (e2 & _ & ->). simpl. eauto.
    + intros d Hd. unfold set_vouched, set_token. rewrite !update_lookup, !decide_False by done. by apply Ho.
  - assert (Hfin : ∀ f, (∀ e, h_doc (f e) = h_doc e ∧ h_vouched (f e) = false) →
      (∀ e, h_token e = None → held_ok (set_lock e (h_token e) (h_locked_at e) (h_refreshed_at e) false (h_ours e)) → held_ok (f e)) →
      table_ok (update f d0 (set_vouched d0 k (a_table s1))) ∧
      ∀ d, d ≠ d0 → update f d0 (set_vouched d0 k (a_table s1)) !! d = a_table s !! d).
    { intros f Hf Hok. split.
      - intros d h'. rewrite update_lookup. case_decide as Hd; [subst d|].
        + intros (e0 & He0 & ->)%fmap_Some. destruct (Hc _ _ He0) as (Hdoc & _ & Hcore).
          rewrite (proj1 (Hf e0)). split; [done|]. apply Hok; [|done].
          unfold set_vouched in He0. rewrite update_lookup, decide_True in He0 by done.
          apply fmap_Some in He0 as (e2 & He2 & ->). simpl. by apply Hn0.
        + unfold set_vouched. rewrite update_lookup, decide_False by done. apply H0.
      - intros d Hd. unfold set_vouched. rewrite !update_lookup, !decide_False by done. by apply Ho. }
    destruct e; simpl; unfold set_vouched at 1, refused; apply Hfin; try done.
    intros e He [? ? ? ?]. simpl in *. split; simpl; try done. rewrite He. by intros [? ?].
Qed.

(** ** The loop among everything else *)

(** The loop works through a snapshot, entry by entry; meanwhile requests start tracking
    documents, drop tokens and see lock files deleted, and the rest of the client changes
    the cache, the journal, the versions and the server. *)
Record LState := { l_state : AState W; l_todo : list Held }.

Inductive lstep : LState → LState → Prop :=
| l_round s :
    lstep {| l_state := s; l_todo := [] |} {| l_state := s; l_todo := (map_to_list (a_table s)).*2 |}
| l_entry s h todo active online :
    lstep {| l_state := s; l_todo := h :: todo |} {| l_state := lock_step active online h s; l_todo := todo |}
| l_track s todo doc lf app pid :
    lstep {| l_state := s; l_todo := todo |} {| l_state := (track doc lf app pid s).2; l_todo := todo |}
| l_dropped s todo doc now :
    lstep {| l_state := s; l_todo := todo |} {| l_state := with_table (set_token doc None now) s; l_todo := todo |}
| l_lock_file_removed s todo lf now :
    lstep {| l_state := s; l_todo := todo |}
          {| l_state := with_table (lock_file_removed lf now) s; l_todo := todo |}
| l_other s todo c j u w :
    lstep {| l_state := s; l_todo := todo |}
          {| l_state := Build_AState (a_table s) c j u w; l_todo := todo |}.

Definition linv (x : LState) : Prop :=
  table_ok (a_table (l_state x)) ∧ Forall (current (a_table (l_state x))) (l_todo x) ∧
  Forall (λ h, is_Some (h_token h) ↔ is_Some (h_locked_at h)) (l_todo x) ∧ NoDup (h_doc <$> l_todo x).

(** A change of the table that gives no entry a token keeps the rest of the snapshot current. *)
Definition quiet (t t' : Table) : Prop :=
  ∀ doc e, t' !! doc = Some e → h_token e = None ∨ (∃ e0, t !! doc = Some e0 ∧ h_token e0 = h_token e).

Lemma quiet_current t t' l : quiet t t' → Forall (current t) l → Forall (current t') l.
Proof.
  intros Hq Hl. eapply Forall_impl; [exact Hl|]. intros h Hc e He Hn.
  destruct (Hq _ _ He) as [?|(e0 & He0 & <-)]; [done|]. by apply Hc.
Qed.

Lemma quiet_update f doc t : (∀ e, h_token (f e) = None ∨ h_token (f e) = h_token e) → quiet t (update f doc t).
Proof.
  intros Hf d e. rewrite update_lookup. case_decide; [|by right; eexists].
  intros (e0 & He0 & ->)%fmap_Some. destruct (Hf e0) as [?| ->]; [by left|right; by eexists].
Qed.

Lemma lock_file_removed_ok lf now t : table_ok t → table_ok (lock_file_removed lf now t) ∧ quiet t (lock_file_removed lf now t).
Proof.
  intros Ht. unfold lock_file_removed.
  destruct (find _ (map_to_list t)) as [[doc h]|] eqn:Ef; [|split; [done|intros d e ?; right; by eexists]].
  apply find_some in Ef as [Hin _]. apply list_elem_of_In, elem_of_map_to_list in Hin.
  split; [by apply set_lock_file_ok|].
  intros d e [[<- <-]|[_ He]]%lookup_insert_Some; right; by eexists.
Qed.

Lemma track_ok doc lf app pid s :
  table_ok (a_table s) → let t' := a_table (track doc lf app pid s).2 in table_ok t' ∧ quiet (a_table s) t'.
Proof.
  intros Ht. unfold track. destruct (tgid_of _ _) as [tgid|]; [|split; [done|intros d e ?; right; by eexists]].
  destruct (a_table s !! doc) as [e0|] eqn:E.
  - destruct (h_lock_file_gone_at e0); simpl; [|split; [done|intros d e ?; right; by eexists]].
    split; [by apply set_lock_file_ok|].
    intros d e [[<- <-]|[_ He]]%lookup_insert_Some; right; by eexists.
  - simpl. split.
    + set (h := Build_Held _ _ _ _ _ _ _ _ _ _ _). by apply (insert_fresh_ok h).
    + intros d e [[<- <-]|[_ He]]%lookup_insert_Some; [by left|right; by eexists].
Qed.

(** What one step of the loop does to the table: its own entry stays in order, the others
    stay as they are. *)
Lemma release_ok doc s : table_ok (a_table s) →
  table_ok (a_table (release_app_lock doc s)) ∧
  (∀ d, d ≠ doc → a_table (release_app_lock doc s) !! d = a_table s !! d) ∧
  (doc_writes_pending s doc = false → a_table (release_app_lock doc s) !! doc = None).
Proof.
  intros Ht. unfold release_app_lock, untrack. destruct (doc_writes_pending s doc); [done|].
  destruct (a_table s !! doc ≫= h_token) as [token|] eqn:E; simpl; rewrite ?E.
  - pose proof (server_state_frame doc (with_table (λ _, delete doc (a_table s)) s)) as (Et & _).
    destruct (server_state _ _) as [before s1]. simpl in Et. rewrite adopt_frame. simpl. rewrite Et.
    split_and!; [by apply delete_ok|by intros; apply lookup_delete_ne|intros; apply lookup_delete_eq].
  - split_and!; [by apply delete_ok|by intros; apply lookup_delete_ne|intros; apply lookup_delete_eq].
Qed.

Lemma keep_lock_ok h b s :
  table_ok (a_table s) → current (a_table s) h → (is_Some (h_token h) ↔ is_Some (h_locked_at h)) →
  table_ok (a_table (keep_lock h b s)) ∧
  (∀ d, d ≠ h_doc h → a_table (keep_lock h b s) !! d = a_table s !! d).
Proof.
  intros Ht Hc Hat. unfold keep_lock.
  assert (Hup : ∀ (s1 : AState W) f, a_table s1 = a_table s → table_ok (update f (h_doc h) (a_table s)) →
    table_ok (a_table (with_table (update f (h_doc h)) s1)) ∧
    ∀ d, d ≠ h_doc h → a_table (with_table (update f (h_doc h)) s1) !! d = a_table s !! d).
  { intros s1 f E Hok. simpl. rewrite E. split; [done|]. intros d Hd. by rewrite update_lookup, decide_False. }
  destruct (h_token h) as [token|] eqn:Etok; [destruct (h_locked_at h) as [at_|] eqn:Eat|].
  - destruct (_ <=? _)%Z.
    + pose proof (server_state_frame (h_doc h) s) as (Es & _). destruct (server_state _ _) as [before s1].
      simpl in Es. unfold set_token. apply Hup; [by rewrite adopt_frame|]. by apply (set_token_ok (h_doc h) None (mono (a_world s))).
    + destruct (refresh_lock _ _ _ _) as [r w]. destruct r as [?|[]]; try done.
      * unfold mark_refreshed. apply Hup; [done|]. by apply mark_refreshed_ok.
      * unfold set_token. apply Hup; [done|]. by apply (set_token_ok (h_doc h) None (mono (a_world s))).
  - destruct (proj1 Hat (mk_is_Some _ _ eq_refl)) as [? ?]. done.
  - destruct b; [done|]. apply take_lock_ok; [done|]. intros e He. by apply Hc.
Qed.

Lemma lock_step_ok active online h s :
  table_ok (a_table s) → current (a_table s) h → (is_Some (h_token h) ↔ is_Some (h_locked_at h)) →
  table_ok (a_table (lock_step active online h s)) ∧
  (∀ d, d ≠ h_doc h → a_table (lock_step active online h s) !! d = a_table s !! d).
Proof.
  intros Ht Hc Hat. unfold lock_step.
  match goal with |- context [if ?a then (true, s) else ?b] => set (chk := if a then (true, s) else b) end.
  assert (Hf : a_table chk.2 = a_table s).
  { unfold chk. destruct (_ || _); [done|]. apply file_gone_frame. }
  destruct chk as [b s1]. simpl in Hf. rewrite <- Hf in *.
  destruct (b && _ && _); [destruct (release_ok (h_doc h) s1 Ht) as (? & ? & _); done|].
  destruct (_ || _); [done|]. destruct (_ && _); [done|]. by apply keep_lock_ok.
Qed.

Lemma linv_step x y : linv x → lstep x y → linv y.
Proof.
  intros (Ht & Hc & Ha & Hn) Hs.
  destruct Hs as [s|s h todo active online|s todo doc lf app pid|s todo doc now|s todo lf now|s todo c j u w];
    unfold linv in *; simpl in *.
  - assert (Hdoc : ∀ h, h ∈ (map_to_list (a_table s)).*2 → a_table s !! h_doc h = Some h ∧ held_ok h).
    { intros h ([d h'] & -> & Hin%elem_of_map_to_list)%list_elem_of_fmap. simpl in *.
      by destruct (Ht _ _ Hin) as [-> ?]. }
    split; [done|]. split_and!.
    + apply Forall_forall. intros h [Hl _]%Hdoc e He Hnone. congruence.
    + apply Forall_forall. intros h [_ []]%Hdoc. done.
    + replace (h_doc <$> (map_to_list (a_table s)).*2) with (map_to_list (a_table s)).*1.
      * apply NoDup_fst_map_to_list.
      * rewrite <- list_fmap_compose. apply list_fmap_ext. intros i [d h] Hi. simpl.
        apply list_elem_of_lookup_2, elem_of_map_to_list in Hi. by destruct (Ht _ _ Hi) as [-> _].
  - apply Forall_cons in Hc as [Hh Hc]. apply Forall_cons in Ha as [Hha Ha].
    apply NoDup_cons in Hn as [Hnew Hn].
    destruct (lock_step_ok active online h s Ht Hh Hha) as [Ht' Hother]. split_and!; [done| |done|done].
    apply Forall_forall. intros h' Hin e He. rewrite Hother in He.
    + by apply (proj1 (Forall_forall _ _) Hc h' Hin).
    + intros Heq. apply Hnew. rewrite <- Heq. by apply list_elem_of_fmap_2.
  - destruct (track_ok doc lf app pid s Ht) as [? ?]. split_and!; [done|by eapply quiet_current|done|done].
  - split_and!; [by apply set_token_ok|eapply quiet_current; [|done]|done|done].
    apply quiet_update. intros e. by left.
  - destruct (lock_file_removed_ok lf now _ Ht) as [? ?]. split_and!; [done|by eapply quiet_current|done|done].
  - done.
Qed.

Lemma readopt_ok h t : table_ok t → table_ok (readopt h t).
Proof. intros Ht. unfold readopt. set (h' := Build_Held _ _ _ _ _ _ _ _ _ _ _). by apply (insert_fresh_ok h'). Qed.

Lemma adopt_previous_ok previous s : table_ok (a_table s) → table_ok (a_table (adopt_previous previous s)).
Proof.
  unfold adopt_previous. revert s. induction previous as [|h l IH]; intros s Ht; [done|]. cbn [foldl].
  apply IH. destruct (h_token h); (case_match; [|done]); by apply readopt_ok.
Qed.


(** What the loop decides about an entry before it acts. *)
Definition finished (active online : bool) (h : Held) (s : AState W) : bool * AState W :=
  let due := match h_refreshed_at h with None => true | Some t => (REFRESH_EVERY <=? elapsed s t)%Z end in
  let deleted := match h_lock_file_gone_at h with Some t => (LOCK_FILE_GRACE <=? elapsed s t)%Z | None => false end in
  if negb active || deleted || negb (process_alive s (h_pid h) (h_comm h)) then (true, s)
  else file_gone h due online s.

Lemma update_present f doc d t : is_Some (t !! d) → is_Some (update f doc t !! d).
Proof. intros [e He]. rewrite update_lookup, He. case_decide; by eexists. Qed.

Lemma take_lock_present h now s d :
  is_Some (a_table s !! d) → is_Some (a_table (take_lock h now s) !! d).
Proof.
  intros Hs. unfold take_lock, set_token, mark_refreshed, set_vouched, refused.
  match goal with |- context [server_state ?p ?x] =>
    pose proof (server_state_frame p x) as (Es & _); destruct (server_state p x) as [[before|] s1] end;
    simpl in *; [|rewrite Es; by apply update_present].
  destruct (lock_file _ _ _ _) as [r w]. destruct r as [token|err]; simpl.
  - match goal with |- context [adopt_lock_etag ?p ?b ?x] =>
      pose proof (adopt_frame p b x) as Ea; destruct (adopt_lock_etag p b x) as [ours s3] end.
    simpl in *. rewrite Ea, Es. by do 4 apply update_present.
  - destruct err; simpl; rewrite Es; by do 3 apply update_present.
Qed.

Lemma keep_lock_present h b s d :
  is_Some (a_table s !! d) → is_Some (a_table (keep_lock h b s) !! d).
Proof.
  intros Hs. unfold keep_lock, set_token, mark_refreshed.
  destruct (h_token h) as [token|]; [destruct (h_locked_at h) as [at_|]|].
  - destruct (_ <=? _)%Z.
    + pose proof (server_state_frame (h_doc h) s) as (Es & _). destruct (server_state _ _) as [before s1].
      simpl in *. apply update_present. rewrite adopt_frame. simpl. by rewrite Es.
    + destruct (refresh_lock _ _ _ _) as [r w]. destruct r as [?|[]]; try done; simpl; by apply update_present.
  - destruct b; [done|]. by apply take_lock_present.
  - destruct b; [done|]. by apply take_lock_present.
Qed.

(** A document's lock is given up exactly when nothing needs it any more: the feature is
    off or the daemon stops, or the lock file has been gone for its grace period (or gone
    from the server), or the program has exited; and the server can be told, or holds no
    lock; and no save of the document is on its way.  While a save is on its way the lock
    the save's requests carry stays: its token only goes when the server says the lock is
    gone. *)
Theorem app_lock_released_exact active online h e s :
  (is_Some (h_token h) ↔ is_Some (h_locked_at h)) → a_table s !! h_doc h = Some e →
  let t' := a_table (lock_step active online h s) in
  (t' !! h_doc h = None ↔
     (finished active online h s).1 = true ∧ (online = true ∨ h_token h = None) ∧
     doc_writes_pending s (h_doc h) = false) ∧
  (doc_writes_pending s (h_doc h) = true →
     ∃ e', t' !! h_doc h = Some e' ∧
       (h_token e' = h_token e ∨
        h_token e' = None ∧ ∃ tk d w, (refresh_lock (h_doc h) tk d w).1 = Err Conflict)).
Proof.
  intros Hat He t'. unfold t', lock_step. clear t'. fold (finished active online h s).
  assert (Hf : let s1 := (finished active online h s).2 in a_table s1 = a_table s ∧
            doc_writes_pending s1 (h_doc h) = doc_writes_pending s (h_doc h)).
  { unfold finished. destruct (_ || _); [done|].
    destruct (file_gone_frame h (match h_refreshed_at h with None => true | Some t => (REFRESH_EVERY <=? elapsed s t)%Z end) online s)
      as (? & ? & ? & ?). split; [done|]. by apply doc_writes_pending_same. }
  destruct (finished active online h s) as [b s1]. simpl in Hf. destruct Hf as [Ht Hp]. simpl.
  rewrite <- Ht in He. rewrite <- Hp. clear Ht Hp.
  assert (Hb : online || bool_decide (h_token h = None) = true ↔ online = true ∨ h_token h = None).
  { by rewrite orb_true_iff, bool_decide_eq_true. }
  destruct (b && (online || bool_decide (h_token h = None)) && negb (doc_writes_pending s1 (h_doc h))) eqn:Eb.
  - apply andb_true_iff in Eb as [[-> ?%Hb]%andb_true_iff Hn%negb_true_iff].
    assert (Hg : a_table (release_app_lock (h_doc h) s1) !! h_doc h = None).
    { unfold release_app_lock, untrack. rewrite Hn.
      destruct (a_table s1 !! h_doc h ≫= h_token) as [token|] eqn:E; simpl; rewrite ?E; [|apply lookup_delete_eq].
      pose proof (server_state_frame (h_doc h) (with_table (λ _, delete (h_doc h) (a_table s1)) s1)) as (Et & _).
      destruct (server_state _ _) as [before s2]. simpl in Et. rewrite adopt_frame. simpl. rewrite Et.
      apply lookup_delete_eq. }
    rewrite Hg, Hn. by split_and!.
  - assert (Hno : ¬ (b = true ∧ (online = true ∨ h_token h = None) ∧ doc_writes_pending s1 (h_doc h) = false)).
    { intros (-> & Ho%Hb & Hn). by rewrite Ho, Hn in Eb. }
    match goal with |- (a_table ?x !! _ = None ↔ _) ∧ _ => set (s' := x) end.
    assert (Hpres : is_Some (a_table s' !! h_doc h)).
    { assert (Hall : ∀ c1 c2 : bool,
        is_Some (a_table (if c1 then s1 else if c2 then s1 else keep_lock h b s1) !! h_doc h)); [|apply Hall].
      intros [] []; try (by exists e). apply keep_lock_present. by exists e. }
    split; [split; [intros Hnone; rewrite Hnone in Hpres; by destruct Hpres|done]|].
    intros Hw. unfold s'. clear s' Hpres Hno Eb. rewrite Hw, andb_true_r.
    destruct (negb online || _); [exists e; by auto|].
    destruct (bool_decide (h_token h = None) || _) eqn:Er; [exists e; by auto|].
    apply orb_false_iff in Er as [Er1%bool_decide_eq_false Er2]. unfold keep_lock.
    destruct (h_token h) as [token|]; [|done].
    destruct (h_locked_at h) as [at_|]; [|by destruct (proj1 Hat (mk_is_Some _ _ eq_refl))].
    unfold elapsed in Er2. rewrite Er2.
    destruct (refresh_lock (h_doc h) token (refresh_timeout at_ (mono (a_world s1))) (a_world s1)) as [r w] eqn:Eref.
    destruct r as [?|[]]; simpl; try (exists e; by auto);
      unfold mark_refreshed, set_token; rewrite update_lookup, decide_True, He by done; simpl; eexists; (split; [done|]).
    + by left.
    + right. split; [done|]. eexists _, _, _. by rewrite Eref.
Qed.

(** files_lock counts the timeout from when the lock was taken, so a refresh at [now] makes
    the lock last until [LOCK_TIMEOUT] after [now]. *)
Lemma refresh_timeout_spec at_ now : (at_ ≤ now → at_ + refresh_timeout at_ now = now + LOCK_TIMEOUT)%Z.
Proof. unfold refresh_timeout, sat_sub. lia. Qed.

(** A lock that is needed never expires between rounds: after a round that finds the
    program running and the server answering, the lock was refreshed less than
    [REFRESH_EVERY] before the round began, and with the timeout that makes it last until
    [LOCK_TIMEOUT] after that.  So while rounds follow each other within 40 seconds (the
    loop's own pause is two) the lock stays. *)
Theorem app_lock_refreshed active h at_ tk s :
  let s1 := (finished active true h s).2 in
  a_table s !! h_doc h = Some h → h_token h = Some tk → h_locked_at h = Some at_ → is_Some (h_refreshed_at h) →
  (at_ ≤ mono (a_world s))%Z → (mono (a_world s) ≤ mono (a_world s1) < at_ + APP_LOCK_RENEW_AFTER)%Z →
  (finished active true h s).1 = false →
  (∀ d w, (refresh_lock (h_doc h) tk d w).1 = Ok tt) →
  ∃ h' r, a_table (lock_step active true h s) !! h_doc h = Some h' ∧ h_token h' = Some tk ∧
    h_refreshed_at h' = Some r ∧ (mono (a_world s) < r + REFRESH_EVERY)%Z ∧
    (h_refreshed_at h ≠ Some r → at_ + refresh_timeout at_ r = r + LOCK_TIMEOUT)%Z.
Proof.
  intros s1 He Htok Hat [r0 Hr0] Hle Hm Hfin Hok. unfold lock_step. fold (finished active true h s).
  assert (Ht : a_table s1 = a_table s).
  { unfold s1, finished. destruct (_ || _); [done|]. apply file_gone_frame. }
  subst s1. destruct (finished active true h s) as [b s1]. simpl in *. subst b. simpl.
  rewrite Hr0, Htok, Hat. simpl. rewrite <- Ht in He.
  destruct (REFRESH_EVERY <=? elapsed s r0)%Z eqn:Edue; simpl.
  - unfold elapsed at 1. rewrite (proj2 (Z.leb_gt _ _)) by (unfold sat_sub, APP_LOCK_RENEW_AFTER, secs in *; lia).
    simpl. unfold keep_lock. rewrite Htok, Hat.
    rewrite (proj2 (Z.leb_gt _ _)) by (unfold sat_sub, APP_LOCK_RENEW_AFTER, secs in *; lia).
    destruct (refresh_lock _ _ _ _) as [r w] eqn:Er.
    pose proof (Hok (refresh_timeout at_ (mono (a_world s1))) (a_world s1)) as Ho. rewrite Er in Ho. simpl in Ho.
    subst r. simpl. unfold mark_refreshed. rewrite update_lookup, decide_True, He by done. simpl.
    eexists _, _. split_and!; [done|done|done|unfold REFRESH_EVERY, secs; lia|].
    intros _. apply refresh_timeout_spec. lia.
  - exists h, r0. split_and!; [done|done|done| |done].
    apply Z.leb_gt in Edue. unfold elapsed, sat_sub in Edue. lia.
Qed.
End locks.

(** ** Witnesses *)

(** A server whose answers are fixed, with the clock as its state. *)
#[local] Instance clock_server : CloudBackend Z := {|
  list_dir := λ _ w, (Ok (None, Some {| e_path := []; e_is_dir := false; e_size := 1; e_modified := None;
     e_change_token := Some "v1"%string; e_content_type := None; e_ext := ext_default |}, []), (w + 1)%Z);
  put_file := λ _ _ _ w, (Err Unsupported, w);
  mkdir := λ _ w, (Err Unsupported, w);
  delete_path := λ _ w, (Err Unsupported, w);
  rename := λ _ _ _ w, (Err Unsupported, w);
  lock_file := λ _ _ _ w, (Ok "t1"%string, (w + 1)%Z);
  refresh_lock := λ _ _ _ w, (Ok tt, (w + 1)%Z);
  unlock_file := λ _ _ w, (Ok tt, w);
  put_chunk := λ _ _ _ w, (Err Unsupported, w);
  finish_chunked_upload := λ _ _ _ _ _ w, (Err Unsupported, w);
  abort_chunked_upload := λ _ w, w;
|}.

Definition demo_doc : PathBuf := ["a.odt"%string].
Definition demo_held (token : option string) (at_ : option Instant) : Held :=
  {| h_doc := demo_doc; h_lock_file := [".~lock.a.odt#"%string]; h_app := "LibreOffice"; h_pid := 7; h_comm := "soffice";
     h_token := token; h_locked_at := at_; h_refreshed_at := at_; h_vouched := false;
     h_lock_file_gone_at := None; h_ours := bool_decide (is_Some token) |}.
Definition demo_locks (t : Table) (now : Z) : AState Z :=
  Build_AState t (Build_FsCache ∅ ∅ 2 ∅ 0 ∅ ∅ ∅ ∅ ∅ false 0) (load_or_create 0 ["j"%string] (Build_Disk None None ∅ true))
    no_uploads now.
Definition demo_comm (w : Z) (pid : nat) : option string := if pid =? 7 then Some "soffice"%string else None.
Definition demo_tracked : AState Z :=
  (track (λ _ p, Some p) demo_comm demo_doc [".~lock.a.odt#"%string] "LibreOffice" 7 (demo_locks ∅ 0)).2.


Lemma app_lock_released_exact_witness :
  a_table (lock_step (λ w, w) demo_comm (λ a, a) false true (demo_held (Some "t1"%string) (Some 0%Z))
             (demo_locks {[demo_doc := demo_held (Some "t1"%string) (Some 0%Z)]} 5)) !! demo_doc = None.
Proof.
  apply (app_lock_released_exact (λ w, w) demo_comm (λ a, a) false true (demo_held (Some "t1"%string) (Some 0%Z))
    (demo_held (Some "t1"%string) (Some 0%Z))
    (demo_locks {[demo_doc := demo_held (Some "t1"%string) (Some 0%Z)]} 5)).
  - split; intros _; eexists; reflexivity.
  - by vm_compute.
  - split; [by vm_compute|]. split; [by left|by vm_compute].
Defined.

Lemma app_lock_refreshed_witness :
  ∃ h' r, a_table (lock_step (λ w, w) demo_comm (λ a, a) true true (demo_held (Some "t1"%string) (Some 0%Z))
             (demo_locks {[demo_doc := demo_held (Some "t1"%string) (Some 0%Z)]} (secs 25))) !! demo_doc = Some h' ∧
    h_token h' = Some "t1"%string ∧ h_refreshed_at h' = Some r ∧ (secs 25 < r + REFRESH_EVERY)%Z ∧
    (h_refreshed_at (demo_held (Some "t1"%string) (Some 0%Z)) ≠ Some r → 0 + refresh_timeout 0 r = r + LOCK_TIMEOUT)%Z.
Proof.
  apply (app_lock_refreshed (λ w, w) demo_comm (λ a, a) true (demo_held (Some "t1"%string) (Some 0%Z)) 0 "t1"
    (demo_locks {[demo_doc := demo_held (Some "t1"%string) (Some 0%Z)]} (secs 25))).
  - by vm_compute.
  - done.
  - done.
  - by eexists.
  - by vm_compute.
  - vm_compute. by split.
  - by vm_compute.
  - done.
Defined.
