(* ===== verification/Attr.v ===== *)
(** [lib.rs], the attributes the mount reports: permission bits from Nextcloud's permission
    letters, and the attribute blocks of files and folders.

    Times are those of the entry (access, change and creation times repeat it); owner, device
    and block size are constants of the process and left out. *)
From Stdlib Require Import Ascii String.
From S2P Require Import Prelude Paths Backend FsCache Journal Versions AppLocks.
Local Open Scope Z_scope.

(** [perms.contains(c)]. *)
Definition contains (c : ascii) (s : string) : bool := existsb (Ascii.eqb c) (list_ascii_of_string s).

(** Octal modes. *)
Definition o755 : Z := 493.
Definition o644 : Z := 420.
Definition o555 : Z := 365.
Definition o444 : Z := 292.
Definition o222 : Z := 146.

(* lib.rs:4776-4800 perms_to_mode *)
Definition perms_to_mode (permissions : option string) (is_dir : bool) : Z :=
  match permissions with
  | Some (String _ _ as perms) =>
      let r := contains "G" perms in
      let w := if is_dir then contains "C" perms || contains "D" perms || contains "N" perms || contains "V" perms
               else contains "W" perms in
      if is_dir
      then match r, w with true, true => o755 | true, false => o555 | _, _ => 0 end
      else match r, w with true, true => o644 | true, false => o444 | _, _ => 0 end
  | _ => if is_dir then o755 else o644
  end.

Inductive FileType := Directory | RegularFile.
Record FileAttr := { at_ino : nat; at_size : Z; at_blocks : Z; at_mtime : SystemTime; at_kind : FileType;
                     at_perm : Z; at_nlink : Z }.

Definition UNIX_EPOCH : SystemTime := 0.

(** [honor] is the setting [honor_server_locks], [locks] the locks this mount holds; the mode
    is a [u16]. *)
(* lib.rs:4814-4835 make_file_attr *)
Definition make_file_attr (honor : bool) (locks : Table) (inode : nat) (entry : RemoteEntry) : FileAttr :=
  let modified := default UNIX_EPOCH (e_modified entry) in
  let read_only := negb (e_is_dir entry) && bool_decide (is_Some (locked_by (e_ext entry))) && honor
                   && negb (holds locks (e_path entry)) in
  {| at_ino := inode; at_size := e_size entry; at_blocks := (e_size entry + 511) / 512;
     at_mtime := modified; at_kind := if e_is_dir entry then Directory else RegularFile;
     at_perm := Z.land (perms_to_mode (permissions (e_ext entry)) (e_is_dir entry))
                  (if read_only then 65535 - o222 else 65535);
     at_nlink := if e_is_dir entry then 2 else 1 |}.

(* lib.rs:4837-4855 make_dir_attr *)
Definition make_dir_attr (inode : nat) : FileAttr :=
  {| at_ino := inode; at_size := 0; at_blocks := 0; at_mtime := UNIX_EPOCH; at_kind := Directory;
     at_perm := o755; at_nlink := 2 |}.

(* lib.rs:4860-4878 make_unknown_file_attr *)
Definition make_unknown_file_attr (inode : nat) (size : Z) : FileAttr :=
  {| at_ino := inode; at_size := size; at_blocks := (size + 511) / 512; at_mtime := UNIX_EPOCH;
     at_kind := RegularFile; at_perm := o644; at_nlink := 1 |}.

(* lib.rs:4880-4898 root_attr *)
Definition root_attr : FileAttr := make_dir_attr 1.

(** ** What the bits say *)

Definition readable (a : FileAttr) : bool := Z.testbit (at_perm a) 8.
Definition writable (a : FileAttr) : bool := Z.testbit (at_perm a) 7.

Lemma land_full m : 0 ≤ m < 65536 → Z.land m 65535 = m.
Proof. intros ?. change 65535 with (Z.ones 16). rewrite Z.land_ones by lia. by apply Z.mod_small. Qed.

(** The reported mode tells the truth about what the server allows.  A file is reported
    writable only when the server grants reading and writing (or grants were not listed)
    and nobody else's lock on it is honoured; a file that lists grants without reading is
    reported with no access at all; no group or other user ever gets write access, and a
    folder is searchable exactly when it is readable. *)
Theorem file_mode_faithful honor locks ino e :
  let a := make_file_attr honor locks ino e in
  let grants c := match permissions (e_ext e) with Some (String _ _ as p) => contains c p | _ => true end in
  readable a = grants "G"%char ∧
  (e_is_dir e = false →
     writable a = grants "G"%char && grants "W"%char
                  && negb (bool_decide (is_Some (locked_by (e_ext e))) && honor && negb (holds locks (e_path e)))) ∧
  (e_is_dir e = true → Z.testbit (at_perm a) 6 = readable a) ∧
  Z.testbit (at_perm a) 4 = false ∧ Z.testbit (at_perm a) 1 = false.
Proof.
  unfold readable, writable, make_file_attr, perms_to_mode. cbn [at_perm].
  destruct (permissions (e_ext e)) as [[|ch p]|];
    destruct (e_is_dir e); cbn [negb andb];
    destruct (bool_decide (is_Some (locked_by (e_ext e)))), honor, (holds locks (e_path e)); cbn [andb negb];
    repeat match goal with |- context [contains ?c ?s] => destruct (contains c s); cbn [andb orb] end;
    split_and!; by vm_compute.
Qed.
