(* ===== verification/PathSeq.v ===== *)
(** [path_seq.rs]: per-path FIFO ordering of server mutations.

    A worker takes a ticket on the paths its operation changes, in operation order, waits
    until the ticket is [ready], talks to the server and drops the ticket.  [world] is the
    sequencer's state with the tickets its clients hold; [step] issues or drops one. *)
From S2P Require Import Prelude Paths KeyedFifo.

Abbreviation Access := Mode.

(* path_seq.rs:21-24 State *)
Record State := {
  next_id : nat;
  queues : gmap PathBuf (list (nat * Access));
}.

(* path_seq.rs:32-36 Ticket *)
Record Ticket := { t_id : nat; t_paths : list (PathBuf * Access) }.

Definition init : State := {| next_id := 0; queues := ∅ |}.

(* path_seq.rs:40-59 PathSeq::ticket *)
Definition ticket (st : State) (paths : list (PathBuf * Access)) : Ticket * State :=
  let merged := merge_keys paths in
  let id := S (next_id st) in
  ({| t_id := id; t_paths := merged |},
   {| next_id := id; queues := push_all id merged (queues st) |}).

(* path_seq.rs:63-70 Ticket::ready *)
Definition ready (st : State) (t : Ticket) : bool := ready_on (queues st) (t_id t) (t_paths t).

(** [q.retain(..)] on one path's queue, which goes away once empty. *)
(* path_seq.rs:96-103 Ticket::drop *)
Definition drop_path (id : nat) (qs : gmap PathBuf (list (nat * Access))) (p : PathBuf) :
    gmap PathBuf (list (nat * Access)) :=
  match qs !! p with
  | None => qs
  | Some q =>
      match List.filter (λ e, negb (e.1 =? id)) q with
      | [] => delete p qs
      | q' => <[p := q']> qs
      end
  end.

(* path_seq.rs:92-104 Ticket::drop *)
Definition drop_ticket (st : State) (t : Ticket) : State :=
  {| next_id := next_id st;
     queues := foldl (drop_path (t_id t)) (queues st) (t_paths t).*1 |}.

(** ** Clients *)

(** A live ticket with the paths it was asked for. *)
Record Client := { c_ticket : Ticket; c_asked : list (PathBuf * Access) }.

Inductive step : State * list Client → State * list Client → Prop :=
| step_take st live asked t st' :
    ticket st asked = (t, st') →
    step (st, live) (st', live ++ [{| c_ticket := t; c_asked := asked |}])
| step_drop st l1 c l2 :
    step (st, l1 ++ c :: l2) (drop_ticket st (c_ticket c), l1 ++ l2).

Definition reachable (w : State * list Client) : Prop := star step (init, []) w.

(** ** Invariant: the queues are the projection of the live tickets *)

Definition item (c : Client) : nat * list (PathBuf * Access) :=
  (t_id (c_ticket c), t_paths (c_ticket c)).

Definition wf (w : State * list Client) : Prop :=
  let '(st, live) := w in
  rep (item <$> live) (queues st) ∧
  increasing (item <$> live).*1 ∧
  (∀ c, c ∈ live → t_id (c_ticket c) ≤ next_id st ∧ t_paths (c_ticket c) = merge_keys (c_asked c)).

Lemma drop_path_rep id k m ks l1 l2 qs :
  NoDup ((k, m) :: ks).*1 → id ∉ l1.*1 → id ∉ l2.*1 →
  rep (l1 ++ (id, (k, m) :: ks) :: l2) qs →
  rep (l1 ++ (id, ks) :: l2) (drop_path id qs k).
Proof.
  intros Hnd H1 H2 Hr k'. unfold drop_path. rewrite (Hr k).
  pose proof (queue_of_retain k id m ks l1 l2 Hnd H1 H2) as Hq.
  destruct (decide (k = k')) as [<-|Hne].
  - unfold nonempty at 1. destruct (queue_of k (l1 ++ (id, (k, m) :: ks) :: l2)) eqn:E.
    + simpl in Hq. rewrite <- Hq. simpl. by rewrite (Hr k), E.
    + rewrite Hq. destruct (queue_of k (l1 ++ (id, ks) :: l2)).
      * apply lookup_delete_eq.
      * apply lookup_insert_eq.
  - rewrite (queue_of_drop_other k k' id m ks) by done. rewrite <- (Hr k').
    repeat case_match; by rewrite ?lookup_delete_ne, ?lookup_insert_ne.
Qed.

Lemma drop_paths_rep id ks l1 l2 qs :
  NoDup ks.*1 → id ∉ l1.*1 → id ∉ l2.*1 →
  rep (l1 ++ (id, ks) :: l2) qs →
  rep (l1 ++ l2) (foldl (drop_path id) qs ks.*1).
Proof.
  revert qs. induction ks as [|[k m] ks IH]; intros qs Hnd H1 H2 Hr.
  - intros k. cbn. rewrite (Hr k). by rewrite queue_of_no_keys.
  - simpl. apply IH; [by apply NoDup_cons in Hnd as [_ ?]|done|done|].
    by apply (drop_path_rep id k m).
Qed.

Lemma wf_step w w' : wf w → step w w' → wf w'.
Proof.
  intros Hwf Hs. destruct Hs as [st live asked t st' Ht|st l1 c l2].
  - destruct Hwf as (Hr & Hinc & Hall). injection Ht as <- <-. split_and!.
    + rewrite fmap_app. simpl. apply push_all_rep; [apply merge_keys_NoDup|done].
    + rewrite !fmap_app. simpl. apply increasing_app. split; [done|].
      split; [repeat constructor|].
      intros a b (? & -> & (c & -> & Hc)%list_elem_of_fmap)%list_elem_of_fmap Hb.
      apply list_elem_of_singleton in Hb as ->. simpl.
      destruct (Hall c Hc). lia.
    + intros c [Hc|Hc%list_elem_of_singleton]%elem_of_app; [|subst c; by split].
      destruct (Hall c Hc). split; [simpl; lia|done].
  - destruct Hwf as (Hr & Hinc & Hall). rewrite !fmap_app, !fmap_cons in *.
    pose proof (increasing_NoDup _ Hinc) as Hnd.
    apply increasing_app in Hinc as (Hi1 & [Hi2 Hf2]%StronglySorted_inv & Hlt).
    apply NoDup_app in Hnd as (_ & Hn1 & [Hn2 _]%NoDup_cons).
    split_and!.
    + rewrite fmap_app. apply (drop_paths_rep _ (t_paths (c_ticket c))); try done.
      * rewrite (proj2 (Hall c ltac:(set_solver))). apply merge_keys_NoDup.
      * intros Hin. by apply (Hn1 _ Hin), elem_of_cons; left.
    + rewrite !fmap_app. apply increasing_app. split; [done|]. split; [done|].
      intros a b Ha Hb. apply Hlt; [done|]. by right.
    + intros c' Hc'. apply Hall. set_solver.
Qed.

Lemma reachable_wf w : reachable w → wf w.
Proof.
  intros Hr. eapply star_invariant; [apply wf_step|exact Hr|].
  split_and!; [apply rep_nil|constructor|]. by intros c ?%elem_of_nil.
Qed.

(** A live ticket is ready exactly when no live ticket issued before it conflicts. *)
Lemma wf_ready_iff st l1 c l2 :
  wf (st, l1 ++ c :: l2) →
  ready st (c_ticket c) = true ↔ ∀ c', c' ∈ l1 → ¬ conflict (c_asked c') (c_asked c).
Proof.
  intros (Hr & Hinc & Hall). rewrite !fmap_app, !fmap_cons in *.
  apply increasing_NoDup, NoDup_app in Hinc as (_ & Hn1 & _).
  assert (Hm : ∀ c', c' ∈ l1 ++ c :: l2 → t_paths (c_ticket c') = merge_keys (c_asked c'))
    by (intros; by apply Hall).
  unfold ready. rewrite (ready_on_iff _ _ _ (item <$> l1) (item <$> l2)); last done.
  - split.
    + intros Hno c' Hc' Hcf. apply (Hno (item c')); [by apply list_elem_of_fmap_2|]. simpl.
      rewrite !Hm by set_solver. by apply merge_keys_conflict.
    + intros Hno t (c' & -> & Hc')%list_elem_of_fmap Hcf. apply (Hno c' Hc'). simpl in Hcf.
      rewrite !Hm in Hcf by set_solver. by apply (proj1 (merge_keys_conflict _ _)).
  - apply Forall_fmap, Forall_forall. intros c' Hc'. simpl.
    rewrite Hm by set_solver. apply merge_keys_NoDup.
  - rewrite Hm by set_solver. apply merge_keys_NoDup.
  - intros Hin. by apply (Hn1 _ Hin); left.
Qed.

(** ** Theorems *)

(** C18: Mutual exclusion and order of server mutations: two live tickets that are both
    ready never ask for conflicting access to one path, and if a ready ticket conflicts
    with another live one, that other one was issued later. *)
Theorem path_seq_exclusion st l1 c1 l2 c2 l3 :
  reachable (st, l1 ++ c1 :: l2 ++ c2 :: l3) →
  conflict (c_asked c1) (c_asked c2) → ready st (c_ticket c2) = false.
Proof.
  intros Hwf%reachable_wf Hc. apply not_true_iff_false. intros Hr.
  replace (l1 ++ c1 :: l2 ++ c2 :: l3) with ((l1 ++ c1 :: l2) ++ c2 :: l3) in Hwf
    by by rewrite <- app_assoc.
  rewrite (wf_ready_iff _ _ _ _ Hwf) in Hr. apply (Hr c1); [|done].
  apply elem_of_app. right. left.
Qed.

(** Deadlock freedom: whenever tickets are live, one of them, the oldest, is ready
    (so waits cannot form a cycle), and once none is live no queue is left behind. *)
Theorem path_seq_progress st live :
  reachable (st, live) →
  match live with
  | [] => queues st = ∅
  | oldest :: _ => ready st (c_ticket oldest) = true
  end.
Proof.
  intros Hwf%reachable_wf. destruct live as [|c live].
  - destruct Hwf as (Hr & _). apply map_eq. intros k. rewrite (Hr k). by rewrite lookup_empty.
  - apply (wf_ready_iff st [] c live); [done|]. by intros c' ?%elem_of_nil.
Qed.

(** ** Witnesses: an upload of [/d/a] behind a move of [/d]. *)

Definition d : PathBuf := ["d"%string].
Definition a : PathBuf := ["d"%string; "a"%string].
Definition ex_put := [(a, Exclusive); (d, Shared)].
Definition ex_rmdir := [(d, Shared); (d, Exclusive)].
Definition ex1 := ticket init ex_put.
Definition ex2 := ticket ex1.2 ex_rmdir.
Definition ex_world : State * list Client :=
  (ex2.2, [{| c_ticket := ex1.1; c_asked := ex_put |}; {| c_ticket := ex2.1; c_asked := ex_rmdir |}]).

Lemma ex_reachable : reachable ex_world.
Proof.
  eapply star_snoc; [eapply star_snoc; [apply star_refl|]|].
  - by apply (step_take init [] ex_put).
  - by apply (step_take ex1.2 [{| c_ticket := ex1.1; c_asked := ex_put |}] ex_rmdir).
Defined.

Lemma path_seq_exclusion_witness : ready ex_world.1 ex2.1 = false.
Proof.
  apply (path_seq_exclusion ex_world.1 [] {| c_ticket := ex1.1; c_asked := ex_put |} []
           {| c_ticket := ex2.1; c_asked := ex_rmdir |} []).
  - exact ex_reachable.
  - exists d, Shared, Exclusive. split; [right; left|]. split; [right; left|]. reflexivity.
Defined.

Lemma path_seq_progress_witness : ready ex_world.1 ex1.1 = true.
Proof. exact (path_seq_progress _ _ ex_reachable). Defined.
