(* ===== verification/Bg.v ===== *)
(** [bg.rs], the thread pools: submission, the workers' loop, and the budgets of threads.

    A pool's mutex makes every stretch that holds it one step; a worker between two steps is
    running its job, being started by the OS, or waiting out [linger].  [assigned] and [lost]
    record what happened to the jobs and are not state of the code.  At the end the mutation
    pool runs jobs that hold [PathSeq] tickets. *)
From S2P Require Import Prelude KeyedFifo Paths PathSeq.

(** ** One pool *)

(** [linger]: the pool's idle workers wait for more work. *)
(* bg.rs:31-39 Pool *)
Record Pool := { max_workers : nat; queue_cap : N; linger : bool }.

Section pool.
Context {J : Type} (p : Pool).

(* bg.rs:41-51 State *)
Record State := {
  active : nat;
  idle : nat;
  queue : list J;
  peak_active : nat;
  peak_queued : nat;
  rejected : nat;
  completed : nat;
  panicked : nat;
}.

(* bg.rs:82-100 Pool::new *)
Definition new : State :=
  {| active := 0; idle := 0; queue := []; peak_active := 0; peak_queued := 0; rejected := 0; completed := 0; panicked := 0 |}.

Definition set_queue (st : State) (q : list J) (peak : nat) : State :=
  {| active := active st; idle := idle st; queue := q; peak_active := peak_active st; peak_queued := peak;
     rejected := rejected st; completed := completed st; panicked := panicked st |}.
Definition set_workers (st : State) (a i : nat) : State :=
  {| active := a; idle := i; queue := queue st; peak_active := peak_active st; peak_queued := peak_queued st;
     rejected := rejected st; completed := completed st; panicked := panicked st |}.
Definition start_one (st : State) : State :=
  {| active := S (active st); idle := idle st; queue := queue st; peak_active := max (peak_active st) (S (active st));
     peak_queued := peak_queued st; rejected := rejected st; completed := completed st; panicked := panicked st |}.
Definition reject (st : State) : State :=
  {| active := active st; idle := idle st; queue := queue st; peak_active := peak_active st; peak_queued := peak_queued st;
     rejected := S (rejected st); completed := completed st; panicked := panicked st |}.
Definition count_done (st : State) (panic : bool) : State :=
  {| active := active st; idle := idle st; queue := queue st; peak_active := peak_active st; peak_queued := peak_queued st;
     rejected := rejected st; completed := S (completed st); panicked := (if panic then S else id) (panicked st) |}.

(** [Start]: the caller starts a worker for the job. *)
Inductive Submitted := Queued | Start | Refused.

(* bg.rs:116-145 Pool::submit *)
Definition submit (job : J) (st : State) : Submitted * State :=
  if length (queue st) <? idle st then (Queued, set_queue st (queue st ++ [job]) (peak_queued st))
  else if active st <? max_workers p then (Start, start_one st)
  else if (N.of_nat (length (queue st)) <? queue_cap p)%N then
    let q := queue st ++ [job] in (Queued, set_queue st q (max (peak_queued st) (length q)))
  else (Refused, reject st).

(** The OS is out of threads. *)
(* bg.rs:177-184 Pool::start_worker *)
Definition start_failed (st : State) : State := reject (set_workers st (pred (active st)) (idle st)).

(** The next job, or the worker's slot is given back. *)
(* bg.rs:218-225 Pool::work *)
Definition take_next (st : State) : option J * State :=
  match queue st with
  | j :: q => (Some j, set_queue st q (peak_queued st))
  | [] => (None, set_workers st (pred (active st)) (idle st))
  end.

Inductive Next := Linger | Run (job : J) | Exit.
Definition of_next (o : option J) : Next := match o with Some j => Run j | None => Exit end.

(* bg.rs:203-225 Pool::work *)
Definition job_done (panic : bool) (st : State) : Next * State :=
  let st := count_done st panic in
  if bool_decide (queue st = []) && linger p then (Linger, set_workers st (active st) (S (idle st)))
  else let '(o, st) := take_next st in (of_next o, st).

(** A job was queued, or the wait timed out. *)
(* bg.rs:212-225 Pool::work *)
Definition wake_up (st : State) : Next * State :=
  let '(o, st) := take_next (set_workers st (active st) (pred (idle st))) in (of_next o, st).

(** *** Workers *)

Inductive Worker := Starting (job : J) | Running (job : J) | Waiting.

Definition job_of (w : Worker) : option J := match w with Starting j | Running j => Some j | Waiting => None end.
Definition after (n : Next) : list Worker :=
  match n with Linger => [Waiting] | Run j => [Running j] | Exit => [] end.
Definition handed (n : Next) : list J := match n with Run j => [j] | _ => [] end.

Record World := {
  st : State;
  workers : list Worker;
  submitted : list J;
  assigned : list J;
  finished : list J;
  lost : list J;
}.

Inductive pool_step : World → World → Prop :=
| ps_queued w j s : submit j (st w) = (Queued, s) →
    pool_step w {| st := s; workers := workers w; submitted := submitted w ++ [j]; assigned := assigned w;
                   finished := finished w; lost := lost w |}
| ps_start w j s : submit j (st w) = (Start, s) →
    pool_step w {| st := s; workers := Starting j :: workers w; submitted := submitted w ++ [j];
                   assigned := assigned w ++ [j]; finished := finished w; lost := lost w |}
| ps_refused w j s : submit j (st w) = (Refused, s) →
    pool_step w {| st := s; workers := workers w; submitted := submitted w; assigned := assigned w;
                   finished := finished w; lost := lost w |}
| ps_spawned w l1 j l2 : workers w = l1 ++ Starting j :: l2 →
    pool_step w {| st := st w; workers := l1 ++ Running j :: l2; submitted := submitted w; assigned := assigned w;
                   finished := finished w; lost := lost w |}
| ps_spawn_failed w l1 j l2 : workers w = l1 ++ Starting j :: l2 →
    pool_step w {| st := start_failed (st w); workers := l1 ++ l2; submitted := submitted w; assigned := assigned w;
                   finished := finished w; lost := lost w ++ [j] |}
| ps_done w l1 j l2 panic n s : workers w = l1 ++ Running j :: l2 → job_done panic (st w) = (n, s) →
    pool_step w {| st := s; workers := l1 ++ after n ++ l2; submitted := submitted w;
                   assigned := assigned w ++ handed n; finished := finished w ++ [j]; lost := lost w |}
| ps_wake w l1 l2 n s : workers w = l1 ++ Waiting :: l2 → wake_up (st w) = (n, s) →
    pool_step w {| st := s; workers := l1 ++ after n ++ l2; submitted := submitted w;
                   assigned := assigned w ++ handed n; finished := finished w; lost := lost w |}.

Definition pool_start : World :=
  {| st := new; workers := []; submitted := []; assigned := []; finished := []; lost := [] |}.
Definition pool_reachable (w : World) : Prop := star pool_step pool_start w.

(** *** What holds in every reachable state *)

Definition is_waiting (w : Worker) : bool := match w with Waiting => true | _ => false end.
Definition waiting (l : list Worker) : nat := length (List.filter is_waiting l).
Definition busy (l : list Worker) : list J := omap job_of l.

Lemma waiting_app l1 l2 : waiting (l1 ++ l2) = waiting l1 + waiting l2.
Proof. unfold waiting. by rewrite List.filter_app, length_app. Qed.
Lemma busy_app l1 l2 : busy (l1 ++ l2) = busy l1 ++ busy l2.
Proof. apply omap_app. Qed.

(** [inv_full]: while no worker failed to start, a job waits in the queue only for a lingering
    worker of its own or because every worker slot is taken. *)
Record pool_inv (w : World) : Prop := {
  inv_active : active (st w) = length (workers w);
  inv_idle : idle (st w) = waiting (workers w);
  inv_linger : linger p = false → idle (st w) = 0;
  inv_max : active (st w) ≤ peak_active (st w) ≤ max_workers p;
  inv_queue : length (queue (st w)) ≤ max (N.to_nat (queue_cap p)) (idle (st w));
  inv_jobs : submitted w ≡ₚ finished w ++ lost w ++ busy (workers w) ++ queue (st w);
  inv_done : completed (st w) = length (finished w);
  inv_full : lost w = [] → idle (st w) < length (queue (st w)) → active (st w) = max_workers p;
  inv_fifo : linger p = false → lost w = [] → submitted w = assigned w ++ queue (st w);
}.
Lemma waiting_cons x l : waiting (x :: l) = (if is_waiting x then 1 else 0) + waiting l.
Proof. by destruct x. Qed.
Lemma busy_cons x l : busy (x :: l) = (match job_of x with Some j => [j] | None => [] end) ++ busy l.
Proof. by destruct x. Qed.

Lemma start_inv : pool_inv pool_start.
Proof. by split; simpl; try lia. Qed.

Ltac pool_lists :=
  repeat (rewrite ?waiting_app, ?busy_app, ?length_app, ?waiting_cons, ?busy_cons in *; simpl in *).

Lemma submit_inv w j r s l :
  pool_inv w → submit j (st w) = (r, s) →
  l = (match r with Start => [Starting j] | _ => [] end) →
  pool_inv {| st := s; workers := l ++ workers w;
              submitted := submitted w ++ (match r with Refused => [] | _ => [j] end);
              assigned := assigned w ++ (match r with Start => [j] | _ => [] end);
              finished := finished w; lost := lost w |}.
Proof.
  intros [H1 H2 H3 H4 H5 H6 H7 H8 H9] Hs ->. unfold submit in Hs.
  destruct (Nat.ltb_spec (length (queue (st w))) (idle (st w))).
  { injection Hs as <- <-. split; simpl; rewrite ?length_app; simpl; try done; try lia.
    - rewrite H6. solve_Permutation.
    - intros Hl. specialize (H3 Hl). lia. }
  destruct (Nat.ltb_spec (active (st w)) (max_workers p)).
  { injection Hs as <- <-. split; simpl; try done; try lia.
    - rewrite H6. solve_Permutation.
    - intros Hl Hi. specialize (H8 Hl Hi). lia.
    - intros Hl Hlost. assert (queue (st w) = []) as Hq.
      { apply nil_length_inv. specialize (H3 Hl). destruct (decide (length (queue (st w)) = 0)); [done|].
        assert (active (st w) = max_workers p) by (apply H8; [done|lia]). lia. }
      rewrite (H9 Hl Hlost), Hq. by rewrite !app_nil_r. }
  destruct (N.ltb_spec (N.of_nat (length (queue (st w)))) (queue_cap p)).
  { injection Hs as <- <-. split; simpl; rewrite ?length_app; simpl; try done; try lia.
    - rewrite H6. solve_Permutation.
    - intros Hl Hlost. rewrite (H9 Hl Hlost), app_nil_r. by rewrite app_assoc. }
  injection Hs as <- <-. rewrite !app_nil_r. by split.
Qed.

(** What a worker that is free again finds. *)
Lemma take_next_cases (s : State) :
  match take_next s with
  | (Some j, s') => queue s = j :: queue s' ∧ active s' = active s ∧ idle s' = idle s
  | (None, s') => queue s = [] ∧ queue s' = [] ∧ active s' = pred (active s) ∧ idle s' = idle s
  end ∧ let s' := (take_next s).2 in peak_active s' = peak_active s ∧ completed s' = completed s.
Proof. unfold take_next. by destruct (queue s) eqn:E. Qed.

Ltac pool_arith :=
  try done; try lia;
  try (intros; repeat match goal with H : ?P → _, H' : ?P |- _ => specialize (H H') end; lia).

Lemma done_inv w l1 j l2 panic n s :
  pool_inv w → workers w = l1 ++ Running j :: l2 → job_done panic (st w) = (n, s) →
  pool_inv {| st := s; workers := l1 ++ after n ++ l2; submitted := submitted w;
              assigned := assigned w ++ handed n; finished := finished w ++ [j]; lost := lost w |}.
Proof.
  intros [H1 H2 H3 H4 H5 H6 H7 H8 H9] Hw Hd. rewrite Hw in *. pool_lists. unfold job_done in Hd.
  change (queue (count_done (st w) panic)) with (queue (st w)) in Hd.
  assert (Hperm : ∀ rest, queue (st w) = rest → submitted w ≡ₚ (finished w ++ [j]) ++ lost w ++ (busy l1 ++ busy l2) ++ rest).
  { intros rest <-. rewrite H6. unfold busy. simpl. solve_Permutation. }
  destruct (bool_decide (queue (st w) = []) && linger p) eqn:Eb.
  { apply andb_true_iff in Eb as [Eq%bool_decide_eq_true El]. injection Hd as <- <-.
    split; simpl; pool_lists; rewrite ?Eq; simpl; try done; try lia.
    - by rewrite El.
    - by apply Hperm.
    - by rewrite El. }
  pose proof (take_next_cases (count_done (st w) panic)) as [Ht [Hp Hc]].
  destruct (take_next (count_done (st w) panic)) as [[j'|] s'] eqn:Et; injection Hd as <- <-; simpl in Hp, Hc.
  - destruct Ht as (Hq & Ha & Hi). simpl in Hq, Ha, Hi. split; simpl; pool_lists; rewrite ?Hq in *; simpl in *; pool_arith.
    + rewrite (Hperm _ eq_refl). solve_Permutation.
    + intros Hl Hlost. rewrite (H9 Hl Hlost). simpl. by rewrite <- app_assoc.
  - destruct Ht as (Hq & Hq' & Ha & Hi). simpl in Hq, Ha, Hi. split; simpl; pool_lists; rewrite ?Hq, ?Hq' in *; simpl in *; pool_arith.
    + by rewrite (Hperm _ eq_refl).
    + intros Hl Hlost. rewrite (H9 Hl Hlost). by rewrite !app_nil_r.
Qed.

Lemma wake_inv w l1 l2 n s :
  pool_inv w → workers w = l1 ++ Waiting :: l2 → wake_up (st w) = (n, s) →
  pool_inv {| st := s; workers := l1 ++ after n ++ l2; submitted := submitted w;
              assigned := assigned w ++ handed n; finished := finished w; lost := lost w |}.
Proof.
  intros [H1 H2 H3 H4 H5 H6 H7 H8 H9] Hw Hd. rewrite Hw in *. pool_lists. unfold wake_up in Hd.
  assert (linger p = true) as El by (destruct (linger p) eqn:E; [done|]; specialize (H3 eq_refl); lia).
  set (s0 := set_workers (st w) (active (st w)) (pred (idle (st w)))) in Hd.
  pose proof (take_next_cases s0) as [Ht [Hp Hc]].
  destruct (take_next s0) as [[j'|] s'] eqn:Et; injection Hd as <- <-; simpl in Hp, Hc.
  - destruct Ht as (Hq & Ha & Hi). simpl in Hq, Ha, Hi. split; simpl; pool_lists; rewrite ?Hq in *; simpl in *; pool_arith.
    rewrite H6. unfold busy. simpl. solve_Permutation.
  - destruct Ht as (Hq & Hq' & Ha & Hi). simpl in Hq, Ha, Hi. split; simpl; pool_lists; rewrite ?Hq, ?Hq' in *; simpl in *; pool_arith.
Qed.

Lemma pool_step_inv w w' : pool_inv w → pool_step w w' → pool_inv w'.
Proof.
  intros Hi Hs. destruct Hs as [w j s Es|w j s Es|w j s Es|w l1 j l2 Hw|w l1 j l2 Hw|w l1 j l2 panic n s Hw Hd|w l1 l2 n s Hw Hd].
  - pose proof (submit_inv w j _ s [] Hi Es eq_refl) as Hr. simpl in Hr. by rewrite app_nil_r in Hr.
  - exact (submit_inv w j _ s [Starting j] Hi Es eq_refl).
  - pose proof (submit_inv w j _ s [] Hi Es eq_refl) as Hr. simpl in Hr. by rewrite !app_nil_r in Hr.
  - destruct Hi as [H1 H2 H3 H4 H5 H6 H7 H8 H9]. rewrite Hw in *. split; simpl; try done; by pool_lists.
  - destruct Hi as [H1 H2 H3 H4 H5 H6 H7 H8 H9]. rewrite Hw in *. pool_lists.
    split; simpl; pool_lists; try done; try lia.
    + rewrite H6. unfold busy. simpl. solve_Permutation.
    + by destruct (lost w).
    + by destruct (lost w).
  - by eapply done_inv.
  - by eapply wake_inv.
Qed.
Lemma pool_reachable_inv w : pool_reachable w → pool_inv w.
Proof. intros Hr. eapply star_invariant; [apply pool_step_inv|exact Hr|apply start_inv]. Qed.

(** A pool never has more workers than its cap nor more jobs waiting than its queue
    holds, a lingering worker's own job aside; and while the OS starts the threads it is
    asked for, a job waits in the queue only for a lingering worker of its own or because
    every worker slot is taken, so queueing a job never strands it. *)
Theorem pool_bounded w :
  pool_reachable w →
  active (st w) = length (workers w) ∧ length (workers w) ≤ max_workers p ∧ peak_active (st w) ≤ max_workers p ∧
  length (queue (st w)) ≤ max (N.to_nat (queue_cap p)) (max_workers p) ∧
  (lost w = [] → waiting (workers w) < length (queue (st w)) → length (workers w) = max_workers p).
Proof.
  intros [H1 H2 H3 H4 H5 H6 H7 H8 H9]%pool_reachable_inv.
  assert (waiting (workers w) ≤ length (workers w)) by apply List.filter_length_le.
  rewrite <- H1, <- H2. split_and!; [done|lia..|done].
Qed.

(** Every accepted job runs exactly once: it is in the queue, with one worker, done, or
    (only if the OS refused its thread, which the caller is told) lost, and [completed]
    counts the ones done.  A pool whose workers do not linger hands the jobs out in the order
    they were submitted. *)
Theorem pool_jobs_once w :
  pool_reachable w →
  submitted w ≡ₚ finished w ++ lost w ++ busy (workers w) ++ queue (st w) ∧
  completed (st w) = length (finished w) ∧
  (linger p = false → lost w = [] → submitted w = assigned w ++ queue (st w)).
Proof. by intros [H1 H2 H3 H4 H5 H6 H7 H8 H9]%pool_reachable_inv. Qed.
End pool.
Arguments State : clear implicits.
Arguments World : clear implicits.
Arguments Worker : clear implicits.
Arguments Next : clear implicits.

(** A worker the OS does not start leaves what was queued behind it without one: the queue
    waits for the next submission, whose job then runs first. *)
Definition one_worker : Pool := {| max_workers := 1; queue_cap := 8; linger := false |}.
Lemma failed_start_strands :
  let '(r1, s1) := submit one_worker 1 new in
  let '(r2, s2) := submit one_worker 2 s1 in
  let s3 := start_failed s2 in
  let '(r4, s4) := submit one_worker 3 s3 in
  (r1, r2, r4) = (Start, Queued, Start) ∧ active s3 = 0 ∧ queue s3 = [2] ∧ queue s4 = [2].
Proof. by vm_compute. Qed.

(** ** The daemon's threads *)

(* http_clients.rs:116-116 DOWNLOAD_CONNECTIONS *)
Definition DOWNLOAD_CONNECTIONS : nat := 8.
(* bg.rs:260-260 FUSE *)
Definition FUSE : Pool := {| max_workers := 16; queue_cap := 4096; linger := true |}.
(* bg.rs:268-268 READDIR *)
Definition READDIR : Pool := {| max_workers := 24; queue_cap := 512; linger := false |}.
(* bg.rs:280-280 READ *)
Definition READ : Pool := {| max_workers := 32; queue_cap := 2048; linger := false |}.
(* bg.rs:287-287 STREAM *)
Definition STREAM : Pool := {| max_workers := DOWNLOAD_CONNECTIONS; queue_cap := N.of_nat DOWNLOAD_CONNECTIONS; linger := false |}.
(* bg.rs:295-295 DNS *)
Definition DNS : Pool := {| max_workers := 2; queue_cap := 64; linger := false |}.
(* bg.rs:301-301 LISTING *)
Definition LISTING : Pool := {| max_workers := 16; queue_cap := 2048; linger := false |}.
(* bg.rs:306-306 BACKGROUND *)
Definition BACKGROUND : Pool := {| max_workers := 4; queue_cap := 256; linger := false |}.
(* bg.rs:313-313 MUTATION *)
Definition MUTATION : Pool := {| max_workers := 16; queue_cap := 2 ^ 64 - 1; linger := false |}.
(* bg.rs:319-319 NOTIFY *)
Definition NOTIFY : Pool := {| max_workers := 1; queue_cap := 8192; linger := false |}.
(* bg.rs:324-324 IPC *)
Definition IPC : Pool := {| max_workers := 64; queue_cap := 0; linger := false |}.
(* bg.rs:329-329 HOUSEKEEPING *)
Definition HOUSEKEEPING : Pool := {| max_workers := 3; queue_cap := 16; linger := false |}.
(* bg.rs:334-334 THUMB *)
Definition THUMB : Pool := {| max_workers := 2; queue_cap := 64; linger := false |}.
(* bg.rs:340-340 USER *)
Definition USER : Pool := {| max_workers := 4; queue_cap := 4096; linger := false |}.
(* bg.rs:347-347 CHUNK *)
Definition CHUNK : Pool := {| max_workers := 2; queue_cap := 1024; linger := false |}.
(* bg.rs:350-350 POOLS *)
Definition POOLS : list Pool :=
  [FUSE; READDIR; READ; STREAM; DNS; LISTING; BACKGROUND; MUTATION; NOTIFY; IPC; HOUSEKEEPING; THUMB; USER; CHUNK].

(* bg.rs:354-354 MAX_SERVICES *)
Definition MAX_SERVICES : nat := 24.
(* bg.rs:392-397 MAX_SCOPED_THREADS *)
Definition MAX_SCOPED_THREADS : nat :=
  max_workers THUMB * 8 + max_workers USER * 2 + 16 + 4 + 6 + (DOWNLOAD_CONNECTIONS - 1).
(* bg.rs:421-421 MAX_HTTP_CLIENT_THREADS *)
Definition MAX_HTTP_CLIENT_THREADS : nat := 7 + 2 * DOWNLOAD_CONNECTIONS.
(* bg.rs:401-409 MAX_THREADS *)
Definition MAX_THREADS : nat :=
  sum_list (max_workers <$> POOLS) + MAX_SERVICES + MAX_SCOPED_THREADS + 1 + MAX_HTTP_CLIENT_THREADS.

(** A counter taken up to a limit: services for good, scoped segment threads until they end. *)
(* bg.rs:451-455 Budget::take *)
Definition take (limit used : nat) : option nat := if used <? limit then Some (S used) else None.
Lemma take_bounded limit used used' : used ≤ limit → take limit used = Some used' → used' ≤ limit.
Proof. unfold take. destruct (Nat.ltb_spec used limit); [|done]. intros _ [= <-]. lia. Qed.

Lemma pool_threads {J} (ps : list Pool) (ws : list (World J)) :
  Forall2 (λ p w, pool_reachable p w) ps ws →
  sum_list ((λ w, length (workers w)) <$> ws) ≤ sum_list (max_workers <$> ps).
Proof.
  induction 1 as [|p w ps ws Hr _ IH]; [done|]. csimpl.
  apply pool_reachable_inv in Hr as [H1 _ _ H4 _ _ _ _ _]. lia.
Qed.

(** The daemon's threads are bounded by a constant: with every pool reachable from its
    start, the services within their budget and the scoped threads within theirs, their
    number stays at or below [MAX_THREADS], which is 299, whatever was submitted. *)
Theorem threads_bounded {J} (ws : list (World J)) services scoped http :
  Forall2 (λ p w, pool_reachable p w) POOLS ws →
  services ≤ MAX_SERVICES → scoped ≤ MAX_SCOPED_THREADS → http ≤ MAX_HTTP_CLIENT_THREADS →
  sum_list ((λ w, length (workers w)) <$> ws) + services + scoped + 1 + http ≤ MAX_THREADS ∧ MAX_THREADS = 299.
Proof.
  intros Hp%pool_threads Hs Hsc Hh. split; [|by vm_compute]. unfold MAX_THREADS. lia.
Qed.

(* bg.rs:485-498 run_chunked *)
Fixpoint batches {A} (fuel : nat) (jobs : list A) (width : nat) : list (list A) :=
  match fuel, jobs with
  | S fuel, _ :: _ => List.firstn (max width 1) jobs :: batches fuel (List.skipn (max width 1) jobs) width
  | _, _ => []
  end.
Definition run_chunked {A} (jobs : list A) (width : nat) : list (list A) := batches (length jobs) jobs width.

Lemma batches_all {A} fuel (jobs : list A) width :
  length jobs ≤ fuel → mjoin (batches fuel jobs width) = jobs ∧ Forall (λ b, length b ≤ max width 1) (batches fuel jobs width).
Proof.
  revert jobs. induction fuel as [|fuel IH]; intros [|x jobs] Hl; simpl in *; try (split; [done|constructor]); [lia|].
  destruct (max width 1) as [|n] eqn:En; [lia|]. simpl.
  destruct (IH (List.skipn n jobs)) as [Hj Hf]; [rewrite length_skipn; lia|]. split.
  - rewrite Hj. f_equal. apply firstn_skipn.
  - constructor; [simpl; rewrite length_firstn; lia|done].
Qed.
Lemma run_chunked_all {A} (jobs : list A) width :
  mjoin (run_chunked jobs width) = jobs ∧ Forall (λ b, length b ≤ max width 1) (run_chunked jobs width).
Proof. by apply batches_all. Qed.

(** ** Mutations: jobs that hold tickets *)

(** The mutation pool with [PathSeq]: a ticket is taken and its job submitted together, under
    [MUTATION_ORDER]; a job runs once its ticket is ready and drops it as it ends; a refused
    job is dropped with its ticket.  The OS starts the threads it is asked for. *)
Section mutations.
Context (p : Pool).
Hypothesis (no_linger : linger p = false) (some_worker : 0 < max_workers p).

Record MWorld := { m_seq : PathSeq.State; m_live : list Client; m_pool : World Client }.

Definition accepted (w : World Client) (r : Submitted) (c : Client) (s : State Client) : World Client :=
  {| st := s; workers := (match r with Start => [Starting c] | _ => [] end) ++ workers w;
     submitted := submitted w ++ [c]; assigned := assigned w ++ (match r with Start => [c] | _ => [] end);
     finished := finished w; lost := lost w |}.
Definition ended (w : World Client) (l1 l2 : list (Worker Client)) (c : Client) (n : Next Client) (s : State Client) :
    World Client :=
  {| st := s; workers := l1 ++ after n ++ l2; submitted := submitted w; assigned := assigned w ++ handed n;
     finished := finished w ++ [c]; lost := lost w |}.

Inductive mstep : MWorld → MWorld → Prop :=
| ms_submit m asked t sq r s :
    PathSeq.ticket (m_seq m) asked = (t, sq) →
    let c := {| c_ticket := t; c_asked := asked |} in
    submit p c (st (m_pool m)) = (r, s) → r ≠ Refused →
    mstep m {| m_seq := sq; m_live := m_live m ++ [c]; m_pool := accepted (m_pool m) r c s |}
| ms_refused m asked t sq s :
    PathSeq.ticket (m_seq m) asked = (t, sq) →
    submit p {| c_ticket := t; c_asked := asked |} (st (m_pool m)) = (Refused, s) →
    mstep m {| m_seq := drop_ticket sq t; m_live := m_live m;
               m_pool := {| st := s; workers := workers (m_pool m); submitted := submitted (m_pool m);
                            assigned := assigned (m_pool m); finished := finished (m_pool m); lost := lost (m_pool m) |} |}
| ms_spawned m l1 c l2 : workers (m_pool m) = l1 ++ Starting c :: l2 →
    mstep m {| m_seq := m_seq m; m_live := m_live m;
               m_pool := {| st := st (m_pool m); workers := l1 ++ Running c :: l2; submitted := submitted (m_pool m);
                            assigned := assigned (m_pool m); finished := finished (m_pool m); lost := lost (m_pool m) |} |}
| ms_end m l1 l2 w1 c w2 panic n s :
    workers (m_pool m) = w1 ++ Running c :: w2 → m_live m = l1 ++ c :: l2 → ready (m_seq m) (c_ticket c) = true →
    job_done p panic (st (m_pool m)) = (n, s) →
    mstep m {| m_seq := drop_ticket (m_seq m) (c_ticket c); m_live := l1 ++ l2; m_pool := ended (m_pool m) w1 w2 c n s |}.

Definition mstart : MWorld := {| m_seq := PathSeq.init; m_live := []; m_pool := pool_start |}.
Definition mreachable (m : MWorld) : Prop := star mstep mstart m.

(** The live tickets, oldest first, are those the workers have and then those in the queue. *)
Record minv (m : MWorld) : Prop := {
  mi_seq : PathSeq.wf (m_seq m, m_live m);
  mi_pool : pool_inv p (m_pool m);
  mi_lost : lost (m_pool m) = [];
  mi_live : ∃ l, m_live m = l ++ queue (st (m_pool m)) ∧ l ≡ₚ busy (workers (m_pool m));
}.

Lemma wf_NoDup sq live : PathSeq.wf (sq, live) → NoDup live.
Proof. intros (_ & Hinc & _). apply increasing_NoDup in Hinc. by do 2 apply NoDup_fmap_1 in Hinc. Qed.

Lemma split_unique {A} (x : A) a1 b1 a2 b2 : x ∉ a1 → x ∉ a2 → a1 ++ x :: b1 = a2 ++ x :: b2 → a1 = a2 ∧ b1 = b2.
Proof.
  revert a2. induction a1 as [|y a1 IH]; intros [|z a2] H1 H2 E; simpl in *; simplify_eq.
  - done.
  - by destruct H2; left.
  - by destruct H1; left.
  - destruct (IH a2) as [-> ->]; [set_solver..|done|done].
Qed.

Lemma live_of_worker {A} (live l q l1 : list A) c l2 :
  NoDup live → live = l ++ q → live = l1 ++ c :: l2 → c ∈ l → ∃ l2', l = l1 ++ c :: l2' ∧ l2 = l2' ++ q.
Proof.
  intros Hnd El E1 (a & b & ->)%list_elem_of_split. rewrite <- app_assoc in El. simpl in El.
  assert (c ∉ a) by (rewrite El in Hnd; apply NoDup_app in Hnd as (_ & Hn & _); intros Hc; apply (Hn c Hc); left).
  assert (c ∉ l1) by (rewrite E1 in Hnd; apply NoDup_app in Hnd as (_ & Hn & _); intros Hc; apply (Hn c Hc); left).
  exists b. rewrite El in E1. by destruct (split_unique c a (b ++ q) l1 l2) as [-> ->].
Qed.

Lemma queue_empty (w : World Client) :
  pool_inv p w → lost w = [] → active (st w) < max_workers p → queue (st w) = [].
Proof.
  intros [_ _ H3 _ _ _ _ H8 _] Hl Ha. apply nil_length_inv. specialize (H3 no_linger).
  destruct (decide (length (queue (st w)) = 0)); [done|]. assert (active (st w) = max_workers p) by (apply H8; [done|lia]). lia.
Qed.

Lemma submit_live (w : World Client) c r s l :
  pool_inv p w → lost w = [] → l ≡ₚ busy (workers w) → submit p c (st w) = (r, s) → r ≠ Refused →
  ∃ l', (l ++ queue (st w)) ++ [c] = l' ++ queue s ∧ l' ≡ₚ busy (workers (accepted w r c s)).
Proof.
  intros Hi Hl Hp Hs Hr. pose proof (inv_linger p w Hi no_linger) as Hid. unfold submit in Hs.
  destruct (Nat.ltb_spec (length (queue (st w))) (idle (st w))); [lia|].
  destruct (Nat.ltb_spec (active (st w)) (max_workers p)) as [Ha|Ha].
  - injection Hs as <- <-. rewrite (queue_empty w Hi Hl Ha). exists (l ++ [c]). simpl. rewrite !app_nil_r.
    rewrite (queue_empty w Hi Hl Ha), app_nil_r. split; [done|]. unfold busy in *. simpl. rewrite Hp. solve_Permutation.
  - destruct (N.ltb _ _); injection Hs as <- <-; [|done]. exists l. simpl. by rewrite app_assoc.
Qed.

Lemma end_live (w : World Client) (w1 : list (Worker Client)) c w2 panic n s l1 l2 l :
  NoDup (l1 ++ c :: l2) → workers w = w1 ++ Running c :: w2 → l1 ++ c :: l2 = l ++ queue (st w) → l ≡ₚ busy (workers w) →
  job_done p panic (st w) = (n, s) →
  ∃ l', l1 ++ l2 = l' ++ queue s ∧ l' ≡ₚ busy (w1 ++ after n ++ w2).
Proof.
  intros Hnd Hw El Hp Hd. rewrite Hw, busy_app, busy_cons in Hp. simpl in Hp.
  destruct (live_of_worker _ l (queue (st w)) l1 c l2 Hnd El eq_refl) as (l2' & -> & ->).
  { rewrite Hp. set_solver. }
  assert (Hrest : l1 ++ l2' ≡ₚ busy w1 ++ busy w2).
  { apply (Permutation_cons_inv (a := c)). rewrite <- !Permutation_middle in Hp. exact Hp. }
  unfold job_done in Hd. rewrite no_linger, andb_false_r in Hd.
  pose proof (take_next_cases (count_done (st w) panic)) as [Ht _].
  destruct (take_next (count_done (st w) panic)) as [[j|] s'] eqn:E; injection Hd as <- <-; simpl in Ht.
  - destruct Ht as (Hq & _ & _). exists (l1 ++ l2' ++ [j]). rewrite Hq. cbn [of_next after].
    rewrite !busy_app, busy_cons. simpl.
    rewrite <- !app_assoc. split; [done|]. rewrite app_assoc, Hrest. solve_Permutation.
  - destruct Ht as (Hq & Hq' & _ & _). exists (l1 ++ l2'). rewrite Hq, Hq', !app_nil_r, !busy_app. by split.
Qed.

Lemma mstep_inv m m' : minv m → mstep m m' → minv m'.
Proof.
  intros [Hs Hp Hl (l & Hlive & Hperm)] Hst.
  destruct Hst as [m asked t sq r s Ht c Hsub Hr|m asked t sq s Ht Hsub|m l1 c l2 Hw|m l1 l2 w1 c w2 panic n s Hw Hlv Hrd Hd].
  - split; simpl; [exact (wf_step _ _ Hs (step_take (m_seq m) (m_live m) asked t sq Ht))| |done|].
    + pose proof (submit_inv p (m_pool m) c r s _ Hp Hsub eq_refl) as Hi. by destruct r.
    + rewrite Hlive. by apply submit_live.
  - assert (queue s = queue (st (m_pool m))) as Hq.
    { unfold submit in Hsub. repeat case_match; by simplify_eq. }
    split; simpl; [| |done|exists l; by rewrite Hq].
    + pose proof (wf_step _ _ Hs (step_take (m_seq m) (m_live m) asked t sq Ht)) as Hs1.
      pose proof (wf_step _ _ Hs1 (step_drop sq (m_live m) {| c_ticket := t; c_asked := asked |} [])) as Hs2.
      by rewrite app_nil_r in Hs2.
    + pose proof (submit_inv p (m_pool m) _ Refused s [] Hp Hsub eq_refl) as Hi. simpl in Hi. by rewrite !app_nil_r in Hi.
  - split; simpl; [done| |done|].
    + eapply pool_step_inv; [exact Hp|by apply ps_spawned].
    + exists l. split; [done|]. rewrite Hw in Hperm. rewrite Hperm, !busy_app, !busy_cons. done.
  - rewrite Hlv in Hs. split; simpl; [exact (wf_step _ _ Hs (step_drop (m_seq m) l1 c l2))| |done|].
    + by eapply done_inv.
    + rewrite Hlv in Hlive. eapply end_live; [by eapply wf_NoDup|done..].
Qed.

Lemma mreachable_inv m : mreachable m → minv m.
Proof.
  intros Hr. eapply star_invariant; [apply mstep_inv|exact Hr|]. split; simpl; [|apply start_inv|done|by exists []].
  exact (reachable_wf _ (star_refl step (PathSeq.init, []))).
Qed.

End mutations.

(** ** A pool of one worker, with a job running and one queued *)

Definition ex_w1 : World nat :=
  {| st := (submit one_worker 1 new).2; workers := [Starting 1]; submitted := [1]; assigned := [1]; finished := []; lost := [] |}.
Definition ex_w2 : World nat :=
  {| st := (submit one_worker 2 (st ex_w1)).2; workers := [Starting 1]; submitted := [1; 2]; assigned := [1]; finished := []; lost := [] |}.
Lemma ex_w2_reachable : pool_reachable one_worker ex_w2.
Proof.
  assert (H1 : pool_step one_worker pool_start ex_w1) by exact (ps_start one_worker pool_start 1 _ eq_refl).
  assert (H2 : pool_step one_worker ex_w1 ex_w2) by exact (ps_queued one_worker ex_w1 2 _ eq_refl).
  exact (star_snoc _ _ _ _ (star_snoc _ _ _ _ (star_refl _ _) H1) H2).
Defined.
Lemma pool_bounded_witness : length (workers ex_w2) = 1 ∧ queue (st ex_w2) = [2].
Proof.
  destruct (pool_bounded one_worker ex_w2 ex_w2_reachable) as (_ & _ & _ & _ & Hf).
  split; [apply Hf; [done|simpl; unfold waiting; simpl; lia]|by vm_compute].
Defined.
Lemma pool_jobs_once_witness : submitted ex_w2 = assigned ex_w2 ++ queue (st ex_w2).
Proof. by apply (pool_jobs_once one_worker ex_w2 ex_w2_reachable). Defined.

(** Two uploads of one path, one worker: the first has it. *)
Definition up : list (PathBuf * Access) := [(["f"%string], Exclusive)].
Definition up1 : Client := {| c_ticket := (PathSeq.ticket PathSeq.init up).1; c_asked := up |}.
Definition up2 : Client :=
  {| c_ticket := (PathSeq.ticket (PathSeq.ticket PathSeq.init up).2 up).1; c_asked := up |}.
Definition ex_m1 : MWorld :=
  {| m_seq := (PathSeq.ticket PathSeq.init up).2; m_live := [up1]; m_pool := accepted pool_start Start up1 (submit one_worker up1 new).2 |}.
Definition ex_m2 : MWorld :=
  {| m_seq := (PathSeq.ticket (m_seq ex_m1) up).2; m_live := [up1; up2];
     m_pool := accepted (m_pool ex_m1) Queued up2 (submit one_worker up2 (st (m_pool ex_m1))).2 |}.
