(* ===== verification/IoMode.v ===== *)
(** [iomode.rs]: the mirror of the kernel's per-inode I/O mode, which decides how each open
    is answered.

    A backing file is a value of an arbitrary type; registering one is a call whose result is
    an argument.  The kernel is modelled by the handles it holds on an inode: it refuses an
    open that would mix cached and passthrough handles or two backing files. *)
From S2P Require Import Prelude.

(* iomode.rs:10-15 FileId *)
Record FileId := { dev : Z; fino : Z; flen : Z; mtime_ns : Z }.
#[export] Instance FileId_eq_dec : EqDecision FileId.
Proof. solve_decision. Defined.

(* iomode.rs:31-35 IoKind *)
Inductive IoKind := KPassthrough | KCached | KDirectIo.
#[export] Instance IoKind_eq_dec : EqDecision IoKind.
Proof. solve_decision. Defined.

Section iomode.
Context {B E : Type}.

(* iomode.rs:37-41 IoGrant *)
Inductive IoGrant := GPassthrough (b : B) | GCached | GDirectIo.

(* iomode.rs:44-50 IoGrant::kind *)
Definition grant_kind (g : IoGrant) : IoKind :=
  match g with GPassthrough _ => KPassthrough | GCached => KCached | GDirectIo => KDirectIo end.

(* iomode.rs:53-60 Mode *)
Inductive Mode :=
| Passthrough (backing : B) (file : FileId) (opens : nat)
| Cached (opens : nat)
| Foreign (opens : nat).

Abbreviation InodeIoModes := (gmap nat Mode).

(* iomode.rs:74-111 InodeIoModes::acquire *)
Definition acquire (modes : InodeIoModes) (ino : nat) (passthrough : option (FileId * result B E)) :
    IoGrant * option E * InodeIoModes :=
  match modes !! ino with
  | Some (Passthrough backing file opens) =>
      match passthrough with
      | Some (f, _) =>
          if decide (f = file)
          then (GPassthrough backing, None, <[ino := Passthrough backing file (S opens)]> modes)
          else (GDirectIo, None, modes)
      | None => (GDirectIo, None, modes)
      end
  | Some (Cached opens) => (GCached, None, <[ino := Cached (S opens)]> modes)
  | Some (Foreign _) => (GDirectIo, None, modes)
  | None =>
      match passthrough with
      | Some (file, Ok b) => (GPassthrough b, None, <[ino := Passthrough b file 1]> modes)
      | Some (_, Err e) => (GCached, Some e, <[ino := Cached 1]> modes)
      | None => (GCached, None, <[ino := Cached 1]> modes)
      end
  end.

(* iomode.rs:114-116 InodeIoModes::acquire_plain *)
Definition acquire_plain (modes : InodeIoModes) (ino : nat) : IoKind * InodeIoModes :=
  let '(g, _, modes) := acquire modes ino None in (grant_kind g, modes).

Definition put_mode (modes : InodeIoModes) (ino : nat) (opens : nat) (m : nat → Mode) : InodeIoModes :=
  if opens - 1 =? 0 then delete ino modes else <[ino := m (opens - 1)]> modes.

(* iomode.rs:119-132 InodeIoModes::release *)
Definition release (modes : InodeIoModes) (ino : nat) (kind : IoKind) : InodeIoModes :=
  match modes !! ino, kind with
  | Some (Passthrough b f opens), KPassthrough => put_mode modes ino opens (Passthrough b f)
  | Some (Foreign opens), KPassthrough => put_mode modes ino opens Foreign
  | Some (Cached opens), KCached => put_mode modes ino opens Cached
  | _, _ => modes
  end.

(* iomode.rs:138-151 InodeIoModes::adopt *)
Definition adopt (modes : InodeIoModes) (ino : nat) (kind : IoKind) : InodeIoModes :=
  match kind with
  | KDirectIo => modes
  | KCached => match modes !! ino with
               | None => <[ino := Cached 1]> modes
               | Some (Cached opens) => <[ino := Cached (S opens)]> modes
               | Some _ => modes
               end
  | KPassthrough => match modes !! ino with
                    | None => <[ino := Foreign 1]> modes
                    | Some (Foreign opens) => <[ino := Foreign (S opens)]> modes
                    | Some _ => modes
                    end
  end.

(** ** The kernel's side *)

(** A handle the kernel holds; a passthrough one of an earlier daemon has a backing file
    nobody here knows. *)
Inductive Handle := HPass (b : B) | HForeign | HCached | HDirect.
Definition handle_kind (h : Handle) : IoKind :=
  match h with HPass _ | HForeign => KPassthrough | HCached => KCached | HDirect => KDirectIo end.
Definition handle_of_grant (g : IoGrant) : Handle :=
  match g with GPassthrough b => HPass b | GCached => HCached | GDirectIo => HDirect end.

(** What the kernel accepts on one inode: direct handles, and at most one other sort, all
    passthrough ones sharing one backing file. *)
Definition kernel_accepts (l : list Handle) : Prop :=
  ∃ h, Forall (λ x, x = HDirect ∨ x = h) l.

Record World := { modes : InodeIoModes; held : gmap nat (list Handle) }.
Definition handles (w : World) (ino : nat) : list Handle := default [] (held w !! ino).
Definition set_handles (w : World) (m : InodeIoModes) (ino : nat) (l : list Handle) : World :=
  {| modes := m; held := <[ino := l]> (held w) |}.

(** Opens, releases of a held handle, and handles left by an earlier daemon, which the
    kernel accepted beside those it holds. *)
Inductive step : World → World → Prop :=
| step_acquire w ino pt g err m :
    acquire (modes w) ino pt = (g, err, m) →
    step w (set_handles w m ino (handle_of_grant g :: handles w ino))
| step_release w ino l1 h l2 :
    handles w ino = l1 ++ h :: l2 →
    step w (set_handles w (release (modes w) ino (handle_kind h)) ino (l1 ++ l2))
| step_adopt w ino h :
    (h = HForeign ∨ h = HCached ∨ h = HDirect) →
    kernel_accepts (h :: handles w ino) →
    step w (set_handles w (adopt (modes w) ino (handle_kind h)) ino (h :: handles w ino)).

Definition initial : World := {| modes := ∅; held := ∅ |}.

(** ** The mirror is exact *)

Definition mode_handle (m : Mode) : Handle :=
  match m with Passthrough b _ _ => HPass b | Cached _ => HCached | Foreign _ => HForeign end.
Definition mode_opens (m : Mode) : nat :=
  match m with Passthrough _ _ n | Cached n | Foreign n => n end.
Definition is_held (h : Handle) : bool := match h with HDirect => false | _ => true end.
Definition count_held (l : list Handle) : nat := length (List.filter is_held l).

Definition mirrors (m : option Mode) (l : list Handle) : Prop :=
  match m with
  | None => Forall (λ h, h = HDirect) l
  | Some m => 0 < mode_opens m ∧ mode_opens m = count_held l ∧
              Forall (λ h, h = HDirect ∨ h = mode_handle m) l
  end.
Definition exact (w : World) : Prop := ∀ ino, mirrors (modes w !! ino) (handles w ino).

Lemma mirrors_accepts m l : mirrors m l → kernel_accepts l.
Proof.
  destruct m as [m|]; [intros (_ & _ & H); by exists (mode_handle m)|].
  intros H. exists HDirect. eapply Forall_impl; [exact H|]. simpl. auto.
Qed.

Lemma exact_set w m ino l :
  exact w → (∀ i, i ≠ ino → m !! i = modes w !! i) → mirrors (m !! ino) l →
  exact (set_handles w m ino l).
Proof.
  intros Hw Hm Hl i. unfold handles, set_handles. simpl. destruct (decide (i = ino)) as [->|Hne].
  - by rewrite lookup_insert_eq.
  - rewrite lookup_insert_ne, Hm by done. apply Hw.
Qed.

Lemma count_held_none l : Forall (λ h, h = HDirect) l → count_held l = 0.
Proof. induction 1 as [|h l -> _ IH]; done. Qed.

Lemma mirrors_first m l :
  Forall (λ h, h = HDirect) l → mode_opens m = 1 → is_held (mode_handle m) = true →
  mirrors (Some m) (mode_handle m :: l).
Proof.
  intros Hl Ho Hh. split_and!; [lia| |].
  - unfold count_held. cbn [List.filter]. rewrite Hh. cbn [length]. fold (count_held l).
    by rewrite count_held_none.
  - constructor; [by right|]. eapply Forall_impl; [exact Hl|]. simpl. auto.
Qed.
Lemma mirrors_more m m' l :
  mirrors (Some m) l → mode_handle m' = mode_handle m → mode_opens m' = S (mode_opens m) →
  mirrors (Some m') (mode_handle m :: l).
Proof.
  intros (H1 & H2 & H3) Hh Ho. unfold mirrors. rewrite Hh, Ho. split_and!; [lia| |].
  - unfold count_held in *. cbn [List.filter]. destruct m; simpl in *; lia.
  - constructor; [by right|done].
Qed.
Lemma mirrors_direct m l : mirrors m l → mirrors m (HDirect :: l).
Proof.
  destruct m as [m|]; simpl; [|by constructor].
  intros (H1 & H2 & H3). split_and!; [done|done|]. constructor; [by left|done].
Qed.

Lemma acquire_exact w ino pt g err m :
  exact w → acquire (modes w) ino pt = (g, err, m) →
  exact (set_handles w m ino (handle_of_grant g :: handles w ino)).
Proof.
  intros Hw. specialize (Hw ino) as Hi. unfold acquire.
  destruct (modes w !! ino) as [[b f n|n|n]|] eqn:Hm; intros Ha.
  - destruct pt as [[f' r]|]; [destruct (decide (f' = f)) as [->|]|]; simplify_eq.
    + apply exact_set; [done|intros; by rewrite lookup_insert_ne|]. rewrite lookup_insert_eq.
      by apply (mirrors_more (Passthrough b f n)).
    + apply exact_set; [done|done|]. rewrite Hm. by apply mirrors_direct.
    + apply exact_set; [done|done|]. rewrite Hm. by apply mirrors_direct.
  - simplify_eq. apply exact_set; [done|intros; by rewrite lookup_insert_ne|]. rewrite lookup_insert_eq.
    by apply (mirrors_more (Cached n)).
  - simplify_eq. apply exact_set; [done|done|]. rewrite Hm. by apply mirrors_direct.
  - destruct pt as [[f' [b|e]]|]; simplify_eq;
      (apply exact_set; [done|intros; by rewrite lookup_insert_ne|]; rewrite lookup_insert_eq).
    + by apply (mirrors_first (Passthrough b f' 1)).
    + by apply (mirrors_first (Cached 1)).
    + by apply (mirrors_first (Cached 1)).
Qed.

Lemma count_held_app l1 l2 : count_held (l1 ++ l2) = count_held l1 + count_held l2.
Proof. unfold count_held. by rewrite filterb_app, length_app. Qed.

Lemma release_mirror (m : nat → Mode) n l1 h l2 ms ino :
  (∀ k, mode_opens (m k) = k) → (∀ k, mode_handle (m k) = mode_handle (m n)) →
  mirrors (Some (m n)) (l1 ++ h :: l2) → h = mode_handle (m n) → is_held h = true →
  mirrors (put_mode ms ino n m !! ino) (l1 ++ l2).
Proof.
  intros Ho Hh (H1 & H2 & H3) -> Hheld. unfold put_mode. rewrite Ho in *.
  assert (Hc : n = S (count_held (l1 ++ l2))).
  { rewrite H2, !count_held_app. unfold count_held at 2. cbn [List.filter]. rewrite Hheld. simpl.
    unfold count_held. lia. }
  assert (Hall : Forall (λ x, x = HDirect ∨ x = mode_handle (m n)) (l1 ++ l2)).
  { apply Forall_app in H3 as [? [_ ?]%Forall_cons]. by apply Forall_app. }
  destruct (n - 1 =? 0) eqn:Ez; bool_prop.
  - rewrite lookup_delete_eq. simpl.
    assert (Hz : count_held (l1 ++ l2) = 0) by lia. clear -Hall Hz Hheld.
    induction Hall as [|x l Hx Hall IH]; [constructor|]. unfold count_held in Hz. cbn [List.filter] in Hz.
    destruct Hx as [->| ->]; [constructor; [done|by apply IH]|]. by rewrite Hheld in Hz.
  - rewrite lookup_insert_eq. simpl. rewrite Ho. split_and!; [lia|lia|]. by rewrite Hh.
Qed.

Lemma release_exact w ino l1 h l2 :
  exact w → handles w ino = l1 ++ h :: l2 →
  exact (set_handles w (release (modes w) ino (handle_kind h)) ino (l1 ++ l2)).
Proof.
  intros Hw Hl. specialize (Hw ino) as Hi. rewrite Hl in Hi.
  assert (Hother : ∀ k i, i ≠ ino → release (modes w) ino k !! i = modes w !! i).
  { intros k i Hne. unfold release, put_mode. repeat case_match; try done;
      by rewrite ?lookup_delete_ne, ?lookup_insert_ne. }
  apply exact_set; [done|by apply Hother|].
  assert (Hin : h ∈ l1 ++ h :: l2) by (apply elem_of_app; right; left).
  destruct (modes w !! ino) as [m|] eqn:Hm.
  - assert (Hh : h = HDirect ∨ h = mode_handle m).
    { destruct Hi as (_ & _ & Hall). rewrite Forall_forall in Hall. by apply Hall. }
    destruct Hh as [->|Hh].
    + assert (release (modes w) ino (handle_kind HDirect) !! ino = Some m) as ->.
      { unfold release. rewrite Hm. by destruct m. }
      destruct Hi as (H1 & H2 & H3). split_and!; [done| |].
      * rewrite H2, !count_held_app. done.
      * apply Forall_app in H3 as [? [_ ?]%Forall_cons]. by apply Forall_app.
    + unfold release. rewrite Hm. destruct m as [b f n|n|n]; subst h; cbn [handle_kind mode_handle] in *.
      * by eapply (release_mirror (Passthrough b f) n l1 (HPass b)).
      * by eapply (release_mirror Cached n l1 HCached).
      * by eapply (release_mirror Foreign n l1 HForeign).
  - assert (release (modes w) ino (handle_kind h) !! ino = None) as ->.
    { unfold release. by rewrite Hm. }
    simpl in *. apply Forall_app in Hi as [? [_ ?]%Forall_cons]. by apply Forall_app.
Qed.

(** A mode with opens, and the handle it stands for, is not accepted beside another sort. *)
Lemma accepts_same m l h :
  mirrors (Some m) l → kernel_accepts (h :: l) → is_held h = true → h = mode_handle m.
Proof.
  intros (H1 & H2 & H3) [x Hx] Hh. apply Forall_cons in Hx as [Hhx Hx].
  assert (h = x) as <- by (destruct Hhx as [->|]; done).
  destruct (List.filter is_held l) as [|y l'] eqn:Ez; [unfold count_held in H2; rewrite Ez in H2; simpl in H2; lia|].
  assert (Hy : y ∈ List.filter is_held l) by (rewrite Ez; left).
  apply elem_of_filterb in Hy as [Hy Hyh]. rewrite Forall_forall in H3, Hx.
  destruct (H3 y Hy) as [->|Hy1]; [done|]. destruct (Hx y Hy) as [->|Hy2]; [done|]. congruence.
Qed.

Lemma adopt_exact w ino h :
  exact w → h = HForeign ∨ h = HCached ∨ h = HDirect → kernel_accepts (h :: handles w ino) →
  exact (set_handles w (adopt (modes w) ino (handle_kind h)) ino (h :: handles w ino)).
Proof.
  intros Hw Hh Hacc. specialize (Hw ino) as Hi.
  assert (Hother : ∀ k i, i ≠ ino → adopt (modes w) ino k !! i = modes w !! i).
  { intros k i Hne. unfold adopt. repeat case_match; try done; by rewrite lookup_insert_ne. }
  apply exact_set; [done|by apply Hother|].
  destruct Hh as [->|[->| ->]]; simpl; [| |by apply mirrors_direct].
  - destruct (modes w !! ino) as [m|] eqn:Hm.
    + pose proof (accepts_same m _ HForeign Hi Hacc eq_refl) as Hs. destruct m as [b f n|n|n]; try done.
      rewrite lookup_insert_eq. by apply (mirrors_more (Foreign n)).
    + rewrite lookup_insert_eq. by apply (mirrors_first (Foreign 1)).
  - destruct (modes w !! ino) as [m|] eqn:Hm.
    + pose proof (accepts_same m _ HCached Hi Hacc eq_refl) as Hs. destruct m as [b f n|n|n]; try done.
      rewrite lookup_insert_eq. by apply (mirrors_more (Cached n)).
    + rewrite lookup_insert_eq. by apply (mirrors_first (Cached 1)).
Qed.

Lemma initial_exact : exact initial.
Proof. intros ino. unfold initial, handles. simpl. rewrite !lookup_empty. constructor. Qed.

Lemma step_exact w w' : exact w → step w w' → exact w'.
Proof.
  intros Hw Hs. revert Hw. destruct Hs as [? ? ? ? ? ? Ha|? ? ? ? ? Hl|? ? ? Hh Hacc]; intros Hw.
  - eapply acquire_exact; [exact Hw|exact Ha].
  - apply release_exact; [exact Hw|exact Hl].
  - apply adopt_exact; [exact Hw|exact Hh|exact Hacc].
Qed.

(** Whatever files are opened and closed, with handles of an earlier daemon among them,
    the kernel never refuses an open: on each inode the handles granted are direct ones and
    at most one other sort, all passthrough ones sharing one backing file. The mirror counts
    exactly the handles the kernel holds in the inode's mode, and forgets the mode (and the
    backing file) with the last of them. *)
Theorem io_modes_never_mix w ino :
  star step initial w →
  kernel_accepts (handles w ino) ∧
  (modes w !! ino = None ↔ Forall (λ h, h = HDirect) (handles w ino)) ∧
  (∀ m, modes w !! ino = Some m → mode_opens m = count_held (handles w ino) ∧ 0 < mode_opens m) ∧
  (∀ pt g err m, acquire (modes w) ino pt = (g, err, m) →
     kernel_accepts (handle_of_grant g :: handles w ino)).
Proof.
  intros Hr. assert (Hw : exact w) by (eapply star_invariant; [|exact Hr|apply initial_exact]; apply step_exact).
  specialize (Hw ino) as Hi. split_and!.
  - by eapply mirrors_accepts.
  - split; [by intros Hm; rewrite Hm in Hi|]. intros Hall. destruct (modes w !! ino) as [m|]; [|done].
    destruct Hi as (H1 & H2 & _). rewrite count_held_none in H2 by done. lia.
  - intros m Hm. rewrite Hm in Hi. by destruct Hi as (? & ? & _).
  - intros pt g err m Ha. pose proof (acquire_exact w ino pt g err m Hw Ha ino) as Hx.
    apply mirrors_accepts in Hx. unfold handles, set_handles in Hx. simpl in Hx.
    by rewrite lookup_insert_eq in Hx.
Qed.
End iomode.
Arguments World : clear implicits.
Arguments step : clear implicits.

(** A passthrough open, then a plain one on the same inode. *)
Lemma io_modes_never_mix_witness :
  ∃ w : World nat, star (step nat unit) initial w ∧ handles w 1 = [HDirect; HPass 7] ∧
    kernel_accepts (handles w 1).
Proof.
  pose (f := Build_FileId 1 1 10 5).
  pose (w1 := set_handles (initial (B := nat)) (<[1 := Passthrough 7 f 1]> ∅) 1 [HPass 7]).
  pose (w2 := set_handles w1 (modes w1) 1 (HDirect :: handles w1 1)).
  assert (Hr : star (step nat unit) initial w2).
  { apply (star_snoc _ _ w1).
    - apply (star_snoc _ _ initial); [constructor|].
      by apply (step_acquire initial 1 (Some (f, Ok 7)) (GPassthrough 7) None).
    - by apply (step_acquire w1 1 None GDirectIo None). }
  exists w2. split; [exact Hr|]. split; [by vm_compute|].
  exact (proj1 (io_modes_never_mix w2 1 Hr)).
Defined.
