(* ===== verification/ChangeLog.v ===== *)
(** [change_log.rs]: the bounded, sequence-numbered log that broadcasts changes to every
    client through its own cursor.

    The state is [Ring], what the mutex guards; each method is a function on it.  Sequence
    numbers are [u64] counters and natural numbers here.  The two producer buffers [pump]
    drains are arguments; the condition variable has no counterpart ([wait_past] only
    waits).  A structural change is a value of an arbitrary type. *)
From S2P Require Import Prelude Paths.

Section changelog.
Context {FileChange : Type}.

(* change_log.rs:36-41 ChangeRecord *)
Inductive ChangeRecord :=
| Status (p : PathBuf)
| File (f : FileChange).

(* change_log.rs:44-51 ReadResult *)
Record ReadResult := { next : nat; records : list ChangeRecord; resync : bool }.

Abbreviation CursorKey := nat.

(* change_log.rs:61-66 LegacyCursor *)
Record LegacyCursor := { c_status : nat; c_file : nat; c_refs : nat }.

(* change_log.rs:68-77 Ring *)
Record Ring := {
  base : nat;
  entries : list ChangeRecord;
  cap : nat;
  cursors : gmap CursorKey LegacyCursor;
  live_readers : nat;
}.

Definition set_entries (r : Ring) (b : nat) (l : list ChangeRecord) : Ring :=
  Build_Ring b l (cap r) (cursors r) (live_readers r).
Definition set_cursors (r : Ring) (c : gmap CursorKey LegacyCursor) : Ring :=
  Build_Ring (base r) (entries r) (cap r) c (live_readers r).
Definition set_live (r : Ring) (n : nat) : Ring :=
  Build_Ring (base r) (entries r) (cap r) (cursors r) n.

(* change_log.rs:80-82 Ring::head *)
Definition head (r : Ring) : nat := base r + length (entries r).

(* change_log.rs:91-102 ChangeLog::new *)
Definition new (c : nat) : Ring := Build_Ring 0 [] (Nat.max c 1) ∅ 0.

(** Is anybody reading? *)
Definition unread (r : Ring) : bool := bool_decide (cursors r = ∅) && (live_readers r =? 0).

(* change_log.rs:109-132 ChangeLog::append *)
Definition append (recs : list ChangeRecord) (r : Ring) : Ring :=
  let before := head r in
  let r := set_entries r (base r) (entries r ++ recs) in
  if head r =? before then r
  else
    let overflow := length (entries r) - cap r in
    let r := if 0 <? overflow then set_entries r (base r + overflow) (drop overflow (entries r)) else r in
    if unread r then set_entries r (base r + length (entries r)) [] else r.

(** The structural changes queued and the status changes recorded since the last pump. *)
(* change_log.rs:136-148 ChangeLog::pump *)
Definition pump (dirty : list PathBuf) (file_changes : list FileChange) (r : Ring) : Ring :=
  match file_changes, dirty with
  | [], [] => r
  | _, _ => append ((File <$> file_changes) ++ (Status <$> dirty)) r
  end.

Definition clamp (x lo hi : nat) : nat := Nat.min (Nat.max x lo) hi.
Definition under (n : nat) (max : option nat) : bool :=
  match max with Some m => n <? m | None => true end.

(** The loop over the records from the cursor on; no [max] stands for [usize::MAX]. *)
(* change_log.rs:161-170 ChangeLog::read_locked *)
Fixpoint read_loop (keep : ChangeRecord → bool) (max : option nat) (next : nat)
    (out l : list ChangeRecord) : nat * list ChangeRecord :=
  match l with
  | [] => (next, out)
  | rec :: l =>
      if under (length out) max
      then read_loop keep max (S next) (if keep rec then out ++ [rec] else out) l
      else (next, out)
  end.

(* change_log.rs:156-172 ChangeLog::read_locked *)
Definition read_locked (r : Ring) (since : nat) (max : option nat) (keep : ChangeRecord → bool) : ReadResult :=
  let start := clamp since (base r) (head r) in
  let '(nx, out) := read_loop keep max start [] (drop (start - base r) (entries r)) in
  {| next := nx; records := out; resync := since <? base r |}.

(* change_log.rs:151-154 ChangeLog::read_since *)
Definition read_since (r : Ring) (since max : nat) : ReadResult :=
  read_locked r since (Some max) (λ _, true).

(* change_log.rs:185-187 ChangeLog::add_live_reader *)
Definition add_live_reader (r : Ring) : Ring := set_live r (S (live_readers r)).
(* change_log.rs:189-192 ChangeLog::remove_live_reader *)
Definition remove_live_reader (r : Ring) : Ring := set_live r (live_readers r - 1).

(* change_log.rs:196-203 ChangeLog::attach *)
Definition attach (key : CursorKey) (r : Ring) : Ring :=
  let c := default (Build_LegacyCursor (head r) (head r) 0) (cursors r !! key) in
  set_cursors r (<[key := Build_LegacyCursor (c_status c) (c_file c) (S (c_refs c))]> (cursors r)).

(* change_log.rs:206-214 ChangeLog::detach *)
Definition detach (key : CursorKey) (r : Ring) : Ring :=
  match cursors r !! key with
  | None => r
  | Some c =>
      let refs := c_refs c - 1 in
      set_cursors r (if refs =? 0 then delete key (cursors r)
                     else <[key := Build_LegacyCursor (c_status c) (c_file c) refs]> (cursors r))
  end.

(* change_log.rs:226-240 ChangeLog::take_status *)
Fixpoint status_loop (max : nat) (next : nat) (out : list PathBuf) (l : list ChangeRecord) : nat * list PathBuf :=
  match l with
  | [] => (next, out)
  | Status p :: l =>
      if bool_decide (p ∈ out) then status_loop max (S next) out l
      else if max <=? length out then (next, out)
      else status_loop max (S next) (out ++ [p]) l
  | File _ :: l => status_loop max (S next) out l
  end.

(* change_log.rs:217-245 ChangeLog::take_status *)
Definition take_status (key : CursorKey) (max : nat) (r : Ring) : list PathBuf * Ring :=
  match cursors r !! key with
  | None => ([], r)
  | Some c =>
      let start := clamp (c_status c) (base r) (head r) in
      let '(nx, out) := status_loop max start [] (drop (start - base r) (entries r)) in
      (out, set_cursors r (<[key := Build_LegacyCursor nx (c_file c) (c_refs c)]> (cursors r)))
  end.

Definition is_file (rec : ChangeRecord) : bool := match rec with File _ => true | Status _ => false end.
Definition file_of (rec : ChangeRecord) : option FileChange := match rec with File f => Some f | Status _ => None end.

(* change_log.rs:248-267 ChangeLog::take_file_changes *)
Definition take_file_changes (key : CursorKey) (r : Ring) : list FileChange * Ring :=
  match cursors r !! key with
  | None => ([], r)
  | Some c =>
      let res := read_locked r (c_file c) None is_file in
      (omap file_of (records res),
       set_cursors r (<[key := Build_LegacyCursor (c_status c) (next res) (c_refs c)]> (cursors r)))
  end.

(** ** The log as the full history it stands for *)

Inductive op :=
| OAppend (recs : list ChangeRecord)
| OPump (dirty : list PathBuf) (files : list FileChange)
| OAddLive | ORemoveLive
| OAttach (key : CursorKey) | ODetach (key : CursorKey)
| OTakeStatus (key : CursorKey) (max : nat)
| OTakeFiles (key : CursorKey).

Definition run_op (o : op) (r : Ring) : Ring :=
  match o with
  | OAppend l => append l r
  | OPump d f => pump d f r
  | OAddLive => add_live_reader r
  | ORemoveLive => remove_live_reader r
  | OAttach k => attach k r
  | ODetach k => detach k r
  | OTakeStatus k m => (take_status k m r).2
  | OTakeFiles k => (take_file_changes k r).2
  end.
Definition run_ops (l : list op) (r : Ring) : Ring := foldl (λ r o, run_op o r) r l.

(** Everything an operation adds to the log, and a run of them. *)
Definition added (o : op) : list ChangeRecord :=
  match o with
  | OAppend l => l
  | OPump d f => (File <$> f) ++ (Status <$> d)
  | _ => []
  end.
Definition history (l : list op) : list ChangeRecord := mjoin (added <$> l).

(** The ring holds the end of the history, within its capacity. *)
Definition holds (r : Ring) (hist : list ChangeRecord) : Prop :=
  entries r = drop (base r) hist ∧ head r = length hist ∧ length (entries r) ≤ cap r ∧ 0 < cap r.

Lemma append_holds recs r hist :
  holds r hist →
  holds (append recs r) (hist ++ recs) ∧ cap (append recs r) = cap r ∧
  cursors (append recs r) = cursors r ∧ live_readers (append recs r) = live_readers r ∧
  (unread r = false → base (append recs r) = Nat.max (base r) (length (hist ++ recs) - cap r)).
Proof.
  intros (He & Hh & Hc & Hp). unfold append, head in *.
  assert (Hb : base r ≤ length hist) by lia.
  assert (Hl : entries r ++ recs = drop (base r) (hist ++ recs)) by (rewrite drop_app_le by done; by rewrite He).
  cbn [set_entries base entries cap cursors live_readers]. rewrite !length_app.
  destruct (_ =? _) eqn:E0; bool_prop.
  { assert (length recs = 0) as Hz by lia. destruct recs; [|done]. rewrite !app_nil_r in *.
    unfold holds, head. simpl. split_and!; try done; simpl; lia. }
  set (ov := length (entries r) + length recs - cap r) in *.
  assert (Hov : ∀ b l, (b, l) = (if 0 <? ov then (base r + ov, drop ov (entries r ++ recs)) else (base r, entries r ++ recs)) →
    b = base r + ov ∧ l = drop b (hist ++ recs) ∧ length l = length (hist ++ recs) - b ∧
    length l ≤ cap r ∧ b ≤ length (hist ++ recs)).
  { intros b l Hbl. destruct (0 <? ov) eqn:E1; bool_prop; simplify_eq.
    - rewrite Hl, drop_drop, !length_drop, !length_app. unfold ov in *. split_and!; lia || done.
    - rewrite Hl, !length_drop, !length_app in *. unfold ov in *. split_and!; lia || done. }
  destruct (0 <? ov) eqn:E1; simpl;
    destruct (Hov _ _ eq_refl) as (Hb1 & Hl1 & Hl2 & Hl3 & Hl4); unfold unread; simpl; unfold unread.
  - destruct (bool_decide (cursors r = ∅) && (live_readers r =? 0)) eqn:Eu; simpl; unfold holds, head; simpl.
    + rewrite Hl2. split_and!; try done; try lia; by rewrite drop_ge by lia.
    + rewrite Hl2. split_and!; try done; try lia; intros _; rewrite length_app; unfold ov in *; bool_prop; lia.
  - destruct (bool_decide (cursors r = ∅) && (live_readers r =? 0)) eqn:Eu; simpl; unfold holds, head; simpl.
    + rewrite Hl2. split_and!; try done; try lia; by rewrite drop_ge by lia.
    + rewrite Hl2. split_and!; try done; try lia; intros _; rewrite length_app; unfold ov in *; bool_prop; lia.
Qed.

Lemma run_op_holds o r hist :
  holds r hist →
  holds (run_op o r) (hist ++ added o) ∧ cap (run_op o r) = cap r ∧
  (unread r = false → base (run_op o r) ≤ Nat.max (base r) (length (hist ++ added o) - cap r)).
Proof.
  intros H. destruct o; cbn [run_op added]; rewrite ?app_nil_r.
  - destruct (append_holds recs r hist H) as (H1 & H2 & _ & _ & H3). split_and!; [done|done|].
    intros Hu. rewrite H3 by done. lia.
  - destruct (append_holds ((File <$> files) ++ (Status <$> dirty)) r hist H) as (H1 & H2 & _ & _ & H3).
    unfold pump. destruct files as [|f fs]; [destruct dirty as [|d ds]|].
    + cbn [fmap list_fmap app]. rewrite app_nil_r. split_and!; [done|done|lia].
    + split_and!; [done|done|]. intros Hu. rewrite H3 by done. lia.
    + split_and!; [done|done|]. intros Hu. rewrite H3 by done. lia.
  - split_and!; [done|done|simpl; lia].
  - split_and!; [done|done|simpl; lia].
  - split_and!; [done|done|simpl; lia].
  - unfold detach. destruct (cursors r !! key); split_and!; try done; simpl; lia.
  - unfold take_status. destruct (cursors r !! key) as [c|]; [|split_and!; try done; simpl; lia].
    destruct (status_loop _ _ _ _). split_and!; [done|done|simpl; lia].
  - unfold take_file_changes. destruct (cursors r !! key) as [c|]; split_and!; try done; simpl; lia.
Qed.

Lemma new_holds c : holds (new c) [].
Proof. unfold holds, head. simpl. split_and!; try done; lia. Qed.

Lemma run_ops_holds l r hist :
  holds r hist → holds (run_ops l r) (hist ++ history l) ∧ cap (run_ops l r) = cap r.
Proof.
  revert r hist. induction l as [|o l IH]; intros r hist H; unfold history; csimpl; [by rewrite app_nil_r|].
  destruct (run_op_holds o r hist H) as (H1 & H2 & _). destruct (IH _ _ H1) as [H3 H4].
  unfold run_ops in *. simpl. rewrite app_assoc. by rewrite H4, H2.
Qed.

(** A reader stays registered over a run. *)
Fixpoint watched (l : list op) (r : Ring) : Prop :=
  unread r = false ∧ match l with [] => True | o :: l => watched l (run_op o r) end.

Lemma watched_base l r hist :
  holds r hist → watched l r →
  base (run_ops l r) ≤ Nat.max (base r) (length (hist ++ history l) - cap r).
Proof.
  revert r hist. induction l as [|o l IH]; intros r hist H Hw; unfold history; csimpl; [simpl; lia|].
  destruct Hw as [Hu Hw]. destruct (run_op_holds o r hist H) as (H1 & H2 & H3). specialize (H3 Hu).
  specialize (IH _ _ H1 Hw). unfold run_ops in *. simpl. rewrite H2 in IH. unfold history in IH.
  rewrite !length_app in *. lia.
Qed.

Lemma read_loop_spec keep max n out l :
  ∃ k, k ≤ length l ∧ read_loop keep max n out l = (n + k, out ++ List.filter keep (take k l)) ∧
    (max = None → k = length l) ∧
    (∀ m, max = Some m → (∀ x, keep x = true) → k = Nat.min (m - length out) (length l)).
Proof.
  revert n out. induction l as [|x l IH]; intros n out; simpl.
  { exists 0. rewrite Nat.add_0_r, app_nil_r. split_and!; [done|done|done|intros; lia]. }
  destruct (under (length out) max) eqn:Hu.
  - destruct (IH (S n) (if keep x then out ++ [x] else out)) as (k & Hk & -> & H1 & H2).
    exists (S k). split_and!; [lia| | |].
    + f_equal; [lia|]. simpl. destruct (keep x); [|done]. by rewrite <- app_assoc.
    + intros Hm. by rewrite H1.
    + intros m Hm Hx. rewrite (H2 m Hm Hx), Hx, length_app. simpl. subst max. simpl in Hu.
      apply Nat.ltb_lt in Hu. lia.
  - exists 0. rewrite Nat.add_0_r. cbn [take List.filter]. rewrite app_nil_r. split_and!; [lia|done| |].
    + intros ->. done.
    + intros m -> _. simpl in Hu. apply Nat.ltb_ge in Hu. lia.
Qed.

Lemma clamp_in x lo hi : lo ≤ x → x ≤ hi → clamp x lo hi = x.
Proof. unfold clamp. lia. Qed.

Lemma holds_from r hist n : holds r hist → base r ≤ n → drop (n - base r) (entries r) = drop n hist.
Proof. intros (-> & _) Hn. rewrite drop_drop. f_equal. lia. Qed.

Lemma filter_true {A} (l : list A) : List.filter (λ _, true) l = l.
Proof. by apply filterb_all. Qed.

(** The log never loses a record silently. A read answers exactly the next records of
    the full history from the reader's number on, and the number to continue from; the only
    exception is announced as a resync, and happens only to a number older than the oldest
    record kept. A reader registered since it last read is never sent to resync while at
    most a ring's worth of records arrived. *)
Theorem read_since_exact ops1 ops2 c max :
  let r1 := run_ops ops1 (new c) in
  let since := length (history ops1) in
  let r := run_ops ops2 r1 in
  let res := read_since r since max in
  (resync res = false →
     records res = take max (history ops2) ∧ next res = since + length (records res)) ∧
  (resync res = true →
     base r1 ≤ since < base r ∧ records res = take max (drop (base r) (history (ops1 ++ ops2))) ∧
     next res = base r + length (records res)) ∧
  (watched ops2 r1 → length (history ops2) ≤ Nat.max c 1 → resync res = false).
Proof.
  cbv zeta. destruct (run_ops_holds ops1 (new c) [] (new_holds c)) as [H1 Hc1].
  set (r1 := run_ops ops1 (new c)) in *. simpl in H1.
  destruct (run_ops_holds ops2 r1 _ H1) as [H2 Hc2]. set (r := run_ops ops2 r1) in *.
  assert (Hh : history (ops1 ++ ops2) = history ops1 ++ history ops2).
  { unfold history. by rewrite fmap_app, join_app. }
  assert (Hb1 : base r1 ≤ length (history ops1)) by (destruct H1 as (_ & E & _); unfold head in E; lia).
  assert (Hhd : head r = length (history ops1) + length (history ops2)).
  { destruct H2 as (_ & E & _). by rewrite E, length_app. }
  unfold read_since, read_locked. set (start := clamp _ _ _).
  destruct (read_loop_spec (λ _, true) (Some max) start [] (drop (start - base r) (entries r)))
    as (k & Hk & -> & _ & Hkm). specialize (Hkm max eq_refl (λ _, eq_refl)). simpl in Hkm.
  rewrite filter_true. cbn [records next resync app].
  assert (Hbr : base r ≤ head r) by (unfold head; lia).
  rewrite (holds_from r _ start H2) in * by (unfold start, clamp; lia). rewrite Nat.sub_0_r in Hkm.
  assert (Htake : take k (drop start (history ops1 ++ history ops2)) = take max (drop start (history ops1 ++ history ops2))).
  { subst k. destruct (Nat.min_spec max (length (drop start (history ops1 ++ history ops2)))) as [[_ ->]|[Hm ->]]; [done|].
    by rewrite (take_ge _ max), take_ge by lia. }
  assert (Hlen : length (take k (drop start (history ops1 ++ history ops2))) = k) by (rewrite length_take; lia).
  split_and!.
  - intros Hrs%Nat.ltb_ge. assert (start = length (history ops1)) as Hst by (unfold start; apply clamp_in; lia).
    rewrite Hlen, Htake, Hst, drop_app_length. done.
  - intros Hrs%Nat.ltb_lt. assert (start = base r) as Hst by (unfold start, clamp; lia).
    rewrite Hlen, Htake, Hst, Hh. split_and!; [lia|lia|done|done].
  - intros Hw Hle. apply Nat.ltb_ge. pose proof (watched_base ops2 r1 _ H1 Hw) as Hwb.
    fold r in Hwb. rewrite Hc1 in Hwb. simpl in Hwb. rewrite length_app in Hwb. lia.
Qed.

(** Operations of other clients, and producers. *)
Definition leaves_cursor (key : CursorKey) (o : op) : Prop :=
  match o with OTakeFiles k | ODetach k => k ≠ key | _ => True end.

Lemma append_same recs r : cursors (append recs r) = cursors r ∧ live_readers (append recs r) = live_readers r.
Proof. unfold append. repeat (case_match; try done). Qed.

Lemma leaves_cursor_kept key o r c :
  leaves_cursor key o → cursors r !! key = Some c →
  ∃ c', cursors (run_op o r) !! key = Some c' ∧ c_file c' = c_file c.
Proof.
  intros Ho Hc. destruct o; cbn [run_op leaves_cursor] in *.
  - exists c. by rewrite (proj1 (append_same _ _)).
  - exists c. unfold pump. repeat case_match; rewrite ?(proj1 (append_same _ _)); done.
  - by exists c.
  - by exists c.
  - unfold attach. simpl. destruct (decide (key = key0)) as [<-|Hne].
    + rewrite lookup_insert_eq, Hc. by eexists.
    + rewrite lookup_insert_ne by done. by exists c.
  - exists c. split; [|done]. unfold detach. destruct (cursors r !! key0) as [c0|]; [|done]. simpl.
    case_match; [rewrite lookup_delete_ne|rewrite lookup_insert_ne]; done.
  - unfold take_status. destruct (cursors r !! key0) as [c0|] eqn:E0; [|by exists c].
    destruct (status_loop _ _ _ _) as [nx out]. simpl. destruct (decide (key = key0)) as [<-|Hne].
    + rewrite lookup_insert_eq. eexists. split; [done|]. simpl. congruence.
    + rewrite lookup_insert_ne by done. by exists c.
  - unfold take_file_changes. destruct (cursors r !! key0) as [c0|] eqn:E0; [|by exists c]. simpl.
    rewrite lookup_insert_ne by done. by exists c.
Qed.

Lemma leaves_cursors_kept key l r c :
  Forall (leaves_cursor key) l → cursors r !! key = Some c →
  watched l r ∧ ∃ c', cursors (run_ops l r) !! key = Some c' ∧ c_file c' = c_file c.
Proof.
  revert r c. induction l as [|o l IH]; intros r c Hl Hc.
  - split; [split; [|done]|by exists c]. unfold unread. rewrite bool_decide_eq_false_2; [done|].
    intros E. rewrite E in Hc. by rewrite lookup_empty in Hc.
  - apply Forall_cons in Hl as [Ho Hl]. destruct (leaves_cursor_kept key o r c Ho Hc) as (c1 & Hc1 & E1).
    destruct (IH _ _ Hl Hc1) as (Hw & c2 & Hc2 & E2). split.
    + split; [|done]. unfold unread. rewrite bool_decide_eq_false_2; [done|].
      intros E. rewrite E in Hc. by rewrite lookup_empty in Hc.
    + exists c2. split; [done|]. congruence.
Qed.

Lemma omap_filter_file l : omap file_of (List.filter is_file l) = omap file_of l.
Proof. induction l as [|[p|f] l IH]; [done|exact IH|exact (f_equal (cons f) IH)]. Qed.

(** A client reads every structural change exactly once: between two reads, whatever
    other clients, emblem queries and connections do, the second read returns exactly the
    changes recorded since the first, in order, as long as they fit in the ring. *)
Theorem take_file_changes_once ops1 key ops2 c :
  let r1 := run_ops ops1 (new c) in
  is_Some (cursors r1 !! key) →
  Forall (leaves_cursor key) ops2 →
  length (history ops2) ≤ Nat.max c 1 →
  let r2 := (take_file_changes key r1).2 in
  (take_file_changes key (run_ops ops2 r2)).1 = omap file_of (history ops2).
Proof.
  cbv zeta. intros [c1 Hc1] Hops Hlen.
  destruct (run_ops_holds ops1 (new c) [] (new_holds c)) as [H1 Hcap]. set (r1 := run_ops ops1 (new c)) in *.
  simpl in H1. destruct (run_op_holds (OTakeFiles key) r1 _ H1) as (H2 & Hcap2 & _).
  cbn [run_op added] in H2, Hcap2. rewrite app_nil_r in H2.
  set (r2 := (take_file_changes key r1).2) in *.
  assert (Hcur : ∃ c2, cursors r2 !! key = Some c2 ∧ c_file c2 = length (history ops1)).
  { unfold r2, take_file_changes. rewrite Hc1. simpl. rewrite lookup_insert_eq. eexists. split; [done|]. simpl.
    unfold read_locked. set (start := clamp _ _ _).
    destruct (read_loop_spec is_file None start [] (drop (start - base r1) (entries r1))) as (k & _ & -> & Hk & _).
    simpl. rewrite (Hk eq_refl), length_drop. destruct H1 as (_ & E & _).
    assert (base r1 ≤ start ≤ head r1) by (unfold start, clamp, head; lia). unfold head in *. lia. }
  destruct Hcur as (c2 & Hc2 & Hf2).
  destruct (leaves_cursors_kept key ops2 r2 c2 Hops Hc2) as (Hw & c3 & Hc3 & Hf3).
  pose proof (watched_base ops2 r2 _ H2 Hw) as Hb. destruct (run_ops_holds ops2 r2 _ H2) as [H3 _].
  set (r3 := run_ops ops2 r2) in *. unfold take_file_changes. rewrite Hc3. cbn [fst].
  rewrite Hcap2, Hcap in Hb. simpl in Hb. rewrite length_app in Hb.
  assert (Hb2 : base r2 ≤ length (history ops1)) by (destruct H2 as (_ & E & _); unfold head in E; lia).
  unfold read_locked. rewrite Hf3, Hf2. rewrite clamp_in.
  - destruct (read_loop_spec is_file None (length (history ops1)) [] (drop (length (history ops1) - base r3) (entries r3)))
      as (k & _ & -> & Hk & _). simpl. rewrite (Hk eq_refl), take_ge by done.
    rewrite (holds_from r3 _ _ H3) by lia. rewrite drop_app_length. apply omap_filter_file.
  - lia.
  - destruct H3 as (_ & E & _). rewrite E, length_app. lia.
Qed.

Lemma status_loop_spec max n out l :
  NoDup out → length out ≤ max →
  let '(nx, out') := status_loop max n out l in
  ∃ k, nx = n + k ∧ k ≤ length l ∧ NoDup out' ∧ length out' ≤ max ∧
    (∀ p, p ∈ out' ↔ p ∈ out ∨ Status p ∈ take k l) ∧
    (k < length l → ∃ p, l !! k = Some (Status p) ∧ p ∉ out' ∧ length out' = max).
Proof.
  revert n out. induction l as [|[p|f] l IH]; intros n out Hnd Hlen; simpl.
  - exists 0. rewrite Nat.add_0_r. split_and!; try done; try lia.
    intros p. split; [by left|]. intros [?|?%elem_of_nil]; done.
  - destruct (bool_decide (p ∈ out)) eqn:Hp; bool_prop.
    + specialize (IH (S n) out Hnd Hlen). destruct (status_loop max (S n) out l) as [nx out'].
      destruct IH as (k & -> & Hk & H1 & H2 & H3 & H4). exists (S k).
      split_and!; try done; try lia.
      * intros q. rewrite H3. simpl. rewrite elem_of_cons. split; [tauto|].
        intros [?|[[= ->]|?]]; tauto.
      * intros Hlt. apply H4. lia.
    + destruct (max <=? length out) eqn:Hm; bool_prop.
      * exists 0. rewrite Nat.add_0_r. split_and!; try done; try lia.
        -- intros q. simpl. split; [by left|]. intros [?|?%elem_of_nil]; done.
        -- intros _. exists p. split_and!; [done|done|lia].
      * specialize (IH (S n) (out ++ [p])). destruct (status_loop max (S n) (out ++ [p]) l) as [nx out'].
        destruct IH as (k & -> & Hk & H1 & H2 & H3 & H4).
        { apply NoDup_app. split_and!; [done| |apply NoDup_singleton]. intros q Hq ->%list_elem_of_singleton. done. }
        { rewrite length_app. simpl. lia. }
        exists (S k). split_and!; try done; try lia.
        -- intros q. rewrite H3, elem_of_app, list_elem_of_singleton. simpl. rewrite elem_of_cons.
           split; [intros [[?| ->]|?]; tauto|]. intros [?|[[= ->]|?]]; tauto.
        -- intros Hlt. apply H4. lia.
  - specialize (IH (S n) out Hnd Hlen). destruct (status_loop max (S n) out l) as [nx out'].
    destruct IH as (k & -> & Hk & H1 & H2 & H3 & H4). exists (S k). split_and!; try done; try lia.
    + intros q. rewrite H3. simpl. rewrite elem_of_cons. split; [tauto|]. intros [?|[?|?]]; [tauto|done|tauto].
    + intros Hlt. apply H4. lia.
Qed.

(** A poll for status changes answers distinct paths, at most as many as asked for, and
    exactly the paths changed in the records it moves past: it stops only in front of a
    further path that did not fit, which the next poll starts with. *)
Theorem take_status_covers key max r c out r' :
  cursors r !! key = Some c →
  take_status key max r = (out, r') →
  let start := clamp (c_status c) (base r) (head r) in
  ∃ k, cursors r' !! key = Some (Build_LegacyCursor (start + k) (c_file c) (c_refs c)) ∧
    NoDup out ∧ length out ≤ max ∧
    (∀ p, p ∈ out ↔ Status p ∈ take k (drop (start - base r) (entries r))) ∧
    (start + k < head r →
       ∃ p, entries r !! (start - base r + k) = Some (Status p) ∧ p ∉ out ∧ length out = max) ∧
    start + k ≤ head r.
Proof.
  intros Hc Ht. unfold take_status in Ht. rewrite Hc in Ht. set (start := clamp _ _ _) in *.
  assert (Hs : base r ≤ start ≤ head r) by (unfold start, clamp, head; lia).
  pose proof (status_loop_spec max start [] (drop (start - base r) (entries r)) (NoDup_nil_2) ltac:(simpl; lia)) as H.
  destruct (status_loop _ _ _ _) as [nx out']. injection Ht as <- <-.
  destruct H as (k & -> & Hk & H1 & H2 & H3 & H4). exists k. rewrite length_drop in *. unfold head in *.
  split_and!; try done.
  - simpl. by rewrite lookup_insert_eq.
  - intros p. rewrite H3. split; [intros [?%elem_of_nil|?]; done|by right].
  - intros Hlt. destruct H4 as (p & Hp & Hn & Hl); [lia|]. rewrite lookup_drop in Hp. by exists p.
  - lia.
Qed.
End changelog.

Lemma take_file_changes_once_witness :
  let r1 := run_ops [OAttach 7; OAppend [File 1]] (new 4) in
  let r2 := (take_file_changes 7 r1).2 in
  (take_file_changes 7 (run_ops [OAppend [File 2; Status ["a"%string]]; OTakeStatus 7 1; OPump [] [3]] r2)).1 = [2; 3].
Proof.
  refine (take_file_changes_once [OAttach 7; OAppend [File 1]] 7
    [OAppend [File 2; Status ["a"%string]]; OTakeStatus 7 1; OPump [] [3]] 4 _ _ _).
  - vm_compute. by eexists.
  - by repeat constructor.
  - vm_compute. lia.
Defined.

Lemma take_status_covers_witness :
  let r : Ring (FileChange := nat) :=
    run_ops [OAttach 7; OAppend [Status ["a"]; Status ["a"]; File 1; Status ["b"]]]%string (new 8) in
  ∃ c out r', cursors r !! 7 = Some c ∧ take_status 7 1 r = (out, r') ∧ NoDup out.
Proof.
  cbv zeta. set (r := run_ops _ _).
  assert (Hc : cursors r !! 7 = Some (Build_LegacyCursor 0 0 1)) by by vm_compute.
  destruct (take_status 7 1 r) as [out r'] eqn:E.
  destruct (take_status_covers 7 1 r _ out r' Hc E) as (k & _ & Hnd & _).
  exists (Build_LegacyCursor 0 0 1), out, r'. split; [exact Hc|]. split; [reflexivity|exact Hnd].
Defined.
