(* ===== verification/Backoff.v ===== *)
(** [backoff.rs]: the per-directory cooldown after a failed listing ([PathBackoff]) and the
    breaker over all answers ([ServerBreaker]).

    Clock readings are arguments, durations nanoseconds.  [jitter] draws from a random
    hasher: the draw is an argument, and the factor 0.8 + 0.4 * draw, computed in floating
    point by the code, is taken exactly (rounded down to a nanosecond).  The share of errors
    is compared in floating point by the code; over the at most 513 samples of the window
    that agrees with the comparison of integers made here. *)
From S2P Require Import Prelude Paths.
Local Open Scope Z_scope.

(* backoff.rs:27-27 BASE_COOLDOWN *)
Definition BASE_COOLDOWN : Duration := secs 5.
(* backoff.rs:28-28 MAX_COOLDOWN *)
Definition MAX_COOLDOWN : Duration := secs 300.
(* backoff.rs:30-30 PRUNE_AT *)
Definition PRUNE_AT : nat := 4096.

(* backoff.rs:33-38 jitter *)
Definition jitter (d : Duration) (draw : Z) : Duration := d * (8000 + 4 * (draw mod 1000)) / 10000.

(** [now.duration_since(t)] saturates at zero. *)
Definition duration_since (now t : Instant) : Duration := sat_sub now t.

(** ** Per path *)

(* backoff.rs:41-45 Failure *)
Record Failure := { until : Instant; failures : Z; code : Z }.

Abbreviation PathBackoff := (gmap PathBuf Failure).

Definition doubling (base mx : Duration) (n cap : Z) : Duration := Z.min (base * 2 ^ Z.min n cap) mx.

(* backoff.rs:65-75 PathBackoff::record_failure *)
Definition record_failure (m : PathBackoff) (path : PathBuf) (c : Z) (now : Instant) (draw : Z) :
    Duration * PathBackoff :=
  let m : PathBackoff := if (PRUNE_AT <=? size m)%nat then filter (λ q, now < until q.2) m else m in
  let n := Z.min (match m !! path with Some f => failures f | None => 0 end + 1) u32_max in
  let base := doubling BASE_COOLDOWN MAX_COOLDOWN (n - 1) 10 in
  let cooldown := jitter base draw in
  (cooldown, <[path := {| until := now + cooldown; failures := n; code := c |}]> m).

(* backoff.rs:77-79 PathBackoff::clear *)
Definition clear (m : PathBackoff) (path : PathBuf) : PathBackoff := delete path m.
(* backoff.rs:81-83 PathBackoff::clear_all *)
Definition clear_all (m : PathBackoff) : PathBackoff := ∅.

(* backoff.rs:86-90 PathBackoff::blocked *)
Definition blocked (m : PathBackoff) (path : PathBuf) (now : Instant) : option (Duration * Z) :=
  f ← m !! path; if now <? until f then Some (until f - now, code f) else None.

(** ** Over all answers *)

(* backoff.rs:102-102 WINDOW *)
Definition WINDOW : Duration := secs 30.
(* backoff.rs:104-104 TRIP_ERRORS *)
Definition TRIP_ERRORS : nat := 20.
(* backoff.rs:107-107 TRIP_MIN_SAMPLES *)
Definition TRIP_MIN_SAMPLES : nat := 10.
(* backoff.rs:108-108 OPEN_BASE *)
Definition OPEN_BASE : Duration := secs 30.
(* backoff.rs:109-109 OPEN_MAX *)
Definition OPEN_MAX : Duration := secs 120.
(* backoff.rs:111-111 MAX_SAMPLES *)
Definition MAX_SAMPLES : nat := 512.

(* backoff.rs:113-119 BreakerState *)
Record BreakerState := {
  samples : list (Instant * bool);
  open_until : option Instant;
  consecutive_trips : Z;
  trips_total : Z;
}.

Definition closed : BreakerState := Build_BreakerState [] None 0 0.

(** Old or surplus samples leave from the front. *)
(* backoff.rs:161-163 ServerBreaker::record *)
Fixpoint trim_samples (now : Instant) (l : list (Instant * bool)) : list (Instant * bool) :=
  match l with
  | [] => []
  | s :: l' => if (MAX_SAMPLES <? length l)%nat || (WINDOW <? duration_since now s.1)
               then trim_samples now l' else l
  end.

Definition count_errors (l : list (Instant * bool)) : nat := length (List.filter snd l).

(** 20 errors, or at least half of at least 10 answers. *)
(* backoff.rs:167-169 ServerBreaker::record *)
Definition trips (l : list (Instant * bool)) : bool :=
  (TRIP_ERRORS <=? count_errors l)%nat
  || ((TRIP_MIN_SAMPLES <=? length l)%nat && (length l <=? 2 * count_errors l)%nat).

Definition is_open_at (st : BreakerState) (now : Instant) : bool :=
  match open_until st with Some t => now <? t | None => false end.

(* backoff.rs:158-185 ServerBreaker::record *)
Definition record (st : BreakerState) (server_error : bool) (now : Instant) (draw : Z) : BreakerState :=
  let l := trim_samples now (samples st ++ [(now, server_error)]) in
  if is_open_at st now
  then Build_BreakerState l (open_until st) (consecutive_trips st) (trips_total st)
  else if trips l then
    let open_for := jitter (doubling OPEN_BASE OPEN_MAX (consecutive_trips st) 4) draw in
    Build_BreakerState [] (Some (now + open_for)) (consecutive_trips st + 1) (trips_total st + 1)
  else
    let calm := negb server_error && (count_errors l =? 0)%nat && (TRIP_MIN_SAMPLES <=? length l)%nat in
    Build_BreakerState l (open_until st) (if calm then 0 else consecutive_trips st) (trips_total st).

(* backoff.rs:188-199 ServerBreaker::is_open *)
Definition is_open (st : BreakerState) (now : Instant) : bool * BreakerState :=
  match open_until st with
  | Some t => if now <? t then (true, st)
              else (false, Build_BreakerState (samples st) None (consecutive_trips st) (trips_total st))
  | None => (false, st)
  end.

(* backoff.rs:140-146 BreakerStats *)
Record BreakerStats := {
  bs_open : bool; bs_open_for_ms : Z; errors_in_window : nat; samples_in_window : nat; bs_trips_total : Z }.

(* backoff.rs:201-211 ServerBreaker::stats *)
Definition stats (st : BreakerState) (now : Instant) : BreakerStats :=
  let in_window := List.filter (λ s, duration_since now s.1 <=? WINDOW) (samples st) in
  {| bs_open := is_open_at st now;
     bs_open_for_ms := match open_until st with Some t => sat_sub t now / ms | None => 0 end;
     errors_in_window := count_errors in_window;
     samples_in_window := length in_window;
     bs_trips_total := trips_total st |}.

(* backoff.rs:215-217 is_struggling *)
Definition is_struggling (c : Z) : bool := (c =? 429) || ((500 <=? c) && (c <=? 599)).

(** ** Theorems *)

Lemma jitter_bounds d draw : 0 ≤ d → d * 8 / 10 ≤ jitter d draw ≤ d * 12 / 10.
Proof.
  intros Hd. unfold jitter. pose proof (Z.mod_pos_bound draw 1000 ltac:(lia)).
  rewrite <- (Z.div_mul_cancel_r (d * 8) 10 1000), <- (Z.div_mul_cancel_r (d * 12) 10 1000) by lia.
  split; apply Z.div_le_mono; nia.
Qed.

(** A directory whose listing failed is left alone for a bounded, growing while: its
    n-th failure in a row blocks it for 5 s doubled n-1 times, at most 5 min, give or take a
    fifth, exactly until that instant, with the failing status remembered; once it has
    passed the directory is asked again. Recording it, pruning included, changes nothing
    about any other directory from then on. *)
Theorem record_failure_blocks m path c now draw :
  (∀ p f, m !! p = Some f → 1 ≤ failures f) →
  let '(cooldown, m') := record_failure m path c now draw in
  (∃ n, 1 ≤ n ∧
     (∀ f, m !! path = Some f → now < until f → n = Z.min (failures f + 1) u32_max) ∧
     (m !! path = None → n = 1) ∧
     let base := Z.min (BASE_COOLDOWN * 2 ^ Z.min (n - 1) 10) MAX_COOLDOWN in
     base * 8 / 10 ≤ cooldown ≤ base * 12 / 10) ∧
  secs 4 ≤ cooldown ≤ secs 360 ∧
  (∀ t, blocked m' path t = if t <? now + cooldown then Some (now + cooldown - t, c) else None) ∧
  (∀ q t, q ≠ path → now ≤ t → blocked m' q t = blocked m q t).
Proof.
  intros Hm. unfold record_failure.
  set (m1 := if (PRUNE_AT <=? size m)%nat then _ else m).
  assert (Hm1 : ∀ q, m1 !! q = m !! q ∨ (m1 !! q = None ∧ ∀ f, m !! q = Some f → until f ≤ now)).
  { intros q. unfold m1. destruct (PRUNE_AT <=? size m)%nat; [|by left].
    destruct (m !! q) as [f|] eqn:E.
    - destruct (decide (now < until f)).
      + left. by apply map_lookup_filter_Some.
      + right. split; [|intros f' [= <-]; lia]. apply map_lookup_filter_None. right.
        intros f' Hf'. rewrite E in Hf'. injection Hf' as <-. done.
    - left. apply map_lookup_filter_None. by left. }
  set (k := match m1 !! path with Some f => failures f | None => 0 end).
  assert (Hk : 0 ≤ k).
  { unfold k. destruct (Hm1 path) as [->|[-> _]]; [|lia]. destruct (m !! path) as [f|] eqn:E; [|lia].
    specialize (Hm path f E). lia. }
  set (n := Z.min (k + 1) u32_max). assert (Hn : 1 ≤ n) by (unfold n, u32_max; lia).
  unfold doubling. set (base := Z.min (BASE_COOLDOWN * 2 ^ Z.min (n - 1) 10) MAX_COOLDOWN).
  assert (Hbase : secs 5 ≤ base ≤ secs 300).
  { unfold base, BASE_COOLDOWN, MAX_COOLDOWN, secs.
    pose proof (Z.pow_pos_nonneg 2 (Z.min (n - 1) 10) ltac:(lia) ltac:(lia)) as Hp.
    revert Hp. generalize (2 ^ Z.min (n - 1) 10). lia. }
  assert (Hj : base * 8 / 10 ≤ jitter base draw ≤ base * 12 / 10).
  { apply jitter_bounds. unfold secs in *. lia. }
  split_and!.
  - exists n. split_and!; [done| | |exact (proj1 Hj)|exact (proj2 Hj)].
    + intros f Hf Hlt. unfold n, k. destruct (Hm1 path) as [->|[_ Hx]]; [by rewrite Hf|].
      specialize (Hx f Hf). lia.
    + intros Hf. unfold n, k. destruct (Hm1 path) as [->|[-> _]]; [by rewrite Hf|done].
  - unfold secs in *. assert (5 * 1000000000 * 8 / 10 ≤ base * 8 / 10) by (apply Z.div_le_mono; lia).
    change (5 * 1000000000 * 8 / 10) with (4 * 1000000000) in *. lia.
  - unfold secs in *. assert (base * 12 / 10 ≤ 300 * 1000000000 * 12 / 10) by (apply Z.div_le_mono; lia).
    change (300 * 1000000000 * 12 / 10) with (360 * 1000000000) in *. lia.
  - intros t. unfold blocked. rewrite lookup_insert_eq. done.
  - intros q t Hq Ht. unfold blocked. rewrite lookup_insert_ne by done.
    destruct (Hm1 q) as [->|[-> Hx]]; [done|]. destruct (m !! q) as [f|]; [|done].
    specialize (Hx f eq_refl). simpl. by rewrite (proj2 (Z.ltb_ge _ _)) by lia.
Qed.

Lemma record_failure_blocks_witness :
  let '(cooldown, m') := record_failure ∅ ["d"%string] 500 0 250 in
  cooldown = 4500000000 ∧ blocked m' ["d"%string] 0 = Some (4500000000, 500) ∧
  blocked m' ["d"%string] 4500000000 = None.
Proof.
  pose proof (record_failure_blocks ∅ ["d"%string] 500 0 250) as H.
  assert (E : (record_failure ∅ ["d"%string] 500 0 250).1 = 4500000000) by by vm_compute.
  destruct (record_failure ∅ ["d"%string] 500 0 250) as [cd m']. simpl in E. subst cd.
  destruct H as (_ & _ & Hb & _); [intros p f Hf; by rewrite lookup_empty in Hf|].
  split; [done|]. by rewrite !Hb.
Defined.

(** The last [n] elements. *)
Definition last_n {A} (n : nat) (l : list A) : list A := drop (length l - n) l.

Definition earlier (a b : Instant * bool) : Prop := a.1 ≤ b.1.
Definition recent (now : Instant) (s : Instant * bool) : bool := duration_since now s.1 <=? WINDOW.

(** Popping from the front leaves the recent answers, at most 512 of them. *)
Lemma trim_samples_spec now l :
  StronglySorted earlier l →
  trim_samples now l = last_n MAX_SAMPLES (List.filter (recent now) l).
Proof.
  induction 1 as [|s l Hs IH Hall]; [done|]. cbn [trim_samples List.filter].
  unfold recent at 1. destruct (WINDOW <? duration_since now s.1) eqn:Ew; bool_prop.
  - rewrite orb_true_r, IH. by rewrite (proj2 (Z.leb_gt _ _)) by lia.
  - rewrite orb_false_r, (proj2 (Z.leb_le _ _)) by lia.
    assert (Hf : List.filter (recent now) l = l).
    { apply filterb_all. intros x Hx. rewrite Forall_forall in Hall. specialize (Hall x Hx).
      unfold recent. apply Z.leb_le. unfold earlier, duration_since, sat_sub in *. lia. }
    rewrite Hf in *. destruct (MAX_SAMPLES <? length (s :: l))%nat eqn:Em; bool_prop.
    + rewrite IH. unfold last_n. cbn [length] in *.
      replace (S (length l) - MAX_SAMPLES)%nat with (S (length l - MAX_SAMPLES)) by lia. done.
    + unfold last_n. replace (length (s :: l) - MAX_SAMPLES)%nat with 0%nat by lia. done.
Qed.

Lemma last_n_sorted n l : StronglySorted earlier l → StronglySorted earlier (last_n n l).
Proof.
  intros H. unfold last_n. rewrite <- (take_drop (length l - n) l) in H.
  by apply StronglySorted_app in H as (_ & _ & H).
Qed.
Lemma filter_sorted f l : StronglySorted earlier l → StronglySorted earlier (List.filter f l).
Proof.
  induction 1 as [|s l _ IH Hall]; simpl; [constructor|]. destruct (f s); [|done]. constructor; [done|].
  rewrite Forall_forall in *. intros x [Hx _]%elem_of_filterb. by apply Hall.
Qed.

(** An answer and when it came. *)
Record Answer := { a_error : bool; a_at : Instant; a_draw : Z }.
Definition run (l : list Answer) : BreakerState :=
  foldl (λ st a, record st (a_error a) (a_at a) (a_draw a)) closed l.

(** What holds at any instant not before the last answer. *)
Definition breaker_ok (st : BreakerState) (now : Instant) : Prop :=
  StronglySorted earlier (samples st) ∧ (∀ s, s ∈ samples st → s.1 ≤ now) ∧
  (length (samples st) ≤ MAX_SAMPLES)%nat ∧ 0 ≤ consecutive_trips st ∧
  (∀ t, open_until st = Some t → t ≤ now + secs 144).

Lemma snoc_sorted l (s : Instant * bool) :
  StronglySorted earlier l → (∀ x, x ∈ l → x.1 ≤ s.1) → StronglySorted earlier (l ++ [s]).
Proof.
  intros H1 H2. apply StronglySorted_app_2; [|done|repeat constructor].
  intros x y Hx ->%list_elem_of_singleton. by apply H2.
Qed.

Lemma open_for_bounds n draw :
  0 ≤ n → secs 24 ≤ jitter (doubling OPEN_BASE OPEN_MAX n 4) draw ≤ secs 144.
Proof.
  intros Hn. unfold doubling, OPEN_BASE, OPEN_MAX.
  pose proof (Z.pow_pos_nonneg 2 (Z.min n 4) ltac:(lia) ltac:(lia)) as Hp.
  assert (Hb : secs 30 ≤ Z.min (secs 30 * 2 ^ Z.min n 4) (secs 120) ≤ secs 120).
  { revert Hp. generalize (2 ^ Z.min n 4). unfold secs. lia. }
  revert Hb. generalize (Z.min (secs 30 * 2 ^ Z.min n 4) (secs 120)). intros b Hb.
  pose proof (jitter_bounds b draw ltac:(unfold secs in *; lia)) as Hj. unfold secs in *.
  assert (30 * 1000000000 * 8 / 10 ≤ b * 8 / 10) by (apply Z.div_le_mono; lia).
  assert (b * 12 / 10 ≤ 120 * 1000000000 * 12 / 10) by (apply Z.div_le_mono; lia).
  change (30 * 1000000000 * 8 / 10) with (24 * 1000000000) in *.
  change (120 * 1000000000 * 12 / 10) with (144 * 1000000000) in *. lia.
Qed.

Lemma record_ok st t0 err now draw :
  breaker_ok st t0 → t0 ≤ now → breaker_ok (record st err now draw) now.
Proof.
  intros (H1 & H2 & H3 & H4 & H5) Ht. unfold record.
  assert (Hs : StronglySorted earlier (samples st ++ [(now, err)])).
  { apply snoc_sorted; [done|]. intros x Hx. specialize (H2 x Hx). simpl. lia. }
  set (l := trim_samples now _).
  assert (Hl : StronglySorted earlier l ∧ (∀ s, s ∈ l → s.1 ≤ now) ∧ (length l ≤ MAX_SAMPLES)%nat).
  { unfold l. rewrite trim_samples_spec by done. split_and!.
    - by apply last_n_sorted, filter_sorted.
    - intros s Hx. unfold last_n in Hx. 
      assert (Hx2 : s ∈ List.filter (recent now) (samples st ++ [(now, err)])).
      { rewrite <- (take_drop (length (List.filter (recent now) (samples st ++ [(now, err)])) - MAX_SAMPLES)
          (List.filter (recent now) (samples st ++ [(now, err)]))). apply elem_of_app. by right. }
      apply elem_of_filterb in Hx2 as [Hx2 _]. apply elem_of_app in Hx2 as [Hx2|Hx2].
      + specialize (H2 s Hx2). lia.
      + apply list_elem_of_singleton in Hx2 as ->. simpl. lia.
    - unfold last_n. rewrite length_drop. lia. }
  destruct Hl as (L1 & L2 & L3).
  destruct (is_open_at st now); [|destruct (trips l)].
  - split_and!; simpl; try done. intros t Ho. specialize (H5 t Ho). lia.
  - split_and!; simpl; try done; try lia; [constructor|by intros s ?%elem_of_nil|].
    intros t [= <-]. pose proof (open_for_bounds (consecutive_trips st) draw H4). lia.
  - split_and!; simpl; try done; [by destruct (_ && _)|]. intros t Ho. specialize (H5 t Ho). lia.
Qed.

Lemma run_ok l t0 :
  StronglySorted Z.le (a_at <$> l) → (∀ a, a ∈ l → a_at a ≤ t0) → breaker_ok (run l) t0.
Proof.
  revert t0. induction l as [|a l IH] using rev_ind; intros t0 Hs Ht.
  { split_and!; simpl; try done; try lia; [constructor|by intros s ?%elem_of_nil]. }
  rewrite fmap_app in Hs. apply StronglySorted_app in Hs as (Hx & Hs & _).
  assert (Ha : breaker_ok (run l) (a_at a)).
  { apply IH; [done|]. intros b Hb. apply Hx; [by apply list_elem_of_fmap_2|]. simpl. left. }
  unfold run in *. rewrite foldl_app. simpl.
  pose proof (record_ok _ _ (a_error a) (a_at a) (a_draw a) Ha ltac:(lia)) as (R1 & R2 & R3 & R4 & R5).
  assert (a_at a ≤ t0) by (apply Ht, elem_of_app; right; left).
  split_and!; try done.
  - intros s Hsm. specialize (R2 s Hsm). lia.
  - intros t Ho. specialize (R5 t Ho). lia.
Qed.

(** The breaker opens exactly when the server is failing: while it is closed, an answer
    opens it if and only if, among the answers since it last opened that are at most 30 s
    old (the last 512 of them), there are 20 server errors or at least half of at least 10
    are. It then stays open 24 s to 144 s, further errors do not extend it, and whatever the
    server answers background work is held back no longer than 144 s at a time. *)
Theorem breaker_trips l err now draw :
  StronglySorted Z.le (a_at <$> l) → (∀ a, a ∈ l → a_at a ≤ now) →
  let st := run l in
  let st' := record st err now draw in
  let w := last_n MAX_SAMPLES (List.filter (recent now) (samples st ++ [(now, err)])) in
  (is_open_at st now = false →
     (is_open_at st' now = true ↔
        (20 ≤ count_errors w)%nat ∨ ((10 ≤ length w)%nat ∧ (length w ≤ 2 * count_errors w)%nat)) ∧
     (is_open_at st' now = true →
        ∃ t, open_until st' = Some t ∧ now + secs 24 ≤ t ≤ now + secs 144 ∧ samples st' = [])) ∧
  (is_open_at st now = true → open_until st' = open_until st) ∧
  is_open_at st' (now + secs 144) = false.
Proof.
  intros Hs Ht st st' w. pose proof (run_ok l now Hs Ht) as Hok.
  pose proof (record_ok _ _ err now draw Hok ltac:(lia)) as (_ & _ & _ & _ & Hu).
  destruct Hok as (H1 & H2 & _ & H4 & _).
  assert (Hw : trim_samples now (samples st ++ [(now, err)]) = w).
  { apply trim_samples_spec, snoc_sorted; [done|]. intros x Hx. by apply H2. }
  assert (Htr : trips w = true ↔ (20 ≤ count_errors w)%nat ∨ ((10 ≤ length w)%nat ∧ (length w ≤ 2 * count_errors w)%nat)).
  { unfold trips. rewrite orb_true_iff, andb_true_iff, !Nat.leb_le. done. }
  split_and!.
  - intros Hc. rewrite <- Htr. pose proof (open_for_bounds (consecutive_trips st) draw H4) as Hb.
    unfold st', record. rewrite Hc, Hw. destruct (trips w) eqn:E.
    + unfold is_open_at. simpl. split; [split; [done|]; intros _; apply Z.ltb_lt; unfold secs in *; lia|].
      intros _. eexists. split_and!; [done|lia|lia|done].
    + set (sn := Build_BreakerState _ _ _ _). assert (Hn : is_open_at sn now = false) by exact Hc.
      rewrite Hn. split; [by split|done].
  - intros Ho. unfold st', record. by rewrite Ho.
  - unfold is_open_at. destruct (open_until st') as [t|] eqn:E; [|done]. apply Z.ltb_ge. by apply Hu.
Qed.

(** Ten errors in ten seconds. *)
Lemma breaker_trips_witness :
  let l := (λ i, Build_Answer true (secs i) 0) <$> [1; 2; 3; 4; 5; 6; 7; 8; 9] in
  is_open_at (run l) (secs 10) = false ∧
  is_open_at (record (run l) true (secs 10) 0) (secs 10) = true ∧
  is_open_at (record (run l) true (secs 10) 0) (secs 10 + secs 144) = false.
Proof.
  cbv zeta.
  set (l := (λ i, Build_Answer true (secs i) 0) <$> [1; 2; 3; 4; 5; 6; 7; 8; 9]).
  destruct (breaker_trips l true (secs 10) 0) as (_ & _ & H).
  - repeat constructor; unfold secs; simpl; lia.
  - intros a Ha. unfold l in Ha. repeat (apply elem_of_cons in Ha as [->|Ha]; [unfold secs; simpl; lia|]).
    by apply elem_of_nil in Ha.
  - split; [by vm_compute|]. split; [by vm_compute|exact H].
Defined.
