(* ===== verification/Listing.v ===== *)
(** [lib.rs]: fetching a directory's listing.

    [get_or_list_dir] is cut where it lets go of the cache's lock: a program counter [Pc]
    per stretch, [advance] runs one.  The fetch it starts on a pool thread streams entries
    over channels into the cache's pending listing; [Fetch] is that job, [soft_refresh_dir]
    the background refresh.  In [lstep] any number of readers, fetches and refreshes
    interleave, the clocks move and the rest of the daemon changes what it likes.

    Errors are text ([Errors]).  Log lines and the maps shown by the GUI are left out. *)
From Stdlib Require Import String.
From S2P Require Import Prelude Paths Backend Errors FsCache.
From S2P Require Backoff.
Local Open Scope Z_scope.

(** ** The connection *)

Record ConnInfo := {
  is_offline : bool;
  offline_since : option Instant;
  shutdown : bool;
  optimistic_listing : bool;
  notify_push_connected : bool;
  dir_cache_max_stale : option Duration;
  backoff : Backoff.PathBackoff;
  breaker : Backoff.BreakerState;
}.
Definition with_conn (off : bool) (since : option Instant) (c : ConnInfo) : ConnInfo :=
  Build_ConnInfo off since (shutdown c) (optimistic_listing c) (notify_push_connected c) (dir_cache_max_stale c)
    (backoff c) (breaker c).
Definition with_health (b : Backoff.PathBackoff) (k : Backoff.BreakerState) (c : ConnInfo) : ConnInfo :=
  Build_ConnInfo (is_offline c) (offline_since c) (shutdown c) (optimistic_listing c) (notify_push_connected c)
    (dir_cache_max_stale c) b k.

Definition DIR_CACHE_TTL : Duration := secs 10.
Definition OPTIMISTIC_TTL_CONNECTED : Duration := secs 86400.
Definition OPTIMISTIC_TTL_FALLBACK : Duration := secs 300.
Definition PROPFIND_TIMEOUT : Duration := secs 15.
Definition CONNECTED_MAX_STALE_FLOOR : Duration := secs 86400.
Definition OFFLINE_READ_GRACE : Duration := secs 15.

(* lib.rs:146-153 effective_max_stale *)
Definition effective_max_stale (c : ConnInfo) : option Duration :=
  base ← dir_cache_max_stale c;
  Some (if notify_push_connected c then Z.max base CONNECTED_MAX_STALE_FLOOR else base).
(* lib.rs:155-164 effective_dir_ttl *)
Definition effective_dir_ttl (c : ConnInfo) : Duration :=
  if negb (optimistic_listing c) then DIR_CACHE_TTL
  else if notify_push_connected c then OPTIMISTIC_TTL_CONNECTED else OPTIMISTIC_TTL_FALLBACK.

(* lib.rs:2167-2174 mark_offline *)
Definition mark_offline (now : Instant) (c : ConnInfo) : ConnInfo :=
  if is_offline c then c else with_conn true (Some now) c.
(* lib.rs:2177-2183 mark_online *)
Definition mark_online (c : ConnInfo) : bool * ConnInfo :=
  if is_offline c then (true, with_conn false None c) else (false, c).

(** How long a blip is waited out: [None] for an outage without a recorded start. *)
(* lib.rs:2201-2206 wait_out_offline_blip *)
Definition blip_deadline (c : ConnInfo) : option Instant := s ← offline_since c; Some (s + OFFLINE_READ_GRACE).

(* lib.rs:2250-2260 OfflineStatus::settled *)
Definition settled (now : Instant) (c : ConnInfo) : bool :=
  is_offline c && match offline_since c with Some s => OFFLINE_READ_GRACE <=? now - s | None => true end.

(* lib.rs:4098-4118 note_listing_outcome *)
Definition note_listing_outcome (now : Instant) (draw : Z) (path : PathBuf) (outcome : result unit string)
    (c : ConnInfo) : ConnInfo :=
  match outcome with
  | Ok _ => with_health (Backoff.clear (backoff c) path) (Backoff.record (breaker c) false now draw) c
  | Err e =>
      match server_error_code e with
      | Some code =>
          if Backoff.is_struggling code
          then with_health (Backoff.record_failure (backoff c) path code now draw).2
                 (Backoff.record (breaker c) true now draw) c
          else with_health (backoff c) (Backoff.record (breaker c) false now draw) c
      | None =>
          if str_starts TRUNCATED_PREFIX e
          then with_health (backoff c) (Backoff.record (breaker c) true now draw) c else c
      end
  end.
Definition outcome_of {A E} (f : E → string) (r : result A E) : result unit string :=
  match r with Ok _ => Ok tt | Err e => Err (f e) end.

(** ** The plain listing, with retries *)

Abbreviation Listing := (list RemoteEntry * option RemoteEntry)%type.
Abbreviation Plain := (option Etag * option RemoteEntry * list RemoteEntry)%type.

Section propfind.
Context {W : Type} `{CloudBackend W} (slot : call W bool).

(** One attempt: [slot] is the wait for a request slot. *)
(* lib.rs:2989-2992 list_dir_propfind *)
Definition propfind_attempt (path : PathBuf) : call W (result Plain string) :=
  λ w, let '(got, w) := slot w in
       if (got : bool) then let '(r, w) := list_dir path w in
            (match r with Ok l => Ok l | Err e => Err (render e) end, w)
       else (Err ("PROPFIND timeout for " +:+ display path +:+ " (no request slot)")%string, w).

Fixpoint propfind_tries (retries : nat) (path : PathBuf) : call W (result Plain string) :=
  λ w, match propfind_attempt path w with
       | (Err e, w') =>
           match retries with
           | S n => if is_transient_network_err e || is_timeout_err e then propfind_tries n path w' else (Err e, w')
           | O => (Err e, w')
           end
       | r => r
       end.
(* lib.rs:2980-3004 list_dir_propfind *)
Definition list_dir_propfind (path : PathBuf) : call W (result Plain string) := propfind_tries 2 path.

(** A server that answered is not asked again. *)
Lemma propfind_stops_at_answer path w w1 w2 code msg :
  slot w = (true, w1) → list_dir path w1 = (Err (RServer code msg), w2) → HTTP_CODE code →
  list_dir_propfind path w = (Err (render (RServer code msg)), w2).
Proof using.
  intros Hs Hl Hc. unfold list_dir_propfind. cbn [propfind_tries]. unfold propfind_attempt. rewrite Hs, Hl. cbv beta iota.
  assert (E : is_server_error (render (RServer code msg)) = true).
  { unfold is_server_error. by rewrite server_error_code_render. }
  unfold is_transient_network_err, is_timeout_err. by rewrite E.
Qed.
End propfind.

(** ** The fetch job *)

(** Where the job is; [closed]: the entry channel's sender is gone already, as it is once
    [list_dir_streaming], which takes it, has returned.  A prefetch is [Starting] until its
    pool has taken it, [Refused] when it has not. *)
Inductive Phase :=
| Starting
| Streaming
| Refused
| Returned (r : result (option Etag) string) (closed : bool)
| Noted (r : result (option Etag) string) (closed : bool)
| Reported (r : result (option Etag) string) (closed : bool)
| Finished (r : result (option Etag) string).

(** A prefetch may go on to the subdirectories ([chain_depth > 0]). *)
Inductive Kind := Direct | Prefetch (chain : bool).

(** [fe_sent] is what was sent on the entry channel while its receiver was there. *)
Record Fetch := {
  fe_path : PathBuf;
  fe_kind : Kind;
  fe_sent : list RemoteEntry;
  fe_phase : Phase;
}.
Definition set_phase (p : Phase) (g : Fetch) : Fetch := Build_Fetch (fe_path g) (fe_kind g) (fe_sent g) p.
Definition set_sent (l : list RemoteEntry) (g : Fetch) : Fetch := Build_Fetch (fe_path g) (fe_kind g) l (fe_phase g).

(** [l_chan] is which fetch's channels the pending listing of a directory holds; finished
    fetches stay in [l_fetches]. *)
Record LState := {
  l_conn : ConnInfo;
  l_cache : FsCache;
  l_fetches : list Fetch;
  l_chan : gmap PathBuf nat;
}.
Definition upd_lcache (f : FsCache → FsCache) (st : LState) : LState :=
  Build_LState (l_conn st) (f (l_cache st)) (l_fetches st) (l_chan st).
Definition upd_conn (f : ConnInfo → ConnInfo) (st : LState) : LState :=
  Build_LState (f (l_conn st)) (l_cache st) (l_fetches st) (l_chan st).
Definition upd_fetch (id : nat) (f : Fetch → Fetch) (st : LState) : LState :=
  Build_LState (l_conn st) (l_cache st) (alter f id (l_fetches st)) (l_chan st).

(** The channels: a pending listing starts with fresh ones, its fetch has the senders. *)
Definition fresh {A} : Receiver A := Build_Receiver [] false.
Definition start_fetch (path : PathBuf) (kind : Kind) (p : Phase) (st : LState) : LState :=
  Build_LState (l_conn st) (start_pending (l_cache st) path fresh fresh fresh)
    (l_fetches st ++ [Build_Fetch path kind [] p]) (<[path := length (l_fetches st)]> (l_chan st)).

Definition push {A} (x : A) (r : Receiver A) : Receiver A := Build_Receiver (r_buf r ++ [x]) (r_gone r).
Definition hang_up {A} (r : Receiver A) : Receiver A := Build_Receiver (r_buf r) true.
Definition upd_pending (path : PathBuf) (f : PendingDir → PendingDir) (c : FsCache) : FsCache :=
  with_pending c (alter f path (pending_dirs c)).
Definition upd_rx (f : Receiver RemoteEntry → Receiver RemoteEntry) (p : PendingDir) : PendingDir :=
  Build_PendingDir (p_entries p) (f (p_rx p)) (p_etag_rx p) (p_self_rx p) (p_etag p) (p_self_entry p) (p_failed p).
Definition upd_self_rx (f : Receiver RemoteEntry → Receiver RemoteEntry) (p : PendingDir) : PendingDir :=
  Build_PendingDir (p_entries p) (p_rx p) (p_etag_rx p) (f (p_self_rx p)) (p_etag p) (p_self_entry p) (p_failed p).
Definition upd_etag_rx (f : Receiver (result (option Etag) string) → Receiver (result (option Etag) string))
    (p : PendingDir) : PendingDir :=
  Build_PendingDir (p_entries p) (p_rx p) (f (p_etag_rx p)) (p_self_rx p) (p_etag p) (p_self_entry p) (p_failed p).

(** Does the pending listing hold this fetch's receivers?  Sends to another are lost. *)
Definition holds_rx (st : LState) (id : nat) (path : PathBuf) : bool :=
  bool_decide (l_chan st !! path = Some id ∧ is_Some (pending_dirs (l_cache st) !! path)).
Definition to_rx (id : nat) (path : PathBuf) (f : PendingDir → PendingDir) (st : LState) : LState :=
  if holds_rx st id path then upd_lcache (upd_pending path f) st else st.

(** One entry: the stream stops early when its receiver is gone. *)
(* propfind.rs:447-456 propfind_list_streaming *)
Definition fetch_send (id : nat) (g : Fetch) (first : bool) (e : RemoteEntry) (st : LState) : LState :=
  if first then to_rx id (fe_path g) (upd_self_rx (push e)) st
  else if holds_rx st id (fe_path g)
  then upd_fetch id (set_sent (fe_sent g ++ [e])) (to_rx id (fe_path g) (upd_rx (push e)) st)
  else st.

(** The request is over: returning from [list_dir_streaming] drops both senders. *)
(* lib.rs:4333-4335 list_dir_cached_or_fresh *)
Definition fetch_return (id : nat) (g : Fetch) (r : result (option Etag) BackendReadError) (st : LState) : LState :=
  upd_fetch id (set_phase (Returned (match r with Ok t => Ok t | Err e => Err (render e) end) true))
    (to_rx id (fe_path g) (λ p, upd_self_rx hang_up (upd_rx hang_up p)) st).
(* lib.rs:4336-4336 list_dir_cached_or_fresh *)
Definition fetch_no_slot (id : nat) (g : Fetch) (st : LState) : LState :=
  upd_fetch id (set_phase (Returned (Err ("PROPFIND timeout for " +:+ display (fe_path g) +:+
    match fe_kind g with Direct => " (no request slot)" | Prefetch _ => " (no prefetch slot)" end)%string) false)) st.
(* lib.rs:4338-4345 list_dir_cached_or_fresh *)
Definition fetch_note (id : nat) (g : Fetch) (r : result (option Etag) string) (closed : bool) (now : Instant) (draw : Z)
    (st : LState) : LState :=
  upd_fetch id (set_phase (Noted r closed))
    (upd_conn (note_listing_outcome now draw (fe_path g) (outcome_of (λ e, e) r)) st).
(* lib.rs:4346-4346 list_dir_cached_or_fresh *)
Definition fetch_report (id : nat) (g : Fetch) (r : result (option Etag) string) (closed : bool) (st : LState) : LState :=
  upd_fetch id (set_phase (Reported r closed)) (to_rx id (fe_path g) (upd_etag_rx (push r)) st).
(** The job ends: whatever senders are left go; a chaining prefetch first asks for the
    subdirectories, which promotes the pending listing. *)
(* lib.rs:4756-4757 start_background_propfind *)
Definition fetch_end (ti : bool) (now : Instant) (wall : SystemTime) (id : nat) (g : Fetch)
    (r : result (option Etag) string) (st : LState) : LState :=
  let chain := match fe_kind g with Prefetch chain => chain | Direct => false end in
  let st := if chain && is_ok r then upd_lcache (λ c, (subdir_paths_for_prefetch c ti now wall (fe_path g)).2) st else st in
  upd_fetch id (set_phase (Finished r))
    (to_rx id (fe_path g) (λ p, upd_etag_rx hang_up (upd_self_rx hang_up (upd_rx hang_up p))) st).

(** A prefetch: nothing while paused, struggling, cached or under way. *)
(* lib.rs:4704-4726 start_background_propfind *)
Definition start_background_propfind (paused : bool) (now : Instant) (path : PathBuf) (chain : bool)
    (st : LState) : LState :=
  if shutdown (l_conn st) || paused then st
  else
    let '(open, k) := Backoff.is_open (breaker (l_conn st)) now in
    let st := upd_conn (λ c, with_health (backoff c) k c) st in
    if open || bool_decide (is_Some (Backoff.blocked (backoff (l_conn st)) path now)) then st
    else if bool_decide (is_Some (dir_cache (l_cache st) !! path))
            || bool_decide (is_Some (pending_dirs (l_cache st) !! path)) then st
    else start_fetch path (Prefetch chain) Starting st.
(** The pool takes the job, or drops it and with it the senders; the pending listing goes in
    a stretch of its own. *)
(* lib.rs:4730-4730 start_background_propfind *)
Definition prefetch_submit (room : bool) (id : nat) (g : Fetch) (st : LState) : LState :=
  if room then upd_fetch id (set_phase Streaming) st
  else upd_fetch id (set_phase Refused)
         (to_rx id (fe_path g) (λ p, upd_etag_rx hang_up (upd_self_rx hang_up (upd_rx hang_up p))) st).
(* lib.rs:4766-4768 start_background_propfind *)
Definition prefetch_dropped (id : nat) (g : Fetch) (st : LState) : LState :=
  upd_fetch id (set_phase (Finished (Err ""%string)))
    (upd_lcache (λ c, with_pending c (delete (fe_path g) (pending_dirs c))) st).

(** ** A reader *)

Definition NOT_A_DIRECTORY_ERR : string := "not a directory".

(** The bounds in force when the reader came. *)
Record Bounds := { b_ttl : Duration; b_stale : option Duration }.

Inductive Pc :=
| Start
| Waiting (deadline : Instant)
| Woke (deadline : Instant)
| Cached
| Blocked (b : Bounds)
| Stale (b : Bounds) (left : Duration) (code : Z)
| Expired (b : Bounds)
| Probe (b : Bounds) (old : Etag)
| Probed (b : Bounds) (old : Etag) (r : result (option Etag) BackendReadError)
| Pending (b : Bounds)
| Launch (b : Bounds)
| Joined (b : Bounds) (inv : bool)
| Poll (b : Bounds) (inv : bool) (deadline : Instant)
| Drain (b : Bounds) (inv : bool)
| Failed (e : string)
| Done (r : result Listing string).

(** What a stretch reads from outside: the clocks, the jitter's draw, whether the pool has
    room and what the server answers a probe. *)
Record Inp := {
  i_now : Instant;
  i_wall : SystemTime;
  i_draw : Z;
  i_room : bool;
  i_probe : result (option Etag) BackendReadError;
}.

Definition self_entry_of (c : FsCache) (path : PathBuf) : option RemoteEntry := dir_cache c !! path ≫= d_self_entry.
Definition pending_self (c : FsCache) (path : PathBuf) : option RemoteEntry := pending_dirs c !! path ≫= p_self_entry.

Section reader.
Context (ti : bool) (i : Inp).
Implicit Types st : LState.

(* lib.rs:4171-4187 list_dir_cached_or_fresh *)
Definition start_section (path : PathBuf) st : Pc * LState :=
  if is_offline (l_conn st) then
    match dir_cache (l_cache st) !! path with
    | Some e => (Done (Ok (d_files e, d_self_entry e)), st)
    | None =>
        match blip_deadline (l_conn st) with
        | Some d => (Waiting d, st)
        | None => (Failed (display path +:+ " not available offline")%string, st)
        end
    end
  else (Cached, st).
(* lib.rs:2207-2216 wait_out_offline_blip *)
Definition waiting_section (path : PathBuf) (deadline : Instant) st : Pc * LState :=
  if (i_now i <? deadline) && negb (shutdown (l_conn st)) then (Woke deadline, st)
  else (Failed (display path +:+ " not available offline")%string, st).
(* lib.rs:2211-2214 wait_out_offline_blip *)
Definition woke_section (deadline : Instant) st : Pc * LState :=
  if is_offline (l_conn st) then (Waiting deadline, st) else (Cached, st).

(** The refresh of a listing past its soft TTL: [true] when one was queued. *)
(* lib.rs:4199-4214 list_dir_cached_or_fresh *)
Definition queue_refresh (path : PathBuf) st : bool * LState :=
  let '(open, k) := Backoff.is_open (breaker (l_conn st)) (i_now i) in
  let st := upd_conn (λ c, with_health (backoff c) k c) st in
  if open || bool_decide (is_Some (Backoff.blocked (backoff (l_conn st)) path (i_now i)))
  then (false, upd_lcache (λ c, clear_refreshing c path) st)
  else if i_room i then (true, st)
  else (false, upd_lcache (λ c, clear_refreshing c path) st).

(* lib.rs:4190-4218 list_dir_cached_or_fresh *)
Definition cached_section (path : PathBuf) st : Pc * LState * bool :=
  let b := {| b_ttl := effective_dir_ttl (l_conn st); b_stale := effective_max_stale (l_conn st) |} in
  let '(r, c) := get_cached_dir (l_cache st) path (b_ttl b) (b_stale b) (i_now i) (i_wall i) in
  let st := upd_lcache (λ _, c) st in
  match r with
  | Some (files, needs_refresh) =>
      let self_entry := self_entry_of c path in
      let '(queued, st) := if needs_refresh then queue_refresh path st else (false, st) in
      (Done (Ok (files, self_entry)), st, queued)
  | None => (Blocked b, st, false)
  end.

(* lib.rs:4222-4222 list_dir_cached_or_fresh *)
Definition blocked_section (path : PathBuf) (b : Bounds) st : Pc * LState :=
  match Backoff.blocked (backoff (l_conn st)) path (i_now i) with
  | Some (lft, code) => (Stale b lft code, st)
  | None => (Expired b, st)
  end.
(** The duration in the message is rendered by [Debug]; only the prefix is read. *)
(* lib.rs:4223-4229 list_dir_cached_or_fresh *)
Definition stale_section (path : PathBuf) (code : Z) st : Pc * LState :=
  match dir_cache (l_cache st) !! path with
  | Some e => (Done (Ok (d_files e, d_self_entry e)), st)
  | None => (Failed (render (RServer code (display path +:+ " (cooling down after a server error)"))), st)
  end.

(* lib.rs:4237-4252 list_dir_cached_or_fresh *)
Definition expired_section (path : PathBuf) (b : Bounds) st : Pc * LState :=
  match dir_cache (l_cache st) !! path with
  | Some e =>
      if d_hard_expired e && negb (d_invalidated e) && negb (d_refreshing e)
      then match d_etag e with
           | Some etag => (Probe b etag, upd_lcache (λ c, put_entry c path (set_refreshing e true)) st)
           | None => (Pending b, st)
           end
      else (Pending b, st)
  | None => (Pending b, st)
  end.

(* lib.rs:4259-4285 list_dir_cached_or_fresh *)
Definition probed_section (path : PathBuf) (b : Bounds) (old : Etag) (r : result (option Etag) BackendReadError) st :
    Pc * LState :=
  let st := upd_conn (note_listing_outcome (i_now i) (i_draw i) path (outcome_of render r)) st in
  match r with
  | Ok (Some new) =>
      if bool_decide (new = old) then
        let '(confirmed, c) := confirm_dir_fresh (l_cache st) path (i_now i) (i_wall i) in
        let st := upd_lcache (λ _, clear_refreshing c path) st in
        match (if confirmed then dir_cache (l_cache st) !! path else None) with
        | Some e => (Done (Ok (d_files e, d_self_entry e)), st)
        | None => (Pending b, st)
        end
      else (Pending b, upd_lcache (λ c, clear_refreshing c path) st)
  | _ => (Pending b, upd_lcache (λ c, clear_refreshing c path) st)
  end.

(* lib.rs:4288-4301 list_dir_cached_or_fresh *)
Definition pending_section (path : PathBuf) (b : Bounds) st : Pc * LState :=
  let '(r, c) := get_pending_snapshot (l_cache st) ti (i_now i) (i_wall i) path in
  let st := upd_lcache (λ _, c) st in
  match r with
  | Err e => (Failed e, st)
  | Ok (Some snapshot) =>
      if may_serve_pending_snapshot c path then (Done (Ok (snapshot, pending_self c path)), st) else (Launch b, st)
  | Ok None => (Launch b, st)
  end.

(* lib.rs:4304-4358 list_dir_cached_or_fresh *)
Definition launch_section (path : PathBuf) (b : Bounds) st : Pc * LState :=
  let inv := match dir_cache (l_cache st) !! path with Some e => d_invalidated e || d_hard_expired e | None => false end in
  let '(r, c) := match dir_cache (l_cache st) !! path with
    | Some _ => get_cached_dir (l_cache st) path (b_ttl b) (b_stale b) (i_now i) (i_wall i)
    | None => (None, l_cache st)
    end in
  let st := upd_lcache (λ _, c) st in
  match r with
  | Some (files, _) => (Done (Ok (files, self_entry_of c path)), st)
  | None =>
      if bool_decide (is_Some (pending_dirs c !! path)) then (Joined b inv, st)
      else if i_room i then (Joined b inv, start_fetch path Direct Streaming st)
      else (Failed ("network: listing " +:+ display path +:+ " deferred — too many listings in flight")%string, st)
  end.

(** Entering the wait. *)
(* lib.rs:4364-4364 list_dir_cached_or_fresh *)
Definition joined_section (b : Bounds) (inv : bool) st : Pc * LState := (Poll b inv (i_now i + PROPFIND_TIMEOUT), st).

(** What of a snapshot may be shown while the stream runs. *)
(* lib.rs:4372-4372 list_dir_cached_or_fresh *)
Definition partial_of (inv : bool) (r : result (option (list RemoteEntry)) string) : option (list RemoteEntry) :=
  match r with Ok (Some (x :: l)) => if inv then None else Some (x :: l) | _ => None end.

(* lib.rs:4368-4399 list_dir_cached_or_fresh *)
Definition poll_section (path : PathBuf) (b : Bounds) (inv : bool) (deadline : Instant) st : Pc * LState :=
  let '(r, c) := get_pending_snapshot (l_cache st) ti (i_now i) (i_wall i) path in
  let st := upd_lcache (λ _, c) st in
  match r, partial_of inv r with
  | Err e, _ => (Failed e, st)
  | Ok _, Some snapshot => (Done (Ok (snapshot, pending_self c path)), st)
  | Ok _, None =>
      if bool_decide (path ∈ not_dirs c)
      then (Failed (NOT_A_DIRECTORY_ERR +:+ ": " +:+ display path)%string,
            upd_lcache (λ c, with_not_dirs c (not_dirs c ∖ {[path]})) st)
      else if match dir_cache c !! path with Some e => negb (d_invalidated e) && negb (d_hard_expired e) | None => false end
      then let '(r, c') := get_cached_dir c path (b_ttl b) (b_stale b) (i_now i) (i_wall i) in
           (match r with
            | Some (files, _) => Done (Ok (files, self_entry_of c path))
            | None => Failed ("PROPFIND returned empty for " +:+ display path)%string
            end, upd_lcache (λ _, c') st)
      else if deadline <=? i_now i then (Drain b inv, st)
      else (Poll b inv deadline, st)
  end.

(** What came of the wait: the stream is drained; a finished one is promoted, of one still
    in flight what there is may be shown. *)
(* lib.rs:4409-4437 list_dir_cached_or_fresh *)
Definition drain_section (path : PathBuf) (b : Bounds) (inv : bool) st : Pc * LState :=
  let timeout := Failed ("PROPFIND timeout for " +:+ display path)%string in
  match pending_dirs (l_cache st) !! path with
  | None => (timeout, st)
  | Some p =>
      let entries := p_entries p ++ r_buf (p_rx p) in
      let st := upd_lcache (upd_pending path (λ p, Build_PendingDir entries (Build_Receiver [] (r_gone (p_rx p)))
                  (p_etag_rx p) (p_self_rx p) (p_etag p) (p_self_entry p) (p_failed p))) st in
      if r_gone (p_rx p) then
        let '(r, c) := promote_pending (l_cache st) ti (i_now i) (i_wall i) path in
        let st := upd_lcache (λ _, c) st in
        match r with
        | Err e => (Failed e, st)
        | Ok se =>
            if bool_decide (path ∈ not_dirs c)
            then (Failed (NOT_A_DIRECTORY_ERR +:+ ": " +:+ display path)%string,
                  upd_lcache (λ c, with_not_dirs c (not_dirs c ∖ {[path]})) st)
            else let '(g, c) := get_cached_dir c path (b_ttl b) (b_stale b) (i_now i) (i_wall i) in
                 (match g with Some (files, _) => Done (Ok (files, se)) | None => timeout end, upd_lcache (λ _, c) st)
        end
      else match entries with
           | [] => (timeout, st)
           | _ => if inv then (timeout, st) else (Done (Ok (entries, p_self_entry p)), st)
           end
  end.

(* lib.rs:4062-4083 get_or_list_dir *)
Definition failed_section (path : PathBuf) (e : string) st : Pc * LState :=
  if is_unreachable_listing_error e then
    let '(r, c) := take_hard_expired_fallback (l_cache st) path (i_now i) in
    let st := upd_lcache (λ _, c) st in
    match r with
    | Some listing => (Done (Ok listing), st)
    | None => (Done (Err e), st)
    end
  else (Done (Err e), st).

(** One stretch; the flag: a background refresh was queued. *)
(* lib.rs:4165-4438 list_dir_cached_or_fresh *)
Definition advance (path : PathBuf) (pc : Pc) st : Pc * LState * bool :=
  match pc with
  | Start => (start_section path st, false)
  | Waiting d => (waiting_section path d st, false)
  | Woke d => (woke_section d st, false)
  | Cached => cached_section path st
  | Blocked b => (blocked_section path b st, false)
  | Stale _ _ code => (stale_section path code st, false)
  | Expired b => (expired_section path b st, false)
  | Probe b old => ((Probed b old (i_probe i), st), false)
  | Probed b old r => (probed_section path b old r st, false)
  | Pending b => (pending_section path b st, false)
  | Launch b => (launch_section path b st, false)
  | Joined b inv => (joined_section b inv st, false)
  | Poll b inv d => (poll_section path b inv d st, false)
  | Drain b inv => (drain_section path b inv st, false)
  | Failed e => (failed_section path e st, false)
  | Done r => ((Done r, st), false)
  end.
End reader.

(** ** The background refresh *)

Inductive RPc :=
| RStart
| RProbe (old : Etag)
| RProbed (old : Etag) (r : result (option Etag) string)
| RList
| RListed (r : result Plain string)
| REnd.

Section refresh.
Context (ti : bool) (i : Inp).
Implicit Types st : LState.

(* lib.rs:4130-4147 soft_refresh_dir *)
Definition refresh_probed (path : PathBuf) (old : Etag) (r : result (option Etag) string) st : RPc * LState :=
  let st := upd_conn (note_listing_outcome (i_now i) (i_draw i) path (outcome_of (λ e, e) r)) st in
  match r with
  | Ok (Some new) =>
      if bool_decide (new = old)
      then (REnd, upd_lcache (λ c, touch_dir_cache c path (i_now i) (i_wall i)) st)
      else (RList, st)
  | Ok None => (RList, st)
  | Err e => if is_server_error e then (REnd, upd_lcache (λ c, clear_refreshing c path) st) else (RList, st)
  end.

(* lib.rs:4149-4162 soft_refresh_dir *)
Definition refresh_listed (path : PathBuf) (r : result Plain string) st : RPc * LState :=
  let st := upd_conn (note_listing_outcome (i_now i) (i_draw i) path (outcome_of (λ e, e) r)) st in
  (REnd, upd_lcache (λ c, match r with
     | Ok (etag, self_entry, files) => put_dir_cache c ti (i_now i) (i_wall i) path etag self_entry files
     | Err _ => clear_refreshing c path
     end) st).

(** [probe] and [listing] are what the server answers, when asked. *)
(* lib.rs:4123-4163 soft_refresh_dir *)
Definition soft_refresh_dir (probe : result (option Etag) string) (listing : result Plain string) (path : PathBuf)
    (pc : RPc) st : RPc * LState :=
  match pc with
  | RStart => (match cached_dir_etag (l_cache st) path with Some old => RProbe old | None => RList end, st)
  | RProbe old => (RProbed old probe, st)
  | RProbed old r => refresh_probed path old r st
  | RList => (RListed listing, st)
  | RListed r => refresh_listed path r st
  | REnd => (REnd, st)
  end.
End refresh.

(** ** The whole *)

(** A fetch job's next stretch. *)
Inductive fstep (ti : bool) (now : Instant) (wall : SystemTime) (id : nat) (g : Fetch) (st : LState) : LState → Prop :=
| f_submit room : fe_phase g = Starting → fstep ti now wall id g st (prefetch_submit room id g st)
| f_dropped : fe_phase g = Refused → fstep ti now wall id g st (prefetch_dropped id g st)
| f_send first e : fe_phase g = Streaming → fstep ti now wall id g st (fetch_send id g first e st)
| f_no_slot : fe_phase g = Streaming → fe_sent g = [] → fstep ti now wall id g st (fetch_no_slot id g st)
| f_return r : fe_phase g = Streaming → fstep ti now wall id g st (fetch_return id g r st)
| f_note r closed draw : fe_phase g = Returned r closed → fstep ti now wall id g st (fetch_note id g r closed now draw st)
| f_report r closed : fe_phase g = Noted r closed → fstep ti now wall id g st (fetch_report id g r closed st)
| f_end r closed : fe_phase g = Reported r closed → fstep ti now wall id g st (fetch_end ti now wall id g r st).

Record LWorld := {
  w_st : LState;
  w_readers : list (PathBuf * Pc);
  w_refreshes : list (PathBuf * RPc);
  w_now : Instant;
  w_wall : SystemTime;
}.

(** Any reader, job or refresh may run next; the rest of the daemon may change anything but
    the pending listings and their channels. *)
Inductive lstep (ti : bool) : LWorld → LWorld → Prop :=
| l_time w now wall : w_now w ≤ now →
    lstep ti w (Build_LWorld (w_st w) (w_readers w) (w_refreshes w) now wall)
| l_call w path :
    lstep ti w (Build_LWorld (w_st w) (w_readers w ++ [(path, Start)]) (w_refreshes w) (w_now w) (w_wall w))
| l_read w k path pc draw room probe pc' st' q :
    w_readers w !! k = Some (path, pc) →
    advance ti (Build_Inp (w_now w) (w_wall w) draw room probe) path pc (w_st w) = (pc', st', q) →
    lstep ti w (Build_LWorld st' (<[k := (path, pc')]> (w_readers w))
      (w_refreshes w ++ if (q : bool) then [(path, RStart)] else []) (w_now w) (w_wall w))
| l_refresh w k path pc draw room probe p l pc' st' :
    w_refreshes w !! k = Some (path, pc) →
    soft_refresh_dir ti (Build_Inp (w_now w) (w_wall w) draw room probe) p l path pc (w_st w) = (pc', st') →
    lstep ti w (Build_LWorld st' (w_readers w) (<[k := (path, pc')]> (w_refreshes w)) (w_now w) (w_wall w))
| l_prefetch w paused path chain :
    lstep ti w (Build_LWorld (start_background_propfind paused (w_now w) path chain (w_st w)) (w_readers w)
      (w_refreshes w) (w_now w) (w_wall w))
| l_fetch w id g st' :
    l_fetches (w_st w) !! id = Some g →
    fstep ti (w_now w) (w_wall w) id g (w_st w) st' →
    lstep ti w (Build_LWorld st' (w_readers w) (w_refreshes w) (w_now w) (w_wall w))
| l_other w conn cache :
    pending_dirs cache = pending_dirs (l_cache (w_st w)) →
    lstep ti w (Build_LWorld (Build_LState conn cache (l_fetches (w_st w)) (l_chan (w_st w))) (w_readers w)
      (w_refreshes w) (w_now w) (w_wall w)).

Definition lstart (w : LWorld) : Prop :=
  pending_dirs (l_cache (w_st w)) = ∅ ∧ l_fetches (w_st w) = [] ∧ l_chan (w_st w) = ∅ ∧ w_readers w = [] ∧
  w_refreshes w = [].
Definition lreachable (ti : bool) (w : LWorld) : Prop := ∃ w0, lstart w0 ∧ star (lstep ti) w0 w.

(** ** What the channels hold *)

(** What the pending listing of a fetch looks like at each of the job's phases. *)
Definition rx_ok (g : Fetch) (p : PendingDir) : Prop :=
  p_entries p ++ r_buf (p_rx p) = fe_sent g ∧ p_failed p = None ∧ p_etag p = None ∧
  match fe_phase g with
  | Starting | Streaming => r_gone (p_rx p) = false ∧ r_buf (p_etag_rx p) = []
  | Refused => r_gone (p_rx p) = true ∧ r_buf (p_etag_rx p) = []
  | Returned _ closed | Noted _ closed => r_gone (p_rx p) = closed ∧ r_buf (p_etag_rx p) = []
  | Reported r closed => r_gone (p_rx p) = closed ∧ r_buf (p_etag_rx p) = [r]
  | Finished r => r_gone (p_rx p) = true ∧ r_buf (p_etag_rx p) = [r]
  end.

(** The fetch a directory's pending listing belongs to. *)
Definition owner (st : LState) (path : PathBuf) (id : nat) (g : Fetch) : Prop :=
  l_chan st !! path = Some id ∧ l_fetches st !! id = Some g ∧ fe_path g = path.

Definition in_flight (g : Fetch) : bool := match fe_phase g with Starting | Streaming => true | _ => false end.

Record linv (st : LState) : Prop := {
  inv_owner path p : pending_dirs (l_cache st) !! path = Some p → ∃ id g, owner st path id g ∧ rx_ok g p;
  inv_live id g : l_fetches st !! id = Some g → in_flight g = true →
    (l_chan st !! fe_path g = Some id ∧ is_Some (pending_dirs (l_cache st) !! fe_path g)) ∨
    ∃ g', g' ∈ l_fetches st ∧ fe_path g' = fe_path g ∧ fe_kind g' ≠ Direct;
  inv_kind id g : l_fetches st !! id = Some g →
    match fe_phase g with Starting | Refused => fe_kind g ≠ Direct | _ => True end;
}.

(** Readers only drain channels, and let go of a pending listing only once it is over. *)
Definition same_rx (p p' : PendingDir) : Prop :=
  p_entries p' ++ r_buf (p_rx p') = p_entries p ++ r_buf (p_rx p) ∧ p_failed p' = p_failed p ∧ p_etag p' = p_etag p ∧
  r_gone (p_rx p') = r_gone (p_rx p) ∧ p_etag_rx p' = p_etag_rx p.
Definition drained (d d' : gmap PathBuf PendingDir) : Prop :=
  ∀ path, match d !! path, d' !! path with
          | Some p, Some p' => same_rx p p'
          | Some p, None => r_gone (p_rx p) = true
          | None, Some _ => False
          | None, None => True
          end.

(** ** Lemmas *)

Lemma pd_put_entry c path e : pending_dirs (put_entry c path e) = pending_dirs c.
Proof. done. Qed.
Lemma pd_get_cached_dir c path ttl mx now wall : pending_dirs (get_cached_dir c path ttl mx now wall).2 = pending_dirs c.
Proof. unfold get_cached_dir, next_access_tick. cbv beta zeta. by repeat case_goal. Qed.
Lemma pd_evict c : pending_dirs (evict_dir_cache c) = pending_dirs c.
Proof. unfold evict_dir_cache. cbv zeta. by case_goal. Qed.
Lemma pd_put_dir_cache c ti now wall path etag se files :
  pending_dirs (put_dir_cache c ti now wall path etag se files) = pending_dirs c.
Proof. unfold put_dir_cache. cbv zeta. case_goal; [done|]. unfold next_access_tick. cbv beta. by rewrite pd_evict. Qed.
Lemma pd_clear_refreshing c path : pending_dirs (clear_refreshing c path) = pending_dirs c.
Proof. unfold clear_refreshing. by case_goal. Qed.
Lemma pd_touch c path now wall : pending_dirs (touch_dir_cache c path now wall) = pending_dirs c.
Proof. unfold touch_dir_cache. by case_goal. Qed.
Lemma pd_confirm c path now wall : pending_dirs (confirm_dir_fresh c path now wall).2 = pending_dirs c.
Proof. unfold confirm_dir_fresh. by repeat case_goal. Qed.
Lemma pd_fallback c path now : pending_dirs (take_hard_expired_fallback c path now).2 = pending_dirs c.
Proof. unfold take_hard_expired_fallback. by repeat case_goal. Qed.
Lemma pd_promote c ti now wall path : pending_dirs (promote_pending c ti now wall path).2 = delete path (pending_dirs c).
Proof.
  unfold promote_pending. destruct (pending_dirs c !! path) as [p|] eqn:E; [|by rewrite delete_id].
  repeat case_goal; cbn [snd]; by rewrite ?pd_put_dir_cache.
Qed.

Lemma same_rx_refl p : same_rx p p.
Proof. done. Qed.
Lemma drained_refl d : drained d d.
Proof. intros path. destruct (d !! path); [apply same_rx_refl|done]. Qed.
Lemma drained_eq (d d' : gmap PathBuf PendingDir) : d' = d → drained d d'.
Proof. intros ->. apply drained_refl. Qed.
Lemma drained_trans d1 d2 d3 : drained d1 d2 → drained d2 d3 → drained d1 d3.
Proof.
  intros H1 H2 path. specialize (H1 path). specialize (H2 path).
  destruct (d1 !! path), (d2 !! path), (d3 !! path); try done.
  - unfold same_rx in *. destruct_and!. split_and!; congruence.
  - destruct H1 as (_ & _ & _ & H & _). congruence.
Qed.
Lemma drained_delete (d : gmap PathBuf PendingDir) path p : d !! path = Some p → r_gone (p_rx p) = true → drained d (delete path d).
Proof.
  intros Hp Hg q. destruct (decide (q = path)) as [->|Hne].
  - by rewrite Hp, lookup_delete_eq.
  - rewrite lookup_delete_ne by done. apply drained_refl.
Qed.
Lemma drained_insert (d : gmap PathBuf PendingDir) path p p' : d !! path = Some p → same_rx p p' → drained d (<[path := p']> d).
Proof.
  intros Hp Hs q. destruct (decide (q = path)) as [->|Hne].
  - by rewrite Hp, lookup_insert_eq.
  - rewrite lookup_insert_ne by done. apply drained_refl.
Qed.

(** What [get_pending_snapshot] leaves of a pending listing it does not promote. *)
Definition emptied (p : PendingDir) (se : option RemoteEntry) (rx : Receiver RemoteEntry) : PendingDir :=
  {| p_entries := p_entries p ++ r_buf (p_rx p); p_rx := Build_Receiver [] (r_gone (p_rx p));
     p_etag_rx := p_etag_rx p; p_self_rx := rx; p_etag := p_etag p; p_self_entry := se; p_failed := p_failed p |}.
Lemma emptied_same p se rx : same_rx p (emptied p se rx).
Proof. unfold same_rx. cbn. by rewrite app_nil_r. Qed.

Lemma snapshot_eq c ti now wall path :
  match pending_dirs c !! path with
  | None => get_pending_snapshot c ti now wall path = (Ok None, c)
  | Some p => ∃ se rx, let c1 := with_pending c (<[path := emptied p se rx]> (pending_dirs c)) in
      get_pending_snapshot c ti now wall path =
        if r_gone (p_rx p)
        then match promote_pending c1 ti now wall path with
             | (Err e, c') => (Err e, c')
             | (Ok _, c') => (Ok (d_files <$> dir_cache c' !! path), c')
             end
        else (Ok match p_entries p ++ r_buf (p_rx p) with [] => None | l => Some l end, c1)
  end.
Proof.
  unfold get_pending_snapshot. destruct (pending_dirs c !! path) as [p|] eqn:Ep; [|done].
  destruct (match p_self_entry p with Some se => _ | None => _ end) as [se rx]. exists se, rx. cbv zeta.
  unfold emptied. destruct (r_gone (p_rx p)); [done|]. by case_goal.
Qed.

Lemma snapshot_drained c ti now wall path :
  drained (pending_dirs c) (pending_dirs (get_pending_snapshot c ti now wall path).2).
Proof.
  pose proof (snapshot_eq c ti now wall path) as H. destruct (pending_dirs c !! path) as [p|] eqn:Ep.
  - destruct H as (se & rx & ->). pose proof (drained_insert _ _ _ _ Ep (emptied_same p se rx)) as Hd.
    destruct (r_gone (p_rx p)) eqn:Hg; [|done]. eapply drained_trans; [exact Hd|].
    destruct (promote_pending _ _ _ _ _) as [r c'] eqn:E.
    apply (f_equal (λ x, pending_dirs x.2)) in E. rewrite pd_promote in E. cbn in E.
    assert (Hfin : drained (<[path := emptied p se rx]> (pending_dirs c)) (pending_dirs c')).
    { rewrite <- E. eapply drained_delete; [apply lookup_insert_eq|done]. }
    by destruct r.
  - rewrite H. apply drained_refl.
Qed.

(** What a reader's stretch may do to the fetches: drain channels, or start one where none
    is pending. *)
Definition reader_effect (path : PathBuf) (st st' : LState) : Prop :=
  (l_fetches st' = l_fetches st ∧ l_chan st' = l_chan st ∧
   drained (pending_dirs (l_cache st)) (pending_dirs (l_cache st'))) ∨
  (∃ st1, l_fetches st1 = l_fetches st ∧ l_chan st1 = l_chan st ∧ pending_dirs (l_cache st1) = pending_dirs (l_cache st) ∧
     pending_dirs (l_cache st) !! path = None ∧ st' = start_fetch path Direct Streaming st1).

Definition quiet (st st' : LState) : Prop :=
  l_fetches st' = l_fetches st ∧ l_chan st' = l_chan st ∧ pending_dirs (l_cache st') = pending_dirs (l_cache st).
Lemma quiet_effect path st st' : quiet st st' → reader_effect path st st'.
Proof. intros (? & ? & ?). left. split_and!; [done..|by apply drained_eq]. Qed.

Lemma queue_refresh_quiet i path st : quiet st (queue_refresh i path st).2.
Proof.
  unfold queue_refresh, quiet. destruct (Backoff.is_open _ _) as [open k]. cbv zeta.
  destruct (open || _); [cbn; by rewrite pd_clear_refreshing|]. destruct (i_room i); [done|]. cbn. by rewrite pd_clear_refreshing.
Qed.

Lemma cached_effect i path st : reader_effect path st (cached_section i path st).1.2.
Proof.
  apply quiet_effect. unfold cached_section. cbv zeta.
  pose proof (pd_get_cached_dir (l_cache st) path (effective_dir_ttl (l_conn st)) (effective_max_stale (l_conn st))
    (i_now i) (i_wall i)) as Hp. cbn [b_ttl b_stale].
  destruct (get_cached_dir _ _ _ _ _ _) as [[[files b]|] c]; cbn [fst snd] in *; [|done].
  destruct b; [|done]. pose proof (queue_refresh_quiet i path (upd_lcache (λ _, c) st)) as (H1 & H2 & H3).
  destruct (queue_refresh _ _ _) as [q st2]. cbn in *. unfold quiet. by rewrite H1, H2, H3.
Qed.

Lemma launch_effect i path b st : reader_effect path st (launch_section i path b st).2.
Proof.
  unfold launch_section. cbv zeta.
  set (q := match dir_cache (l_cache st) !! path with Some _ => get_cached_dir _ _ _ _ _ _ | None => _ end).
  assert (Hp : pending_dirs q.2 = pending_dirs (l_cache st)) by (unfold q; case_goal; [apply pd_get_cached_dir|done]).
  destruct q as [[[files r]|] c]; cbn [snd] in *.
  { left. split_and!; [done..|by apply drained_eq]. }
  destruct (bool_decide _) eqn:E; cbn [snd].
  { left. split_and!; [done..|by apply drained_eq]. }
  destruct (i_room i); cbn [snd]; [|left; split_and!; [done..|by apply drained_eq]].
  apply bool_decide_eq_false in E. rewrite Hp in E. apply eq_None_not_Some in E.
  right. by exists (upd_lcache (λ _, c) st).
Qed.

Lemma poll_effect ti i path b inv d st : reader_effect path st (poll_section ti i path b inv d st).2.
Proof.
  unfold poll_section. pose proof (snapshot_drained (l_cache st) ti (i_now i) (i_wall i) path) as Hd.
  destruct (get_pending_snapshot _ _ _ _ _) as [r c]. cbv zeta. cbn [snd] in *.
  left. destruct r as [s|e]; [|done].
  repeat case_goal; cbn [snd]; split_and!; try done; cbn; try (eapply drained_trans; [exact Hd|];
    apply drained_eq); try done.
  all: match goal with H : get_cached_dir _ _ _ _ _ _ = _ |- _ => apply (f_equal (λ x, pending_dirs x.2)) in H;
    rewrite pd_get_cached_dir in H; cbn in H; done end.
Qed.

Lemma drain_effect ti i path b inv st : reader_effect path st (drain_section ti i path b inv st).2.
Proof.
  unfold drain_section. destruct (pending_dirs (l_cache st) !! path) as [p|] eqn:Ep; [|left; split_and!; [done..|apply drained_refl]].
  cbv zeta. set (f := λ p0 : PendingDir, _).
  set (c1 := upd_pending path f (l_cache st)).
  assert (Hd : drained (pending_dirs (l_cache st)) (pending_dirs c1)).
  { intros q. unfold c1. cbn. rewrite lookup_alter. case_decide as Hq; [subst q|apply drained_refl].
    rewrite Ep. cbn. unfold same_rx. cbn. by rewrite app_nil_r. }
  destruct (r_gone (p_rx p)) eqn:Hg.
  - change (l_cache (upd_lcache (upd_pending path f) st)) with c1.
    assert (Hf : pending_dirs c1 !! path = Some (f p)) by (unfold c1; cbn; by rewrite lookup_alter_eq, Ep).
    pose proof (drained_delete _ _ _ Hf ltac:(by cbn)) as Hdel. pose proof (drained_trans _ _ _ Hd Hdel) as Hall.
    destruct (promote_pending c1 _ _ _ _) as [r c] eqn:E.
    apply (f_equal (λ x, pending_dirs x.2)) in E. rewrite pd_promote in E. cbn [snd] in E. rewrite E in Hall.
    left. destruct r as [se|e]; [|done]. case_goal; [done|].
    destruct (get_cached_dir _ _ _ _ _ _) as [r2 c2] eqn:E2.
    apply (f_equal (λ x, pending_dirs x.2)) in E2. rewrite pd_get_cached_dir in E2. cbn [snd] in E2.
    split_and!; [done..|]. cbn. by rewrite <- E2.
  - left. repeat case_goal; done.
Qed.

Lemma advance_effect ti i path pc st : reader_effect path st (advance ti i path pc st).1.2.
Proof.
  assert (Hq : ∀ st', l_fetches st' = l_fetches st → l_chan st' = l_chan st →
    pending_dirs (l_cache st') = pending_dirs (l_cache st) → reader_effect path st st').
  { intros st' ? ? ?. left. split_and!; [done..|by apply drained_eq]. }
  destruct pc; cbn [advance fst snd]; try by apply Hq.
  - unfold start_section. repeat case_goal; by apply Hq.
  - unfold waiting_section. case_goal; by apply Hq.
  - unfold woke_section. case_goal; by apply Hq.
  - apply cached_effect.
  - unfold blocked_section. repeat case_goal; by apply Hq.
  - unfold stale_section. case_goal; by apply Hq.
  - unfold expired_section. repeat case_goal; by apply Hq.
  - unfold probed_section. cbv zeta. pose proof (pd_confirm (l_cache st) path (i_now i) (i_wall i)) as Hp.
    cbn [upd_conn l_cache]. destruct (confirm_dir_fresh _ _ _ _) as [conf c]. cbn [snd] in Hp.
    repeat case_goal; apply Hq; cbn; by rewrite ?pd_clear_refreshing.
  - unfold pending_section. pose proof (snapshot_drained (l_cache st) ti (i_now i) (i_wall i) path) as Hd.
    destruct (get_pending_snapshot _ _ _ _ _) as [r c]. cbn [snd] in Hd. left. repeat case_goal; done.
  - apply launch_effect.
  - apply poll_effect.
  - apply drain_effect.
  - unfold failed_section. pose proof (pd_fallback (l_cache st) path (i_now i)) as Hp.
    destruct (take_hard_expired_fallback _ _ _) as [r c]. cbn [snd] in Hp. repeat case_goal; by apply Hq.
Qed.

Lemma rx_ok_same g p p' : rx_ok g p → same_rx p p' → rx_ok g p'.
Proof.
  intros (H1 & H2 & H3 & H4) (E1 & E2 & E3 & E4 & E5). unfold rx_ok. rewrite E1, E2, E3, E4, E5. split_and!; done.
Qed.

Lemma linv_drained st st' :
  linv st → l_fetches st' = l_fetches st → l_chan st' = l_chan st →
  drained (pending_dirs (l_cache st)) (pending_dirs (l_cache st')) → linv st'.
Proof.
  intros [H1 H2 H3] Hf Hc Hd. split; [| |by rewrite Hf].
  - intros path p' Hp. specialize (Hd path). rewrite Hp in Hd.
    destruct (pending_dirs (l_cache st) !! path) as [p|] eqn:E; [|done].
    destruct (H1 path p E) as (id & g & (Ho1 & Ho2 & Ho3) & Hrx). exists id, g. split.
    + unfold owner. by rewrite Hf, Hc.
    + by eapply rx_ok_same.
  - intros id g Hg Hl. rewrite Hf in *. rewrite Hc. destruct (H2 id g Hg Hl) as [[Hch [p Hp]]|?]; [|by right].
    left. split; [done|]. specialize (Hd (fe_path g)). rewrite Hp in Hd.
    destruct (pending_dirs (l_cache st') !! fe_path g) as [p'|] eqn:E; [by exists p'|].
    exfalso. destruct (H1 _ _ Hp) as (id' & g' & (Ho1 & Ho2 & Ho3) & Hrx).
    assert (id' = id) as -> by congruence. assert (g' = g) as -> by congruence.
    unfold in_flight in Hl. destruct Hrx as (_ & _ & _ & Hr). destruct (fe_phase g); try done; destruct Hr; congruence.
Qed.

Lemma linv_start st path kind ph :
  linv st → pending_dirs (l_cache st) !! path = None → (ph = Streaming ∨ (ph = Starting ∧ kind ≠ Direct)) →
  linv (start_fetch path kind ph st).
Proof.
  intros [H1 H2 H3] Hn Hph. split; cbn.
  - intros q p Hp. destruct (decide (q = path)) as [->|Hne].
    + rewrite lookup_insert_eq in Hp. injection Hp as <-. exists (length (l_fetches st)), (Build_Fetch path kind [] ph).
      split; [|unfold rx_ok; cbn; by destruct Hph as [->|[-> _]]].
      unfold owner. cbn. rewrite lookup_insert_eq, lookup_app_r by done. by rewrite Nat.sub_diag.
    + rewrite lookup_insert_ne in Hp by done. destruct (H1 q p Hp) as (id & g & (Ho1 & Ho2 & Ho3) & Hrx).
      exists id, g. split; [|done]. unfold owner. cbn. rewrite lookup_insert_ne by done.
      split_and!; [done|by apply lookup_app_l_Some|done].
  - intros id g Hg Hl. apply lookup_app_Some in Hg as [Hg|[Hlen Hg]].
    + destruct (H2 id g Hg Hl) as [[Hch Hp]|(g' & Hg' & ? & ?)].
      * destruct (decide (fe_path g = path)) as [<-|Hne]; [rewrite Hn in Hp; by destruct Hp|].
        left. rewrite !lookup_insert_ne by done. done.
      * right. exists g'. split_and!; [apply elem_of_app; by left|done|done].
    + apply list_lookup_singleton_Some in Hg as [Hid <-]. left. cbn. rewrite !lookup_insert_eq.
      split; [f_equal; lia|by eexists].
  - intros id g Hg. apply lookup_app_Some in Hg as [Hg|[_ Hg]]; [by eapply H3|].
    apply list_lookup_singleton_Some in Hg as [_ <-]. cbn. by destruct Hph as [->|[-> ?]].
Qed.

Lemma to_rx_fields id path f st :
  l_fetches (to_rx id path f st) = l_fetches st ∧ l_chan (to_rx id path f st) = l_chan st ∧
  (∀ q, pending_dirs (l_cache (to_rx id path f st)) !! q =
     if decide (q = path ∧ l_chan st !! path = Some id) then f <$> pending_dirs (l_cache st) !! q
     else pending_dirs (l_cache st) !! q).
Proof.
  unfold to_rx, holds_rx. case_bool_decide as Hh; (split; [done|]; split; [done|]); intros q.
  - cbn. rewrite lookup_alter. case_decide as Hq.
    + rewrite <- Hq, decide_True by (split; [done|apply Hh]). done.
    + rewrite decide_False; [done|]. intros [-> _]. done.
  - case_decide as Hd; [|done]. destruct Hd as [-> Hc].
    destruct (pending_dirs (l_cache st) !! path) as [p|] eqn:E; [|done]. exfalso. apply Hh. split; [done|by eexists].
Qed.

(** A stretch of a fetch that changes its record and its own pending listing only. *)
Lemma linv_own st id g g' f st' :
  linv st → l_fetches st !! id = Some g → fe_path g' = fe_path g → fe_kind g' = fe_kind g →
  (∀ p, pending_dirs (l_cache st) !! fe_path g = Some p → rx_ok g p → rx_ok g' (f p)) →
  (in_flight g' = true → in_flight g = true) →
  match fe_phase g' with Starting | Refused => fe_kind g' ≠ Direct | _ => True end →
  l_fetches st' = <[id := g']> (l_fetches st) → l_chan st' = l_chan st →
  pending_dirs (l_cache st') = pending_dirs (l_cache (to_rx id (fe_path g) f st)) →
  linv st'.
Proof.
  intros [H1 H2 H3] Hg Hp Hk Hrx Hl Hkk Hf Hc Hd.
  destruct (to_rx_fields id (fe_path g) f st) as (_ & _ & Hr).
  assert (Hlen : (id < length (l_fetches st))%nat) by (by apply lookup_lt_Some in Hg).
  assert (Hsome : ∀ q, is_Some (pending_dirs (l_cache st) !! q) → is_Some (pending_dirs (l_cache st') !! q)).
  { intros q [p Hq]. rewrite Hd, Hr, Hq. destruct (decide _); [by exists (f p)|by exists p]. }
  split.
  - intros path p Hpd. rewrite Hd, Hr in Hpd. unfold owner. rewrite Hf, Hc. case_decide as Hq.
    + destruct Hq as [-> Hch]. apply fmap_Some in Hpd as (p0 & Hp0 & ->).
      destruct (H1 _ _ Hp0) as (id' & g0 & (Ho1 & Ho2 & Ho3) & Hx). assert (id' = id) as -> by congruence.
      assert (g0 = g) as -> by congruence. exists id, g'. split; [|by apply (Hrx p0)].
      split_and!; [done|by apply list_lookup_insert_eq|done].
    + destruct (H1 _ _ Hpd) as (id' & g0 & (Ho1 & Ho2 & Ho3) & Hx).
      assert (id' ≠ id) by (intros ->; apply Hq; assert (g0 = g) as -> by congruence; by subst).
      exists id', g0. split; [|done]. split_and!; [done|by rewrite list_lookup_insert_ne|done].
  - intros id' g0 Hg0 Hl0. rewrite Hf in Hg0. rewrite Hc, Hf.
    assert (Hcase : ∃ g1, l_fetches st !! id' = Some g1 ∧ fe_path g1 = fe_path g0 ∧ in_flight g1 = true).
    { destruct (decide (id' = id)) as [->|Hne].
      - rewrite list_lookup_insert_eq in Hg0 by done. injection Hg0 as <-. exists g. by auto.
      - rewrite list_lookup_insert_ne in Hg0 by done. by exists g0. }
    destruct Hcase as (g1 & Hg1 & Hp1 & Hl1). destruct (H2 id' g1 Hg1 Hl1) as [[Hch Hpd]|(g2 & Hg2 & Hp2 & Hk2)].
    + left. rewrite <- Hp1. auto.
    + right. apply list_elem_of_lookup in Hg2 as [k Hk']. destruct (decide (k = id)) as [->|Hne].
      * exists g'. assert (g2 = g) as -> by congruence. split_and!; [|congruence|congruence].
        apply list_elem_of_lookup. exists id. by apply list_lookup_insert_eq.
      * exists g2. split_and!; [|congruence|done]. apply list_elem_of_lookup. exists k. by rewrite list_lookup_insert_ne.
  - intros id' g0 Hg0. rewrite Hf in Hg0. destruct (decide (id' = id)) as [->|Hne].
    + rewrite list_lookup_insert_eq in Hg0 by done. by injection Hg0 as <-.
    + rewrite list_lookup_insert_ne in Hg0 by done. by eapply H3.
Qed.

(** A prefetch may drop the directory's pending listing, whoever's it is. *)
Lemma linv_delete st path g id :
  linv st → l_fetches st !! id = Some g → fe_path g = path → fe_kind g ≠ Direct →
  ∀ st', l_fetches st' = l_fetches st → l_chan st' = l_chan st →
    pending_dirs (l_cache st') = delete path (pending_dirs (l_cache st)) → linv st'.
Proof.
  intros [H1 H2 H3] Hg Hp Hk st' Hf Hc Hd. split; [| |by rewrite Hf].
  - intros q p Hq. rewrite Hd in Hq. apply lookup_delete_Some in Hq as [_ Hq].
    destruct (H1 q p Hq) as (i & g0 & Ho & Hrx). exists i, g0. unfold owner in *. by rewrite Hf, Hc.
  - intros i g0 Hi Hl. rewrite Hf in *. rewrite Hc, Hd.
    destruct (decide (fe_path g0 = path)) as [He|Hne].
    + right. exists g. split_and!; [by eapply list_elem_of_lookup_2|congruence|done].
    + rewrite lookup_delete_ne by done. by eapply H2.
Qed.

Lemma list_alter_insert {A} (f : A → A) i (l : list A) x : l !! i = Some x → alter f i l = <[i := f x]> l.
Proof. intros H. apply list_eq. intros k. destruct (decide (k = i)) as [->|Hne].
  - rewrite list_lookup_alter_eq, H, list_lookup_insert_eq; [done|]. by eapply lookup_lt_Some.
  - by rewrite list_lookup_alter_ne, list_lookup_insert_ne by done.
Qed.

Lemma pd_subdirs c ti now wall path :
  pending_dirs (subdir_paths_for_prefetch c ti now wall path).2 = delete path (pending_dirs c).
Proof.
  unfold subdir_paths_for_prefetch. case_decide as Hs; cbn [snd]; [apply pd_promote|].
  symmetry. by apply delete_id, eq_None_not_Some.
Qed.

Lemma fetch_end_linv ti now wall id g r closed st :
  linv st → l_fetches st !! id = Some g → fe_phase g = Reported r closed → linv (fetch_end ti now wall id g r st).
Proof.
  intros Hi Hg Hp. unfold fetch_end.
  set (hang := λ p, upd_etag_rx hang_up (upd_self_rx hang_up (upd_rx hang_up p))).
  assert (Hend : ∀ st1, linv st1 → l_fetches st1 = l_fetches st → l_chan st1 = l_chan st →
    linv (upd_fetch id (set_phase (Finished r)) (to_rx id (fe_path g) hang st1))).
  { intros st1 Hi1 Hf1 Hc1. destruct (to_rx_fields id (fe_path g) hang st1) as (Hf & Hc & _).
    eapply (linv_own st1 id g (set_phase (Finished r) g) hang); try done.
    - by rewrite Hf1.
    - intros p _ (E1 & E2 & E3 & E4). rewrite Hp in E4. destruct E4. by unfold rx_ok; cbn.
    - cbn. rewrite Hf. apply list_alter_insert. by rewrite Hf1. }
  cbv zeta. destruct (match fe_kind g with Direct => false | Prefetch chain => chain end && is_ok r) eqn:E; [|by apply Hend].
  apply Hend; [|done|done]. eapply (linv_delete st (fe_path g) g id); [done|done|done| |done|done|apply pd_subdirs].
  by destruct (fe_kind g).
Qed.

Section own.
Context (st : LState) (id : nat) (g : Fetch) (Hi : linv st) (Hg : l_fetches st !! id = Some g).

Lemma linv_rx F f :
  fe_path (F g) = fe_path g → fe_kind (F g) = fe_kind g → (∀ p, rx_ok g p → rx_ok (F g) (f p)) →
  (in_flight (F g) = true → in_flight g = true) →
  match fe_phase (F g) with Starting | Refused => fe_kind g ≠ Direct | _ => True end →
  linv (upd_fetch id F (to_rx id (fe_path g) f st)).
Proof using Hi Hg.
  intros H1 H2 H3 H4 H5. destruct (to_rx_fields id (fe_path g) f st) as (Hf & Hc & _).
  eapply (linv_own st id g (F g) f); try done; [auto|by rewrite H2|]. cbn. rewrite Hf. by apply list_alter_insert.
Qed.

Lemma to_rx_id n q : pending_dirs (l_cache (to_rx n q (λ p, p) st)) = pending_dirs (l_cache st).
Proof using.
  apply map_eq. intros k. destruct (to_rx_fields n q (λ p, p) st) as (_ & _ & ->).
  case_decide; destruct (pending_dirs (l_cache st) !! k); done.
Qed.

(** The same without a word on the channels. *)
Lemma linv_silent F st' :
  fe_path (F g) = fe_path g → fe_kind (F g) = fe_kind g → (∀ p, rx_ok g p → rx_ok (F g) p) →
  (in_flight (F g) = true → in_flight g = true) →
  match fe_phase (F g) with Starting | Refused => fe_kind g ≠ Direct | _ => True end →
  l_fetches st' = alter F id (l_fetches st) → l_chan st' = l_chan st → pending_dirs (l_cache st') = pending_dirs (l_cache st) →
  linv st'.
Proof using Hi Hg.
  intros H1 H2 H3 H4 H5 Hf Hc Hd. eapply (linv_own st id g (F g) (λ p, p)); try done; [auto|by rewrite H2| |].
  - rewrite Hf. by apply list_alter_insert.
  - rewrite Hd. by rewrite to_rx_id.
Qed.
End own.

(** The phase the pending listing's channels were in, after the one they are in. *)
Ltac rx Hp := intros p (E1 & E2 & E3 & E4); rewrite Hp in E4; destruct_and?; unfold rx_ok; cbn; split_and?; try done.

Lemma fstep_linv ti now wall id g st st' :
  linv st → l_fetches st !! id = Some g → fstep ti now wall id g st st' → linv st'.
Proof.
  intros Hi Hg Hs. pose proof (inv_kind _ Hi id g Hg) as Hk.
  destruct Hs as [room Hp|Hp|first e Hp|Hp Hsent|r Hp|r closed draw Hp|r closed Hp|r closed Hp]; rewrite Hp in Hk.
  - unfold prefetch_submit. destruct room.
    + apply (linv_silent st id g Hi Hg (set_phase Streaming)); [done|done|rx Hp| |done|done|done|done]. intros _. unfold in_flight. by rewrite Hp.
    + apply (linv_rx st id g); [done..|rx Hp|done|done].
  - unfold prefetch_dropped. set (st1 := upd_lcache _ st).
    assert (H1 : linv st1) by (eapply (linv_delete st (fe_path g) g id); done).
    eapply (linv_own st1 id g (set_phase (Finished (Err ""%string)) g) (λ p, p));
      [done|done|done|done| |done|done|by apply list_alter_insert|done|].
    + intros p Hd. cbn in Hd. by rewrite lookup_delete_eq in Hd.
    + cbn. by rewrite to_rx_id.
  - unfold fetch_send. destruct first.
    + eapply linv_drained; [exact Hi|apply to_rx_fields|apply to_rx_fields|]. intros q.
      destruct (to_rx_fields id (fe_path g) (upd_self_rx (push e)) st) as (_ & _ & ->).
      case_decide; destruct (pending_dirs (l_cache st) !! q); cbn; done || apply same_rx_refl.
    + destruct (holds_rx _ _ _); [|done]. apply (linv_rx st id g); [done..|rx Hp| |cbn; by rewrite Hp].
      * cbn. by rewrite app_assoc, E1.
      * rewrite Hp. done.
      * done.
  - unfold fetch_no_slot. match goal with |- linv (upd_fetch _ ?F _) => apply (linv_silent st id g Hi Hg F) end; [done|done|rx Hp|done|done|done|done|done].
  - unfold fetch_return. apply (linv_rx st id g); [done..|rx Hp|done|done].
  - unfold fetch_note. eapply (linv_silent st id g Hi Hg (set_phase (Noted r closed))); [done|done|rx Hp|done|done|done|done|done].
  - unfold fetch_report. apply (linv_rx st id g); [done..|rx Hp|done|done]. cbn. by rewrite H0.
  - by eapply fetch_end_linv.
Qed.

Lemma start_fetch_silent st st1 :
  linv st → l_fetches st1 = l_fetches st → l_chan st1 = l_chan st →
  pending_dirs (l_cache st1) = pending_dirs (l_cache st) → linv st1.
Proof. intros Hi Hf Hc Hd. by eapply linv_drained; [exact Hi|..|apply drained_eq]. Qed.

Lemma reader_linv path st st' : linv st → reader_effect path st st' → linv st'.
Proof.
  intros Hi [(Hf & Hc & Hd)|(st1 & Hf & Hc & Hd & Hn & ->)]; [by eapply linv_drained|].
  apply linv_start; [by eapply start_fetch_silent|by rewrite Hd|by left].
Qed.

Lemma prefetch_linv paused now path chain st : linv st → linv (start_background_propfind paused now path chain st).
Proof.
  intros Hi. unfold start_background_propfind. case_goal; [done|]. destruct (Backoff.is_open _ _) as [open k]. cbv zeta.
  set (st1 := upd_conn _ st). assert (H1 : linv st1) by by eapply start_fetch_silent.
  case_goal; [done|]. destruct (bool_decide _ || bool_decide _) eqn:E; [done|]. apply orb_false_iff in E as [_ E]. apply bool_decide_eq_false in E.
  apply linv_start; [done|by apply eq_None_not_Some|by right].
Qed.

Lemma refresh_quiet ti i p l path pc st : quiet st (soft_refresh_dir ti i p l path pc st).2.
Proof.
  destruct pc; cbn [soft_refresh_dir snd]; try done.
  - unfold refresh_probed. cbv zeta. destruct r as [[new|]|e]; repeat case_goal; unfold quiet; cbn;
      by rewrite ?pd_touch, ?pd_clear_refreshing.
  - unfold refresh_listed, quiet. cbn. destruct r as [[[? ?] ?]|?]; by rewrite ?pd_put_dir_cache, ?pd_clear_refreshing.
Qed.

Lemma lstep_linv ti w w' : linv (w_st w) → lstep ti w w' → linv (w_st w').
Proof.
  intros Hi Hs. destruct Hs as [| |w k path pc draw room probe pc' st' q Hk Ha|w k path pc draw room probe p l pc' st' Hk Ha| |w id g st' Hg Hf|];
    cbn; try done.
  - eapply (reader_linv path); [exact Hi|].
    pose proof (advance_effect ti (Build_Inp (w_now w) (w_wall w) draw room probe) path pc (w_st w)) as He. by rewrite Ha in He.
  - pose proof (refresh_quiet ti (Build_Inp (w_now w) (w_wall w) draw room probe) p l path pc (w_st w)) as (H1 & H2 & H3).
    rewrite Ha in *. by eapply start_fetch_silent.
  - by apply prefetch_linv.
  - by eapply fstep_linv.
  - by eapply start_fetch_silent.
Qed.

Lemma lreachable_inv ti w : lreachable ti w → linv (w_st w).
Proof.
  intros (w0 & (H1 & H2 & H3 & _) & Hs). eapply (star_invariant (lstep ti) (λ w, linv (w_st w))); [|exact Hs|].
  - intros a b. apply lstep_linv.
  - split.
    + intros path p Hp. by rewrite H1 in Hp.
    + intros id g Hg. by rewrite H2 in Hg.
    + intros id g Hg. by rewrite H2 in Hg.
Qed.

(** ** Theorems *)


(** What a fetch's end leaves for [promote_pending]. *)
Definition known_answer (g : Fetch) : option (result (option Etag) string) :=
  match fe_phase g with Reported r _ | Finished r => Some r | _ => None end.

(** Promoting a pending listing caches exactly what its fetch sent, and a reader does so
    only once the stream has ended.  When the fetch has reported, the report decides: a
    failure is passed on and nothing is cached, a success is cached whole under its etag.
    Only in the stretch between the end of the stream and its report is the listing cached
    without its etag, and as complete whatever the report will say. *)
Theorem promotion_outcome ti w path p now wall :
  lreachable ti w → pending_dirs (l_cache (w_st w)) !! path = Some p →
  ∃ id g, owner (w_st w) path id g ∧ (r_gone (p_rx p) = true → in_flight g = false) ∧
    let c := l_cache (w_st w) in
    let c1 := with_pending c (delete path (pending_dirs c)) in
    let '(r, c') := promote_pending c ti now wall path in
    match known_answer g with
    | Some (Err e) => r = Err e ∧ c' = c1
    | Some (Ok etag) => ∃ se, r = Ok se ∧ c' = put_dir_cache c1 ti now wall path etag se (fe_sent g)
    | None => ∃ se, r = Ok se ∧ c' = put_dir_cache c1 ti now wall path None se (fe_sent g)
    end.
Proof.
  intros Hr%lreachable_inv Hp. destruct (inv_owner _ Hr path p Hp) as (id & g & Ho & E1 & E2 & E3 & E4).
  exists id, g. split; [done|]. split.
  { intros Hg. unfold in_flight. destruct (fe_phase g); try done; destruct E4; congruence. }
  cbv zeta. unfold promote_pending. rewrite Hp, E1, E2, E3. unfold recv_opt, try_recv, known_answer.
  destruct (fe_phase g) as [| | |? ?|? ?|r ?|r]; try (destruct E4 as [_ ->]; destruct (r_gone (p_etag_rx p)); by eexists);
    destruct E4 as [_ ->]; destruct r as [etag|e]; (by eexists) || done.
Qed.

(** A cached listing nothing speaks against. *)
Definition unspoiled (e : DirCacheEntry) : Prop := d_invalidated e = false ∧ d_hard_expired e = false.
Definition listed (P : DirCacheEntry → Prop) (c : FsCache) (path : PathBuf) (files : list RemoteEntry) : Prop :=
  ∃ e, dir_cache c !! path = Some e ∧ files = d_files e ∧ P e.

Lemma got_cached c path ttl mx now wall files b c' :
  get_cached_dir c path ttl mx now wall = (Some (files, b), c') →
  listed (λ e, unspoiled e ∧ (cooling e now ∨ age_ok e mx wall)) c path files ∧ listed unspoiled c' path files.
Proof.
  unfold get_cached_dir, next_access_tick, listed, unspoiled, cooling, age_ok. cbv beta zeta.
  cbn [dir_cache with_tick access_tick]. destruct (dir_cache c !! path) as [e|]; [|done].
  destruct (d_invalidated _ || d_hard_expired _) eqn:Hbad; [done|]. cbn in Hbad. bool_prop.
  cbn [touch_access d_expiry_retry_after d_files set_expiry d_hard_expired d_fetched_at d_at d_refreshing].
  destruct (d_expiry_retry_after e) as [t|] eqn:Et; [destruct (now <? t) eqn:El|]; bool_prop.
  - intros [= <- <- <-]. split; eexists; (split; [done || apply lookup_insert_eq|]); cbn; eauto 10.
  - destruct mx as [mx|]; [destruct (_ || _) eqn:Eo; [done|]; bool_prop|];
      (case_goal; intros [= <- <- <-]; split; eexists; (split; [done || apply lookup_insert_eq|]); cbn; split_and?; try done);
      right; done || lia.
  - destruct mx as [mx|]; [destruct (_ || _) eqn:Eo; [done|]; bool_prop|];
      (case_goal; intros [= <- <- <-]; split; eexists; (split; [done || apply lookup_insert_eq|]); cbn; split_and?; try done);
      right; done || lia.
Qed.

Lemma put_dir_cache_unspoiled c ti now wall path etag se files e :
  dir_cache (put_dir_cache c ti now wall path etag se files) !! path = Some e → unspoiled e.
Proof.
  unfold put_dir_cache. cbv zeta. case_goal.
  - cbn. intros H. by rewrite lookup_delete_eq in H.
  - unfold next_access_tick. cbv beta. intros H. pose proof (lookup_weaken _ _ _ _ H (evict_subset _)) as H'.
    cbn in H'. rewrite lookup_insert_eq in H'. by injection H' as <-.
Qed.

Lemma promote_unspoiled c ti now wall path se c' e p :
  pending_dirs c !! path = Some p → promote_pending c ti now wall path = (Ok se, c') →
  dir_cache c' !! path = Some e → unspoiled e.
Proof.
  intros Hp. unfold promote_pending. rewrite Hp. repeat case_goal; intros [= <- <-]; apply put_dir_cache_unspoiled.
Qed.

Lemma snapshot_some c ti now wall path files c' :
  get_pending_snapshot c ti now wall path = (Ok (Some files), c') →
  listed unspoiled c' path files ∨
  (dir_cache c' = dir_cache c ∧ ∃ p, pending_dirs c !! path = Some p ∧ files = p_entries p ++ r_buf (p_rx p)).
Proof.
  pose proof (snapshot_eq c ti now wall path) as H. destruct (pending_dirs c !! path) as [p|] eqn:Ep.
  - destruct H as (se & rx & ->). destruct (r_gone (p_rx p)).
    + destruct (promote_pending _ _ _ _ _) as [[s|e] c2] eqn:E; [|done]. intros [= H <-]. left.
      destruct (dir_cache c2 !! path) as [e|] eqn:Ee; [|done]. cbn in H. injection H as <-. exists e. split_and!; [done|done|].
      eapply promote_unspoiled; [|exact E|exact Ee]. cbn. apply lookup_insert_eq.
    + intros [= H <-]. right. split; [done|]. exists p. split; [done|].
      by destruct (p_entries p ++ r_buf (p_rx p)); simplify_eq.
  - by rewrite H.
Qed.

(** Where a reader that is done got its listing from. *)
Definition shown_by (i : Inp) (path : PathBuf) (pc : Pc) (st st' : LState) (files : list RemoteEntry) : Prop :=
  let c := l_cache st in
  let sent := ∃ id g, owner st path id g ∧ files = fe_sent g in
  match pc with
  | Start => is_offline (l_conn st) = true ∧ listed (λ _, True) c path files
  | Cached => listed (λ e, unspoiled e ∧ (cooling e (i_now i) ∨ age_ok e (effective_max_stale (l_conn st)) (i_wall i))) c path files
  | Launch b => listed (λ e, unspoiled e ∧ (cooling e (i_now i) ∨ age_ok e (b_stale b) (i_wall i))) c path files
  | Stale _ _ _ => listed (λ _, True) c path files
  | Probed _ old r => r = Ok (Some old) ∧ listed (λ e, d_invalidated e = false) c path files
  | Pending _ => listed unspoiled (l_cache st') path files ∨ (may_serve_pending_snapshot c path = true ∧ sent)
  | Poll _ inv _ | Drain _ inv => listed unspoiled (l_cache st') path files ∨ (inv = false ∧ sent)
  | Failed e => is_unreachable_listing_error e = true ∧ listed (λ e, d_hard_expired e = true ∧ d_invalidated e = false) c path files
  | _ => False
  end.

Lemma sent_of st path p : linv st → pending_dirs (l_cache st) !! path = Some p →
  ∃ id g, owner st path id g ∧ p_entries p ++ r_buf (p_rx p) = fe_sent g.
Proof. intros Hi Hp. destruct (inv_owner _ Hi path p Hp) as (id & g & Ho & E & _). by exists id, g. Qed.

Lemma poll_shown ti i path b inv d st files se st' :
  linv st → poll_section ti i path b inv d st = (Done (Ok (files, se)), st') →
  listed unspoiled (l_cache st') path files ∨ (inv = false ∧ ∃ id g, owner st path id g ∧ files = fe_sent g).
Proof.
  intros Hi. unfold poll_section. destruct (get_pending_snapshot _ _ _ _ _) as [r c] eqn:E. cbv zeta.
  destruct r as [s|e]; [|done].
  destruct (partial_of inv (Ok s)) as [l|] eqn:El; unfold partial_of in El.
  - intros [= <- _ <-]. destruct s as [[|x s]|]; try done. destruct inv; [done|]. injection El as <-.
    apply snapshot_some in E as [?|(_ & p & Hp & ->)]; [by left|right]. split; [done|].
    destruct (sent_of st path p Hi Hp) as (id & g & ? & ->). by exists id, g.
  - destruct (bool_decide _); [done|]. destruct (match dir_cache c !! path with Some _ => _ | None => _ end); [|by case_goal].
    destruct (get_cached_dir _ _ _ _ _ _) as [[[fs r]|] c2] eqn:Eg; [|done]. intros [= <- _ <-]. left.
    by apply got_cached in Eg as [_ ?].
Qed.

Lemma drain_shown ti i path b inv st files se st' :
  linv st → drain_section ti i path b inv st = (Done (Ok (files, se)), st') →
  listed unspoiled (l_cache st') path files ∨ (inv = false ∧ ∃ id g, owner st path id g ∧ files = fe_sent g).
Proof.
  intros Hi. unfold drain_section. destruct (pending_dirs (l_cache st) !! path) as [p|] eqn:Ep; [|done]. cbv zeta.
  destruct (r_gone (p_rx p)).
  - destruct (promote_pending _ _ _ _ _) as [[s|e] c]; [|done]. case_goal; [done|].
    destruct (get_cached_dir _ _ _ _ _ _) as [[[fs r]|] c2] eqn:Eg; [|done]. intros [= <- _ <-]. left.
    by apply got_cached in Eg as [_ ?].
  - destruct (sent_of st path p Hi Ep) as (id & g & Ho & ->). destruct (fe_sent g) as [|x l] eqn:Es; [done|].
    destruct inv; [done|]. intros [= <- _ <-]. right. split; [done|]. by exists id, g.
Qed.


(** ** Running a schedule *)

Inductive Act :=
| ATime (now : Instant)
| ACall (path : PathBuf)
| ARead (k : nat)
| ASend (id : nat) (e : RemoteEntry)
| AReturn (id : nat) (r : result (option Etag) BackendReadError)
| ANote (id : nat)
| AReport (id : nat)
| APrefetch (path : PathBuf)
| ARefuse (id : nat).

Definition with_st (w : LWorld) (st : LState) : LWorld := Build_LWorld st (w_readers w) (w_refreshes w) (w_now w) (w_wall w).
Definition on_fetch (w : LWorld) (id : nat) (f : Fetch → option LState) : LWorld :=
  match l_fetches (w_st w) !! id ≫= f with Some st => with_st w st | None => w end.

(** The pools have room and a probe's answer is "no etag". *)
Definition act (ti : bool) (w : LWorld) (a : Act) : LWorld :=
  match a with
  | ATime now => if w_now w <=? now then Build_LWorld (w_st w) (w_readers w) (w_refreshes w) now (w_wall w) else w
  | ACall path => Build_LWorld (w_st w) (w_readers w ++ [(path, Start)]) (w_refreshes w) (w_now w) (w_wall w)
  | ARead k =>
      match w_readers w !! k with
      | Some (path, pc) =>
          let '(pc', st', q) := advance ti (Build_Inp (w_now w) (w_wall w) 0 true (Ok None)) path pc (w_st w) in
          Build_LWorld st' (<[k := (path, pc')]> (w_readers w))
            (w_refreshes w ++ if (q : bool) then [(path, RStart)] else []) (w_now w) (w_wall w)
      | None => w
      end
  | ASend id e => on_fetch w id (λ g, match fe_phase g with Streaming => Some (fetch_send id g false e (w_st w)) | _ => None end)
  | AReturn id r => on_fetch w id (λ g, match fe_phase g with Streaming => Some (fetch_return id g r (w_st w)) | _ => None end)
  | ANote id => on_fetch w id (λ g, match fe_phase g with
      | Returned r closed => Some (fetch_note id g r closed (w_now w) 0 (w_st w)) | _ => None end)
  | AReport id => on_fetch w id (λ g, match fe_phase g with
      | Noted r closed => Some (fetch_report id g r closed (w_st w)) | _ => None end)
  | APrefetch path => with_st w (start_background_propfind false (w_now w) path false (w_st w))
  | ARefuse id => on_fetch w id (λ g, match fe_phase g with Starting => Some (prefetch_submit false id g (w_st w)) | _ => None end)
  end.
Definition acts (ti : bool) : LWorld → list Act → LWorld := foldl (act ti).

Lemma on_fetch_step ti w id (f : Fetch → option LState) :
  (∀ g st, l_fetches (w_st w) !! id = Some g → f g = Some st → fstep ti (w_now w) (w_wall w) id g (w_st w) st) →
  star (lstep ti) w (on_fetch w id f).
Proof.
  intros H. unfold on_fetch. destruct (l_fetches (w_st w) !! id) as [g|] eqn:Hg; [|constructor]. cbn.
  destruct (f g) as [st|] eqn:Hf; [|constructor]. eapply star_snoc; [constructor|]. eapply l_fetch; [exact Hg|]. by apply H.
Qed.

Lemma act_step ti w a : star (lstep ti) w (act ti w a).
Proof.
  destruct a as [now|path|k|id e|id r|id|id|path|id]; cbn [act]; try apply on_fetch_step.
  - destruct (w_now w <=? now) eqn:E; [|constructor]. bool_prop. eapply star_snoc; [constructor|]. by apply l_time.
  - eapply star_snoc; [constructor|]. apply l_call.
  - destruct (w_readers w !! k) as [[path pc]|] eqn:E; [|constructor].
    destruct (advance _ _ _ _ _) as [[pc' st'] q] eqn:Ea. eapply star_snoc; [constructor|]. by eapply l_read.
  - intros g st _. destruct (fe_phase g) eqn:Ep; try done. intros [= <-]. by apply (f_send _ _ _ _ _ _ false e).
  - intros g st _. destruct (fe_phase g) eqn:Ep; try done. intros [= <-]. by apply f_return.
  - intros g st _. destruct (fe_phase g) eqn:Ep; try done. intros [= <-]. by apply f_note.
  - intros g st _. destruct (fe_phase g) eqn:Ep; try done. intros [= <-]. by apply f_report.
  - eapply star_snoc; [constructor|]. apply l_prefetch.
  - intros g st _. destruct (fe_phase g) eqn:Ep; try done. intros [= <-]. by apply (f_submit _ _ _ _ _ _ false).
Qed.

Lemma acts_reachable ti w l : lstart w → lreachable ti (acts ti w l).
Proof.
  intros Hs. exists w. split; [done|]. clear Hs. revert w. induction l as [|a l IH]; intros w; [constructor|].
  cbn. eapply star_trans; [apply act_step|apply IH].
Qed.

Definition ex_cache : FsCache := Build_FsCache ∅ ∅ 2 ∅ 0 ∅ ∅ ∅ ∅ ∅ false 0.
Definition ex_conn : ConnInfo := Build_ConnInfo false None false true false None ∅ Backoff.closed.
Definition ex_lworld : LWorld := Build_LWorld (Build_LState ex_conn ex_cache [] ∅) [] [] 0 0.
Lemma ex_lworld_start : lstart ex_lworld.
Proof. done. Qed.

Definition ex_dir : PathBuf := ["d"%string].
(** The reader of a directory nothing is known of, up to its wait. *)
Definition to_poll : list Act := ACall ex_dir :: replicate 7 (ARead 0).
Definition reader_of (w : LWorld) (k : nat) : option Pc := snd <$> w_readers w !! k.

(** A failed listing is shown, and cached, as an empty directory when the reader looks
    between the end of the stream and the report of the failure. *)
Lemma failed_listing_cached :
  let w := acts true ex_lworld (to_poll ++ [AReturn 0 (Err (RServer 503 "")); ARead 0]) in
  lreachable true w ∧ reader_of w 0 = Some (Done (Ok ([], None))) ∧
  (d_files <$> dir_cache (l_cache (w_st w)) !! ex_dir) = Some [].
Proof. cbv zeta. split; [by apply acts_reachable|]. by vm_compute. Qed.
(** The same reader after the report gets the failure. *)
Lemma failed_listing_reported :
  let w := acts true ex_lworld (to_poll ++ [AReturn 0 (Err (RServer 503 "")); ANote 0; AReport 0; ARead 0; ARead 0]) in
  reader_of w 0 = Some (Done (Err (render (RServer 503 "")))) ∧ dir_cache (l_cache (w_st w)) !! ex_dir = None.
Proof. by vm_compute. Qed.

(** An invalidation that lands while the background refresh probes the etag is lost. *)
Lemma refresh_loses_invalidation ti i path old e st :
  dir_cache (l_cache st) !! path = Some e → d_invalidated e = true →
  let st' := (refresh_probed i path old (Ok (Some old)) st).2 in
  ∃ e', dir_cache (l_cache st') !! path = Some e' ∧ d_files e' = d_files e ∧ unspoiled e' ∧
    (soft_refresh_dir ti i (Ok None) (Err ""%string) path (RProbed old (Ok (Some old))) st).2 = st'.
Proof.
  intros He _. cbv zeta. cbn [soft_refresh_dir]. unfold refresh_probed. rewrite bool_decide_eq_true_2 by done. cbn.
  unfold touch_dir_cache. rewrite He. cbn. rewrite lookup_insert_eq. by eexists.
Qed.

(** A prefetch its pool refuses leaves a moment in which a reader that joined it caches an
    empty directory. *)
Lemma refused_prefetch_cached :
  let w := acts true ex_lworld (APrefetch ex_dir :: to_poll ++ [ARefuse 0; ARead 0]) in
  lreachable true w ∧ reader_of w 0 = Some (Done (Ok ([], None))).
Proof. cbv zeta. split; [by apply acts_reachable|]. by vm_compute. Qed.

(** Of two readers of one failed fetch only the first is told: the other waits out its
    timeout and says so. *)
Lemma second_reader_times_out :
  let l := to_poll ++ ACall ex_dir :: replicate 7 (ARead 1) ++ [AReturn 0 (Err RNotFound); ANote 0; AReport 0; ARead 0; ARead 0] in
  let w := acts true ex_lworld (l ++ [ATime (secs 14); ARead 1]) in
  let w' := acts true w [ATime (secs 15); ARead 1; ARead 1; ARead 1] in
  reader_of w 0 = Some (Done (Err "not found"%string)) ∧
  (∃ b inv d, reader_of w 1 = Some (Poll b inv d)) ∧
  reader_of w' 1 = Some (Done (Err "PROPFIND timeout for /d"%string)).
Proof. cbv zeta. split; [by vm_compute|]. split; [|by vm_compute]. eexists _, _, _. by vm_compute. Qed.

(** ** The reader ends *)

Definition rank (pc : Pc) : nat :=
  match pc with
  | Start => 14 | Woke _ => 13 | Waiting _ => 12 | Cached => 11 | Blocked _ => 10 | Stale _ _ _ => 9 | Expired _ => 9
  | Probe _ _ => 8 | Probed _ _ _ => 7 | Pending _ => 6 | Launch _ => 5 | Joined _ _ => 4 | Poll _ _ _ => 3 | Drain _ _ => 2
  | Failed _ => 1 | Done _ => 0
  end.
(** A wait whose deadline has not come. *)
Definition early (now : Instant) (pc : Pc) : bool :=
  match pc with Waiting d | Poll _ _ d => now <? d | _ => false end.

(** The reader's stretches, each on whatever state the others have left. *)
Fixpoint read_on (ti : bool) (path : PathBuf) (pc : Pc) (l : list (Inp * LState)) : Pc :=
  match l with
  | [] => pc
  | (i, st) :: l => read_on ti path (advance ti i path pc st).1.1 l
  end.
Fixpoint early_stretches (ti : bool) (path : PathBuf) (pc : Pc) (l : list (Inp * LState)) : nat :=
  match l with
  | [] => 0
  | (i, st) :: l => (if early (i_now i) pc then 1 else 0) + early_stretches ti path (advance ti i path pc st).1.1 l
  end%nat.

Ltac ranked := unfold early in *; repeat case_goal; cbn [rank fst snd] in *; bool_prop; lia || congruence.

Lemma advance_rank ti i path pc st : let pc' := (advance ti i path pc st).1.1 in
  (if early (i_now i) pc then rank pc' ≤ S (rank pc) else rank pc' ≤ pred (rank pc))%nat.
Proof.
  destruct pc; cbn [advance fst snd early].
  - unfold start_section. ranked.
  - unfold waiting_section. destruct (i_now i <? deadline); cbn [andb]; ranked.
  - unfold woke_section. ranked.
  - unfold cached_section. cbv zeta. destruct (get_cached_dir _ _ _ _ _ _) as [[[fs r]|] c]; [|cbn; lia].
    destruct (if r then _ else _); cbn; lia.
  - unfold blocked_section. ranked.
  - unfold stale_section. ranked.
  - unfold expired_section. ranked.
  - cbn. lia.
  - unfold probed_section. cbv zeta. ranked.
  - unfold pending_section. cbv zeta. ranked.
  - unfold launch_section. cbv zeta. ranked.
  - unfold joined_section. cbn. lia.
  - unfold poll_section. cbv zeta. destruct (i_now i <? deadline) eqn:E; bool_prop.
    + ranked.
    + rewrite (proj2 (Z.leb_le deadline (i_now i))) by done. ranked.
  - unfold drain_section. cbv zeta. ranked.
  - unfold failed_section. cbv zeta. ranked.
  - cbn. lia.
Qed.

Lemma read_on_done ti path r l : read_on ti path (Done r) l = Done r.
Proof. by induction l as [|[i st] l IH]. Qed.

(** C32: A reader ends, whatever the others do between its stretches: it takes at most 14 of
    them, besides two for each time it wakes before the deadline of the wait it is in. *)
Theorem reader_ends ti path pc l :
  (rank pc + 2 * early_stretches ti path pc l ≤ length l)%nat → ∃ r, read_on ti path pc l = Done r.
Proof.
  revert pc. induction l as [|[i st] l IH]; intros pc H.
  - cbn in *. destruct pc; cbn in H; try lia. by eexists.
  - cbn [read_on early_stretches length] in *. pose proof (advance_rank ti i path pc st) as Hr. cbv zeta in Hr.
    destruct (rank pc) as [|n] eqn:E; [destruct pc; try done; eexists; apply read_on_done|].
    apply IH. destruct (early (i_now i) pc); cbn [pred] in *; lia.
Qed.

Lemma reader_ends_witness :
  let i := Build_Inp 0 0 0 true (Ok None) in
  let late := Build_Inp (secs 20) 0 0 true (Ok None) in
  ∃ r, read_on true ex_dir Start (replicate 9 (i, w_st ex_lworld) ++ replicate 10 (late, w_st ex_lworld)) = Done r.
Proof. cbv zeta. apply (reader_ends true ex_dir Start). vm_compute. lia. Defined.

(** ** Witnesses *)

Definition ex_entry : RemoteEntry :=
  {| e_path := ["d"; "f"]%string; e_is_dir := false; e_size := 3; e_modified := None; e_change_token := Some "t"%string;
     e_content_type := None; e_ext := ext_default |}.
(** A reader waits on a fetch that has sent one entry. *)
Definition ex_streaming : LWorld := acts true ex_lworld (to_poll ++ [ASend 0 ex_entry]).
(** The fetch is over and has reported. *)
Definition ex_reported : LWorld := acts true ex_streaming [AReturn 0 (Ok (Some "t1"%string)); ANote 0; AReport 0].
Lemma ex_streaming_reachable : lreachable true ex_streaming.
Proof. by apply acts_reachable. Qed.
Lemma acts_app ti w l1 l2 : acts ti w (l1 ++ l2) = acts ti (acts ti w l1) l2.
Proof. apply foldl_app. Qed.
Lemma ex_reported_reachable : lreachable true ex_reported.
Proof. unfold ex_reported, ex_streaming. rewrite <- acts_app. by apply acts_reachable. Qed.


Lemma promotion_outcome_witness :
  let c := l_cache (w_st ex_reported) in
  ∃ se, promote_pending c true 5 5 ex_dir =
    (Ok se, put_dir_cache (with_pending c (delete ex_dir (pending_dirs c))) true 5 5 ex_dir (Some "t1"%string) se [ex_entry]).
Proof.
  assert (Hf : l_fetches (w_st ex_reported) = [Build_Fetch ex_dir Direct [ex_entry] (Reported (Ok (Some "t1"%string)) true)]) by by vm_compute.
  assert (∃ p, pending_dirs (l_cache (w_st ex_reported)) !! ex_dir = Some p) as [p Hp] by (eexists; by vm_compute).
  pose proof (promotion_outcome true ex_reported ex_dir p 5 5 ex_reported_reachable Hp) as H.
  revert H. generalize (w_st ex_reported), Hf. intros st Hst (n & g & (_ & Hg & _) & _ & H). cbv zeta in *.
  rewrite Hst in Hg. assert (g = Build_Fetch ex_dir Direct [ex_entry] (Reported (Ok (Some "t1"%string)) true)) as -> by
    (destruct n as [|n]; [by injection Hg|by destruct n]).
  destruct (promote_pending _ _ _ _ _) as [r c']. cbn [known_answer fe_phase fe_sent] in H. destruct H as (se & -> & ->). by exists se.
Defined.

