(* ===== verification/Walkers.v ===== *)
(** [walkers.rs], [WalkerTracker]: the per-process speed limit on uncached listings.

    A process's start time and command chain come from /proc and are arguments, as is the
    clock.  The token bucket is kept in floating point by the code; here tokens are exact,
    counted in billionths (a second of refill at [per_sec] is [per_sec] tokens, so a
    nanosecond is [per_sec] billionths), and the wait is rounded down to a nanosecond. *)
From S2P Require Import Prelude.
Local Open Scope Z_scope.

Definition token : Z := 1000000000.

(* walkers.rs:23-23 BURST *)
Definition BURST : Z := 50 * token.
(* walkers.rs:28-28 MAX_WAIT *)
Definition MAX_WAIT : Duration := secs 2.
(* walkers.rs:30-30 WALKER_PER_MIN *)
Definition WALKER_PER_MIN : Z := 60.
(* walkers.rs:32-32 MAX_TRACKED *)
Definition MAX_TRACKED : nat := 256.
(* walkers.rs:33-33 WARN_EVERY *)
Definition WARN_EVERY : Duration := secs 600.

(* walkers.rs:36-49 Requester *)
Record Requester := {
  start_time : Z;
  chain : string;
  tokens : Z;
  refilled_at : Instant;
  window_start : Instant;
  in_window : Z;
  last_rate : Z;
  total_uncached : Z;
  throttled : Z;
  last_seen : Instant;
  warned_at : option Instant;
}.

(* walkers.rs:61-68 WalkerTracker *)
Record WalkerTracker := {
  inner : gmap Z Requester;
  own_pid : Z;
  enabled : bool;
  per_sec : Z;
}.

(* walkers.rs:71-78 WalkerTracker::new *)
Definition new (own : Z) (en : bool) (rate : Z) : WalkerTracker :=
  Build_WalkerTracker ∅ own en (Z.max rate 1).

(* walkers.rs:81-85 WalkerTracker::set_limit *)
Definition set_limit (w : WalkerTracker) (en : bool) (rate : Z) : WalkerTracker :=
  Build_WalkerTracker (inner w) (own_pid w) en (Z.max rate 1).

(* walkers.rs:181-195 fresh *)
Definition fresh (st : Z) (ch : string) (now : Instant) : Requester :=
  {| start_time := st; chain := ch; tokens := BURST; refilled_at := now; window_start := now;
     in_window := 0; last_rate := 0; total_uncached := 0; throttled := 0; last_seen := now;
     warned_at := None |}.

Definition since (now t : Instant) : Duration := sat_sub now t.

(** The least recently seen process; which of several equally old ones a hash map yields
    first is not fixed, this takes the first in key order. *)
Definition older_of (pr : Z * Requester) (best : option (Z * Requester)) : option (Z * Requester) :=
  match best with
  | Some b => if last_seen pr.2 <=? last_seen b.2 then Some pr else Some b
  | None => Some pr
  end.
(* walkers.rs:103-107 WalkerTracker::note_uncached *)
Definition oldest (m : gmap Z Requester) : option Z := fst <$> foldr older_of None (map_to_list m).

(** Counting the listing in the process's minute window. *)
(* walkers.rs:114-129 WalkerTracker::note_uncached *)
Definition count_listing (r : Requester) (now : Instant) : Requester :=
  let rolled := secs 60 <=? since now (window_start r) in
  let last := if rolled then in_window r else last_rate r in
  let in_w := (if rolled then 0 else in_window r) + 1 in
  let warn := (WALKER_PER_MIN <? Z.max in_w last)
              && match warned_at r with Some t => WARN_EVERY <=? since now t | None => true end in
  {| start_time := start_time r; chain := chain r; tokens := tokens r; refilled_at := refilled_at r;
     window_start := if rolled then now else window_start r; in_window := in_w; last_rate := last;
     total_uncached := total_uncached r + 1; throttled := throttled r; last_seen := now;
     warned_at := if warn then Some now else warned_at r |}.

(** Paying for it out of the token bucket; the answer is how long to wait. *)
(* walkers.rs:134-150 WalkerTracker::note_uncached *)
Definition spend (r : Requester) (rate : Z) (now : Instant) : Duration * Requester :=
  let full := Z.min (tokens r + since now (refilled_at r) * rate) BURST in
  let with_tokens t thr :=
    {| start_time := start_time r; chain := chain r; tokens := t; refilled_at := now;
       window_start := window_start r; in_window := in_window r; last_rate := last_rate r;
       total_uncached := total_uncached r; throttled := thr; last_seen := last_seen r;
       warned_at := warned_at r |} in
  if token <=? full then (0, with_tokens (full - token) (throttled r))
  else (Z.min ((token - full) / rate) MAX_WAIT, with_tokens (full - token) (throttled r + 1)).

(* walkers.rs:97-151 WalkerTracker::note_uncached *)
Definition note_uncached (w : WalkerTracker) (pid st : Z) (ch : string) (now : Instant) :
    Duration * WalkerTracker :=
  if (pid =? 0) || (pid =? own_pid w) then (0, w)
  else
    let m := if (MAX_TRACKED <=? size (inner w))%nat && negb (bool_decide (is_Some (inner w !! pid)))
             then match oldest (inner w) with Some p => delete p (inner w) | None => inner w end
             else inner w in
    let r := default (fresh st ch now) (m !! pid) in
    let r := if start_time r =? st then r else fresh st ch now in
    let r := count_listing r now in
    let '(wait, r) := if enabled w then spend r (per_sec w) now else (0, r) in
    (wait, Build_WalkerTracker (<[pid := r]> m) (own_pid w) (enabled w) (per_sec w)).

(** Crawling: seen within a minute, above the walker rate. *)
Definition crawling (r : Requester) (now : Instant) : bool :=
  (since now (last_seen r) <? secs 60) && (WALKER_PER_MIN <? Z.max (in_window r) (last_rate r)).

(* walkers.rs:155-159 WalkerTracker::is_walker *)
Definition is_walker (w : WalkerTracker) (pid : Z) (now : Instant) : bool :=
  match inner w !! pid with Some r => crawling r now | None => false end.

(* walkers.rs:53-59 WalkerStats *)
Record WalkerStats := {
  ws_pid : Z; ws_chain : string; uncached_last_min : Z; ws_total_uncached : Z; ws_throttled : Z }.

Definition busier (a b : WalkerStats) : Prop := uncached_last_min b ≤ uncached_last_min a.
#[export] Instance busier_dec : RelDecision busier.
Proof. intros a b. unfold busier. apply _. Defined.

(* walkers.rs:162-178 WalkerTracker::active *)
Definition active (w : WalkerTracker) (now : Instant) : list WalkerStats :=
  merge_sort busier
    ((λ pr : Z * Requester, {| ws_pid := pr.1; ws_chain := chain pr.2;
        uncached_last_min := Z.max (in_window pr.2) (last_rate pr.2);
        ws_total_uncached := total_uncached pr.2; ws_throttled := throttled pr.2 |}) <$>
     List.filter (λ pr, crawling pr.2 now) (map_to_list (inner w))).

(** ** The rate limit *)

(** A run of listings of one process under a fixed limit. *)
Fixpoint listings (w : WalkerTracker) (pid st : Z) (ch : string) (times : list Instant) :
    list Duration * WalkerTracker :=
  match times with
  | [] => ([], w)
  | t :: times =>
      let '(d, w) := note_uncached w pid st ch t in
      let '(ds, w) := listings w pid st ch times in (d :: ds, w)
  end.

Lemma spend_spec r rate now :
  0 < rate →
  let '(d, r') := spend r rate now in
  let full := Z.min (tokens r + since now (refilled_at r) * rate) BURST in
  tokens r' = full - token ∧ refilled_at r' = now ∧ 0 ≤ d ≤ MAX_WAIT ∧
  start_time r' = start_time r ∧
  (token ≤ full → d = 0) ∧ (d = 0 → 0 < rate → token - full < rate).
Proof.
  intros Hr. unfold spend. set (full := Z.min _ _). unfold MAX_WAIT, secs.
  destruct (token <=? full) eqn:E; bool_prop; cbn.
  - split_and!; try done; lia.
  - pose proof (Z.div_pos (token - full) rate ltac:(lia) Hr).
    split_and!; try done; try lia. intros Hd _.
    assert ((token - full) / rate = 0) as Hz by lia. apply Z.div_small_iff in Hz; lia.
Qed.

(** The bucket of a process after [n] listings since [t0], the last at [tl]. *)
Definition bucket (w : WalkerTracker) (pid st n : Z) (t0 tl : Instant) : Prop :=
  ∃ r, inner w !! pid = Some r ∧ start_time r = st ∧ refilled_at r = tl ∧
       tokens r ≤ BURST + per_sec w * (tl - t0) - n * token.

Lemma count_listing_same r now :
  start_time (count_listing r now) = start_time r ∧ tokens (count_listing r now) = tokens r ∧
  refilled_at (count_listing r now) = refilled_at r.
Proof. done. Qed.

Lemma note_step w pid st ch now :
  enabled w = true → 0 < per_sec w → pid ≠ 0 → pid ≠ own_pid w →
  let '(d, w') := note_uncached w pid st ch now in
  enabled w' = true ∧ per_sec w' = per_sec w ∧ own_pid w' = own_pid w ∧ 0 ≤ d ≤ MAX_WAIT ∧
  (∀ n t0 tl, bucket w pid st n t0 tl → tl ≤ now →
     bucket w' pid st (n + 1) t0 now ∧
     (d = 0 → (n + 1) * token ≤ BURST + per_sec w * (now - t0 + 1))) ∧
  bucket w' pid st 1 now now.
Proof.
  intros He Hr H0 Ho. unfold note_uncached.
  rewrite (proj2 (Z.eqb_neq _ _) H0), (proj2 (Z.eqb_neq _ _) Ho), He. cbn [orb].
  set (m := if (_ && _) then _ else inner w). set (r := default _ (m !! pid)).
  set (r1 := if start_time r =? st then r else fresh st ch now).
  assert (Hst : start_time r1 = st).
  { unfold r1. destruct (start_time r =? st) eqn:E; bool_prop; done. }
  pose proof (spend_spec (count_listing r1 now) (per_sec w) now Hr) as Hs.
  destruct (spend (count_listing r1 now) (per_sec w) now) as [d r2].
  destruct (count_listing_same r1 now) as (C1 & C2 & C3). rewrite C1, C2, C3 in Hs.
  destruct Hs as (S1 & S2 & S3 & S4 & _ & S6). cbn [enabled per_sec own_pid].
  split_and!; try done; try lia.
  - intros n t0 tl (r0 & Hr0 & Hr0s & Hr0t & Hr0k) Htl.
    assert (Hr1 : r1 = r0).
    { unfold r1, r, m. rewrite Hr0, bool_decide_eq_true_2 by eauto. rewrite andb_false_r, Hr0. simpl.
      by rewrite Hr0s, Z.eqb_refl. }
    rewrite Hr1 in *. rewrite Hr0t in *. unfold since, sat_sub in *. rewrite Z.max_r in * by lia.
    split.
    + exists r2. cbn [inner per_sec]. rewrite lookup_insert_eq. split_and!; try done; [congruence|]. nia.
    + intros Hd. specialize (S6 Hd Hr). nia.
  - exists r2. cbn [inner per_sec]. rewrite lookup_insert_eq. split_and!; try done; [congruence|]. lia.
Qed.

Lemma listings_bound w pid st ch n t0 tl times :
  enabled w = true → 0 < per_sec w → pid ≠ 0 → pid ≠ own_pid w →
  bucket w pid st n t0 tl → StronglySorted Z.le (tl :: times) →
  ∀ i t, times !! i = Some t →
    ∃ d, (listings w pid st ch times).1 !! i = Some d ∧ 0 ≤ d ≤ MAX_WAIT ∧
      (d = 0 → (n + Z.of_nat i + 1) * token ≤ BURST + per_sec w * (t - t0 + 1)).
Proof.
  revert w n tl. induction times as [|t1 times IH]; intros w n tl He Hr H0 Ho Hb Hs i t Hi; [done|].
  apply StronglySorted_inv in Hs as [Hs Hall]. rewrite Forall_forall in Hall.
  pose proof (note_step w pid st ch t1 He Hr H0 Ho) as Hn. cbn [listings].
  destruct (note_uncached w pid st ch t1) as [d w'] eqn:En. destruct Hn as (E1 & E2 & E3 & E4 & E5 & _).
  destruct (E5 n t0 tl Hb) as [Hb' Hd]; [apply Hall; left|].
  destruct (listings w' pid st ch times) as [ds w2] eqn:El.
  destruct i as [|i]; cbn in Hi.
  - injection Hi as <-. exists d. split_and!; [done|lia|lia|]. intros Hz. specialize (Hd Hz). lia.
  - specialize (IH w' (n + 1) t1 E1 ltac:(lia) H0 ltac:(congruence) Hb' Hs i t Hi).
    rewrite El, E2 in IH. destruct IH as (d2 & Hd2 & Hb2 & Hz2). exists d2.
    split_and!; [done|lia|lia|]. intros Hz. specialize (Hz2 Hz). lia.
Qed.

(** A crawling process is held to its rate: whatever it did before, when its listing at
    time [t] is let through at once, it has caused at most 50 plus [per_sec] per second
    listings since its first one at [t0], that one included (up to a nanosecond's worth of
    rounding). No listing is ever held back longer than two seconds. *)
Theorem walker_rate_limit w pid st ch t0 times :
  enabled w = true → 0 < per_sec w → pid ≠ 0 → pid ≠ own_pid w →
  StronglySorted Z.le (t0 :: times) →
  ∀ i t, (t0 :: times) !! i = Some t →
    ∃ d, (listings w pid st ch (t0 :: times)).1 !! i = Some d ∧ 0 ≤ d ≤ MAX_WAIT ∧
      (d = 0 → (Z.of_nat i + 1) * token ≤ 50 * token + per_sec w * (t - t0 + 1)).
Proof.
  intros He Hr H0 Ho Hs i t Hi. cbn [listings].
  pose proof (note_step w pid st ch t0 He Hr H0 Ho) as Hn.
  destruct (note_uncached w pid st ch t0) as [d w'] eqn:En. destruct Hn as (E1 & E2 & E3 & E4 & _ & E6).
  destruct (listings w' pid st ch times) as [ds w2] eqn:El.
  destruct i as [|i]; cbn in Hi.
  - injection Hi as <-. exists d. split_and!; [done|lia|lia|]. intros _. unfold token. lia.
  - destruct (listings_bound w' pid st ch 1 t0 t0 times E1 ltac:(lia) H0 ltac:(congruence) E6 Hs i t Hi)
      as (d2 & Hd2 & Hb2 & Hz2). rewrite El in Hd2. exists d2. split_and!; [done|lia|lia|].
    intros Hz. specialize (Hz2 Hz). rewrite E2 in Hz2. unfold BURST in Hz2. lia.
Qed.

Lemma walker_rate_limit_witness :
  let ds := (listings (new 1 true 10) 7 0 "find" (replicate 52 0)).1 in
  ds !! 49%nat = Some 0 ∧ ds !! 50%nat = Some 100000000 ∧ ∃ d, ds !! 51%nat = Some d ∧ d ≤ MAX_WAIT.
Proof.
  cbv zeta. split; [by vm_compute|]. split; [by vm_compute|].
  assert (Hs : StronglySorted Z.le (0 :: replicate 51 0)) by (repeat constructor; lia).
  destruct (walker_rate_limit (new 1 true 10) 7 0 "find" 0 (replicate 51 0) eq_refl eq_refl
    ltac:(discriminate) ltac:(discriminate) Hs 51%nat 0 eq_refl) as (d & Hd & Hb & _).
  exists d. split; [exact Hd|exact (proj2 Hb)].
Defined.

(** At most 256 processes are remembered. *)
Lemma oldest_in m : m ≠ ∅ → ∃ p, oldest m = Some p ∧ is_Some (m !! p).
Proof.
  intros Hm. unfold oldest.
  assert (Hin : ∀ l, l ≠ [] → ∃ pr, foldr older_of None l = Some pr ∧ pr ∈ l).
  { intros l. induction l as [|pr l IH]; [done|]. intros _. cbn [foldr]. destruct l as [|q l].
    - exists pr. split; [done|left].
    - destruct (IH ltac:(done)) as (b & -> & Hb). cbn [older_of]. destruct (last_seen pr.2 <=? last_seen b.2).
      + exists pr. split; [done|left].
      + exists b. split; [done|by right]. }
  destruct (Hin (map_to_list m)) as ([p r] & -> & Hp).
  { intros E. by apply map_to_list_empty_iff in E. }
  exists p. split; [done|]. apply elem_of_map_to_list in Hp. eauto.
Qed.

Lemma tracked_bounded w pid st ch now :
  (size (inner w) ≤ MAX_TRACKED)%nat → (size (inner (note_uncached w pid st ch now).2) ≤ MAX_TRACKED)%nat.
Proof.
  intros Hsz. unfold note_uncached. destruct (_ || _); [done|].
  set (m := if (_ && _) then _ else inner w). destruct (if enabled w then _ else _) as [d r]. cbn [snd inner].
  rewrite map_size_insert. destruct (inner w !! pid) as [x|] eqn:Ep.
  - assert (m = inner w) as ->.
    { unfold m. rewrite bool_decide_eq_true_2 by eauto. by rewrite andb_false_r. }
    by rewrite Ep.
  - unfold m. rewrite bool_decide_eq_false_2 by by intros [? ?].
    rewrite andb_true_r. destruct (MAX_TRACKED <=? size (inner w))%nat eqn:E; bool_prop.
    + destruct (oldest_in (inner w)) as (p & -> & y & Hy).
      { intros Hem. rewrite Hem, map_size_empty in E. unfold MAX_TRACKED in E. lia. }
      rewrite map_size_delete, Hy. destruct (delete p (inner w) !! pid); unfold MAX_TRACKED in *; simpl; lia.
    + rewrite Ep. lia.
Qed.
