(* ===== verification/Throttle.v ===== *)
(** [lib.rs], transfer slots and memory: [Throttle]'s numbered slots, the read-ahead memory
    budget ([BufferReservation]) and the download-rate estimate that decides on segments.

    Waiting on the condition variable is the guard under which a step may happen; clock
    readings are arguments.  The estimate's rate is computed in floating point by the code
    and truncated; here it is the integer quotient. *)
From S2P Require Import Prelude.

(** ** Slots *)

(* lib.rs:306-314 Slots *)
Record Slots := {
  in_use : nat;
  busy : list bool;
  bad_until : list (option Instant);
  next : nat;
}.

Definition is_busy (s : Slots) (i : nat) : bool := default false (busy s !! i).
Definition bad (s : Slots) (i : nat) : option Instant := default None (bad_until s !! i).
Definition healthy_at (s : Slots) (now : Instant) (i : nat) : bool :=
  match bad s i with Some t => (t <=? now)%Z | None => true end.

(** [Option]'s order: [None] first. *)
Definition opt_lt (a b : option Instant) : bool :=
  match a, b with
  | None, Some _ => true
  | Some x, Some y => (x <? y)%Z
  | _, None => false
  end.
(** [min_by_key]: the first of the smallest. *)
Fixpoint min_by (key : nat → option Instant) (l : list nat) : option nat :=
  match l with
  | [] => None
  | i :: l => match min_by key l with
              | Some j => if opt_lt (key j) (key i) then Some j else Some i
              | None => Some i
              end
  end.

(* lib.rs:320-336 Slots::take *)
Definition take (s : Slots) (now : Instant) : option (nat * Slots) :=
  let n := length (busy s) in
  let healthy := find (λ i, negb (is_busy s i) && healthy_at s now i) ((λ i, (next s + i) mod n) <$> seq 0 n) in
  let slot := match healthy with
    | Some i => Some i
    | None => min_by (bad s) (List.filter (λ i, negb (is_busy s i)) (seq 0 n))
    end in
  (λ i, (i, Build_Slots (S (in_use s)) (<[i := true]> (busy s)) (bad_until s) (S i mod n))) <$> slot.

(* lib.rs:297-301 Throttle *)
Record Throttle := { state : Slots; max : nat }.

(* lib.rs:391-397 Throttle::new *)
Definition new (mx : nat) : Throttle :=
  Build_Throttle (Build_Slots 0 (replicate mx false) (replicate mx None) 0) mx.

(* lib.rs:407-412 Throttle::quarantine *)
Definition quarantine (t : Throttle) (slot : nat) (dur : Duration) (now : Instant) : Throttle :=
  let s := state t in
  Build_Throttle (Build_Slots (in_use s) (busy s) (<[slot := Some (now + dur)%Z]> (bad_until s)) (next s)) (max t).

(** The answer once the wait is over: by a free slot, or by the timeout. *)
(* lib.rs:426-437 Throttle::acquire_leaving *)
Definition acquire_leaving (t : Throttle) (spare : nat) (now : Instant) : option (nat * Throttle) :=
  let limit := max t - spare in
  if limit <=? in_use (state t) then None
  else (λ sr, (sr.1, Build_Throttle sr.2 (max t))) <$> take (state t) now.

(* lib.rs:415-417 Throttle::acquire_timeout *)
Definition acquire_timeout (t : Throttle) (now : Instant) : option (nat * Throttle) := acquire_leaving t 0 now.

(** [acquire] waits until a slot is free: [None] while it has to. *)
(* lib.rs:439-453 Throttle::acquire *)
Definition acquire (t : Throttle) (now : Instant) : option (nat * Throttle) :=
  if max t <=? in_use (state t) then None
  else (λ sr, (sr.1, Build_Throttle sr.2 (max t))) <$> take (state t) now.

(* lib.rs:463-472 Throttle::release *)
Definition release (t : Throttle) (slot : nat) : Throttle :=
  let s := state t in
  Build_Throttle (Build_Slots (in_use s - 1) (<[slot := false]> (busy s)) (bad_until s) (next s)) (max t).

(* lib.rs:476-478 Throttle::try_acquire_owned *)
Definition try_acquire_owned (t : Throttle) (spare : nat) (now : Instant) : option (nat * Throttle) :=
  acquire_leaving t spare now.

(** A throttle and the slots of the permits alive. *)
Record World := { throttle : Throttle; held : list nat }.

Inductive step : World → World → Prop :=
| step_acquire w spare now i t :
    acquire_leaving (throttle w) spare now = Some (i, t) → step w {| throttle := t; held := i :: held w |}
| step_release w l1 i l2 :
    held w = l1 ++ i :: l2 → step w {| throttle := release (throttle w) i; held := l1 ++ l2 |}
| step_quarantine w i dur now :
    step w {| throttle := quarantine (throttle w) i dur now; held := held w |}.

Definition initial (mx : nat) : World := {| throttle := new mx; held := [] |}.

(** *** Correctness of the slots *)

Definition slots_ok (mx : nat) (w : World) : Prop :=
  let s := state (throttle w) in
  max (throttle w) = mx ∧ length (busy s) = mx ∧ length (bad_until s) = mx ∧
  NoDup (held w) ∧ in_use s = length (held w) ∧
  (∀ i, i ∈ held w ↔ busy s !! i = Some true).

Lemma initial_ok mx : slots_ok mx (initial mx).
Proof.
  split_and!; simpl; rewrite ?length_replicate; try done; [constructor|].
  intros i. split; [by intros ?%elem_of_nil|]. intros [H _]%lookup_replicate. done.
Qed.

Lemma min_by_spec key l :
  l ≠ [] → ∃ i, min_by key l = Some i ∧ i ∈ l ∧ (∀ j, j ∈ l → opt_lt (key j) (key i) = false).
Proof.
  induction l as [|x l IH]; [done|]. intros _. cbn [min_by]. destruct l as [|y l].
  - exists x. split_and!; [done|left|]. intros j ->%list_elem_of_singleton.
    unfold opt_lt. destruct (key x); [apply Z.ltb_irrefl|done].
  - destruct (IH ltac:(done)) as (i & -> & Hi & Hmin). destruct (opt_lt (key i) (key x)) eqn:E.
    + exists i. split_and!; [done|by right|]. intros j [->|Hj]%elem_of_cons; [|by apply Hmin].
      unfold opt_lt in *. destruct (key i), (key x); try done. bool_prop. apply Z.ltb_ge. lia.
    + exists x. split_and!; [done|left|]. intros j [->|Hj]%elem_of_cons.
      * unfold opt_lt. destruct (key x); [apply Z.ltb_irrefl|done].
      * specialize (Hmin j Hj). unfold opt_lt in *.
        destruct (key i), (key x), (key j); try done; bool_prop; apply Z.ltb_ge; lia.
Qed.

(** A pigeonhole: with fewer permits than slots, some slot is free. *)
Lemma free_slot mx w :
  slots_ok mx w → in_use (state (throttle w)) < mx → ∃ i, i < mx ∧ is_busy (state (throttle w)) i = false.
Proof.
  intros (_ & Hb & _ & Hnd & Hu & Hh) Hlt.
  destruct (decide (Exists (λ i, is_busy (state (throttle w)) i = false) (seq 0 mx))) as [He|He].
  - apply Exists_exists in He as (i & Hi & Hf). apply elem_of_seq in Hi. exists i. split; [lia|done].
  - exfalso. assert (Hsub : seq 0 mx ⊆ held w).
    { intros i Hi. apply Hh.
      destruct (busy (state (throttle w)) !! i) as [[|]|] eqn:E; [done| |].
      - exfalso. apply He, Exists_exists. exists i. split; [done|]. unfold is_busy. by rewrite E.
      - apply elem_of_seq in Hi. apply lookup_ge_None in E. lia. }
    pose proof (NoDup_submseteq (seq 0 mx) (held w) (NoDup_seq 0 mx) Hsub) as Hs.
    apply submseteq_length in Hs. rewrite length_seq in Hs. lia.
Qed.

Lemma take_spec mx w now :
  slots_ok mx w → in_use (state (throttle w)) < mx →
  ∃ i s', take (state (throttle w)) now = Some (i, s') ∧ i < mx ∧
    is_busy (state (throttle w)) i = false ∧ in_use s' = S (in_use (state (throttle w))) ∧
    busy s' = <[i := true]> (busy (state (throttle w))) ∧ bad_until s' = bad_until (state (throttle w)) ∧
    (healthy_at (state (throttle w)) now i = false →
     ∀ j, j < mx → is_busy (state (throttle w)) j = false →
       healthy_at (state (throttle w)) now j = false ∧
       opt_lt (bad (state (throttle w)) j) (bad (state (throttle w)) i) = false).
Proof.
  intros Hok Hlt. destruct (free_slot mx w Hok Hlt) as (f & Hf & Hfree).
  destruct Hok as (_ & Hb & _). set (s := state (throttle w)) in *. unfold take. rewrite Hb.
  destruct (find _ _) as [i|] eqn:Ef.
  - apply find_some in Ef as [Hin Hp]. bool_prop. apply list_elem_of_In, list_elem_of_fmap in Hin as (k & -> & Hk).
    eexists _, _. split; [done|]. split_and!; try done; [apply Nat.mod_upper_bound; lia|]. intros ?. congruence.
  - assert (Hnone : ∀ j, j < mx → is_busy s j = false → healthy_at s now j = false).
    { intros j Hj Hjf. destruct (healthy_at s now j) eqn:E; [|done]. exfalso.
      assert (Hin : In j ((λ i, (next s + i) mod mx) <$> seq 0 mx)).
      { apply list_elem_of_In, list_elem_of_fmap. exists ((j + mx - next s mod mx) mod mx). split.
        - rewrite Nat.Div0.add_mod_idemp_r. pose proof (Nat.mod_upper_bound (next s) mx ltac:(lia)).
          pose proof (Nat.div_mod_eq (next s) mx).
          replace (next s + (j + mx - next s mod mx)) with (j + (1 + next s / mx) * mx) by lia.
          rewrite Nat.Div0.mod_add. by rewrite Nat.mod_small.
        - apply elem_of_seq. split; [lia|]. apply Nat.mod_upper_bound. lia. }
      pose proof (find_none _ _ Ef j Hin) as Hx. simpl in Hx. by rewrite Hjf, E in Hx. }
    destruct (min_by_spec (bad s) (List.filter (λ i, negb (is_busy s i)) (seq 0 mx))) as (i & -> & Hi & Hmin).
    { intros E. assert (Hin : f ∈ List.filter (λ i, negb (is_busy s i)) (seq 0 mx)).
      { apply elem_of_filterb. split; [apply elem_of_seq; lia|by rewrite Hfree]. }
      rewrite E in Hin. by apply elem_of_nil in Hin. }
    apply elem_of_filterb in Hi as [Hi Hif]. apply elem_of_seq in Hi. bool_prop.
    eexists _, _. split; [done|]. split_and!; try done; [lia|]. intros _ j Hj Hjf. split; [by apply Hnone|].
    apply Hmin, elem_of_filterb. split; [apply elem_of_seq; lia|by rewrite Hjf].
Qed.

Lemma step_ok mx w w' : slots_ok mx w → step w w' → slots_ok mx w'.
Proof.
  intros Hok Hs. revert Hok. destruct Hs as [w spare now i t Ha|w l1 i l2 Hl|w i dur now]; intros Hok.
  - unfold acquire_leaving in Ha. destruct (_ <=? _) eqn:E; [done|]. bool_prop.
    destruct (take_spec mx w now Hok) as (i' & s' & Ht & Hi & Hf & Hu & Hb & Hq & _).
    { destruct Hok as (Hm & _). lia. }
    rewrite Ht in Ha. simpl in Ha. injection Ha as <- <-.
    destruct Hok as (Hm & Hlb & Hlq & Hnd & Hlen & Hh).
    split_and!; cbn [throttle state max held]; rewrite ?Hb, ?Hq, ?length_insert; try done.
    + constructor; [|done]. intros Hin%Hh. unfold is_busy in Hf. by rewrite Hin in Hf.
    + simpl. lia.
    + intros j. rewrite elem_of_cons, Hh. destruct (decide (j = i')) as [->|Hne].
      * rewrite list_lookup_insert_eq by lia. split; [done|by left].
      * rewrite list_lookup_insert_ne by done. split; [intros [->|?]; done|by right].
  - destruct Hok as (Hm & Hlb & Hlq & Hnd & Hlen & Hh). rewrite Hl in *.
    assert (Hbi : busy (state (throttle w)) !! i = Some true) by (apply Hh, elem_of_app; right; left).
    pose proof (lookup_lt_Some _ _ _ Hbi).
    rewrite <- Permutation_middle in Hnd. apply NoDup_cons in Hnd as [Hni Hnd].
    split_and!; simpl; rewrite ?length_insert; try done.
    + rewrite Hlen, !length_app. simpl. lia.
    + intros j. specialize (Hh j). rewrite <- Permutation_middle, elem_of_cons in Hh.
      destruct (decide (j = i)) as [->|Hne].
      * rewrite list_lookup_insert_eq by done. split; [done|]. intros [=].
      * rewrite list_lookup_insert_ne by done. rewrite <- Hh. split; [by right|]. intros [->|?]; done.
  - destruct Hok as (Hm & Hlb & Hlq & Hnd & Hlen & Hh).
    split_and!; simpl; rewrite ?length_insert; try done.
Qed.

(** No two permits of a throttle alive at once have the same slot, whatever the order of
    acquiring, releasing and quarantining; a permit is granted exactly while enough slots
    stay free for the callers it must leave room for (so speculative work never takes the
    last ones), and a free slot always exists then; a quarantined slot is used only when
    every free one is, and then the one whose quarantine ends first. *)
Theorem throttle_slots mx w spare now :
  star step (initial mx) w →
  NoDup (held w) ∧ length (held w) ≤ mx ∧ (∀ i, i ∈ held w → i < mx) ∧
  (length (held w) + spare < mx →
     ∃ i t, acquire_leaving (throttle w) spare now = Some (i, t) ∧ i ∉ held w ∧ i < mx ∧
       (healthy_at (state (throttle w)) now i = false →
        ∀ j, j < mx → j ∉ held w → healthy_at (state (throttle w)) now j = false ∧
          opt_lt (bad (state (throttle w)) j) (bad (state (throttle w)) i) = false)) ∧
  (mx ≤ length (held w) + spare → acquire_leaving (throttle w) spare now = None).
Proof.
  intros Hr. assert (Hok : slots_ok mx w).
  { eapply star_invariant; [|exact Hr|apply initial_ok]. intros a b. apply step_ok. }
  pose proof Hok as (Hm & Hlb & Hlq & Hnd & Hlen & Hh).
  assert (Hbound : ∀ i, i ∈ held w → i < mx).
  { intros i Hi%Hh%lookup_lt_Some. lia. }
  assert (Hfree : ∀ j, j < mx → j ∉ held w → is_busy (state (throttle w)) j = false).
  { intros j Hj Hn. unfold is_busy. destruct (busy _ !! j) as [[|]|] eqn:E; try done. by apply Hh in E. }
  split_and!; try done.
  - assert (Hsub : held w ⊆+ seq 0 mx).
    { apply NoDup_submseteq; [done|]. intros i Hi. apply elem_of_seq. specialize (Hbound i Hi). lia. }
    apply submseteq_length in Hsub. by rewrite length_seq in Hsub.
  - intros Hlt. unfold acquire_leaving. rewrite Hm, Hlen, (proj2 (Nat.leb_gt _ _)) by lia.
    destruct (take_spec mx w now Hok ltac:(lia)) as (i & s' & -> & Hi & Hf & _ & _ & _ & Hq).
    exists i, (Build_Throttle s' (max (throttle w))). cbn. rewrite Hm. split_and!; [done| |done|].
    + intros Hin%Hh. unfold is_busy in Hf. by rewrite Hin in Hf.
    + intros Hbad j Hj Hn. apply Hq; auto.
  - intros Hge. unfold acquire_leaving. by rewrite Hm, Hlen, (proj2 (Nat.leb_le _ _)) by lia.
Qed.

(** Slot 0 held; slot 1 quarantined, and still granted as the only free one. *)
Lemma throttle_slots_witness :
  let t1 := default (new 2) (snd <$> acquire_leaving (new 2) 0 0) in
  let w := {| throttle := quarantine t1 1 10 0; held := [0] |} in
  star step (initial 2) w ∧ ∃ i t, acquire_leaving (throttle w) 0 5 = Some (i, t) ∧ i ∉ held w.
Proof.
  cbv zeta. set (t1 := default (new 2) (snd <$> acquire_leaving (new 2) 0 0)).
  set (w := {| throttle := quarantine t1 1 10 0; held := [0] |}).
  assert (Hr : star step (initial 2) w).
  { apply (star_snoc _ _ {| throttle := t1; held := [0] |}); [|by apply step_quarantine].
    apply (star_snoc _ _ (initial 2)); [constructor|]. by apply (step_acquire (initial 2) 0 0 0 t1). }
  split; [exact Hr|].
  destruct (throttle_slots 2 w 0 5 Hr) as (_ & _ & _ & H & _).
  destruct (H ltac:(cbn; lia)) as (i & t & Ha & Hn & _). exists i, t. split; [exact Ha|exact Hn].
Defined.

(** ** Read-ahead memory *)

Open Scope Z_scope.

(* lib.rs:491-491 READ_AHEAD_BUDGET *)
Definition READ_AHEAD_BUDGET : Z := 512 * 1024 * 1024.

(** The counter [READ_AHEAD_RESERVED] and the reservations alive; each call is one atomic
    update of the counter. *)
Record Memory := { reserved : Z; grants : list Z }.

(* lib.rs:502-510 BufferReservation::up_to *)
Definition up_to (m : Memory) (want floor : Z) : Memory :=
  let floor := Z.min floor want in
  let grant := Z.max (Z.min (sat_sub READ_AHEAD_BUDGET (reserved m)) want) floor in
  Build_Memory (reserved m + grant) (grant :: grants m).

(* lib.rs:513-520 BufferReservation::exactly *)
Definition exactly (m : Memory) (want : Z) : option Memory :=
  if reserved m + want <=? READ_AHEAD_BUDGET
  then Some (Build_Memory (reserved m + want) (want :: grants m)) else None.

(** Methods on one reservation: its size, the counter, and the answer. *)
(* lib.rs:525-539 BufferReservation::grow_to *)
Definition grow_to (used size want : Z) : bool * Z * Z :=
  if want <=? size then (true, used, size)
  else
    let extra := want - size in
    if used + extra <=? READ_AHEAD_BUDGET then (true, used + extra, want) else (false, used, size).

(* lib.rs:542-547 BufferReservation::shrink_to *)
Definition shrink_to (used size want : Z) : Z * Z :=
  if want <? size then (used - (size - want), want) else (used, size).

(* lib.rs:551-553 BufferReservation::drop *)
Definition drop_reservation (used size : Z) : Z := used - size.

Inductive mstep : Memory → Memory → Prop :=
| m_up_to m want floor : 0 ≤ want → 0 ≤ floor → mstep m (up_to m want floor)
| m_exactly m want m' : 0 ≤ want → exactly m want = Some m' → mstep m m'
| m_grow m l1 size l2 want b used' size' :
    grants m = l1 ++ size :: l2 → 0 ≤ want → grow_to (reserved m) size want = (b, used', size') →
    mstep m (Build_Memory used' (l1 ++ size' :: l2))
| m_shrink m l1 size l2 want used' size' :
    grants m = l1 ++ size :: l2 → 0 ≤ want → shrink_to (reserved m) size want = (used', size') →
    mstep m (Build_Memory used' (l1 ++ size' :: l2))
| m_drop m l1 size l2 :
    grants m = l1 ++ size :: l2 → mstep m (Build_Memory (drop_reservation (reserved m) size) (l1 ++ l2)).

Definition total (l : list Z) : Z := foldr Z.add 0 l.
Lemma total_app l1 l2 : total (l1 ++ l2) = total l1 + total l2.
Proof. unfold total. induction l1 as [|x l1 IH]; simpl; lia. Qed.
Lemma total_nonneg l : Forall (λ x, 0 ≤ x) l → 0 ≤ total l.
Proof. unfold total. induction 1 as [|x l Hx _ IH]; simpl; lia. Qed.

Definition memory_ok (m : Memory) : Prop := reserved m = total (grants m) ∧ Forall (λ x, 0 ≤ x) (grants m).

Lemma mstep_ok m m' : memory_ok m → mstep m m' → memory_ok m'.
Proof.
  intros Hok Hs. revert Hok.
  destruct Hs as [m want floor Hw Hf|m want m' Hw He|m l1 size l2 want b u s Hg Hw He|m l1 size l2 want u s Hg Hw He|m l1 size l2 Hg];
    intros [Hr Hall]; unfold memory_ok.
  - unfold up_to. cbn [reserved grants]. split; [unfold total in *; simpl; lia|]. constructor; [lia|done].
  - unfold exactly in He. destruct (_ <=? _); [|done]. injection He as <-. cbn [reserved grants].
    split; [unfold total in *; simpl; lia|]. by constructor.
  - rewrite Hg in *. apply Forall_app in Hall as [H1 [H2 H3]%Forall_cons].
    assert (0 ≤ s ∧ u = reserved m + (s - size)) as [Hs ->].
    { unfold grow_to in He. repeat case_match; simplify_eq; bool_prop; lia. }
    cbn [reserved grants]. split.
    + rewrite Hr, !total_app. unfold total. simpl. lia.
    + apply Forall_app. split; [done|]. by constructor.
  - rewrite Hg in *. apply Forall_app in Hall as [H1 [H2 H3]%Forall_cons].
    assert (0 ≤ s ∧ u = reserved m + (s - size)) as [Hs ->].
    { unfold shrink_to in He. repeat case_match; simplify_eq; bool_prop; lia. }
    cbn [reserved grants]. split.
    + rewrite Hr, !total_app. unfold total. simpl. lia.
    + apply Forall_app. split; [done|]. by constructor.
  - rewrite Hg in *. apply Forall_app in Hall as [H1 [H2 H3]%Forall_cons].
    cbn [reserved grants]. unfold drop_reservation. split.
    + rewrite Hr, !total_app. unfold total. simpl. lia.
    + by apply Forall_app.
Qed.

(** The counter is always the sum of the reservations alive, so it returns to zero with
    the last of them and never underflows. Speculative reservations and growth never take
    it past the budget; only a foreground window may, and then by no more than the floor it
    needs to serve the read that opened it. *)
Theorem read_ahead_budget m :
  star mstep (Build_Memory 0 []) m →
  reserved m = total (grants m) ∧ 0 ≤ reserved m ∧ (grants m = [] → reserved m = 0) ∧
  (∀ want m', exactly m want = Some m' → reserved m' ≤ READ_AHEAD_BUDGET) ∧
  (∀ size want b u s, grow_to (reserved m) size want = (b, u, s) →
     (b = true ↔ want ≤ s) ∧ (u ≤ READ_AHEAD_BUDGET ∨ u = reserved m)) ∧
  (∀ want floor, 0 ≤ want → 0 ≤ floor →
     reserved (up_to m want floor) ≤ Z.max READ_AHEAD_BUDGET (reserved m + Z.min floor want) ∧
     ∃ g, grants (up_to m want floor) = g :: grants m ∧ Z.min floor want ≤ g ≤ want).
Proof.
  intros Hr. assert (Hok : memory_ok m).
  { eapply star_invariant; [|exact Hr|by split]. intros a b. apply mstep_ok. }
  destruct Hok as [Hs Hall]. pose proof (total_nonneg _ Hall). split_and!; [done|lia| | | |].
  - intros Hg. rewrite Hs, Hg. done.
  - intros want m' He. unfold exactly in He. destruct (_ <=? _) eqn:E; [|done]. injection He as <-.
    bool_prop. simpl. lia.
  - intros size want b u s He. unfold grow_to in He. repeat case_match; simplify_eq; bool_prop;
      (split; [split; [intros; lia || done|]|]; try lia); intros; try done; lia.
  - intros want floor Hw Hf. unfold up_to. cbn [reserved grants]. unfold sat_sub. split; [lia|].
    eexists. split; [done|]. lia.
Qed.

Lemma read_ahead_budget_witness :
  let m := up_to (Build_Memory 0 []) 100 10 in
  star mstep (Build_Memory 0 []) m ∧ reserved m = 100 ∧ reserved m = total (grants m).
Proof.
  cbv zeta. assert (Hr : star mstep (Build_Memory 0 []) (up_to (Build_Memory 0 []) 100 10)).
  { eapply star_snoc; [constructor|]. constructor; lia. }
  split; [exact Hr|]. split; [by vm_compute|exact (proj1 (read_ahead_budget _ Hr))].
Defined.

(** ** The download-rate estimate *)

(* lib.rs:561-561 WINDOW_THROUGHPUT *)
Record Estimate := { throughput : Z; throughput_at : Z; since_probe : Z }.
(* lib.rs:567-567 SEGMENT_PROBE_EVERY *)
Definition SEGMENT_PROBE_EVERY : Z := 8.
(* lib.rs:569-569 THROUGHPUT_MAX_AGE *)
Definition THROUGHPUT_MAX_AGE_MS : Z := 60000.
(* lib.rs:573-573 SEGMENT_MIN_THROUGHPUT *)
Definition SEGMENT_MIN_THROUGHPUT : Z := 1024 * 1024.

(** [clock_ms] is [throughput_clock_ms]. *)
(* lib.rs:582-591 record_window_throughput *)
Definition record_window_throughput (e : Estimate) (bytes : Z) (elapsed : Duration) (segments clock_ms : Z) : Estimate :=
  if (segments <? 2) || (bytes <? 1024 * 1024) || (elapsed <? 100 * ms) then e
  else
    let rate := bytes * secs 1 / elapsed in
    Build_Estimate (if throughput e =? 0 then rate else (throughput e * 3 + rate) / 4)
      (Z.max clock_ms 1) (since_probe e).

(* lib.rs:596-602 segments_worthwhile *)
Definition segments_worthwhile (e : Estimate) (clock_ms : Z) : bool * Estimate :=
  let fresh := negb (throughput_at e =? 0) && (sat_sub clock_ms (throughput_at e) <? THROUGHPUT_MAX_AGE_MS) in
  if negb fresh || (SEGMENT_MIN_THROUGHPUT <=? throughput e) then (true, e)
  else (since_probe e mod SEGMENT_PROBE_EVERY =? 0,
        Build_Estimate (throughput e) (throughput_at e) ((since_probe e + 1) mod 2 ^ 64)).
