(* ===== verification/ReadAhead.v ===== *)
(** [lib.rs], reading ahead: how a window is split into segments ([segment_plan]), how bytes
    arriving out of order become the prefix readers see ([StreamState]), and when the next
    window is fetched ([plan_lookahead] and the window hand-over).

    Sizes and offsets are integers; [saturating_add] is written out.  A window's bytes are a
    list, a segment's parked bytes another; buffer capacities have no counterpart. *)
From S2P Require Import Prelude Throttle.
Local Open Scope Z_scope.

(** ** Segments *)

(* lib.rs:780-784 Segment *)
Record Segment := { s_at : Z; s_len : Z; s_last : bool }.

(* lib.rs:787-787 MAX_WINDOW_SEGMENTS *)
Definition MAX_WINDOW_SEGMENTS : Z := 4.
(* lib.rs:790-790 SEGMENT_MIN_BYTES *)
Definition SEGMENT_MIN_BYTES : Z := 4 * 1024 * 1024.
(* lib.rs:793-793 SEGMENT_ALIGN *)
Definition SEGMENT_ALIGN : Z := 64 * 1024.

Definition div_ceil (a b : Z) : Z := (a + b - 1) / b.

(* lib.rs:819-823 segment_plan *)
Fixpoint segment_loop (fuel : nat) (per span at_ : Z) : list Segment :=
  match fuel with
  | O => []
  | S fuel => if at_ <? span
              then let len := Z.min per (span - at_) in
                   {| s_at := at_; s_len := len; s_last := false |} :: segment_loop fuel per span (at_ + len)
              else []
  end.

(** [segs.last_mut()] is marked. *)
Fixpoint mark_last (l : list Segment) : list Segment :=
  match l with
  | [] => []
  | [s] => [{| s_at := s_at s; s_len := s_len s; s_last := true |}]
  | s :: l => s :: mark_last l
  end.

(* lib.rs:807-828 segment_plan *)
Definition segment_plan (target : Z) (span : option Z) (slots need : Z) : list Segment :=
  let single := [{| s_at := 0; s_len := target; s_last := true |}] in
  match (λ s, Z.min s target) <$> span with
  | None => single
  | Some span =>
      let k := Z.min (Z.min slots MAX_WINDOW_SEGMENTS) (span / SEGMENT_MIN_BYTES) in
      if k <? 2 then single
      else
        let per := div_ceil (span / k) SEGMENT_ALIGN * SEGMENT_ALIGN in
        if per <? need then single
        else mark_last (segment_loop (S (Z.to_nat (span / per))) per span 0)
  end.

(** Segments one after the other from [from], only the last marked as reaching the end. *)
Fixpoint consecutive (from to : Z) (l : list Segment) : Prop :=
  match l with
  | [] => False
  | [s] => s_at s = from ∧ 0 < s_len s ∧ from + s_len s = to ∧ s_last s = true
  | s :: l => s_at s = from ∧ 0 < s_len s ∧ s_last s = false ∧ consecutive (from + s_len s) to l
  end.

Lemma mark_last_cons s l : l ≠ [] → mark_last (s :: l) = s :: mark_last l.
Proof. by destruct l. Qed.

Lemma segment_loop_spec fuel per span a :
  0 < per → a < span → span - a ≤ Z.of_nat fuel * per → per mod SEGMENT_ALIGN = 0 → a mod SEGMENT_ALIGN = 0 →
  let l := mark_last (segment_loop fuel per span a) in
  consecutive a span l ∧ Z.of_nat (length l) = div_ceil (span - a) per ∧
  Forall (λ s, s_at s mod SEGMENT_ALIGN = 0 ∧ s_len s ≤ per) l ∧
  (∃ s l', l = s :: l' ∧ s_len s = Z.min per (span - a)).
Proof.
  intros Hp. revert a. induction fuel as [|fuel IH]; intros a Ha Hf Hal Hal2; [lia|].
  cbn [segment_loop]. rewrite (proj2 (Z.ltb_lt _ _)) by done.
  set (len := Z.min per (span - a)).
  destruct (decide (a + len < span)) as [Hlt|Hge].
  - assert (len = per) as Hlen by lia. rewrite Hlen.
    assert (Hal3 : (a + per) mod SEGMENT_ALIGN = 0).
    { rewrite Z.add_mod, Hal, Hal2 by (unfold SEGMENT_ALIGN; lia). done. }
    destruct (IH (a + per)) as (H1 & H2 & H3 & s & l' & H4 & H5); [lia|lia|done|done|].
    assert (HL : segment_loop fuel per span (a + per) ≠ []) by (intros E; by rewrite E in H4).
    rewrite mark_last_cons by done. cbv zeta. rewrite H4 in *. split_and!.
    + cbn [consecutive s_at s_len s_last]. split_and!; [done|lia|done|done].
    + cbn [length] in *. rewrite Nat2Z.inj_succ, H2. unfold div_ceil.
      replace (span - a + per - 1) with ((span - (a + per) + per - 1) + 1 * per) by lia.
      rewrite Z.div_add by lia. lia.
    + constructor; [cbn; lia|done].
    + eexists _, _. split; [done|]. cbn. lia.
  - assert (len = span - a) as Hlen by lia. rewrite Hlen.
    assert (Hnil : segment_loop fuel per span (a + (span - a)) = []).
    { destruct fuel; [done|]. cbn. by rewrite (proj2 (Z.ltb_ge _ _)) by lia. }
    rewrite Hnil. cbv zeta. cbn [mark_last]. split_and!.
    + cbn. split_and!; done || lia.
    + unfold div_ceil. change (Z.of_nat _) with 1. apply (Z.div_unique_pos _ _ _ (span - a - 1)); lia.
    + constructor; [cbn; lia|constructor].
    + eexists _, _. split; [done|]. cbn. lia.
Qed.

Lemma per_bounds q : 0 < q → let per := div_ceil q SEGMENT_ALIGN * SEGMENT_ALIGN in
  q ≤ per < q + SEGMENT_ALIGN ∧ per mod SEGMENT_ALIGN = 0 ∧ (q mod SEGMENT_ALIGN ≠ 0 → q < per).
Proof.
  intros Hq per. unfold per, div_ceil. assert (HA : 0 < SEGMENT_ALIGN) by done.
  pose proof (Z.div_mod (q + SEGMENT_ALIGN - 1) SEGMENT_ALIGN ltac:(lia)).
  pose proof (Z.mod_pos_bound (q + SEGMENT_ALIGN - 1) SEGMENT_ALIGN HA).
  split_and!; [lia|lia|apply Z.mod_mul; lia|].
  intros Hm. destruct (decide (q = (q + SEGMENT_ALIGN - 1) / SEGMENT_ALIGN * SEGMENT_ALIGN)) as [E|]; [|lia].
  exfalso. apply Hm. rewrite E. apply Z.mod_mul. lia.
Qed.

Lemma ceil_count sp n per : 0 < n ≤ per → sp / n ≤ per →
  div_ceil sp per ≤ n + 1 ∧ (sp / n < per → div_ceil sp per ≤ n).
Proof.
  intros Hn Hq. unfold div_ceil. pose proof (Z.div_mod sp n ltac:(lia)) as Hdm.
  pose proof (Z.mod_pos_bound sp n ltac:(lia)) as Hmb. revert Hq Hdm Hmb. generalize (sp / n), (sp mod n).
  intros q r Hq Hdm Hmb. split; [|intros Hlt]; apply Z.lt_succ_r, Z.div_lt_upper_bound; try lia.
  - assert (n * q ≤ n * per) by (apply Z.mul_le_mono_nonneg_l; lia). lia.
  - assert (n * (q + 1) ≤ n * per) by (apply Z.mul_le_mono_nonneg_l; lia). lia.
Qed.

(** The segments [l] of a [target]-byte window of which the file has [span] bytes: they
    follow each other from the window's start, aligned, up to its end or the file's, the
    first holding the [need] bytes waited for (or all there are); [k] bounds their number,
    but for one more when dividing leaves a rest. *)
Definition plan_covers (target : Z) (span : option Z) (need k : Z) (l : list Segment) : Prop :=
  (∃ stop, consecutive 0 stop l ∧
     (stop = target ∨ ∃ s, span = Some s ∧ stop = Z.min s target ∧ (1 < length l)%nat) ∧
     (∃ s l', l = s :: l' ∧ Z.min need stop ≤ s_len s)) ∧
  Forall (λ s, s_at s mod SEGMENT_ALIGN = 0) l ∧
  Z.of_nat (length l) ≤ Z.max 1 (k + 1) ∧
  (∀ s, span = Some s → (Z.min s target / Z.min k (Z.min s target / SEGMENT_MIN_BYTES)) mod SEGMENT_ALIGN ≠ 0 →
     Z.of_nat (length l) ≤ Z.max 1 k).

Lemma single_covers target span need k :
  0 < target → need ≤ target → plan_covers target span need k [{| s_at := 0; s_len := target; s_last := true |}].
Proof.
  intros Ht Hn. split_and!; [|by repeat constructor|cbn; lia|cbn; lia].
  exists target. split_and!; [cbn; split_and!; done || lia|by left|]. eexists _, _. split; [done|]. cbn. lia.
Qed.

(** A window of [sp] file bytes in [n] parts of [per]: at least two, at most one more than [n]. *)
Lemma split_counts sp n per :
  2 ≤ n ≤ MAX_WINDOW_SEGMENTS → n ≤ sp / SEGMENT_MIN_BYTES → sp / n ≤ per < sp / n + SEGMENT_ALIGN →
  2 ≤ div_ceil sp per ≤ n + 1 ∧ (sp / n < per → div_ceil sp per ≤ n).
Proof.
  intros Hn Hq Hp. assert (HM : 0 < SEGMENT_MIN_BYTES) by done.
  pose proof (Z.mul_div_le sp SEGMENT_MIN_BYTES HM) as Hmul.
  assert (Hbig : SEGMENT_MIN_BYTES ≤ sp / n).
  { apply Z.div_le_lower_bound; [lia|]. revert Hmul Hq. generalize (sp / SEGMENT_MIN_BYTES). clear -HM Hn. intros. nia. }
  destruct (ceil_count sp n per) as [H1 H2]; [unfold MAX_WINDOW_SEGMENTS, SEGMENT_MIN_BYTES in *; lia|lia|].
  split; [split; [|done]|done]. unfold div_ceil.
  assert (Htwo : sp / n * 2 ≤ sp) by (pose proof (Z.mul_div_le sp n ltac:(lia)); nia).
  apply Z.div_le_lower_bound; unfold SEGMENT_ALIGN, SEGMENT_MIN_BYTES in *; clear -Hp Hbig Htwo; lia.
Qed.

(** A window's segments cover it exactly: one after the other from its start, none empty,
    none reaching past the end of the file, only the last marked as the one the file may end
    in, every boundary 64 KiB aligned; the first is large enough for the READ that waits for
    it. A split window has at most one segment more than the slots it was planned for: the
    extra one appears only when dividing the window leaves a rest that rounding to 64 KiB
    does not absorb. *)
Theorem segment_plan_covers target span slots need :
  0 < target → (∀ s, span = Some s → 0 < s) → need ≤ target →
  plan_covers target span need (Z.min slots MAX_WINDOW_SEGMENTS) (segment_plan target span slots need).
Proof.
  intros Ht Hsp Hneed. unfold segment_plan. set (k := Z.min slots MAX_WINDOW_SEGMENTS).
  destruct span as [s|]; [|by apply single_covers]. cbn [fmap option_fmap option_map].
  specialize (Hsp s eq_refl). set (sp := Z.min s target). assert (Hs : 0 < sp) by (unfold sp; lia).
  set (n := Z.min k (sp / SEGMENT_MIN_BYTES)).
  destruct (n <? 2) eqn:En; [by apply single_covers|]. bool_prop.
  assert (Hn : 2 ≤ n ≤ MAX_WINDOW_SEGMENTS ∧ n ≤ sp / SEGMENT_MIN_BYTES) by (unfold n, k; lia).
  assert (Hq : 0 < sp / n).
  { apply Z.div_str_pos. pose proof (Z.mul_div_le sp SEGMENT_MIN_BYTES ltac:(done)). unfold SEGMENT_MIN_BYTES in *. lia. }
  destruct (per_bounds (sp / n) Hq) as (P1 & P2 & P3). set (per := div_ceil (sp / n) SEGMENT_ALIGN * SEGMENT_ALIGN) in *.
  destruct (per <? need) eqn:Ep; [by apply single_covers|]. bool_prop.
  assert (Hfuel : sp - 0 ≤ Z.of_nat (S (Z.to_nat (sp / per))) * per).
  { pose proof (Z.div_mod sp per ltac:(lia)). pose proof (Z.mod_pos_bound sp per ltac:(lia)).
    pose proof (Z.div_pos sp per ltac:(lia) ltac:(lia)). nia. }
  destruct (segment_loop_spec _ per sp 0 ltac:(lia) Hs Hfuel P2 eq_refl) as (L1 & L2 & L3 & s0 & l' & L4 & L5).
  rewrite Z.sub_0_r in L2, L5. set (pl := mark_last _) in *.
  destruct (split_counts sp n per) as [Hc1 Hc2]; [lia|lia|done|]. rewrite <- L2 in Hc1, Hc2. split_and!.
  - exists sp. split_and!; [done|right; exists s; split_and!; done || lia|]. exists s0, l'. split; [done|]. lia.
  - eapply Forall_impl; [exact L3|]. by intros ? [? _].
  - lia.
  - intros s' [= <-] Hm. specialize (Hc2 (P3 Hm)). lia.
Qed.

Lemma segment_plan_covers_witness :
  let l := segment_plan (64 * 1024 * 1024) (Some (20 * 1024 * 1024 + 5)) 4 (128 * 1024) in
  Z.of_nat (length l) = 4 ∧ (∃ stop, consecutive 0 stop l).
Proof.
  destruct (segment_plan_covers (64 * 1024 * 1024) (Some (20 * 1024 * 1024 + 5)) 4 (128 * 1024))
    as ((stop & Hc & _) & _ & _ & _); [lia|by intros s [= <-]|lia|].
  split; [vm_compute; reflexivity|by exists stop].
Defined.

(** ** Opening a window *)

(** [free] is how many further slots and segment-thread tokens could be taken just now,
    [grow_ok] the answer of [BufferReservation::grow_to].  The result: how many extra slots
    are kept, and the segments. *)
(* lib.rs:10028-10052 open_window *)
Definition open_plan (target : Z) (span : option Z) (worthwhile : bool) (need : Z) (free : nat)
    (grow_ok : Z → bool) : nat * list Segment :=
  let max_segments := if worthwhile then MAX_WINDOW_SEGMENTS else 1 in
  let most := length (segment_plan target span max_segments need) in
  let extras := Nat.min free (most - 1) in
  let plan := segment_plan target span (1 + Z.of_nat extras) need in
  let plan :=
    if (1 <? length plan)%nat then
      let window := foldr Z.add 0 (s_len <$> plan) in
      let peak := window + foldr Z.max 0 (s_len <$> plan) in
      if grow_ok peak then plan else segment_plan target span 1 need
    else plan in
  (Nat.min extras (length plan - 1), plan).

(** A response that is not a 206, or states another file size, drops the fan-out. *)
(* lib.rs:10061-10069 open_window *)
Definition settle_plan (partial : bool) (total : option Z) (file_size : Z) (p : nat * list Segment)
    : nat * list Segment :=
  let '(extras, plan) := p in
  if (1 <? length plan)%nat && (negb partial || negb (bool_decide (total = Some file_size))) then
    (O, match plan with
        | s :: _ => [{| s_at := s_at s; s_len := s_len s; s_last := true |}]
        | [] => []
        end)
  else (extras, plan).

(** [segment_plan] can make one segment more than it was given slots, and then nothing
    fetches the window's last segment: [WindowPump::run] pairs the extra slots with the
    segments after the first and drops the rest. *)
Lemma open_plan_leaves_segment :
  let '(extras, plan) := open_plan (64 * 1024 * 1024) (Some (16 * 1024 * 1024 + 1)) true 0 1 (λ _, true) in
  extras = 1%nat ∧ length plan = 3%nat ∧ s_len <$> last plan = Some 1.
Proof. vm_compute. done. Qed.

(** ** The ramp of window sizes *)

(* lib.rs:1152-1152 READ_AHEAD_INITIAL *)
Definition READ_AHEAD_INITIAL : Z := 1024 * 1024.
(* lib.rs:1156-1156 READ_AHEAD_SEQUENTIAL_START *)
Definition READ_AHEAD_SEQUENTIAL_START : Z := 8 * 1024 * 1024.
(* lib.rs:1159-1159 SEQUENTIAL_START_MIN_FILE *)
Definition SEQUENTIAL_START_MIN_FILE : Z := 32 * 1024 * 1024.
(* lib.rs:909-909 PREV_WINDOW_KEEP *)
Definition PREV_WINDOW_KEEP : Z := 4 * 1024 * 1024.
(* lib.rs:930-930 HANDLE_IDLE *)
Definition HANDLE_IDLE : Duration := secs 10.

(* lib.rs:835-841 next_read_ahead_window *)
Definition next_read_ahead_window (current : Z) (sequential : bool) (ceiling : Z) : Z :=
  if sequential then Z.min (Z.min (Z.max current READ_AHEAD_INITIAL * 2) u64_max) ceiling
  else Z.min READ_AHEAD_INITIAL ceiling.

(* lib.rs:846-853 lookahead_due *)
Definition lookahead_due (win_start win_len off sz : Z) (sequential : bool) (file_size : Z) : bool :=
  let win_end := sat_add win_start win_len in
  sequential && (0 <? file_size) && (win_end <? file_size) && (win_start <=? off) &&
  (sat_add win_start (win_len / 2) <=? sat_add off sz).

(* lib.rs:976-979 streaming_jump *)
Definition streaming_jump (current window_start : Z) (sequential : bool) (file_size ceiling : Z) : option Z :=
  if sequential && (window_start =? 0) && (current <=? READ_AHEAD_INITIAL) && (SEQUENTIAL_START_MIN_FILE <=? file_size)
  then Some (Z.min READ_AHEAD_SEQUENTIAL_START ceiling) else None.

(* lib.rs:995-997 short_reply_ok *)
Definition short_reply_ok (off avail sz file_size : Z) : bool :=
  (sz <=? avail) || ((0 <? file_size) && (file_size <=? sat_add off avail)).

(** ** A handle's windows *)

(** The stream is an [Arc]: two windows share it exactly when they are the same window. *)
(* lib.rs:1161-1165 ReadAheadBuf *)
Record ReadAheadBuf := { start : Z; stream : nat; target_len : Z }.

(** The read-ahead fields of [OpenFile]. *)
(* lib.rs:1575-1589 OpenFile *)
Record Windows := {
  read_ahead_window : Z;
  buf : option ReadAheadBuf;
  next_buf : option ReadAheadBuf;
  prev_buf : option ReadAheadBuf;
  last_read : Instant;
  lookahead_inflight : bool;
}.

(* lib.rs:856-865 LookaheadPlan *)
Record LookaheadPlan := { after : nat; la_start : Z; la_len : Z }.

(** [off >= b.start && off < b.start + b.target_len] *)
Definition covers (off : Z) (b : ReadAheadBuf) : bool := (start b <=? off) && (off <? start b + target_len b).
Definition opt_covers (off : Z) (b : option ReadAheadBuf) : bool := default false (covers off <$> b).

(* lib.rs:870-889 plan_lookahead *)
Definition plan_lookahead (m : Memory) (o : Windows) (off sz : Z) (sequential : bool) (file_size ceiling : Z)
    : option LookaheadPlan * Windows * Memory :=
  if lookahead_inflight o || bool_decide (is_Some (next_buf o)) then (None, o, m)
  else
    match buf o with
    | None => (None, o, m)
    | Some ra =>
        if negb (lookahead_due (start ra) (target_len ra) off sz sequential file_size) then (None, o, m)
        else
          let st := start ra + target_len ra in
          let window := default (next_read_ahead_window (read_ahead_window o) true ceiling)
                          (streaming_jump (read_ahead_window o) (start ra) true file_size ceiling) in
          let len := Z.min window (file_size - st) in
          match exactly m len with
          | None => (None, o, m)
          | Some m' =>
              (Some {| after := stream ra; la_start := st; la_len := len |},
               {| read_ahead_window := window; buf := buf o; next_buf := next_buf o; prev_buf := prev_buf o;
                  last_read := last_read o; lookahead_inflight := true |}, m')
          end
    end.

Definition set_windows (o : Windows) (b n p : option ReadAheadBuf) : Windows :=
  {| read_ahead_window := read_ahead_window o; buf := b; next_buf := n; prev_buf := p;
     last_read := last_read o; lookahead_inflight := lookahead_inflight o |}.
Definition set_inflight (o : Windows) (b : bool) : Windows :=
  {| read_ahead_window := read_ahead_window o; buf := buf o; next_buf := next_buf o; prev_buf := prev_buf o;
     last_read := last_read o; lookahead_inflight := b |}.

(* lib.rs:893-904 promote_lookahead *)
Definition promote_lookahead (o : Windows) (off : Z) : Windows :=
  if opt_covers off (buf o) then o
  else if opt_covers off (next_buf o) then set_windows o (next_buf o) None (buf o)
  else o.

(** [st] gives a window's [done] and [waiters], read under its lock. *)
(* lib.rs:915-927 retire_prev_window *)
Definition retire_prev_window (st : nat → bool * Z) (o : Windows) (off : Z) : Windows :=
  match prev_buf o, buf o with
  | Some prev, Some b =>
      if (off <? start b) || (start b + target_len b <=? off) then o
      else
        let '(fin, waiters) := st (stream prev) in
        if fin || ((waiters =? 0) && (start b + PREV_WINDOW_KEEP <=? off))
        then set_windows o (buf o) (next_buf o) None else o
  | _, _ => o
  end.

(* lib.rs:951-956 release_idle_windows *)
Definition release_idle (now : Instant) (o : Windows) : Windows :=
  if (HANDLE_IDLE <=? sat_sub now (last_read o)) && (bool_decide (is_Some (next_buf o)) || bool_decide (is_Some (prev_buf o)))
  then set_windows o (buf o) None None else o.

(** [last] is [LAST_SWEEP_MS]; the sweep that wins the exchange runs it. *)
(* lib.rs:938-958 release_idle_windows *)
Definition release_idle_windows (m : Memory) (now_ms last : Z) (now : Instant) (ofs : gmap Z Windows) : gmap Z Windows * Z :=
  if reserved m <? READ_AHEAD_BUDGET / 2 then (ofs, last)
  else if sat_sub now_ms last <? 1000 then (ofs, last)
  else (release_idle now <$> ofs, now_ms).

(** The foreground fetch's ramp, and its window once the READ was answered. *)
(* lib.rs:7875-7883 read *)
Definition fetch_ramp (o : Windows) (sequential : bool) (file_size ceiling : Z) : Windows :=
  let jump := b ← buf o; streaming_jump (read_ahead_window o) (start b) sequential file_size ceiling in
  {| read_ahead_window := default (next_read_ahead_window (read_ahead_window o) sequential ceiling) jump;
     buf := buf o; next_buf := next_buf o; prev_buf := prev_buf o;
     last_read := last_read o; lookahead_inflight := lookahead_inflight o |}.
(* lib.rs:7993-8004 read *)
Definition install_fetch (o : Windows) (off : Z) (shared : nat) (target : Z) : Windows :=
  set_windows o (Some {| start := off; stream := shared; target_len := target |}) None None.

(** The look-ahead job's window: installed only while its reader is still where it was. *)
(* lib.rs:10607-10623 run_lookahead *)
Definition install_lookahead (o : Windows) (p : LookaheadPlan) (shared : nat) (target : Z) : option Windows :=
  if negb (bool_decide (is_Some (next_buf o))) && default false ((λ b, (stream b =? after p)%nat) <$> buf o)
  then Some (set_windows o (buf o) (Some {| start := la_start p; stream := shared; target_len := target |}) (prev_buf o))
  else None.

(** *** The handle and its look-ahead jobs as a state machine *)

(** A handle, its look-ahead jobs, the mount's read-ahead memory; [made] are the windows made
    so far, newest first: the next stream is number [length made]. *)
Record Handle := { windows : Windows; jobs : list LookaheadPlan; memory : Memory; made : list ReadAheadBuf }.

Definition new_handle (m : Memory) (now : Instant) : Handle :=
  {| windows := {| read_ahead_window := READ_AHEAD_INITIAL; buf := None; next_buf := None; prev_buf := None;
                   last_read := now; lookahead_inflight := false |};
     jobs := []; memory := m; made := [] |}.

Inductive hstep : Handle → Handle → Prop :=
(** A READ arrives: promote, then let the previous window go. *)
| h_land st off h :
    hstep h {| windows := retire_prev_window st (promote_lookahead (windows h) off) off;
               jobs := jobs h; memory := memory h; made := made h |}
(** A READ served from a window, or waiting in one, may plan a look-ahead; its job is queued. *)
| h_plan off sz sequential file_size ceiling h p o' m' :
    plan_lookahead (memory h) (windows h) off sz sequential file_size ceiling = (p, o', m') →
    hstep h {| windows := o'; jobs := option_list p ++ jobs h; memory := m'; made := made h |}
| h_ramp sequential file_size ceiling h :
    hstep h {| windows := fetch_ramp (windows h) sequential file_size ceiling;
               jobs := jobs h; memory := memory h; made := made h |}
(** A foreground fetch was answered: its window replaces the current one. *)
| h_fetch off target h :
    hstep h {| windows := install_fetch (windows h) off (length (made h)) target; jobs := jobs h; memory := memory h;
               made := {| start := off; stream := length (made h); target_len := target |} :: made h |}
(** A job's window opened and is still wanted. *)
| h_install p target h o' :
    p ∈ jobs h → install_lookahead (windows h) p (length (made h)) target = Some o' →
    hstep h {| windows := o'; jobs := jobs h; memory := memory h;
               made := {| start := la_start p; stream := length (made h); target_len := target |} :: made h |}
(** A job ends, however it ends, or was refused by the pool. *)
| h_end p h l1 l2 :
    jobs h = l1 ++ p :: l2 →
    hstep h {| windows := set_inflight (windows h) false; jobs := l1 ++ l2; memory := memory h; made := made h |}
| h_idle now h :
    hstep h {| windows := release_idle now (windows h); jobs := jobs h; memory := memory h; made := made h |}
(** Reservations of other handles come and go. *)
| h_memory m h : hstep h {| windows := windows h; jobs := jobs h; memory := m; made := made h |}.

Definition adjacent (a b : ReadAheadBuf) : Prop := start b = start a + target_len a.
Definition contiguous (o : Windows) : Prop :=
  (∀ n, next_buf o = Some n → ∃ b, buf o = Some b ∧ adjacent b n) ∧
  (∀ p, prev_buf o = Some p → ∃ b, buf o = Some b ∧ adjacent p b).

(** The newest window's stream is the highest: streams number the windows. *)
Fixpoint numbered (l : list ReadAheadBuf) : Prop :=
  match l with [] => True | b :: l => stream b = length l ∧ numbered l end.

Lemma numbered_lt l b : numbered l → b ∈ l → (stream b < length l)%nat.
Proof.
  induction l as [|a l IH]; [by intros _ ?%elem_of_nil|]. intros [Ha Hl] [->|Hb]%elem_of_cons; cbn [length]; [lia|].
  specialize (IH Hl Hb). lia.
Qed.
Lemma numbered_inj l a b : numbered l → a ∈ l → b ∈ l → stream a = stream b → a = b.
Proof.
  induction l as [|x l IH]; [by intros _ ?%elem_of_nil|].
  intros [Hx Hl] [->|Ha]%elem_of_cons [->|Hb]%elem_of_cons E; [done| | |by apply IH].
  - apply (numbered_lt _ _ Hl) in Hb. lia.
  - apply (numbered_lt _ _ Hl) in Ha. lia.
Qed.

Definition handle_ok (h : Handle) : Prop :=
  contiguous (windows h) ∧ numbered (made h) ∧
  (∀ b, buf (windows h) = Some b ∨ next_buf (windows h) = Some b → b ∈ made h) ∧
  (∀ p, p ∈ jobs h → ∃ b, b ∈ made h ∧ stream b = after p ∧ la_start p = start b + target_len b) ∧
  (length (jobs h) ≤ 1)%nat ∧ (lookahead_inflight (windows h) = true ↔ jobs h ≠ []).

Lemma promote_ok o off :
  contiguous o → let o' := promote_lookahead o off in
  contiguous o' ∧ (∀ b, buf o' = Some b ∨ next_buf o' = Some b → buf o = Some b ∨ next_buf o = Some b) ∧
  lookahead_inflight o' = lookahead_inflight o.
Proof.
  intros [Hn Hp]. unfold promote_lookahead. cbv zeta. destruct (opt_covers off (buf o)); [by split_and!|].
  destruct (opt_covers off (next_buf o)) eqn:E; [|by split_and!].
  destruct (next_buf o) as [n|] eqn:En; [|done]. destruct (Hn n eq_refl) as (b & Hb & Hadj).
  split_and!; [split; cbn; [done|]|cbn; intros b'; naive_solver|done].
  intros p Hp'. rewrite Hb in Hp'. injection Hp' as <-. eauto.
Qed.

(** Dropping the look-ahead and previous window keeps everything else. *)
Lemma set_windows_ok o n p :
  contiguous o → (n = next_buf o ∨ n = None) → (p = prev_buf o ∨ p = None) → contiguous (set_windows o (buf o) n p).
Proof. intros [Hn Hp] [->| ->] [->| ->]; split; cbn; by auto. Qed.

Lemma retire_ok st o off : contiguous o → let o' := retire_prev_window st o off in
  contiguous o' ∧ (∀ b, buf o' = Some b ∨ next_buf o' = Some b → buf o = Some b ∨ next_buf o = Some b) ∧
  lookahead_inflight o' = lookahead_inflight o.
Proof.
  intros Hc. unfold retire_prev_window. cbv zeta.
  assert (Hs : contiguous (set_windows o (buf o) (next_buf o) None)) by (apply set_windows_ok; auto).
  destruct (prev_buf o); [|done]. destruct (buf o) eqn:Eb; [|by rewrite <- Eb].
  repeat case_goal; split_and!; try done; by rewrite <- ?Eb.
Qed.

Lemma plan_lookahead_shape m o off sz s fs c p o' m' :
  plan_lookahead m o off sz s fs c = (p, o', m') →
  (p = None ∧ o' = o ∧ m' = m) ∨
  (∃ ra len, lookahead_inflight o = false ∧ next_buf o = None ∧ buf o = Some ra ∧
     lookahead_due (start ra) (target_len ra) off sz s fs = true ∧ exactly m len = Some m' ∧
     len = Z.min (read_ahead_window o') (fs - (start ra + target_len ra)) ∧
     p = Some {| after := stream ra; la_start := start ra + target_len ra; la_len := len |} ∧
     buf o' = buf o ∧ next_buf o' = next_buf o ∧ prev_buf o' = prev_buf o ∧ last_read o' = last_read o ∧
     lookahead_inflight o' = true ∧
     read_ahead_window o' = default (next_read_ahead_window (read_ahead_window o) true c)
                              (streaming_jump (read_ahead_window o) (start ra) true fs c)).
Proof.
  unfold plan_lookahead. destruct (lookahead_inflight o) eqn:Ei; cbn [orb]; [intros [= <- <- <-]; by left|].
  case_bool_decide as Hn; [intros [= <- <- <-]; by left|]. destruct (buf o) as [ra|] eqn:Eb; [|intros [= <- <- <-]; by left].
  destruct (lookahead_due _ _ _ _ _ _) eqn:Ed; cbn [negb]; [|intros [= <- <- <-]; by left].
  destruct (exactly _ _) eqn:Ee; intros [= <- <- <-]; [right|by left].
  eexists ra, _. split_and!; try done. by apply eq_None_not_Some.
Qed.

Lemma promote_buf_in o off b : buf (promote_lookahead o off) = Some b → buf o = Some b ∨ next_buf o = Some b.
Proof. unfold promote_lookahead. repeat case_goal; cbn; auto. Qed.

Lemma hstep_ok h h' : handle_ok h → hstep h h' → handle_ok h'.
Proof.
  intros (Hc & Hnum & Hmade & Hjobs & Hone & Hinf) Hs. destruct Hs; cbn [windows jobs memory made].
  - destruct (promote_ok _ off Hc) as (H1 & H2 & H3). destruct (retire_ok st _ off H1) as (H4 & H5 & H6).
    split_and!; try done; cbn [windows jobs made]; [naive_solver|by rewrite H6, H3].
  - destruct (plan_lookahead_shape _ _ _ _ _ _ _ _ _ _ H) as [(-> & -> & ->)|Hp]; [done|].
    destruct Hp as (ra & len & Hi & Hn & Hb & _ & _ & _ & -> & E1 & E2 & E3 & E4 & E5 & _).
    assert (Hnil : jobs h = []) by (destruct (jobs h); [done|]; rewrite Hi in Hinf; naive_solver).
    split_and!; cbn [windows jobs made option_list]; rewrite ?Hnil; try done.
    + destruct Hc as [C1 C2]. split; rewrite ?E1, ?E2, ?E3; [apply C1|apply C2].
    + rewrite E1, E2. done.
    + cbn [app]. intros p [->|[]%elem_of_nil]%elem_of_cons. exists ra. split_and!; [apply Hmade; by left|done|done].
  - by split_and!.
  - split_and!; cbn [windows jobs made install_fetch set_windows lookahead_inflight]; try done.
    + intros b [Hb|Hb]; [|done]. injection Hb as <-. left.
    + intros p Hp. destruct (Hjobs p Hp) as (b & ? & ? & ?). exists b. split_and!; [by right|done|done].
  - unfold install_lookahead in H0. case_bool_decide as Hn; [done|]. cbn [negb andb] in H0.
    destruct (buf (windows h)) as [b|] eqn:Eb; cbn in H0; [|done].
    destruct (_ =? _)%nat eqn:Es; [|done]. injection H0 as <-. bool_prop.
    destruct (Hjobs p H) as (b0 & Hb0 & Hst & Hla).
    assert (b = b0) as -> by (apply (numbered_inj (made h)); [done|apply Hmade; by left|done|congruence]).
    split_and!; cbn [windows jobs made set_windows lookahead_inflight]; try done.
    + split; cbn; [intros n [= <-]; exists b0; by split|]. rewrite <- Eb. apply Hc.
    + intros b' [Hb'|Hb']; cbn in Hb'; [right; apply Hmade; left; congruence|injection Hb' as <-; left].
    + intros p' Hp. destruct (Hjobs p' Hp) as (b & ? & ? & ?). exists b. split_and!; [by right|done|done].
  - assert (l1 = [] ∧ l2 = []) as [-> ->].
    { rewrite H, length_app in Hone. cbn in Hone. by destruct l1, l2; cbn in *; try lia. }
    split_and!; cbn; try done; [intros p' []%elem_of_nil|lia].
  - unfold release_idle. destruct (_ && _); [|by split_and!].
    split_and!; cbn; try done. intros b [Hb|]; [|done]. apply Hmade. by left.
  - by split_and!.
Qed.

Lemma rtc_handle_ok h h' : handle_ok h → rtc hstep h h' → handle_ok h'.
Proof. intros Hok Hr. induction Hr; eauto using hstep_ok. Qed.

(** However reads, fetches, look-ahead jobs, their failures and memory pressure interleave on
    a handle, its windows are adjacent pieces of the file: the previous one ends where the
    current one starts and the look-ahead starts where the current one ends, so a read that
    straddles two of them can be stitched; and at most one look-ahead job exists, exactly
    while [lookahead_inflight] is set. *)
Theorem windows_contiguous m now h :
  rtc hstep (new_handle m now) h →
  contiguous (windows h) ∧ (length (jobs h) ≤ 1)%nat ∧ (lookahead_inflight (windows h) = true ↔ jobs h ≠ []) ∧
  (∀ off, let o := promote_lookahead (windows h) off in
     (opt_covers off (buf (windows h)) || opt_covers off (next_buf (windows h))) = true → opt_covers off (buf o) = true).
Proof.
  intros Hr. assert (handle_ok h) as (Hc & _ & _ & _ & H1 & H2).
  { eapply rtc_handle_ok; [|done]. split_and!; cbn; try done; [naive_solver|intros p []%elem_of_nil|lia]. }
  split_and!; try done; try apply Hc; try apply H2. intros off o Hcov. unfold o, promote_lookahead.
  destruct (opt_covers off (buf (windows h))) eqn:E; [done|]. cbn [orb] in Hcov. by rewrite Hcov.
Qed.

Lemma windows_contiguous_witness :
  let m := Build_Memory 0 [] in let h0 := new_handle m 0 in
  ∃ h, rtc hstep h0 h ∧ contiguous (windows h) ∧ is_Some (prev_buf (windows h)) ∧ is_Some (buf (windows h)).
Proof.
  set (st := λ _ : nat, (false, 1)).
  set (h1 := {| windows := install_fetch (windows (new_handle (Build_Memory 0 []) 0)) 0 0 READ_AHEAD_INITIAL; jobs := [];
                memory := Build_Memory 0 []; made := [{| start := 0; stream := 0; target_len := READ_AHEAD_INITIAL |}] |}).
  set (pl := plan_lookahead (memory h1) (windows h1) (600 * 1024) (128 * 1024) true (200 * 1024 * 1024) (64 * 1024 * 1024)).
  set (la := {| after := 0; la_start := READ_AHEAD_INITIAL; la_len := READ_AHEAD_SEQUENTIAL_START |}).
  set (h2 := {| windows := pl.1.2; jobs := [la]; memory := pl.2; made := made h1 |}).
  set (h3 := {| windows := default (windows h2) (install_lookahead (windows h2) la 1 READ_AHEAD_SEQUENTIAL_START); jobs := [la];
                memory := pl.2; made := {| start := READ_AHEAD_INITIAL; stream := 1; target_len := READ_AHEAD_SEQUENTIAL_START |} :: made h1 |}).
  set (h4 := {| windows := retire_prev_window st (promote_lookahead (windows h3) READ_AHEAD_INITIAL) READ_AHEAD_INITIAL; jobs := jobs h3;
                memory := memory h3; made := made h3 |}).
  assert (Hr : rtc hstep (new_handle (Build_Memory 0 []) 0) h4).
  { eapply rtc_l; [apply (h_fetch 0 READ_AHEAD_INITIAL)|]. eapply (rtc_l _ h1 h2).
    { apply (h_plan (600 * 1024) (128 * 1024) true (200 * 1024 * 1024) (64 * 1024 * 1024) h1 (Some la)). vm_compute. reflexivity. }
    eapply (rtc_l _ h2 h3); [|eapply rtc_l; [apply (h_land st READ_AHEAD_INITIAL)|apply rtc_refl]].
    apply (h_install la READ_AHEAD_SEQUENTIAL_START h2); [left|vm_compute; reflexivity]. }
  exists h4. split; [exact Hr|]. split; [apply (windows_contiguous _ _ _ Hr)|]. vm_compute. eauto.
Defined.

(** A look-ahead is planned only for a sequential reader in the second half of its window,
    only when none is in flight or waiting and the whole of its memory fits the budget; it
    starts where the window ends, asks for at least one byte and never past the end of the
    file, and carries on the ramp: 8 MiB after the opening window of a large file, else
    twice the last window up to the ceiling. Otherwise nothing changes. *)
Theorem plan_lookahead_spec m o off sz s fs c :
  READ_AHEAD_INITIAL ≤ c ≤ u64_max → fs ≤ u64_max → (∀ ra, buf o = Some ra → 0 ≤ target_len ra) →
  let r := plan_lookahead m o off sz s fs c in
  match r.1.1 with
  | None => r.1.2 = o ∧ r.2 = m
  | Some p =>
      lookahead_inflight o = false ∧ next_buf o = None ∧ s = true ∧
      (∃ ra, buf o = Some ra ∧ after p = stream ra ∧ la_start p = start ra + target_len ra ∧
         start ra ≤ off ∧ start ra + target_len ra / 2 ≤ off + sz ∧
         read_ahead_window r.1.2 =
           (if (start ra =? 0) && (read_ahead_window o <=? READ_AHEAD_INITIAL) && (SEQUENTIAL_START_MIN_FILE <=? fs)
            then Z.min READ_AHEAD_SEQUENTIAL_START c
            else Z.min (2 * Z.max (read_ahead_window o) READ_AHEAD_INITIAL) c)) ∧
      0 < la_len p ∧ la_start p + la_len p ≤ fs ∧ la_len p ≤ c ∧
      reserved (snd r) = reserved m + la_len p ∧ reserved (snd r) ≤ READ_AHEAD_BUDGET ∧
      lookahead_inflight r.1.2 = true
  end.
Proof.
  intros Hc Hfs Hlen r. unfold r. clear r. destruct (plan_lookahead m o off sz s fs c) as [[p o'] m'] eqn:E.
  destruct (plan_lookahead_shape _ _ _ _ _ _ _ _ _ _ E) as [(-> & -> & ->)|Hp]; [done|].
  destruct Hp as (ra & len & Hi & Hn & Hb & Hdue & Hex & Hl & -> & _ & _ & _ & _ & Hin & Hw). cbn [fst snd].
  unfold lookahead_due, sat_add in Hdue. bool_prop. specialize (Hlen ra Hb).
  assert (Hend : start ra + target_len ra < fs) by lia.
  assert (Hhalf : target_len ra / 2 ≤ target_len ra) by (apply Z.div_le_upper_bound; lia).
  assert (Hwin : read_ahead_window o' =
    (if (start ra =? 0) && (read_ahead_window o <=? READ_AHEAD_INITIAL) && (SEQUENTIAL_START_MIN_FILE <=? fs)
     then Z.min READ_AHEAD_SEQUENTIAL_START c else Z.min (2 * Z.max (read_ahead_window o) READ_AHEAD_INITIAL) c)).
  { rewrite Hw. unfold streaming_jump, next_read_ahead_window. cbn [andb]. destruct (_ && _); cbn [default]; [done|].
    unfold u64_max in *. generalize (2 ^ 64) Hc. intros. lia. }
  assert (Hpos : 0 < read_ahead_window o' ≤ c).
  { rewrite Hwin. unfold READ_AHEAD_SEQUENTIAL_START, READ_AHEAD_INITIAL in *. destruct (_ && _); lia. }
  unfold exactly in Hex. destruct (_ <=? _) eqn:Er in Hex; [|done]. injection Hex as <-. bool_prop.
  cbn [la_len la_start after reserved]. split_and!; try done; try lia.
  exists ra. split_and!; try done; lia.
Qed.

Lemma plan_lookahead_spec_witness :
  let o := {| read_ahead_window := READ_AHEAD_INITIAL; buf := Some {| start := 0; stream := 7; target_len := READ_AHEAD_INITIAL |};
              next_buf := None; prev_buf := None; last_read := 0; lookahead_inflight := false |} in
  let r := plan_lookahead (Build_Memory 0 []) o (600 * 1024) (128 * 1024) true (200 * 1024 * 1024) (64 * 1024 * 1024) in
  ∃ p, r.1.1 = Some p ∧ la_start p + la_len p ≤ 200 * 1024 * 1024 ∧ la_len p = READ_AHEAD_SEQUENTIAL_START.
Proof.
  pose proof (plan_lookahead_spec (Build_Memory 0 [])
    {| read_ahead_window := READ_AHEAD_INITIAL; buf := Some {| start := 0; stream := 7; target_len := READ_AHEAD_INITIAL |};
       next_buf := None; prev_buf := None; last_read := 0; lookahead_inflight := false |}
    (600 * 1024) (128 * 1024) true (200 * 1024 * 1024) (64 * 1024 * 1024)) as H.
  cbv zeta. destruct (plan_lookahead _ _ _ _ _ _ _) as [[p o'] m'] eqn:E; vm_compute in E; injection E as <- <- <-.
  eexists. split; [reflexivity|]. split; [|reflexivity].
  apply H; [unfold READ_AHEAD_INITIAL, u64_max; lia|unfold u64_max; lia|by intros ra [= <-]].
Defined.
