(* ===== verification/Window.v ===== *)
(** [lib.rs], one read-ahead window: the bytes readers see ([StreamState]), the threads that
    fill it ([WindowPump]), and the answers READs get out of it ([wait_on_window] and the
    synchronous part of [read]).

    Offsets inside a window and in the file are [nat] here, being list positions; sizes from
    the dir cache stay [Z], as in [ReadAhead]. A body is a sequence of reads whose outcomes
    are inputs; the clock's readings are inputs too. *)
From S2P Require Import Prelude ReadAhead.
Local Open Scope nat_scope.

Abbreviation byte := Byte.byte.

(** [slice F a n]: [n] bytes of [F] from [a], fewer at its end. *)
Definition slice (F : list byte) (a n : nat) : list byte := take n (drop a F).

(** ** The bytes of a window *)

(* lib.rs:702-706 SegmentBuf *)
Record SegmentBuf := { sb_at : nat; sb_buf : list byte }.

(* lib.rs:671-699 StreamState *)
Record StreamState := {
  data : list byte;
  ss_done : bool;
  ahead : list SegmentBuf;
  broken : bool;
  stopped : bool;
  eof_len : option nat;
  waiters : nat;
  progress_mark : Instant * nat;
}.

Definition set_bytes (ss : StreamState) (d : list byte) (a : list SegmentBuf) : StreamState :=
  {| data := d; ss_done := ss_done ss; ahead := a; broken := broken ss; stopped := stopped ss;
     eof_len := eof_len ss; waiters := waiters ss; progress_mark := progress_mark ss |}.
Definition set_flags (ss : StreamState) (d b s : bool) (e : option nat) : StreamState :=
  {| data := data ss; ss_done := d; ahead := ahead ss; broken := b; stopped := s;
     eof_len := e; waiters := waiters ss; progress_mark := progress_mark ss |}.

(* lib.rs:712-726 StreamState::new *)
Definition new_stream (first : list byte) (plan : list Segment) (now : Instant) : StreamState :=
  {| data := first; ss_done := false; ahead := (λ _, {| sb_at := 0; sb_buf := [] |}) <$> plan;
     broken := false; stopped := false; eof_len := None; waiters := 0; progress_mark := (now, 0) |}.

(* lib.rs:729-731 StreamState::halted *)
Definition halted (ss : StreamState) : bool := broken ss || stopped ss.

(* lib.rs:734-736 StreamState::at_eof *)
Definition at_eof (ss : StreamState) : bool := bool_decide (eof_len ss = Some (length (data ss))).

(** A parked segment that starts where the prefix ends. *)
Abbreviation parked_at e := (λ sb, sb_buf sb ≠ [] ∧ sb_at sb = e).

(** The loop ends once no parked segment fits; each turn empties one. *)
(* lib.rs:759-769 StreamState::absorb *)
Fixpoint absorb_loop (fuel : nat) (ss : StreamState) : option StreamState :=
  match fuel with
  | O => None
  | S fuel =>
      match list_find (parked_at (length (data ss))) (ahead ss) with
      | None => Some ss
      | Some (i, sb) =>
          absorb_loop fuel (set_bytes ss (data ss ++ sb_buf sb)
            (<[i := {| sb_at := sb_at sb + length (sb_buf sb); sb_buf := [] |}]> (ahead ss)))
      end
  end.
Definition absorb (ss : StreamState) : option StreamState := absorb_loop (S (length (ahead ss))) ss.

(** [None]: the segment index is out of range, a panic. *)
(* lib.rs:740-755 StreamState::push *)
Definition push (ss : StreamState) (seg at_ : nat) (bytes : list byte) : option StreamState :=
  match ahead ss !! seg with
  | None => None
  | Some sb =>
      if bool_decide (sb_buf sb = []) && (at_ =? length (data ss))
      then absorb (set_bytes ss (data ss ++ bytes) (ahead ss))
      else
        let sb' := {| sb_at := if bool_decide (sb_buf sb = []) then at_ else sb_at sb; sb_buf := sb_buf sb ++ bytes |} in
        Some (set_bytes ss (data ss) (<[seg := sb']> (ahead ss)))
  end.

(* lib.rs:772-774 StreamState::received *)
Definition received (ss : StreamState) : nat := length (data ss) + sum_list_with (λ sb, length (sb_buf sb)) (ahead ss).

(** ** Filling a window *)

(* lib.rs:10089-10089 MAX_BODY_RETRIES *)
Definition MAX_BODY_RETRIES : nat := 3.
(* lib.rs:10091-10091 BODY_RETRY_REFILL_BYTES *)
Definition BODY_RETRY_REFILL_BYTES : Z := 4 * 1024 * 1024.
(* lib.rs:10095-10095 MAX_STALL_RESUMES *)
Definition MAX_STALL_RESUMES : nat := 2.
(* lib.rs:10101-10101 MIN_BODY_PROGRESS *)
Definition MIN_BODY_PROGRESS : Z := 64 * 1024.
(* lib.rs:186-186 READ_STALL_TIMEOUT *)
Definition READ_STALL_TIMEOUT : Duration := secs 15.

(* lib.rs:10156-10162 BodyRead *)
Inductive BodyRead := Bytes (bs : list byte) | End_ | Failed (stalled : bool).

(** How [do_range_read_stream] went: a 206, another status, or an error, which may be worth
    retrying ([is_retry_later_err]). *)
Inductive Reopened := Partial | NotPartial | OpenErr (retry_later : bool).

(* lib.rs:10182-10186 WindowPump::break_window *)
Definition break_window (ss : StreamState) : StreamState := set_flags ss (ss_done ss) true (stopped ss) (eof_len ss).
(* lib.rs:10192-10196 WindowPump::stop_window *)
Definition stop_window (ss : StreamState) : StreamState := set_flags ss (ss_done ss) (broken ss) true (eof_len ss).

(** [shared] is the window's own stream, [o] its handle while it is open. *)
(* lib.rs:10170-10178 WindowPump::superseded *)
Definition superseded (shared : nat) (ss : StreamState) (o : option Windows) : bool :=
  if 0 <? waiters ss then false
  else
    match o with
    | None => true
    | Some o => let holds b := default false ((λ b, stream b =? shared) <$> b) in
                negb (holds (buf o) || holds (next_buf o) || holds (prev_buf o))
    end.

(* lib.rs:10203-10213 WindowPump::window_crawling *)
Definition window_crawling (ss : StreamState) (now : Instant) : StreamState * bool :=
  let '(at_, base) := progress_mark ss in
  if (sat_sub now at_ <? READ_STALL_TIMEOUT)%Z then (ss, false)
  else
    let r := received ss in
    ({| data := data ss; ss_done := ss_done ss; ahead := ahead ss; broken := broken ss; stopped := stopped ss;
        eof_len := eof_len ss; waiters := waiters ss; progress_mark := (now, r) |},
     (Z.of_nat (r - base) <? MIN_BODY_PROGRESS)%Z).

(** What one segment's thread keeps between two turns of its loop. *)
(* lib.rs:10327-10331 WindowPump::segment *)
Record SegRun := { got : nat; retries : nat; got_at_break : nat; stalls : nat }.

(** What a turn of the loop finds around it. *)
Record Around := { now : Instant; handle : option Windows; check_due : bool; reopened : Reopened }.

Definition seg_at (s : Segment) : nat := Z.to_nat (s_at s).
Definition seg_len (s : Segment) : nat := Z.to_nat (s_len s).

(** The result's [bool]: the loop goes on. *)
(* lib.rs:10394-10467 WindowPump::segment *)
Definition on_failed (shared : nat) (seg : Segment) (env : Around) (stalled : bool) (ss : StreamState) (r : SegRun)
    : StreamState * SegRun * bool :=
  if seg_len seg <=? got r then (ss, r, false)
  else
    let budget_left := if stalled then stalls r <? MAX_STALL_RESUMES else retries r <? MAX_BODY_RETRIES in
    if halted ss then (ss, r, false)
    else if superseded shared ss (handle env) then (stop_window ss, r, false)
    else if negb budget_left then (if stalled then stop_window ss else break_window ss, r, false)
    else
      let r := if stalled then {| got := got r; retries := retries r; got_at_break := got_at_break r; stalls := S (stalls r) |}
               else {| got := got r; retries := S (retries r); got_at_break := got r; stalls := stalls r |} in
      match reopened env with
      | Partial => (ss, r, true)
      | NotPartial => (break_window ss, r, false)
      | OpenErr true => (stop_window ss, r, false)
      | OpenErr false => (break_window ss, r, false)
      end.

(* lib.rs:10332-10393 WindowPump::segment *)
Definition turn (shared idx : nat) (seg : Segment) (env : Around) (read : BodyRead) (ss : StreamState) (r : SegRun)
    : option (StreamState * SegRun * bool) :=
  match read with
  | Bytes bs =>
      let '(ss, crawling) := window_crawling ss (now env) in
      match push ss idx (seg_at seg + got r) bs with
      | None => None
      | Some ss =>
          let r := {| got := got r + length bs; retries := retries r; got_at_break := got_at_break r; stalls := stalls r |} in
          if crawling then Some (on_failed shared seg env true ss r)
          else if halted ss then Some (ss, r, false)
          else
            let refilled := (0 <? retries r) && (BODY_RETRY_REFILL_BYTES <=? Z.of_nat (got r - got_at_break r))%Z in
            let r := {| got := got r; retries := if refilled then 0 else retries r; got_at_break := got_at_break r; stalls := stalls r |} in
            if check_due env && superseded shared ss (handle env) then Some (stop_window ss, r, false)
            else Some (ss, r, true)
      end
  | End_ => Some (if (got r <? seg_len seg) && negb (s_last seg) then break_window ss else ss, r, false)
  | Failed stalled => Some (on_failed shared seg env stalled ss r)
  end.

(** A segment that leaves its loop records the end of the file if it reached it. *)
(* lib.rs:10470-10477 WindowPump::segment *)
Definition segment_end (start : nat) (total : option nat) (seg : Segment) (ss : StreamState) (g : nat) : StreamState :=
  if s_last seg && bool_decide (total = Some (start + seg_at seg + g))
  then set_flags ss (ss_done ss) (broken ss) (stopped ss) (Some (seg_at seg + g)) else ss.

(** Opening an extra segment's first request. *)
(* lib.rs:10290-10325 WindowPump::segment *)
Definition segment_open (r : Reopened) (ss : StreamState) : StreamState * bool :=
  match r with
  | Partial => (ss, true)
  | NotPartial => (break_window ss, false)
  | OpenErr true => (stop_window ss, false)
  | OpenErr false => (break_window ss, false)
  end.

(* lib.rs:10140-10152 WindowDone::drop *)
Definition window_done (target : nat) (total : option nat) (panicking : bool) (ss : StreamState) : StreamState :=
  let short := (length (data ss) <? target) && negb (at_eof ss) && bool_decide (is_Some total) in
  set_flags ss true (broken ss) (stopped ss || (negb (halted ss) && (panicking || short))) (eof_len ss).

(* lib.rs:2881-2884 Parked::new *)
Definition park (ss : StreamState) : StreamState :=
  {| data := data ss; ss_done := ss_done ss; ahead := ahead ss; broken := broken ss; stopped := stopped ss;
     eof_len := eof_len ss; waiters := S (waiters ss); progress_mark := progress_mark ss |}.
(* lib.rs:2888-2891 Parked::drop *)
Definition unpark (ss : StreamState) : StreamState :=
  {| data := data ss; ss_done := ss_done ss; ahead := ahead ss; broken := broken ss; stopped := stopped ss;
     eof_len := eof_len ss; waiters := waiters ss - 1; progress_mark := progress_mark ss |}.

(** *** The window's threads as a state machine *)

Inductive Phase := Opening | Running | Exited.
Record Pump := { win : StreamState; segs : list (SegRun * Phase) }.

Definition run0 (g : nat) : SegRun := {| got := g; retries := 0; got_at_break := 0; stalls := 0 |}.
Definition set_win (p : Pump) (ss : StreamState) : Pump := {| win := ss; segs := segs p |}.
Definition set_seg (p : Pump) (ss : StreamState) (i : nat) (r : SegRun) (ph : Phase) : Pump :=
  {| win := ss; segs := <[i := (r, ph)]> (segs p) |}.

(** The first segment's response is open and [first] was read from it; the others are about to
    open theirs. *)
(* lib.rs:10240-10259 WindowPump::run *)
Definition pump_start (first : list byte) (plan : list Segment) (now : Instant) : Pump :=
  {| win := new_stream first plan now;
     segs := match plan with
             | [] => []
             | _ :: rest => (run0 (length first), Running) :: ((λ _, (run0 0, Opening)) <$> rest)
             end |}.

(** A body delivers the file: a read returns at least one byte, no more than was asked for,
    and they are the file's bytes from the offset requested. *)
Definition honest (F : list byte) (from room : nat) (r : BodyRead) : Prop :=
  match r with
  | Bytes bs => bs ≠ [] ∧ length bs ≤ room ∧ bs = slice F from (length bs)
  | _ => True
  end.

Section pump.
Context (F : list byte) (start : nat) (total : option nat) (plan : list Segment) (target shared : nat).

(** One turn of one segment's loop, or one READ parking, in any order. *)
Inductive pstep : Pump → Pump → Prop :=
| p_open p i r o ss go :
    segs p !! i = Some (r, Opening) → segment_open o (win p) = (ss, go) →
    pstep p (set_seg p ss i r (if go then Running else Exited))
| p_turn p i seg r env read ss r' go :
    segs p !! i = Some (r, Running) → plan !! i = Some seg → got r < seg_len seg →
    honest F (start + seg_at seg + got r) (seg_len seg - got r) read →
    turn shared i seg env read (win p) r = Some (ss, r', go) →
    pstep p (set_seg p (if go then ss else segment_end start total seg ss (got r')) i r' (if go then Running else Exited))
| p_full p i seg r :
    segs p !! i = Some (r, Running) → plan !! i = Some seg → seg_len seg ≤ got r →
    pstep p (set_seg p (segment_end start total seg (win p) (got r)) i r Exited)
| p_done p panicking :
    panicking = true ∨ Forall (λ s, s.2 = Exited) (segs p) →
    pstep p (set_win p (window_done target total panicking (win p)))
| p_park p : pstep p (set_win p (park (win p)))
| p_unpark p : pstep p (set_win p (unpark (win p))).

End pump.

(** *** The contiguous prefix *)

(** Where segment [k] starts, and how far the prefix reaches once the segments have received
    [ps] bytes each. *)
Definition origin (lens : list nat) (k : nat) : nat := sum_list (take k lens).
Fixpoint frontier (lens ps : list nat) : nat :=
  match lens, ps with
  | l :: lens, p :: ps => if p <? l then p else l + frontier lens ps
  | _, _ => 0
  end.

Definition wf (lens ps : list nat) : Prop := Forall2 (λ l p, 0 < l ∧ p ≤ l) lens ps.

Lemma origin_S lens k l : lens !! k = Some l → origin lens (S k) = origin lens k + l.
Proof. intros H. unfold origin. by rewrite (take_S_r _ _ l), sum_list_with_app; cbn; rewrite ?Nat.add_0_r. Qed.

Lemma origin_0 lens : origin lens 0 = 0.
Proof. by destruct lens. Qed.
Lemma origin_cons l lens k : origin (l :: lens) (S k) = l + origin lens k.
Proof. done. Qed.

Lemma frontier_ge lens ps k p :
  wf lens ps → ps !! k = Some p → origin lens k ≤ frontier lens ps → origin lens k + p ≤ frontier lens ps.
Proof.
  intros Hw. revert k. induction Hw as [|l q lens ps [Hl Hq] Hw IH]; intros k Hk Ho; [done|].
  cbn [frontier] in *. destruct k as [|k].
  - injection Hk as ->. rewrite origin_0 in *. destruct (_ <? _) eqn:E; bool_prop; lia.
  - rewrite origin_cons in *. cbn in Hk. destruct (q <? l) eqn:E; bool_prop; [lia|].
    specialize (IH k Hk). lia.
Qed.

Lemma frontier_stop lens ps k l p :
  wf lens ps → lens !! k = Some l → ps !! k = Some p → p < l → origin lens k ≤ frontier lens ps →
  frontier lens ps = origin lens k + p.
Proof.
  intros Hw. revert k. induction Hw as [|l' q lens ps [Hl Hq] Hw IH]; intros k Hlk Hk Hlt Ho; [done|].
  cbn [frontier] in *. destruct k as [|k].
  - injection Hlk as ->. injection Hk as ->. by rewrite (proj2 (Nat.ltb_lt _ _)), origin_0.
  - rewrite origin_cons in *. cbn in Hk, Hlk. destruct (q <? l') eqn:E; bool_prop; [lia|].
    rewrite (IH k); try done; lia.
Qed.

Lemma frontier_before lens ps k q :
  wf lens ps → frontier lens ps < origin lens k → frontier lens (<[k := q]> ps) = frontier lens ps.
Proof.
  intros Hw. revert k. induction Hw as [|l' p lens ps [Hl Hq] Hw IH]; intros k Ho; [done|].
  destruct k as [|k]; [rewrite origin_0 in Ho; lia|]. cbn [frontier insert list_insert] in *. rewrite origin_cons in Ho.
  destruct (_ <? _) eqn:E; bool_prop; [done|]. rewrite IH; [done|lia].
Qed.

Lemma frontier_keeps lens ps k q :
  wf lens ps → origin lens k ≤ frontier lens ps → origin lens k ≤ frontier lens (<[k := q]> ps).
Proof.
  intros Hw. revert k. induction Hw as [|l' p lens ps [Hl Hq] Hw IH]; intros k Ho; [done|].
  destruct k as [|k]; [rewrite origin_0; lia|]. cbn [frontier insert list_insert] in *. rewrite origin_cons in *.
  destruct (p <? l') eqn:E; bool_prop; [lia|]. apply Nat.add_le_mono_l, IH. lia.
Qed.

(** A prefix past a segment's start has some of the segment. *)
Lemma frontier_past lens ps k :
  wf lens ps → origin lens k < frontier lens ps → ∃ p, ps !! k = Some p ∧ 0 < p.
Proof.
  intros Hw. revert k. induction Hw as [|l' p lens ps [Hl Hq] Hw IH]; intros k Ho; [cbn in Ho; lia|].
  cbn [frontier] in Ho.
  destruct k as [|k]; [exists p; rewrite origin_0 in Ho; split; [done|destruct (_ <? _) eqn:E; bool_prop; lia]|]. rewrite origin_cons in Ho. destruct (p <? l') eqn:E; bool_prop; [lia|]. apply IH. lia.
Qed.

Lemma origin_le lens j k : j ≤ k → origin lens j ≤ origin lens k.
Proof.
  unfold origin. intros H. replace k with (j + (k - j)) by lia. rewrite take_add_app, sum_list_with_app. lia.
Qed.

Lemma origin_lt lens ps j k l : wf lens ps → lens !! j = Some l → j < k → origin lens j + l ≤ origin lens k.
Proof. intros Hw Hl Hjk. rewrite <- (origin_S _ _ _ Hl). apply origin_le. lia. Qed.

Lemma frontier_complete lens ps : wf lens ps → ps = lens → frontier lens ps = sum_list lens.
Proof.
  intros Hw ->. induction lens as [|l lens IH]; [done|]. inversion Hw; subst. cbn [frontier sum_list_with].
  rewrite Nat.ltb_irrefl. by rewrite IH.
Qed.

Section prefix.
Context (W : list byte) (lens ps : list nat).
Hypothesis Hwf : wf lens ps.
(** What a segment has received lies inside the file. *)
Hypothesis Hin : ∀ k p, ps !! k = Some p → 0 < p → origin lens k + p ≤ length W.

(** The parked bytes while the prefix has length [d]: segments the prefix has not reached hold
    all they received, from their start. *)
Definition parked (d : nat) (a : list SegmentBuf) : Prop :=
  length a = length lens ∧
  ∀ k sb p, a !! k = Some sb → ps !! k = Some p →
    if origin lens k <? d then sb_buf sb = []
    else sb_buf sb = slice W (origin lens k) p ∧ (sb_buf sb ≠ [] → sb_at sb = origin lens k).

Definition holds_prefix (ss : StreamState) : Prop :=
  data ss = take (frontier lens ps) W ∧ parked (frontier lens ps) (ahead ss).

(** [d] is where some run of whole segments ends. *)
Definition reachable_prefix (d : nat) : Prop :=
  d ≤ frontier lens ps ∧ (d < frontier lens ps → ∃ k p, ps !! k = Some p ∧ 0 < p ∧ origin lens k = d).

Lemma window_slice_length a n : a + n ≤ length W → length (slice W a n) = n.
Proof. intros H. unfold slice. rewrite length_take, length_drop. lia. Qed.

Lemma take_slice d n : take d W ++ slice W d n = take (d + n) W.
Proof. symmetry. apply take_add_app. Qed.

Lemma wf_length : length lens = length ps.
Proof. apply (Forall2_length _ _ _ Hwf). Qed.

Lemma wf_lookup k p : ps !! k = Some p → ∃ l, lens !! k = Some l ∧ 0 < l ∧ p ≤ l.
Proof. intros Hp. destruct (Forall2_lookup_r _ _ _ _ _ Hwf Hp) as (l & ? & ? & ?). eauto. Qed.

Lemma ahead_lookup a k sb d : parked d a → a !! k = Some sb → ∃ p, ps !! k = Some p.
Proof.
  intros [Hl _] Hk. apply lookup_lt_Some in Hk. apply lookup_lt_is_Some_2. rewrite <- wf_length. lia.
Qed.

(** One turn of [absorb]'s loop. *)
Lemma absorb_turn d a k sb :
  parked d a → reachable_prefix d → d ≤ length W →
  list_find (parked_at d) a = Some (k, sb) →
  ∃ p, ps !! k = Some p ∧ 0 < p ∧ sb_buf sb = slice W d p ∧ d + p ≤ length W ∧ reachable_prefix (d + p) ∧
    ∀ x, parked (d + p) (<[k := {| sb_at := x; sb_buf := [] |}]> a).
Proof.
  intros Ha [Hd Hnext] HdW Hf. apply list_find_Some in Hf as (Hk & [Hne Hat] & _).
  destruct (ahead_lookup _ _ _ _ Ha Hk) as (p & Hp). destruct (wf_lookup _ _ Hp) as (l & Hl & Hl0 & Hpl).
  pose proof (proj2 Ha k sb p Hk Hp) as Hsb. destruct (_ <? _) eqn:Elt; [by rewrite Hsb in Hne|].
  destruct Hsb as [Hbuf Hor]. specialize (Hor Hne). bool_prop. assert (Hok : origin lens k = d) by congruence.
  assert (Hp0 : 0 < p). { destruct p; [|lia]. rewrite Hbuf in Hne. unfold slice in Hne. by rewrite take_0 in Hne. }
  assert (HpW : d + p ≤ length W) by (rewrite <- Hok; by apply Hin).
  assert (Hfr : d + p ≤ frontier lens ps).
  { rewrite <- Hok. apply frontier_ge; try done. lia. }
  exists p. split_and!; try done; [by rewrite Hbuf, Hok| |].
  - split; [done|]. intros Hlt. assert (p = l) as ->.
    { destruct (decide (p = l)); [done|]. rewrite (frontier_stop lens ps k l p) in Hlt; try done; lia. }
    rewrite <- Hok in *. rewrite <- (origin_S _ _ _ Hl) in *.
    destruct (frontier_past lens ps (S k) Hwf Hlt) as (p' & Hp' & Hpos). eauto.
  - intros x. split; [rewrite length_insert; apply Ha|]. intros j sb' p' Hj Hp'.
    destruct (decide (j = k)) as [->|Hjk].
    + rewrite list_lookup_insert_eq in Hj by (apply lookup_lt_Some in Hk; done). injection Hj as <-.
      assert (p' = p) as -> by congruence. rewrite (proj2 (Nat.ltb_lt _ _)) by lia. done.
    + rewrite list_lookup_insert_ne in Hj by done. pose proof (proj2 Ha j sb' p' Hj Hp') as Hsb'.
      destruct (decide (origin lens j < d)) as [Hlt|Hge].
      * rewrite (proj2 (Nat.ltb_lt _ _)) in Hsb' by lia. by rewrite (proj2 (Nat.ltb_lt _ _)) by lia.
      * rewrite (proj2 (Nat.ltb_ge _ _)) in Hsb' by lia. rewrite (proj2 (Nat.ltb_ge _ _)); [done|].
        destruct (wf_lookup _ _ Hp') as (l' & Hl' & Hl'0 & _).
        assert (k < j). { destruct (decide (k < j)); [done|].
          pose proof (origin_lt lens ps j k l' Hwf Hl' ltac:(lia)). lia. }
        pose proof (origin_lt lens ps k j l Hwf Hl ltac:(lia)). lia.
Qed.

(** Parked segments left: each turn of the loop uses one up. *)
Definition waiting (a : list SegmentBuf) : nat := length (filter (λ sb, sb_buf sb ≠ []) a).

Lemma waiting_insert a k sb x : a !! k = Some sb → sb_buf sb ≠ [] →
  S (waiting (<[k := {| sb_at := x; sb_buf := [] |}]> a)) = waiting a.
Proof.
  intros Hk Hne. unfold waiting. rewrite <- (take_drop_middle a k sb Hk) at 2.
  rewrite insert_take_drop by (by apply lookup_lt_Some in Hk).
  rewrite !filter_app, !length_app, !filter_cons. rewrite decide_False by (cbn; tauto).
  rewrite decide_True by done. cbn [length]. lia.
Qed.

Lemma absorb_loop_spec fuel ss d :
  data ss = take d W → d ≤ length W → parked d (ahead ss) → reachable_prefix d → waiting (ahead ss) < fuel →
  ∃ a, absorb_loop fuel ss = Some (set_bytes ss (take (frontier lens ps) W) a) ∧ parked (frontier lens ps) a.
Proof.
  revert ss d. induction fuel as [|fuel IH]; intros ss d Hdata HdW Ha Hr Hfuel; [lia|].
  assert (Hlen : length (data ss) = d) by (rewrite Hdata, length_take; lia).
  cbn [absorb_loop]. rewrite Hlen. destruct (list_find _ _) as [[k sb]|] eqn:Ef.
  - destruct (absorb_turn _ _ _ _ Ha Hr HdW Ef) as (p & Hp & Hp0 & Hbuf & HW & Hr' & Ha').
    apply list_find_Some in Ef as (Hk & [Hne _] & _).
    destruct (IH (set_bytes ss (data ss ++ sb_buf sb)
      (<[k := {| sb_at := sb_at sb + length (sb_buf sb); sb_buf := [] |}]> (ahead ss))) (d + p)) as (a & Hl & Hpk);
      cbn [ahead set_bytes data]; try done.
    + rewrite Hdata, Hbuf. apply take_slice.
    + pose proof (waiting_insert _ _ _ (sb_at sb + length (sb_buf sb)) Hk Hne). lia.
    + exists a. split; [by rewrite Hl|done].
  - assert (d = frontier lens ps) as ->.
    { destruct Hr as [Hle Hnext]. destruct (decide (d = frontier lens ps)); [done|].
      destruct (Hnext ltac:(lia)) as (k & p & Hp & Hp0 & Hok). exfalso.
      destruct (lookup_lt_is_Some_2 (ahead ss) k) as [sb Hsb].
      { rewrite (proj1 Ha), wf_length. by apply lookup_lt_Some in Hp. }
      pose proof (proj2 Ha k sb p Hsb Hp) as Hbuf. rewrite (proj2 (Nat.ltb_ge _ _)) in Hbuf by lia.
      destruct Hbuf as [Hbuf Hat].
      assert (Hne : sb_buf sb ≠ []).
      { intros E. pose proof (window_slice_length (origin lens k) p ltac:(by apply Hin)) as Hs. rewrite <- Hbuf, E in Hs. cbn in Hs. lia. }
      apply list_find_None in Ef. rewrite Forall_forall in Ef. apply (Ef sb).
      - by eapply list_elem_of_lookup_2.
      - split; [done|]. rewrite <- Hok. by apply Hat. }
    exists (ahead ss). split; [|done]. by rewrite <- Hdata; destruct ss.
Qed.

Lemma waiting_le a : waiting a ≤ length a.
Proof. unfold waiting. apply length_filter. Qed.
End prefix.

Lemma frontier_witness lens ps :
  wf lens ps → 0 < frontier lens ps → ∃ k p, ps !! k = Some p ∧ 0 < p ∧ frontier lens ps = origin lens k + p.
Proof.
  induction 1 as [|l p lens ps [Hl Hp] Hw IH]; cbn [frontier]; [lia|]. intros H0.
  destruct (p <? l) eqn:E; bool_prop; [exists 0, p; by rewrite origin_0|].
  destruct (decide (frontier lens ps = 0)) as [->|]; [exists 0, p; rewrite origin_0; split_and!; [done|lia|lia]|].
  destruct IH as (k & q & ? & ? & ->); [lia|]. exists (S k), q. rewrite origin_cons. split_and!; done || lia.
Qed.

(** What the segments received lies inside the window's file bytes. *)
Definition inside (W : list byte) (lens ps : list nat) : Prop :=
  ∀ k p, ps !! k = Some p → 0 < p → origin lens k + p ≤ length W.

Lemma frontier_inside W lens ps : wf lens ps → inside W lens ps → frontier lens ps ≤ length W.
Proof.
  intros Hw Hin. destruct (decide (frontier lens ps = 0)) as [->|]; [lia|].
  destruct (frontier_witness _ _ Hw ltac:(lia)) as (k & p & Hk & Hp & ->). by apply Hin.
Qed.

Lemma slice_app W a n m : slice W a n ++ slice W (a + n) m = slice W a (n + m).
Proof. unfold slice. by rewrite take_add_app, drop_drop. Qed.

Lemma slice_inside W a bs : bs ≠ [] → bs = slice W a (length bs) → a + length bs ≤ length W.
Proof.
  intros Hne Hbs. apply (f_equal length) in Hbs. unfold slice in Hbs. rewrite length_take, length_drop in Hbs.
  destruct bs; [done|]. cbn [length] in *. lia.
Qed.

Section push.
Context (W : list byte) (lens ps : list nat) (ss : StreamState) (k l p : nat) (bs : list byte).
Hypothesis Hwf : wf lens ps.
Hypothesis Hin : inside W lens ps.
Hypothesis Hpre : holds_prefix W lens ps ss.
Hypothesis Hl : lens !! k = Some l.
Hypothesis Hp : ps !! k = Some p.
Hypothesis Hne : bs ≠ [].
Hypothesis Hroom : p + length bs ≤ l.
Hypothesis Hbs : bs = slice W (origin lens k + p) (length bs).
Abbreviation n := (length bs).
Abbreviation ps' := (<[k := p + n]> ps).

Lemma push_pos : 0 < n.
Proof. destruct bs; [done|cbn; lia]. Qed.

Lemma push_wf : wf lens ps'.
Proof.
  rewrite <- (list_insert_id lens k l Hl). destruct (Forall2_lookup_lr _ _ _ _ _ _ Hwf Hl Hp).
  apply Forall2_insert; [done|]. split; [done|lia].
Qed.

Lemma push_inside : inside W lens ps'.
Proof.
  intros j q Hj Hq. destruct (decide (j = k)) as [->|Hjk].
  - rewrite list_lookup_insert_eq in Hj by (by apply lookup_lt_Some in Hp). injection Hj as <-.
    pose proof (slice_inside W _ _ Hne Hbs). lia.
  - rewrite list_lookup_insert_ne in Hj by done. by apply Hin.
Qed.

Lemma ps'_other j q : j ≠ k → ps' !! j = Some q → ps !! j = Some q.
Proof. intros Hjk. by rewrite list_lookup_insert_ne. Qed.
Lemma ps'_same : ps' !! k = Some (p + n).
Proof. apply list_lookup_insert_eq. by apply lookup_lt_Some in Hp. Qed.

(** The segment at the watermark extends the prefix, and takes parked segments along. *)
Lemma push_watermark sb :
  ahead ss !! k = Some sb → origin lens k ≤ frontier lens ps →
  sb_buf sb = [] ∧ length (data ss) = origin lens k + p ∧
  ∃ a, absorb (set_bytes ss (data ss ++ bs) (ahead ss)) = Some (set_bytes ss (take (frontier lens ps') W) a) ∧
    parked W lens ps' (frontier lens ps') a.
Proof.
  intros Hsb Ho. destruct Hpre as [Hdata Hpk]. pose proof push_pos as Hn.
  assert (Hf : frontier lens ps = origin lens k + p) by (apply (frontier_stop _ _ _ l); done || lia).
  assert (Hlen : length (data ss) = origin lens k + p).
  { rewrite Hdata, length_take, Hf. pose proof (frontier_inside _ _ _ Hwf Hin). lia. }
  assert (HlenW := slice_inside W _ _ Hne Hbs).
  assert (Hbuf : sb_buf sb = []).
  { pose proof (proj2 Hpk k sb p Hsb Hp) as Hb. destruct (_ <? _) eqn:E; [done|]. bool_prop.
    assert (p = 0) by lia. subst p. destruct Hb as [-> _]. unfold slice. by rewrite take_0. }
  split_and!; [done|done|].
  assert (Hfr : origin lens k + (p + n) ≤ frontier lens ps').
  { apply frontier_ge; [apply push_wf|apply ps'_same|by apply frontier_keeps]. }
  destruct (absorb_loop_spec W lens ps' push_wf push_inside (S (length (ahead ss))) (set_bytes ss (data ss ++ bs) (ahead ss))
    (origin lens k + p + n)) as (a & Ha & Hpa); [cbn|lia| | | |by exists a].
  - rewrite Hdata, Hf, Hbs at 1. apply take_slice.
  - split; [apply Hpk|]. intros j sb' q Hj Hq. destruct (decide (j = k)) as [->|Hjk].
    + assert (sb' = sb) as -> by (cbn in Hj; congruence). by rewrite (proj2 (Nat.ltb_lt _ _)) by lia.
    + apply ps'_other in Hq; [|done]. pose proof (proj2 Hpk j sb' q Hj Hq) as Hb. rewrite Hf in Hb.
      destruct (wf_lookup _ _ Hwf _ _ Hq) as (lj & Hlj & Hlj0 & _).
      assert (origin lens j < origin lens k ∨ origin lens k + l ≤ origin lens j) as [Hj'|Hj'].
      { destruct (decide (j < k)); [pose proof (origin_lt lens ps j k lj Hwf Hlj ltac:(lia)); lia|].
        pose proof (origin_lt lens ps k j l Hwf Hl ltac:(lia)). lia. }
      * rewrite (proj2 (Nat.ltb_lt _ _)) in Hb by lia. by rewrite (proj2 (Nat.ltb_lt _ _)) by lia.
      * rewrite (proj2 (Nat.ltb_ge _ _)) in Hb by lia. by rewrite (proj2 (Nat.ltb_ge _ _)) by lia.
  - split; [lia|]. intros Hlt. assert (p + n = l) as Hpl.
    { destruct (decide (p + n = l)) as [|Hpl]; [done|]. exfalso.
      rewrite (frontier_stop lens ps' k l (p + n)) in Hlt; [lia|apply push_wf|done|apply ps'_same|lia|lia]. }
    replace (origin lens k + p + n) with (origin lens (S k)) in * by (rewrite (origin_S _ _ _ Hl); lia).
    destruct (frontier_past lens ps' (S k) push_wf Hlt) as (q & ? & ?). eauto.
  - pose proof (waiting_le (ahead ss)). cbn [ahead set_bytes]. lia.
Qed.

(** A segment ahead of the watermark parks its bytes. *)
Lemma push_ahead sb :
  ahead ss !! k = Some sb → frontier lens ps < origin lens k →
  let sb' := {| sb_at := if bool_decide (sb_buf sb = []) then origin lens k + p else sb_at sb; sb_buf := sb_buf sb ++ bs |} in
  length (data ss) < origin lens k + p ∧ frontier lens ps' = frontier lens ps ∧
  parked W lens ps' (frontier lens ps') (<[k := sb']> (ahead ss)).
Proof.
  intros Hsb Ho sb'. destruct Hpre as [Hdata Hpk].
  assert (Hf : frontier lens ps' = frontier lens ps) by (by apply frontier_before).
  split_and!; [rewrite Hdata, length_take; lia|done|]. rewrite Hf. split; [rewrite length_insert; apply Hpk|].
  intros j x q Hj Hq. destruct (decide (j = k)) as [->|Hjk].
  - rewrite ps'_same in Hq. injection Hq as <-.
    rewrite list_lookup_insert_eq in Hj by (by apply lookup_lt_Some in Hsb). injection Hj as <-.
    pose proof (proj2 Hpk k sb p Hsb Hp) as Hb. rewrite (proj2 (Nat.ltb_ge _ _)) in Hb by lia.
    rewrite (proj2 (Nat.ltb_ge _ _)) by lia. destruct Hb as [Hb Hat]. unfold sb'. cbn [sb_buf sb_at].
    split; [rewrite Hb, Hbs at 1; apply slice_app|]. intros _. case_bool_decide as He; [|by apply Hat].
    destruct (decide (p = 0)) as [->|]; [lia|]. exfalso. apply (f_equal length) in He. rewrite Hb, window_slice_length in He; [cbn in He; lia|].
    apply Hin; [done|lia].
  - rewrite list_lookup_insert_ne in Hj by done. apply (proj2 Hpk j x q); [done|by apply ps'_other].
Qed.

(** Recording a segment's next bytes keeps the prefix the file's, as long as it can be. *)
Lemma push_spec :
  ∃ d a, push ss k (origin lens k + p) bs = Some (set_bytes ss d a) ∧ holds_prefix W lens ps' (set_bytes ss d a).
Proof.
  destruct (lookup_lt_is_Some_2 (ahead ss) k) as [sb Hsb].
  { rewrite (proj1 (proj2 Hpre)). by apply lookup_lt_Some in Hl. }
  unfold push. rewrite Hsb. destruct (decide (origin lens k ≤ frontier lens ps)) as [Hle|Hgt].
  - destruct (push_watermark sb Hsb Hle) as (Hb & Hd & a & Ha & Hpa).
    rewrite bool_decide_true by done. rewrite Hd, Nat.eqb_refl. cbn [andb]. rewrite Ha. eexists _, a. by split.
  - destruct (push_ahead sb Hsb ltac:(lia)) as (Hd & Hf & Hpa).
    rewrite (proj2 (Nat.eqb_neq _ _)) by lia. rewrite andb_false_r. eexists _, _. split; [reflexivity|].
    split; [cbn [data set_bytes]; rewrite Hf; apply Hpre|apply Hpa].
Qed.
End push.

(** *** What every interleaving preserves *)

Lemma consecutive_origin from to plan i s :
  consecutive from to plan → (0 ≤ from)%Z → plan !! i = Some s →
  seg_at s = Z.to_nat from + origin (seg_len <$> plan) i ∧ 0 < seg_len s.
Proof.
  revert from i. induction plan as [|a plan IH]; intros from i Hc H0 Hi; [done|].
  assert (Ha : s_at a = from ∧ (0 < s_len a)%Z) by (destruct plan; cbn in Hc; tauto). destruct Ha as [Ha Hpos].
  destruct i as [|i]; [injection Hi as <-; unfold seg_at, seg_len; rewrite origin_0, Ha; lia|].
  destruct plan as [|b plan]; [done|]. destruct Hc as (_ & _ & _ & Hc). cbn in Hi.
  destruct (IH (from + s_len a)%Z i Hc ltac:(lia) Hi) as [E Hl]. split; [|done].
  rewrite fmap_cons, origin_cons, E. unfold seg_len at 2. lia.
Qed.

(** The bytes of a window are the file's, and a recorded end is the file's. *)
Definition stream_ok (F : list byte) (start : nat) (ss : StreamState) : Prop :=
  data ss = slice F start (length (data ss)) ∧ (∀ e, eof_len ss = Some e → start + e = length F).

Section pump_inv.
Context (F : list byte) (start : nat) (total : option nat) (plan : list Segment) (target shared : nat) (stop : Z).
Hypothesis Hplan : consecutive 0 stop plan.
Hypothesis Htotal : ∀ t, total = Some t → t = length F.
Abbreviation W := (drop start F).
Abbreviation lens := (seg_len <$> plan).
Definition gots (p : Pump) : list nat := (λ s, got s.1) <$> segs p.

Definition win_ok (ss : StreamState) (ps : list nat) : Prop :=
  wf lens ps ∧ inside W lens ps ∧ holds_prefix W lens ps ss ∧ (∀ e, eof_len ss = Some e → start + e = length F).
Definition pump_ok (p : Pump) : Prop := length (segs p) = length plan ∧ win_ok (win p) (gots p).

(** Only the bytes and the recorded end matter. *)
Lemma win_ok_same ss ss' ps :
  data ss' = data ss → ahead ss' = ahead ss → eof_len ss' = eof_len ss → win_ok ss ps → win_ok ss' ps.
Proof.
  intros E1 E2 E3 (H1 & H2 & [H3 H4] & H5). split_and!; [done|done|split; [by rewrite E1|by rewrite E2]|by rewrite E3].
Qed.

Lemma gots_set_seg p ss i r ph : gots (set_seg p ss i r ph) = <[i := got r]> (gots p).
Proof. unfold gots. cbn [segs set_seg]. by rewrite list_fmap_insert. Qed.

Lemma gots_lookup p i r ph : segs p !! i = Some (r, ph) → gots p !! i = Some (got r).
Proof. intros H. unfold gots. by rewrite list_lookup_fmap, H. Qed.

Lemma set_seg_ok p ss i r r0 ph ph0 :
  length (segs p) = length plan → segs p !! i = Some (r0, ph0) → got r = got r0 →
  win_ok ss (gots p) → pump_ok (set_seg p ss i r ph).
Proof.
  intros Hl Hi Hg Hw. split; [cbn; by rewrite length_insert|]. rewrite gots_set_seg, Hg.
  by rewrite list_insert_id by (by eapply gots_lookup).
Qed.

Lemma on_failed_frame seg env b ss r : let x := on_failed shared seg env b ss r in
  data x.1.1 = data ss ∧ ahead x.1.1 = ahead ss ∧ eof_len x.1.1 = eof_len ss ∧ got x.1.2 = got r.
Proof.
  unfold on_failed. cbv zeta. repeat case_goal; done.
Qed.

Lemma segment_end_ok seg ss g ps : win_ok ss ps → win_ok (segment_end start total seg ss g) ps.
Proof.
  intros Hw. unfold segment_end. destruct (_ && _) eqn:E; [|done]. bool_prop.
  destruct Hw as (H1 & H2 & [H3 H4] & H5). split_and!; [done|done|by split|].
  cbn. intros e [= <-]. rewrite <- (Htotal _ H0). lia.
Qed.

Lemma crawling_frame ss now ss' c : window_crawling ss now = (ss', c) →
  data ss' = data ss ∧ ahead ss' = ahead ss ∧ eof_len ss' = eof_len ss.
Proof. unfold window_crawling. destruct (progress_mark ss). case_goal; by intros [= <- <-]. Qed.

(** A read's bytes reach the window as the file's. *)
Lemma turn_ok i seg r env read ss ss' r' go ps :
  plan !! i = Some seg → ps !! i = Some (got r) → win_ok ss ps →
  honest F (start + seg_at seg + got r) (seg_len seg - got r) read →
  turn shared i seg env read ss r = Some (ss', r', go) → win_ok ss' (<[i := got r']> ps).
Proof.
  intros Hi Hps Hw Hh Ht. destruct (consecutive_origin _ _ _ _ _ Hplan ltac:(lia) Hi) as [Hat Hpos].
  change (Z.to_nat 0) with 0 in Hat. rewrite Nat.add_0_l in Hat.
  assert (Hframe : ∀ x g, data x = data ss → ahead x = ahead ss → eof_len x = eof_len ss → g = got r →
    win_ok x (<[i := g]> ps)).
  { intros x g ? ? ? ->. rewrite list_insert_id by done. by eapply win_ok_same. }
  destruct read as [bs| |st]; cbn [turn] in Ht.
  - destruct (window_crawling ss (now env)) as [ss1 c] eqn:Ec. destruct (crawling_frame _ _ _ _ Ec) as (C1 & C2 & C3).
    assert (Hw1 : win_ok ss1 ps) by (by eapply win_ok_same). destruct Hw1 as (H1 & H2 & H3 & H4). destruct Hh as (Hne & Hroom & Hbs).
    assert (Hbs' : bs = slice W (origin lens i + got r) (length bs)).
    { rewrite <- Hat. unfold slice. rewrite drop_drop, Nat.add_assoc. exact Hbs. }
    assert (Hli : lens !! i = Some (seg_len seg)) by (by rewrite list_lookup_fmap, Hi).
    destruct (wf_lookup _ _ H1 _ _ Hps) as (l & Hl & _ & Hle). rewrite Hli in Hl. injection Hl as <-.
    assert (Hfit : got r + length bs ≤ seg_len seg) by lia.
    destruct (push_spec W lens ps ss1 i (seg_len seg) (got r) bs) as (d & a & Hpush & Hpre); try done.
    rewrite Hat, Hpush in Ht.
    assert (Hw2 : win_ok (set_bytes ss1 d a) (<[i := got r + length bs]> ps)).
    { split_and!; [by eapply push_wf|by eapply push_inside|done|done]. }
    set (r1 := {| got := got r + length bs; retries := _; got_at_break := _; stalls := _ |}) in Ht.
    destruct c; [|destruct (halted _); [|destruct (check_due env && _)]]; injection Ht as Ht <- <- || injection Ht as Ht.
    + pose proof (on_failed_frame seg env true (set_bytes ss1 d a) r1) as (E1 & E2 & E3 & E4).
      rewrite Ht in *. cbn [fst snd] in *. rewrite E4. by eapply win_ok_same.
    + by subst.
    + subst. by eapply win_ok_same; [..|exact Hw2].
    + by subst.
  - injection Ht as <- <- <-. destruct (_ && _); by apply Hframe.
  - injection Ht as Ht. pose proof (on_failed_frame seg env st ss r) as (E1 & E2 & E3 & E4).
    rewrite Ht in *. by apply Hframe.
Qed.

Lemma pstep_ok p p' : pump_ok p → pstep F start total plan target shared p p' → pump_ok p'.
Proof.
  intros [Hl Hw] Hs. destruct Hs.
  - eapply set_seg_ok; try done. destruct o as [| |[]]; injection H0 as <- <-; try done; by eapply win_ok_same; [..|exact Hw].
  - split; [cbn; by rewrite length_insert|]. rewrite gots_set_seg. cbn [win set_seg].
    assert (Hw' : win_ok ss (<[i := got r']> (gots p))) by (eapply turn_ok; try done; by eapply gots_lookup).
    destruct go; [done|by apply segment_end_ok].
  - eapply set_seg_ok; try done. by apply segment_end_ok.
  - split; [done|]. by eapply win_ok_same; [..|exact Hw].
  - split; [done|]. by eapply win_ok_same; [..|exact Hw].
  - split; [done|]. by eapply win_ok_same; [..|exact Hw].
Qed.
End pump_inv.

Lemma consecutive_sum from stop plan :
  consecutive from stop plan → (0 ≤ from)%Z → Z.to_nat from + sum_list (seg_len <$> plan) = Z.to_nat stop.
Proof.
  revert from. induction plan as [|a plan IH]; intros from Hc H0; [done|].
  destruct plan as [|b plan].
  - destruct Hc as (_ & ? & ? & _). cbn. unfold seg_len. lia.
  - destruct Hc as (_ & Hpos & _ & Hc). specialize (IH _ Hc ltac:(lia)). rewrite fmap_cons. cbn [sum_list_with].
    unfold seg_len at 1. change (sum_list_with id) with sum_list in *. cbn [id]. lia.
Qed.

Lemma frontier_rest_zero lens (l : list Segment) : frontier lens ((λ _, 0) <$> l) = 0 ∨ lens = [].
Proof.
  destruct lens as [|n lens]; [by right|left]. revert n lens. induction l as [|s l IH]; intros n lens; [done|].
  rewrite fmap_cons. cbn [frontier]. destruct (0 <? n) eqn:E; [done|]. bool_prop. assert (n = 0) as -> by lia.
  destruct lens as [|m lens]; [by destruct ((λ _, 0) <$> l)|]. by rewrite IH.
Qed.

Lemma pump_start_ok F start plan stop s0 rest first now :
  consecutive 0 stop plan → plan = s0 :: rest → first = slice F start (length first) → length first ≤ seg_len s0 →
  pump_ok F start plan (pump_start first plan now).
Proof.
  intros Hc -> Hfirst Hlen. unfold pump_ok, pump_start. cbn [win segs].
  split; [cbn; by rewrite length_fmap|].
  assert (Hgots : gots {| win := new_stream first (s0 :: rest) now;
    segs := (run0 (length first), Running) :: ((λ _, (run0 0, Opening)) <$> rest) |} = length first :: ((λ _, 0) <$> rest)).
  { unfold gots. cbn. f_equal. rewrite <- list_fmap_compose. done. }
  rewrite Hgots.
  assert (Hpos : ∀ i s, (s0 :: rest) !! i = Some s → 0 < seg_len s).
  { intros i s Hi. by destruct (consecutive_origin _ _ _ _ _ Hc ltac:(lia) Hi). }
  assert (Hwf : wf (seg_len <$> s0 :: rest) (length first :: ((λ _, 0) <$> rest))).
  { apply Forall2_cons. split; [split; [by apply (Hpos 0)|done]|].
    apply Forall2_fmap, Forall_Forall2_diag, Forall_lookup. intros i s Hi. split; [by apply (Hpos (S i))|lia]. }
  assert (Hdata : length first ≤ length (drop start F) ∧ first = take (length first) (drop start F)).
  { split; [|exact Hfirst]. rewrite Hfirst at 1. unfold slice. rewrite length_take. lia. }
  assert (Hfr : frontier (seg_len <$> s0 :: rest) (length first :: ((λ _, 0) <$> rest)) = length first).
  { rewrite fmap_cons. cbn [frontier]. destruct (_ <? _) eqn:E; [done|]. bool_prop.
    destruct (frontier_rest_zero (seg_len <$> rest) rest) as [->| ->]; [lia|cbn; lia]. }
  split_and!; [done| | |done].
  - intros [|k] p Hk Hp; [injection Hk as <-; rewrite origin_0; apply Hdata|].
    rewrite lookup_cons, list_lookup_fmap in Hk. destruct (rest !! k); [|done]. injection Hk as <-. lia.
  - split; rewrite Hfr; [apply Hdata|]. split; [cbn [ahead new_stream]; by rewrite !length_fmap|].
    intros k sb p Hk Hp. cbn [ahead new_stream] in Hk. rewrite list_lookup_fmap in Hk.
    destruct ((s0 :: rest) !! k); [|done]. injection Hk as <-. destruct (_ <? _) eqn:E; [done|]. bool_prop.
    assert (p = 0) as ->; [|unfold slice; by rewrite take_0].
    destruct k as [|k]; [injection Hp as <-; rewrite origin_0 in E; lia|].
    rewrite lookup_cons, list_lookup_fmap in Hp. destruct (rest !! k); [|done]. by injection Hp as <-.
Qed.

Section results.
Context (F : list byte) (start : nat) (total : option nat) (plan : list Segment) (target shared : nat) (stop : Z).
Hypothesis Hplan : consecutive 0 stop plan.
Hypothesis Htotal : ∀ t, total = Some t → t = length F.

Lemma pump_rtc_ok p p' :
  pump_ok F start plan p → rtc (pstep F start total plan target shared) p p' → pump_ok F start plan p'.
Proof. intros Hok Hr. induction Hr; [done|]. eauto using pstep_ok. Qed.

(** However the threads filling a window interleave, break, resume and stall, what readers
    see is the file: the window's data is exactly the file's bytes from its start as far as
    the segments have arrived without a gap — never a hole, a repeat or a byte out of place —
    and an end of file it records is the file's end. Once every segment has received all of
    its bytes, the data is the whole window. *)
Theorem window_prefix s0 rest first now p :
  plan = s0 :: rest → first = slice F start (length first) → length first ≤ seg_len s0 →
  rtc (pstep F start total plan target shared) (pump_start first plan now) p →
  stream_ok F start (win p) ∧
  length (data (win p)) = frontier (seg_len <$> plan) (gots p) ∧
  (gots p = seg_len <$> plan → data (win p) = slice F start (Z.to_nat stop)).
Proof.
  intros Hp0 Hf Hl Hr. pose proof (pump_start_ok _ _ _ _ _ _ _ now Hplan Hp0 Hf Hl) as H0.
  destruct (pump_rtc_ok _ _ H0 Hr) as (Hlen & Hwf & Hin & [Hd Hpk] & Heof).
  pose proof (frontier_inside _ _ _ Hwf Hin) as Hfr.
  assert (Hdl : length (data (win p)) = frontier (seg_len <$> plan) (gots p)) by (rewrite Hd, length_take; lia).
  split_and!; [split; [rewrite Hdl; exact Hd|exact Heof]|done|].
  intros Hall. rewrite Hd. rewrite (frontier_complete _ _ Hwf Hall).
  by rewrite <- (consecutive_sum _ _ _ Hplan) by lia.
Qed.
End results.

(** ** Every segment ends *)

(** [n] turns of a segment's loop after which it goes on, whatever the window, the clock and
    the other threads look like each time. *)
Inductive goes (F : list byte) (start shared i : nat) (seg : Segment) : nat → SegRun → SegRun → Prop :=
| goes_0 r : goes F start shared i seg 0 r r
| goes_S n env read ss r ss' r1 r2 :
    got r < seg_len seg → honest F (start + seg_at seg + got r) (seg_len seg - got r) read →
    turn shared i seg env read ss r = Some (ss', r1, true) →
    goes F start shared i seg n r1 r2 → goes F start shared i seg (S n) r r2.

Definition turns_left (seg : Segment) (r : SegRun) : nat :=
  4 * (seg_len seg - got r) + (MAX_BODY_RETRIES - retries r) + (MAX_STALL_RESUMES - stalls r).
Definition run_ok (seg : Segment) (r : SegRun) : Prop :=
  got r ≤ seg_len seg ∧ retries r ≤ MAX_BODY_RETRIES ∧ stalls r ≤ MAX_STALL_RESUMES.

Lemma on_failed_left shared seg env b ss r ss' r' :
  run_ok seg r → on_failed shared seg env b ss r = (ss', r', true) →
  run_ok seg r' ∧ turns_left seg r' < turns_left seg r.
Proof.
  unfold run_ok, turns_left, on_failed, MAX_BODY_RETRIES, MAX_STALL_RESUMES. intros (H1 & H2 & H3).
  repeat case_goal; intros E; try discriminate; injection E as <- <-; cbn [got retries stalls]; bool_prop; lia.
Qed.

Lemma turn_left F start shared i seg env read ss r ss' r' :
  run_ok seg r → honest F (start + seg_at seg + got r) (seg_len seg - got r) read →
  turn shared i seg env read ss r = Some (ss', r', true) →
  run_ok seg r' ∧ turns_left seg r' < turns_left seg r.
Proof.
  intros Hr Hh. destruct read as [bs| |st]; cbn [turn].
  - destruct Hh as (Hne & Hroom & _). assert (0 < length bs) by (destruct bs; [done|cbn; lia]).
    destruct (window_crawling ss (now env)) as [ss1 c]. destruct (push _ _ _ _) as [ss2|]; [|done].
    set (r1 := {| got := got r + length bs; retries := retries r; got_at_break := _; stalls := _ |}).
    assert (Hr1 : run_ok seg r1 ∧ turns_left seg r1 + 4 ≤ turns_left seg r).
    { unfold run_ok, turns_left in *. cbn [got retries stalls r1]. lia. }
    destruct c.
    + intros Ht. injection Ht as Ht. destruct (on_failed_left _ _ _ _ _ _ _ _ (proj1 Hr1) Ht). split; [done|lia].
    + destruct (halted ss2); [done|]. destruct (check_due env && _); [done|]. intros Ht. injection Ht as _ <-.
      unfold run_ok, turns_left, MAX_BODY_RETRIES, MAX_STALL_RESUMES in *. cbn [got retries stalls] in *.
      split; [split_and!; try lia; case_goal; lia|]. case_goal; lia.
  - done.
  - intros Ht. injection Ht as Ht. by apply on_failed_left in Ht.
Qed.

(** A segment's thread always comes to an end: while its body delivers, each turn brings at
    least one byte of the segment's finite length, and it resumes at most two stalls in all
    and three broken connections in a row. So its loop turns at most four times per byte
    still missing plus five, whatever the server, the clock and the other threads do. *)
Theorem segment_ends F start shared i seg n g r :
  g ≤ seg_len seg → goes F start shared i seg n (run0 g) r →
  n ≤ 4 * (seg_len seg - g) + MAX_BODY_RETRIES + MAX_STALL_RESUMES ∧
  got r ≤ seg_len seg ∧ retries r ≤ MAX_BODY_RETRIES ∧ stalls r ≤ MAX_STALL_RESUMES.
Proof.
  intros Hg Hgo.
  assert (H : ∀ n r1 r2, goes F start shared i seg n r1 r2 → run_ok seg r1 → run_ok seg r2 ∧ n ≤ turns_left seg r1).
  { clear. intros n r1 r2 Hgo. induction Hgo as [r|n env read ss r ss' r1 r2 Hlt Hh Ht Hgo IH]; intros Hok; [split; [done|lia]|].
    destruct (turn_left _ _ _ _ _ _ _ _ _ _ _ Hok Hh Ht) as [Hok1 Hless]. destruct (IH Hok1). split; [done|lia]. }
  destruct (H _ _ _ Hgo) as [Hr Hn]; [unfold run_ok; cbn; lia|]. split; [|exact Hr].
  unfold turns_left in Hn. cbn [got retries stalls run0] in Hn. lia.
Qed.

(** Four bytes of a file fetched by two threads, the second segment's bytes coming first. *)
Lemma window_prefix_witness :
  let F := [Byte.x41; Byte.x42; Byte.x43; Byte.x44] in
  let plan := [{| s_at := 0; s_len := 2; s_last := false |}; {| s_at := 2; s_len := 2; s_last := true |}] in
  ∃ p, rtc (pstep F 0 (Some 4) plan 4 9) (pump_start [] plan 0) p ∧ gots p = [1; 2] ∧
    data (win p) = [Byte.x41] ∧ stream_ok F 0 (win p) ∧ length (data (win p)) = frontier (seg_len <$> plan) (gots p).
Proof.
  set (F := [Byte.x41; Byte.x42; Byte.x43; Byte.x44]).
  set (plan := [{| s_at := 0; s_len := 2; s_last := false |}; {| s_at := 2; s_len := 2; s_last := true |}]).
  set (p0 := pump_start [] plan 0). set (env := {| now := 0%Z; handle := None; check_due := false; reopened := Partial |}).
  set (p1 := set_seg p0 (win p0) 1 (run0 0) Running).
  set (t2 := default (win p1, run0 0, true) (turn 9 1 {| s_at := 2; s_len := 2; s_last := true |} env (Bytes [Byte.x43; Byte.x44]) (win p1) (run0 0))).
  set (p2 := set_seg p1 t2.1.1 1 t2.1.2 Running).
  set (t3 := default (win p2, run0 0, true) (turn 9 0 {| s_at := 0; s_len := 2; s_last := false |} env (Bytes [Byte.x41]) (win p2) (run0 0))).
  set (p3 := set_seg p2 t3.1.1 0 t3.1.2 Running).
  assert (Hr : rtc (pstep F 0 (Some 4) plan 4 9) p0 p3).
  { eapply (rtc_l _ p0 p1). { by apply (p_open F 0 (Some 4) plan 4 9 p0 1 (run0 0) Partial (win p0) true). }
    eapply (rtc_l _ p1 p2).
    { apply (p_turn F 0 (Some 4) plan 4 9 p1 1 {| s_at := 2; s_len := 2; s_last := true |} (run0 0) env
        (Bytes [Byte.x43; Byte.x44]) t2.1.1 t2.1.2 true); vm_compute; [done|done|lia|done|done]. }
    eapply (rtc_l _ p2 p3); [|apply rtc_refl].
    apply (p_turn F 0 (Some 4) plan 4 9 p2 0 {| s_at := 0; s_len := 2; s_last := false |} (run0 0) env
      (Bytes [Byte.x41]) t3.1.1 t3.1.2 true); vm_compute; [done|done|lia| |done]. split_and!; [done|lia|done]. }
  exists p3. split; [exact Hr|]. split; [vm_compute; reflexivity|]. split; [vm_compute; reflexivity|].
  destruct (window_prefix F 0 (Some 4) plan 4 9 4 ltac:(cbn; lia) ltac:(by intros t [= <-])
    {| s_at := 0; s_len := 2; s_last := false |} [{| s_at := 2; s_len := 2; s_last := true |}] [] 0 p3
    eq_refl eq_refl ltac:(cbn; lia) Hr) as (H1 & H2 & _). by split.
Defined.

Lemma segment_ends_witness :
  let seg := {| s_at := 0; s_len := 2; s_last := true |} in
  ∃ r, goes [Byte.x41; Byte.x42] 0 9 0 seg 1 (run0 0) r ∧ 1 ≤ 4 * (seg_len seg - 0) + MAX_BODY_RETRIES + MAX_STALL_RESUMES.
Proof.
  set (seg := {| s_at := 0; s_len := 2; s_last := true |}).
  set (env := {| now := 0%Z; handle := None; check_due := false; reopened := Partial |}).
  set (ss := new_stream [] [seg] 0).
  assert (H : goes [Byte.x41; Byte.x42] 0 9 0 seg 1 (run0 0) {| got := 0; retries := 1; got_at_break := 0; stalls := 0 |}).
  { eapply (goes_S _ _ _ _ _ 0 env (Failed false) (park ss)).
    - vm_compute. lia.
    - done.
    - vm_compute. reflexivity.
    - apply goes_0. }
  eexists. split; [exact H|]. apply (segment_ends _ _ _ _ _ _ 0 _ ltac:(cbn; lia) H).
Defined.

(** ** Answering READs *)

(* lib.rs:212-212 RANGE_OPEN_BUDGET *)
Definition RANGE_OPEN_BUDGET : Duration := secs 30.
(* lib.rs:2870-2872 WINDOW_WAIT_IDLE *)
Definition WINDOW_WAIT_IDLE : Duration := (READ_STALL_TIMEOUT + RANGE_OPEN_BUDGET + secs 15)%Z.
(* lib.rs:2874-2874 WINDOW_WAIT_MAX *)
Definition WINDOW_WAIT_MAX : Duration := secs 120.

Inductive Answer := Data (bs : list byte) | EIO | EAGAIN | KeepWaiting.

(** One look at the window: [parked] is when the READ came, [grown] when the prefix last grew. *)
(* lib.rs:2903-2948 wait_on_window *)
Definition wait_on_window (ss : StreamState) (start off sz : nat) (file_size : Z) (parked grown now : Instant) : Answer :=
  let o := off - start in
  if off + sz <=? start + length (data ss) then Data (slice (data ss) o sz)
  else if ss_done ss || halted ss then
    let avail := length (data ss) - o in
    if negb (halted ss) && (at_eof ss || short_reply_ok (Z.of_nat off) (Z.of_nat avail) (Z.of_nat sz) file_size) then
      let e := Nat.min (length (data ss)) (o + sz) in
      Data (if o <? length (data ss) then slice (data ss) o (e - o) else [])
    else if broken ss then EIO else EAGAIN
  else if (Z.min (grown + WINDOW_WAIT_IDLE) (parked + WINDOW_WAIT_MAX) <=? now)%Z then EAGAIN
  else KeepWaiting.

(** What [read] does with a handle's windows before going to the network: answer, wait in a
    window, fetch, or panic on a slice that starts past its end. *)
Inductive Served := Reply (bs : list byte) | WaitIn (b : ReadAheadBuf) | Fetch | Panicked.

Definition opt_stream (b : option ReadAheadBuf) : option nat := stream <$> b.

(** The window a READ at [off] is looked up in. *)
(* lib.rs:7704-7709 read *)
Definition window_for (o : Windows) (off : Z) : option ReadAheadBuf :=
  if negb (opt_covers off (buf o)) && opt_covers off (prev_buf o) then prev_buf o else buf o.

(** A READ straddling two windows, when the first is complete and the second has the rest. *)
(* lib.rs:7762-7784 read *)
Definition stitch (o : Windows) (st : nat → StreamState) (ra : ReadAheadBuf) (off sz : Z) : option (list byte) :=
  let ss := st (stream ra) in
  let window_end := (start ra + target_len ra)%Z in
  let following := if bool_decide (opt_stream (prev_buf o) = Some (stream ra)) then buf o else next_buf o in
  match following with
  | Some nb =>
      if (start nb =? window_end)%Z && ss_done ss && negb (halted ss)
         && (start ra + Z.of_nat (length (data ss)) =? window_end)%Z then
        let need := Z.to_nat (off + sz - window_end) in
        let ns := st (stream nb) in
        if need <=? length (data ns)
        then Some (drop (Z.to_nat (off - start ra)) (data ss) ++ take need (data ns)) else None
      else None
  | None => None
  end.

(* lib.rs:7704-7807 read *)
Definition serve (o : Windows) (st : nat → StreamState) (off sz file_size : Z) : Served :=
  match window_for o off with
  | None => Fetch
  | Some ra =>
      let ss := st (stream ra) in
      let len := length (data ss) in
      let o_ := Z.to_nat (off - start ra) in
      let available := (start ra + Z.of_nat len)%Z in
      let window_end := (start ra + target_len ra)%Z in
      if (start ra <=? off)%Z && (off + sz <=? available)%Z then Reply (slice (data ss) o_ (Z.to_nat sz))
      else if (start ra <=? off)%Z && (off + sz <=? window_end)%Z && negb (ss_done ss) then WaitIn ra
      else if (start ra <=? off)%Z && (off <? window_end)%Z then
        match stitch o st ra off sz with
        | Some out => Reply out
        | None =>
            if ss_done ss && negb (halted ss) then
              let avail := len - o_ in
              if at_eof ss || short_reply_ok off (Z.of_nat avail) sz file_size then
                let e := Nat.min len (o_ + Z.to_nat sz) in
                if o_ <=? e then Reply (slice (data ss) o_ (e - o_)) else Panicked
              else Fetch
            else if short_reply_ok off (window_end - off)%Z sz file_size then WaitIn ra
            else Fetch
        end
      else Fetch
  end.

Lemma slice_slice (F : list byte) a L o n : o + n ≤ L → slice (slice F a L) o n = slice F (a + o) n.
Proof.
  intros H. unfold slice. rewrite <- drop_drop. rewrite skipn_firstn_comm, take_take. f_equal. lia.
Qed.

(** At the end of the file a slice is cut short. *)
Lemma slice_end (F : list byte) a n : length F ≤ a + n → slice F a n = drop a F.
Proof. intros H. unfold slice. apply take_ge. rewrite length_drop. lia. Qed.

Lemma slice_cut (F : list byte) a n m : length F ≤ a + n → n ≤ m → slice F a n = slice F a m.
Proof. intros H1 H2. rewrite !slice_end by lia. done. Qed.

(** What a short reply needs to be right. *)
Lemma short_reply_proves (F : list byte) off avail sz (fs : Z) :
  (fs = 0 ∨ fs = Z.of_nat (length F))%Z → short_reply_ok (Z.of_nat off) (Z.of_nat avail) (Z.of_nat sz) fs = true →
  sz ≤ avail ∨ length F ≤ off + avail.
Proof. unfold short_reply_ok, sat_add. intros Hfs H. apply orb_true_iff in H as [H|H]; bool_prop; lia. Qed.

(** A reply cut at the prefix, which reaches the end of the file. *)
Lemma prefix_reply F start ss off sz :
  stream_ok F start ss → start ≤ off → length F ≤ start + length (data ss) ∨ length F ≤ off ∨ sz = 0 →
  let o := off - start in
  (if o <? length (data ss) then slice (data ss) o (Nat.min (length (data ss)) (o + sz) - o) else []) = slice F off sz.
Proof.
  intros [Hd _] Ho Hend o. assert (Hoff : off = start + o) by lia. destruct (o <? _) eqn:E; bool_prop.
  - rewrite Hd at 1. rewrite slice_slice by lia. rewrite <- Hoff.
    destruct (decide (o + sz ≤ length (data ss))); [f_equal; lia|].
    destruct Hend as [|[|]]; [apply slice_cut; lia| |lia]. rewrite !slice_end by lia. done.
  - destruct (decide (sz = 0)) as [->|]; [unfold slice; by rewrite take_0|].
    unfold slice. rewrite (drop_ge F); [by rewrite take_nil|lia].
Qed.

(** What a READ waiting in a window is told is right. Bytes are exactly what the file holds
    there, all it asked for or up to the end of the file — never cut at a hole or at a window's
    end. A window that broke for good gives EIO; EAGAIN means it stopped, ended short of any proven
    end, or the wait ran out; otherwise the READ keeps waiting, on a window still being filled,
    before its deadline. *)
Theorem wait_on_window_exact F start ss off sz fs parked grown now :
  stream_ok F start ss → start ≤ off → (fs = 0 ∨ fs = Z.of_nat (length F))%Z →
  match wait_on_window ss start off sz fs parked grown now with
  | Data bs => bs = slice F off sz
  | EIO => broken ss = true ∧ start + length (data ss) < off + sz
  | EAGAIN => start + length (data ss) < off + sz ∧ broken ss = false ∧
      (stopped ss = true ∨ (ss_done ss = true ∧ at_eof ss = false) ∨
       (Z.min (grown + WINDOW_WAIT_IDLE) (parked + WINDOW_WAIT_MAX) ≤ now)%Z)
  | KeepWaiting => start + length (data ss) < off + sz ∧ ss_done ss = false ∧ halted ss = false ∧
      (now < Z.min (grown + WINDOW_WAIT_IDLE) (parked + WINDOW_WAIT_MAX))%Z
  end.
Proof.
  intros Hs Ho Hfs. pose proof Hs as [Hd Heof]. unfold wait_on_window.
  destruct (off + sz <=? _) eqn:E1; bool_prop.
  { rewrite Hd, slice_slice by lia. f_equal. lia. }
  destruct (ss_done ss || halted ss) eqn:E2.
  - destruct (negb (halted ss) && _) eqn:E3; bool_prop.
    + apply prefix_reply; [done|done|]. apply orb_true_iff in H0 as [H0|H0].
      * unfold at_eof in H0. bool_prop. left. rewrite <- (Heof _ H0). lia.
      * apply (short_reply_proves F) in H0; [|done]. lia.
    + destruct (broken ss) eqn:Eb; [done|]. split_and!; [done|done|]. unfold halted in *. rewrite Eb in *.
      destruct (stopped ss); [by left|]. cbn in *. rewrite orb_false_r in E2. rewrite E2.
      apply orb_false_iff in E3 as [-> _]. right. by left.
  - apply orb_false_iff in E2 as [Ed Eh]. destruct (_ <=? now)%Z eqn:E3; bool_prop.
    + split_and!; [done|by apply orb_false_iff in Eh as [-> _]|auto].
    + done.
Qed.

Lemma wait_on_window_exact_witness :
  let F := [Byte.x41; Byte.x42; Byte.x43] in
  let ss := {| data := [Byte.x42; Byte.x43]; ss_done := true; ahead := []; broken := false; stopped := false;
               eof_len := Some 2; waiters := 1; progress_mark := (0%Z, 0) |} in
  wait_on_window ss 1 2 5 0 0 0 0 = Data [Byte.x43] ∧ [Byte.x43] = slice F 2 5.
Proof.
  split; [vm_compute; reflexivity|].
  apply (wait_on_window_exact [Byte.x41; Byte.x42; Byte.x43] 1
    {| data := [Byte.x42; Byte.x43]; ss_done := true; ahead := []; broken := false; stopped := false;
       eof_len := Some 2; waiters := 1; progress_mark := (0%Z, 0) |} 2 5 0 0 0 0).
  - split; [reflexivity|by intros e [= <-]].
  - lia.
  - by left.
Defined.

(** A handle's windows, each holding the file's bytes from its start. *)
Definition windows_ok (F : list byte) (o : Windows) (st : nat → StreamState) : Prop :=
  ∀ b, buf o = Some b ∨ next_buf o = Some b ∨ prev_buf o = Some b →
    (0 ≤ start b)%Z ∧ stream_ok F (Z.to_nat (start b)) (st (stream b)).

Lemma window_for_ok o off ra F st : windows_ok F o st → window_for o off = Some ra →
  (0 ≤ start ra)%Z ∧ stream_ok F (Z.to_nat (start ra)) (st (stream ra)).
Proof. intros Hw. unfold window_for. destruct (_ && _); intros H; apply Hw; auto. Qed.

Lemma stitch_exact F o st ra off sz out :
  windows_ok F o st → stream_ok F (Z.to_nat (start ra)) (st (stream ra)) →
  (0 ≤ start ra ≤ off)%Z → (off < start ra + target_len ra)%Z →
  (start ra + Z.of_nat (length (data (st (stream ra)))) < off + sz)%Z → stitch o st ra off sz = Some out →
  out = slice F (Z.to_nat off) (Z.to_nat sz).
Proof.
  intros Hw [Hd _] Ho Hend Hsz. unfold stitch.
  set (fo := if bool_decide _ then buf o else next_buf o). destruct fo as [nb|] eqn:Ef; [|done].
  assert (Hnb : (0 ≤ start nb)%Z ∧ stream_ok F (Z.to_nat (start nb)) (st (stream nb))).
  { apply Hw. unfold fo in Ef. destruct (bool_decide _); auto. }
  destruct (_ && _) eqn:Ec; [|done]. bool_prop. destruct (_ <=? _) eqn:En; [|done]. bool_prop. intros [= <-].
  destruct Hnb as [Hn0 [Hnd _]]. set (a := Z.to_nat (off - start ra)).
  assert (E1 : drop a (data (st (stream ra))) = slice F (Z.to_nat off) (Z.to_nat (start nb - off))).
  { assert (Hl : length (data (st (stream ra))) = Z.to_nat (target_len ra)) by lia.
    rewrite Hd, Hl. unfold slice. rewrite skipn_firstn_comm, drop_drop. f_equal; [lia|]. f_equal. lia. }
  assert (E2 : take (Z.to_nat (off + sz - (start ra + target_len ra))) (data (st (stream nb))) =
    slice F (Z.to_nat off + Z.to_nat (start nb - off)) (Z.to_nat (off + sz - (start ra + target_len ra)))).
  { rewrite Hnd. unfold slice. rewrite take_take. f_equal; [lia|]. f_equal. lia. }
  rewrite E1, E2, slice_app. f_equal. lia.
Qed.

Lemma serve_spec F o st off sz fs :
  windows_ok F o st → (0 < sz)%Z → (fs = 0 ∨ fs = Z.of_nat (length F))%Z →
  match serve o st off sz fs with
  | Reply bs => bs = slice F (Z.to_nat off) (Z.to_nat sz)
  | WaitIn ra => window_for o off = Some ra ∧ (start ra ≤ off)%Z ∧ ss_done (st (stream ra)) && negb (halted (st (stream ra))) = false
  | Panicked => (Z.of_nat (length F) ≤ off)%Z
  | Fetch => True
  end.
Proof.
  intros Hw Hsz Hfs. unfold serve. destruct (window_for o off) as [ra|] eqn:Era; [|done].
  destruct (window_for_ok _ _ _ _ _ Hw Era) as [H0 Hok]. pose proof Hok as [Hd Heof].
  set (ss := st (stream ra)) in *. set (a := Z.to_nat (off - start ra)).
  destruct (start ra <=? off)%Z eqn:Eo; cbn [andb]; [|done]. bool_prop.
  destruct (off + sz <=? start ra + _)%Z eqn:E1; bool_prop.
  { rewrite Hd, slice_slice by lia. f_equal. lia. }
  destruct ((off + sz <=? _)%Z && negb (ss_done ss)) eqn:E2; bool_prop.
  { split_and!; [done|done|]. apply andb_false_iff. by left. }
  destruct (off <? _)%Z eqn:E3; [|done]. bool_prop. destruct (stitch _ _ _ _ _) as [out|] eqn:Est.
  { by apply (stitch_exact F o st ra). }
  destruct (ss_done ss && negb (halted ss)) eqn:E4.
  - destruct (at_eof ss || _) eqn:E5; [|done].
    assert (Hend : length F ≤ Z.to_nat (start ra) + length (data ss) ∨ length F ≤ Z.to_nat off ∨ Z.to_nat sz = 0).
    { apply orb_true_iff in E5 as [E5|E5].
      - unfold at_eof in E5. bool_prop. left. rewrite <- (Heof _ E5). lia.
      - replace off with (Z.of_nat (Z.to_nat off)) in E5 by lia. replace sz with (Z.of_nat (Z.to_nat sz)) in E5 by lia.
        apply (short_reply_proves F) in E5; [|done]. lia. }
    destruct (a <=? _) eqn:E6; bool_prop.
    + pose proof (prefix_reply F _ ss (Z.to_nat off) (Z.to_nat sz) Hok ltac:(lia) Hend) as Hr. cbv zeta in Hr.
      replace (Z.to_nat off - Z.to_nat (start ra)) with a in Hr by lia. rewrite <- Hr.
      destruct (a <? _) eqn:E7; [done|]. bool_prop. unfold slice.
      replace (Nat.min _ _ - a) with 0 by lia. by rewrite take_0.
    + lia.
  - destruct (short_reply_ok _ _ _ _); [|done]. by split_and!.
Qed.

(** C8: What [read] serves from a handle's windows without waiting is exactly what the file
    holds: from one window, stitched across two, or short at the end of the file, and a READ
    it makes wait belongs to the window waited on. It panics only for a READ that starts past the
    end of the file. *)
Theorem serve_exact F o st off sz fs :
  windows_ok F o st → (0 < sz)%Z → (fs = 0 ∨ fs = Z.of_nat (length F))%Z →
  match serve o st off sz fs with
  | Reply bs => bs = slice F (Z.to_nat off) (Z.to_nat sz)
  | WaitIn ra => window_for o off = Some ra ∧ (start ra ≤ off)%Z ∧ ss_done (st (stream ra)) && negb (halted (st (stream ra))) = false
  | Panicked => (Z.of_nat (length F) ≤ off)%Z
  | Fetch => True
  end.
Proof. apply serve_spec. Qed.

(** The panic is real: the file's end lies inside the window (its size was unknown or grew
    stale when the window was planned), and a READ starts past that end and ends past the
    window. [wait_on_window] answers the same READ with no bytes. *)
Lemma serve_panics :
  let ss := {| data := [Byte.x41]; ss_done := true; ahead := []; broken := false; stopped := false;
               eof_len := Some 1; waiters := 0; progress_mark := (0%Z, 0) |} in
  let o := {| read_ahead_window := READ_AHEAD_INITIAL; buf := Some {| start := 0; stream := 0; target_len := 4 |};
              next_buf := None; prev_buf := None; last_read := 0; lookahead_inflight := false |} in
  serve o (λ _, ss) 3 2 0 = Panicked ∧ wait_on_window ss 0 3 2 0 0 0 0 = Data [] ∧
  windows_ok [Byte.x41] o (λ _, ss).
Proof.
  cbv zeta. split; [vm_compute; reflexivity|]. split; [vm_compute; reflexivity|].
  intros b [[= <-]|[|]]; try done. split; [done|]. split; [reflexivity|by intros e [= <-]].
Qed.

(** A READ across two finished windows. *)
Lemma serve_exact_witness :
  let F := [Byte.x41; Byte.x42; Byte.x43; Byte.x44] in
  let full d := {| data := d; ss_done := true; ahead := []; broken := false; stopped := false;
               eof_len := None; waiters := 0; progress_mark := (0%Z, 0) |} in
  let st i := full (if decide (i = 0) then [Byte.x41; Byte.x42] else [Byte.x43; Byte.x44]) in
  let o := {| read_ahead_window := READ_AHEAD_INITIAL; buf := Some {| start := 0; stream := 0; target_len := 2 |};
              next_buf := Some {| start := 2; stream := 1; target_len := 2 |}; prev_buf := None; last_read := 0; lookahead_inflight := false |} in
  serve o st 1 2 4 = Reply [Byte.x42; Byte.x43] ∧ [Byte.x42; Byte.x43] = slice F 1 2.
Proof.
  intros F full st o. assert (E : serve o st 1 2 4 = Reply [Byte.x42; Byte.x43]) by (vm_compute; reflexivity).
  split; [exact E|]. assert (Hw : windows_ok F o st).
  { intros b [[= <-]|[[= <-]|]]; try done; (split; [done|]); (split; [reflexivity|done]). }
  pose proof (serve_exact F o st 1 2 4 Hw ltac:(lia) ltac:(by right)) as H. rewrite E in H. exact H.
Defined.
