(* ===== verification/Mount.v ===== *)
(** [lib.rs], the mount's shared state: [NextCloudFs], the open handles and the jobs the
    requests leave for the server.

    [m_core] is the journal with its files, the listing cache, the status map, the error log
    and the environment, as replay sees them.  A job holds a [PathSeq] ticket; the request
    that queued it is a handler of [Namespace] or [LiveUpload].  Kernel notifications, log
    lines, the progress display and the restart snapshot have no counterpart; an error
    message is its fixed part. *)
From Stdlib Require Import Ascii String.
From S2P Require Import Prelude Paths Filenames Backend FsCache Journal Replay ChunkUpload Versions AppLocks Attr IoMode KeyedFifo PathSeq.

Definition EPERM : Z := 1.
Definition ENOENT : Z := 2.
Definition EIO : Z := 5.
Definition EACCES : Z := 13.

(* lib.rs:263-263 GHOST_TTL *)
Definition GHOST_TTL : Duration := secs 10.
(* lib.rs:271-274 GhostKind *)
Inductive GhostKind := HiddenAdd | VisibleDelete (attr : FileAttr).
(* lib.rs:277-281 GhostEntry *)
Record GhostEntry := { g_kind : GhostKind; g_created_at : Instant; g_rename_pair_id : option nat }.

(** A streamed upload under way: the session's name, and its state. *)
(* lib.rs:1196-1201 ChunkUploadState *)
Record Stream := { uploads_base : Backend.Session; cs : ChunkUploadState }.

(** The part of an open handle these requests work on; the read side is [Window]'s. *)
(* lib.rs:1529-1608 OpenFile *)
Record OpenFile := {
  remote_path : PathBuf;
  write_path : option PathBuf;
  dirty : bool;
  original_etag : option Etag;
  total_written : Z;
  stream_eligible : bool;
  chunk_upload : option Stream;
  of_ino : nat;
  io_kind : IoKind;
  upload_failed : bool;
  created : bool;
  unlinked : bool;
  opened_gen : Z;
  pin : PinState;
}.

(* ipc.rs:109-115 FileDetail *)
Record FileDetail := {
  fd_permissions : option string; fd_owner_id : option string; fd_owner_display_name : option string;
  fd_size : Z; fd_is_dir : bool;
}.

(** An upload as release() hands it to its job; [u_size] is the file's length. *)
Record Upload := {
  u_seq : SeqId; u_path : PathBuf; u_staging : PathBuf; u_etag : option Etag; u_gen : Z;
  u_size : Z; u_mtime : SystemTime; u_fh : nat;
}.

(** A mutation on its way to the server. *)
Inductive LiveJob :=
| JPut (u : Upload)
| JFinish (u : Upload) (st : Stream) (p : PumpState)
| JMkdir (s : SeqId) (path : PathBuf)
| JUnlink (s : SeqId) (path : PathBuf)
| JRmdir (s : SeqId) (path : PathBuf)
| JMove (s : SeqId) (from to : PathBuf) (dest_base : option Etag) (moved_dir : bool).

Inductive Reply := Done | Entry (a : FileAttr) | Created (a : FileAttr) (fh : nat) | Error (errno : Z).

(* lib.rs:4981-5013 NextCloudFs *)
Record Mount (W : Type) := {
  m_core : RState W;
  m_displaced : gmap nat FileAttr;
  m_shared : gset PathBuf;
  m_fileids : gmap PathBuf Z;
  m_details : gmap PathBuf FileDetail;
  m_children : gmap PathBuf (gset PathBuf);
  m_files : gmap nat OpenFile;
  m_next_fh : nat;
  m_io : gmap nat (IoMode.Mode (B := nat));
  m_uploads : UploadOrder;
  m_ghosts : gmap PathBuf GhostEntry;
  m_locks : Table;
  m_offline : bool;
  m_seq : PathSeq.State;
  m_jobs : list (PathSeq.Ticket * LiveJob);
}.
Arguments m_core {W}. Arguments m_displaced {W}. Arguments m_shared {W}. Arguments m_fileids {W}.
Arguments m_details {W}. Arguments m_children {W}. Arguments m_files {W}. Arguments m_next_fh {W}.
Arguments m_io {W}. Arguments m_uploads {W}. Arguments m_ghosts {W}. Arguments m_locks {W}.
Arguments m_offline {W}. Arguments m_seq {W}. Arguments m_jobs {W}. Arguments Build_Mount {W}.

Section setters.
Context {W : Type}.
Implicit Types m : Mount W.

Definition upd_core (f : RState W → RState W) m : Mount W :=
  Build_Mount (f (m_core m)) (m_displaced m) (m_shared m) (m_fileids m) (m_details m) (m_children m) (m_files m)
    (m_next_fh m) (m_io m) (m_uploads m) (m_ghosts m) (m_locks m) (m_offline m) (m_seq m) (m_jobs m).
Definition upd_maps (sh : gset PathBuf → gset PathBuf) (fi : gmap PathBuf Z → gmap PathBuf Z)
    (dt : gmap PathBuf FileDetail → gmap PathBuf FileDetail)
    (ch : gmap PathBuf (gset PathBuf) → gmap PathBuf (gset PathBuf)) m : Mount W :=
  Build_Mount (m_core m) (m_displaced m) (sh (m_shared m)) (fi (m_fileids m)) (dt (m_details m)) (ch (m_children m))
    (m_files m) (m_next_fh m) (m_io m) (m_uploads m) (m_ghosts m) (m_locks m) (m_offline m) (m_seq m) (m_jobs m).
Definition upd_files (f : gmap nat OpenFile → gmap nat OpenFile) (d : gmap nat FileAttr → gmap nat FileAttr) m : Mount W :=
  Build_Mount (m_core m) (d (m_displaced m)) (m_shared m) (m_fileids m) (m_details m) (m_children m) (f (m_files m))
    (m_next_fh m) (m_io m) (m_uploads m) (m_ghosts m) (m_locks m) (m_offline m) (m_seq m) (m_jobs m).
Definition with_fh (n : nat) (io : gmap nat (IoMode.Mode (B := nat))) m : Mount W :=
  Build_Mount (m_core m) (m_displaced m) (m_shared m) (m_fileids m) (m_details m) (m_children m) (m_files m)
    n io (m_uploads m) (m_ghosts m) (m_locks m) (m_offline m) (m_seq m) (m_jobs m).
Definition upd_uploads (f : UploadOrder → UploadOrder) m : Mount W :=
  Build_Mount (m_core m) (m_displaced m) (m_shared m) (m_fileids m) (m_details m) (m_children m) (m_files m)
    (m_next_fh m) (m_io m) (f (m_uploads m)) (m_ghosts m) (m_locks m) (m_offline m) (m_seq m) (m_jobs m).
Definition with_ghosts (g : gmap PathBuf GhostEntry) m : Mount W :=
  Build_Mount (m_core m) (m_displaced m) (m_shared m) (m_fileids m) (m_details m) (m_children m) (m_files m)
    (m_next_fh m) (m_io m) (m_uploads m) g (m_locks m) (m_offline m) (m_seq m) (m_jobs m).
Definition upd_locks (f : Table → Table) m : Mount W :=
  Build_Mount (m_core m) (m_displaced m) (m_shared m) (m_fileids m) (m_details m) (m_children m) (m_files m)
    (m_next_fh m) (m_io m) (m_uploads m) (m_ghosts m) (f (m_locks m)) (m_offline m) (m_seq m) (m_jobs m).
Definition with_jobs (sq : PathSeq.State) (l : list (PathSeq.Ticket * LiveJob)) m : Mount W :=
  Build_Mount (m_core m) (m_displaced m) (m_shared m) (m_fileids m) (m_details m) (m_children m) (m_files m)
    (m_next_fh m) (m_io m) (m_uploads m) (m_ghosts m) (m_locks m) (m_offline m) sq l.

Definition upd_cache (f : FsCache → FsCache) : Mount W → Mount W := upd_core (λ s, set_cache s (f (r_cache s))).
Definition upd_j (f : MutationJournal → MutationJournal) : Mount W → Mount W :=
  upd_core (λ s, set_journal s (f (r_journal s))).
Definition upd_status (f : gmap PathBuf FileStatus → gmap PathBuf FileStatus) : Mount W → Mount W :=
  upd_core (λ s, Build_RState (r_journal s) (r_cache s) (r_dirty s) (f (r_status s)) (r_errors s) (r_world s)).
Definition m_cache m : FsCache := r_cache (m_core m).
Definition m_journal m : MutationJournal := r_journal (m_core m).
Definition m_world m : W := r_world (m_core m).

(** The mutation's ticket, taken under [MUTATION_ORDER] as the job is queued. *)
(* lib.rs:2614-2618 submit_mutation *)
Definition submit_mutation (paths : list (PathBuf * Access)) (j : LiveJob) m : Mount W :=
  let '(t, sq) := PathSeq.ticket (m_seq m) paths in with_jobs sq (m_jobs m ++ [(t, j)]) m.
(* lib.rs:1779-1782 UploadOrder::ticket_entry *)
Definition ticket_entry (path : PathBuf) : list (PathBuf * Access) :=
  [(path, Exclusive); (parent_or_root path, Shared)].
End setters.

(** The listing of a folder, when it is cached. *)
Definition upd_listing (dir : PathBuf) (f : list RemoteEntry → list RemoteEntry) (c : FsCache) : FsCache :=
  match dir_cache c !! dir with
  | Some d => put_entry c dir (FsCache.set_files d (f (d_files d)))
  | None => c
  end.
Definition without (path : PathBuf) (files : list RemoteEntry) : list RemoteEntry :=
  List.filter (λ e, negb (has_path path e)) files.
Definition with_file_cache (c : FsCache) (f : gmap PathBuf FileCacheEntry) : FsCache :=
  Build_FsCache (inodes c) (paths c) (next_inode c) (dir_cache c) (dir_cache_max_dirs c) (pending_dirs c) f
    (uploading c) (deleting c) (not_dirs c) (trackerignore_hidden c) (access_tick c).
Definition hide_trackerignore (c : FsCache) : FsCache :=
  Build_FsCache (inodes c) (paths c) (next_inode c) (dir_cache c) (dir_cache_max_dirs c) (pending_dirs c)
    (file_cache c) (uploading c) (deleting c) (not_dirs c) true (access_tick c).
Definition stop_deleting (path : PathBuf) (c : FsCache) : FsCache := with_guards c (uploading c) (deleting c ∖ {[path]}).
Definition stop_uploading (path : PathBuf) (c : FsCache) : FsCache := with_guards c (uploading c ∖ {[path]}) (deleting c).
Definition start_uploading (path : PathBuf) (c : FsCache) : FsCache := with_guards c ({[path]} ∪ uploading c) (deleting c).
Definition expire_listing (now : Instant) (dir : PathBuf) (c : FsCache) : FsCache :=
  match dir_cache c !! dir with
  | Some d => put_entry c dir
      (Build_DirCacheEntry (d_files d) (d_self_entry d) (d_etag d) (now - secs 11)%Z (d_fetched_at d) (d_refreshing d)
         (d_invalidated d) (d_hard_expired d) (d_expiry_retry_after d) (d_last_access d))
  | None => c
  end.

(** ** Open handles *)

(** The newest usable writer: the dirty handle with the highest number that has not failed. *)
(* lib.rs:1039-1047 newest_usable_writer *)
Definition newest_usable_writer (files : gmap nat OpenFile) (matching : nat → OpenFile → bool) : option (nat * OpenFile) :=
  foldl (λ best q,
    if dirty q.2 && negb (upload_failed q.2) && matching q.1 q.2
    then match best with Some b => if fst b <? q.1 then Some q else best | None => Some q end
    else best) None (map_to_list files).

(** A streaming handle knows its length; otherwise the staging file is measured. *)
(* lib.rs:1056-1062 staged_len *)
Definition staged_len (disk : Files) (o : OpenFile) : option Z :=
  match chunk_upload o, write_path o with
  | Some _, _ => Some (total_written o)
  | None, Some wp => (λ f, blen (lf_bytes f)) <$> disk !! wp
  | None, None => None
  end.

(* lib.rs:1031-1034 newest_staged_len *)
Definition newest_staged_len (disk : Files) (files : gmap nat OpenFile) (matching : nat → OpenFile → bool) : option Z :=
  newest_usable_writer files matching ≫= λ q, staged_len disk q.2.

Definition set_path (o : OpenFile) (p : PathBuf) : OpenFile :=
  {| remote_path := p; write_path := write_path o; dirty := dirty o; original_etag := original_etag o; total_written := total_written o;
     stream_eligible := stream_eligible o; chunk_upload := chunk_upload o; of_ino := of_ino o; io_kind := io_kind o;
     upload_failed := upload_failed o; created := created o; unlinked := unlinked o; opened_gen := opened_gen o;
     pin := pin o |}.
Definition set_unlinked (o : OpenFile) : OpenFile :=
  {| remote_path := remote_path o; write_path := write_path o; dirty := dirty o; original_etag := original_etag o; total_written := total_written o;
     stream_eligible := stream_eligible o; chunk_upload := chunk_upload o; of_ino := of_ino o; io_kind := io_kind o;
     upload_failed := upload_failed o; created := created o; unlinked := true; opened_gen := opened_gen o;
     pin := pin o |}.
(** A handle on a file a rename replaced: what it wrote went to a file that is gone. *)
(* lib.rs:9495-9504 rename *)
Definition displace (o : OpenFile) : OpenFile :=
  {| remote_path := remote_path o; write_path := write_path o; dirty := dirty o; original_etag := original_etag o; total_written := total_written o;
     stream_eligible := false; chunk_upload := chunk_upload o; of_ino := of_ino o; io_kind := io_kind o;
     upload_failed := upload_failed o; created := false; unlinked := true; opened_gen := opened_gen o;
     pin := Versions.freeze (pin o) |}.


Section mount.
Context {W : Type} (clock : W → Z) (mono : W → Instant).
Implicit Types m : Mount W.

Definition now m : Instant := mono (m_world m).
Definition now_system m : SystemTime := now_time clock (m_world m).
Definition log_world (w : W) m : Mount W := upd_core (λ s, set_world s w) m.
Definition note_error (path : PathBuf) (k : SyncErrorKind) (msg : string) m : Mount W :=
  upd_core (λ s, set_errors s (push_error (clock (r_world s)) path k msg (r_errors s))) m.
Definition enqueue_op (o : MutationOp) m : SeqId * Mount W :=
  let '(s, j) := enqueue (clock (m_world m)) o (m_journal m) in (s, upd_j (λ _, j) m).

(** After a conflicted copy the server's version is the one the next save is based on. *)
(* lib.rs:2845-2855 adopt_server_version *)
Definition adopt_server_version `{CloudBackend W} (path : PathBuf) m : Mount W :=
  let '(r, w) := list_dir path (m_world m) in
  let m := log_world w m in
  let m := upd_uploads (λ u, {| committed := committed u; gen := gen u;
      versions := match (match r with Ok (_, Some entry, _) => e_change_token entry | _ => None end) with
                  | Some tag => serve (versions u) path tag
                  | None => unknown (versions u) path
                  end |}) m in
  upd_cache (expire_listing (now m) (parent_or_root path)) m.

Lemma submit_spec ps j m : m_core (submit_mutation ps j m) = m_core m ∧
  m_jobs (submit_mutation ps j m) = m_jobs m ++ [((PathSeq.ticket (m_seq m) ps).1, j)].
Proof. unfold submit_mutation. by destruct (PathSeq.ticket _ _). Qed.

(** The same as far as what is left for the server goes. *)
Definition same_queue m1 m2 : Prop :=
  m_journal m1 = m_journal m2 ∧ m_jobs m1 = m_jobs m2 ∧ m_offline m1 = m_offline m2 ∧ m_seq m1 = m_seq m2.
End mount.
