(* ===== verification/Lookup.v ===== *)
(** [lib.rs]: the requests that answer from a directory's listing: lookup, getattr and the
    extended attributes, and [parent_listing], which finds the listing to answer from.

    [parent_listing] is cut into stretches as [Listing]'s readers are, and runs one inside.
    A handler is the stretch before it and the stretch after it. *)
From Stdlib Require Import Ascii String.
From S2P Require Import Prelude Paths Backend Errors FsCache Versions AppLocks Attr Journal Replay ChunkUpload IoMode Mount Listing.
From S2P Require Backoff.
Local Open Scope Z_scope.

(** ** The parent's listing *)

Inductive PPc :=
| PLook
| PList (pc : Pc)
| PRecheck (e : string)
| PStarted (files : list RemoteEntry)
| PWait (files : list RemoteEntry) (deadline : Instant)
| PEnd (r : result (list RemoteEntry) (option string)).

Definition has (name : string) (files : list RemoteEntry) : bool :=
  existsb (λ e, bool_decide (file_name (e_path e) = Some name)) files.

Section parent.
Context (ti : bool) (i : Inp) (dir : PathBuf) (want : option string).
Implicit Types st : LState.

(* lib.rs:6381-6383 parent_listing *)
Definition look_section st : PPc * LState :=
  let '(r, c) := get_cached_dir_readonly (l_cache st) dir in
  (match r with Some files => PEnd (Ok files) | None => PList Start end, upd_lcache (λ _, c) st).

(* lib.rs:6384-6398 parent_listing *)
Definition got_listing (r : result Listing string) : PPc :=
  match r with
  | Ok (files, _) =>
      match want with
      | None => PEnd (Ok files)
      | Some name => if has name files then PEnd (Ok files) else PStarted files
      end
  | Err e => PRecheck e
  end.

(** A listing may have landed meanwhile. *)
(* lib.rs:6389-6389 parent_listing *)
Definition recheck_section (e : string) st : PPc * LState :=
  let '(r, c) := get_cached_dir_readonly (l_cache st) dir in
  (match r with Some files => PEnd (Ok files) | None => PEnd (Err (Some e)) end, upd_lcache (λ _, c) st).

(* lib.rs:6400-6419 parent_listing *)
Definition wait_section (name : string) (files : list RemoteEntry) (deadline : Instant) st : PPc * LState :=
  let '(r, c) := get_cached_dir_readonly (l_cache st) dir in
  let st := upd_lcache (λ _, c) st in
  match r with
  | Some done => (PEnd (Ok done), st)
  | None =>
      let '(r, c) := get_pending_snapshot (l_cache st) ti (i_now i) (i_wall i) dir in
      let st := upd_lcache (λ _, c) st in
      match r with
      | Ok (Some partial) =>
          if has name partial then (PEnd (Ok partial), st)
          else (if deadline <=? i_now i then PEnd (Ok files) else PWait files deadline, st)
      | Ok None => (PEnd (Ok files), st)
      | Err e => (PEnd (Err (Some e)), st)
      end
  end.

(** One stretch; the flag: a background refresh was queued. *)
(* lib.rs:6380-6420 parent_listing *)
Definition parent_listing (p : PPc) st : PPc * LState * bool :=
  match p with
  | PLook => (look_section st, false)
  | PList pc =>
      let '(pc, st, q) := advance ti i dir pc st in
      (match pc with Done r => got_listing r | _ => PList pc end, st, q)
  | PRecheck e => (recheck_section e st, false)
  | PStarted files => ((PWait files (i_now i + PROPFIND_TIMEOUT), st), false)
  | PWait files d => match want with Some name => (wait_section name files d st, false) | None => ((PEnd (Ok files), st), false) end
  | PEnd r => ((PEnd r, st), false)
  end.
End parent.

(** [relist_if_missing] is the same without a name. *)
(* lib.rs:6367-6369 relist_if_missing *)
Definition relist_if_missing (r : result (list RemoteEntry) (option string)) : option (list RemoteEntry) := result_ok r.

(** ** Attributes *)

Definition TTL : Duration := secs 30.

(** What a request for attributes is answered: how long the kernel may keep it. *)
Inductive AttrReply := RAttr (ttl : Duration) (a : FileAttr) | RError (e : Errno).

Section handlers.
Context {W : Type} (mono : W → Instant) (honor_locks : bool).
Implicit Types m : Mount W.

(* lib.rs:1025-1027 live_write_size *)
Definition live_write_size m (ino : nat) : option Z :=
  newest_staged_len (files (disk (m_journal m))) (m_files m) (λ _ o, (of_ino o =? ino)%nat).

(* lib.rs:1075-1087 overlay_live_size *)
Definition overlay_live_size m (attr : FileAttr) : FileAttr * bool :=
  match at_kind attr with
  | RegularFile =>
      match live_write_size m (at_ino attr) with
      | Some size =>
          ({| at_ino := at_ino attr; at_size := size; at_blocks := (size + 511) / 512; at_mtime := at_mtime attr;
              at_kind := at_kind attr; at_perm := at_perm attr; at_nlink := at_nlink attr |}, true)
      | None => (attr, false)
      end
  | Directory => (attr, false)
  end.
Definition attr_reply m (attr : FileAttr) : AttrReply :=
  let '(attr, live) := overlay_live_size m attr in RAttr (if live then 0 else TTL) attr.
Definition ghost_fresh m (g : GhostEntry) : bool := (sat_sub (Mount.now mono m) (g_created_at g) <? GHOST_TTL)%Z.

(** [Inr]: the handler needs the parent's listing. *)
(* lib.rs:6941-6969 lookup *)
Definition lookup_start (exclude_folders : gset PathBuf) (parent : nat) (name : option string) m :
    (AttrReply + PathBuf * string) * Mount W :=
  match get_path (m_cache m) parent, name with
  | Some parent_path, Some name =>
      let full_path := join parent_path [name] in
      if bool_decide (full_path ∈ exclude_folders) then (inl (RError Errors.ENOENT), m)
      else
        match (match m_ghosts m !! full_path with Some g => if ghost_fresh m g then Some (g_kind g) else None | None => None end) with
        | Some HiddenAdd => (inl (RError Errors.ENOENT), m)
        | Some (VisibleDelete attr) => (inl (RAttr 0 attr), m)
        | None => (inr (parent_path, name), with_ghosts (delete full_path (m_ghosts m)) m)
        end
  | _, _ => (inl (RError Errors.ENOENT), m)
  end.

Definition detail_of (e : RemoteEntry) : FileDetail :=
  {| fd_permissions := ext_str (e_ext e) "permissions"; fd_owner_id := ext_str (e_ext e) "owner_id";
     fd_owner_display_name := ext_str (e_ext e) "owner_display_name"; fd_size := e_size e; fd_is_dir := e_is_dir e |}.

(* lib.rs:6971-7012 lookup *)
Definition lookup_finish (parent_path : PathBuf) (name : string) (r : result (list RemoteEntry) (option string)) m :
    AttrReply * Mount W :=
  match r with
  | Err e => (RError (relist_errno e), m)
  | Ok entries =>
      match find (has_name name) entries with
      | None => (RError Errors.ENOENT, m)
      | Some entry =>
          let target_path := join parent_path [name] in
          let '(ino, c) := allocate_inode (m_cache m) target_path in
          let m := upd_cache (λ _, c) m in
          let reply := attr_reply m (make_file_attr honor_locks (m_locks m) ino entry) in
          let m := upd_maps
            (λ s, if ext_flag (e_ext entry) "is_shared" then {[target_path]} ∪ s else s)
            (λ f, match ext_int (e_ext entry) "fileid" with Some fid => <[target_path := fid]> f | None => f end)
            (λ d, <[target_path := detail_of entry]> d)
            (λ ch, match Paths.parent target_path with
                   | Some p => partial_alter (λ o, Some ({[target_path]} ∪ default ∅ o)) p ch
                   | None => ch end) m in
          (reply, if e_is_dir entry then m
                  else upd_status (λ s, match s !! target_path with Some _ => s | None => <[target_path := Remote]> s end) m)
      end
  end.

(** The listing [getattr] answers from: the parent's cached one, or a fetch is needed. *)
(* lib.rs:7016-7064 getattr *)
Definition getattr_start (ino : nat) m : (AttrReply + PathBuf * list RemoteEntry + PathBuf) * Mount W :=
  if (ino =? 1)%nat then (inl (inl (RAttr TTL root_attr)), m)
  else match get_path (m_cache m) ino with
  | None =>
      (inl (inl (match m_displaced m !! ino with
                 | Some attr => RAttr 0 (overlay_live_size m attr).1
                 | None => RError Errors.ENOENT
                 end)), m)
  | Some path =>
      match (match m_ghosts m !! path with Some g => if ghost_fresh m g then Some (g_kind g) else None | None => None end) with
      | Some (VisibleDelete attr) => (inl (inl (RAttr 0 attr)), m)
      | _ =>
          let '(r, c) := get_cached_dir_readonly (m_cache m) (parent_or_root path) in
          let m := upd_cache (λ _, c) m in
          match r with
          | Some files => (inl (inr (path, files)), m)
          | None =>
              if bool_decide (is_Some (dir_cache c !! path)) || bool_decide (path = root)
              then (inl (inl (RAttr TTL (make_dir_attr ino))), m)
              else (inr path, m)
          end
      end
  end.

(* lib.rs:7065-7090 getattr *)
Definition getattr_finish (ino : nat) (path : PathBuf) (r : result (list RemoteEntry) (option string)) m : AttrReply :=
  match r with
  | Err e => RError (relist_errno e)
  | Ok entries =>
      match find (has_name (default ""%string (file_name path))) entries with
      | Some entry => attr_reply m (make_file_attr honor_locks (m_locks m) ino entry)
      | None => RError Errors.ENOENT
      end
  end.

(** ** Extended attributes *)

Inductive XReply := XSize (n : Z) | XData (bytes : string) | XNoData | XNoEntry | XRange.

(** The protocol of a caller that asks for the size first. *)
(* lib.rs:7119-7127 getxattr *)
Definition sized (size : Z) (data : string) : XReply :=
  let n := Z.of_nat (String.length data) in
  if size =? 0 then XSize n else if n <=? size then XData data else XRange.

Definition entry_of (path : PathBuf) (r : result (list RemoteEntry) (option string)) : option RemoteEntry :=
  relist_if_missing r ≫= find (has_name (default ""%string (file_name path))).

(** [serves]: an enabled desktop profile probes this attribute. *)
(* lib.rs:7093-7130 getxattr *)
Definition getxattr (serves : bool) (ino : nat) (size : Z) (r : result (list RemoteEntry) (option string)) m : XReply :=
  if negb serves then XNoData
  else match get_path (m_cache m) ino with
       | None => XNoEntry
       | Some path =>
           match entry_of path r ≫= e_content_type with
           | Some ct => sized size ct
           | None => XNoData
           end
       end.

Definition NUL : string := String (ascii_of_nat 0) EmptyString.
(** [list.split(|b| *b == 0)]. *)
Fixpoint split_nul (s : string) : list string :=
  match s with
  | EmptyString => [""%string]
  | String c s' =>
      if Ascii.eqb c (ascii_of_nat 0) then ""%string :: split_nul s'
      else match split_nul s' with x :: l => String c x :: l | [] => [String c ""%string] end
  end.
(* lib.rs:7149-7154 listxattr *)
Definition add_probe (list name : string) : string :=
  if bool_decide (name ∈ split_nul list) then list else (list +:+ name +:+ NUL)%string.

(** [probes]: the attributes the enabled profiles probe. *)
(* lib.rs:7132-7164 listxattr *)
Definition listxattr (probes : list string) (ino : nat) (size : Z) (r : result (list RemoteEntry) (option string)) m : XReply :=
  match get_path (m_cache m) ino with
  | None => XNoEntry
  | Some path =>
      match relist_if_missing r with
      | None => if size =? 0 then XSize 0 else XData ""
      | Some _ =>
          sized size (match entry_of path r ≫= e_content_type with
                      | Some _ => foldl add_probe "" probes
                      | None => ""
                      end)
      end
  end.
End handlers.

(** ** Theorems *)

Lemma readonly_listed c path r c' :
  get_cached_dir_readonly c path = (r, c') →
  match r with
  | Some files => listed (λ _, True) c path files
  | None => dir_cache c !! path = None ∧ c' = c
  end.
Proof.
  unfold get_cached_dir_readonly. destruct (dir_cache c !! path) as [e|] eqn:E; intros [= <- <-]; [by exists e|done].
Qed.

(** Why a listing that lacks the name is answered from: it is the one held, the fetch it
    came from is no longer pending, or the wait is over. *)
Definition settles (i : Inp) (dir : PathBuf) (p : PPc) (st st' : LState) (files : list RemoteEntry) : Prop :=
  listed (λ _, True) (l_cache st) dir files ∨
  match p with
  | PWait partial d => files = partial ∧ (pending_dirs (l_cache st') !! dir = None ∨ d ≤ i_now i ∨
      (∃ id g, owner st dir id g ∧ fe_sent g = []))
  | _ => False
  end.


(** The listing broke off after one entry and another reader was told: the name that was
    still to come is called absent. *)
Lemma absent_after_failure :
  let w := acts true ex_streaming ([ARead 0; AReturn 0 (Err (RTruncated "")); ANote 0; AReport 0; ACall ex_dir] ++ replicate 6 (ARead 1)) in
  let i := Build_Inp 0 0 0 true (Ok None) in
  reader_of w 0 = Some (Listing.Done (Ok ([ex_entry], None))) ∧
  reader_of w 1 = Some (Listing.Done (Err (render (RTruncated "")))) ∧
  (parent_listing true i ex_dir (Some "g"%string) (PWait [ex_entry] 15) (w_st w)).1.1 = PEnd (Ok [ex_entry]).
Proof. by vm_compute. Qed.


Section coherent.
Context {W : Type} (mono : W → Instant) (honor_locks : bool).
Implicit Types m : Mount W.

(** getattr on an inode whose parent's listing is cached. *)
Definition getattr (ino : nat) m : AttrReply :=
  match (getattr_start mono ino m).1 with
  | inl (inl r) => r
  | inl (inr (path, files)) => getattr_finish honor_locks ino path (Ok files) m
  | inr _ => RError EAGAIN
  end.

Lemma allocate_path c path : inode_wf c → get_path (allocate_inode c path).2 (allocate_inode c path).1 = Some path.
Proof.
  intros [Hb _]. unfold allocate_inode, get_path. destruct (paths c !! path) as [ino|] eqn:E; cbn; [by apply Hb|].
  by rewrite lookup_insert_eq.
Qed.
Lemma allocate_keeps c path i p : inode_wf c → inodes c !! i = Some p → inodes (allocate_inode c path).2 !! i = Some p.
Proof.
  intros [_ Hn] Hi. unfold allocate_inode. destruct (paths c !! path); cbn; [done|].
  rewrite lookup_insert_ne; [done|]. apply Hn in Hi. lia.
Qed.
Lemma allocate_dirs c path : dir_cache (allocate_inode c path).2 = dir_cache c.
Proof. unfold allocate_inode. by destruct (paths c !! path). Qed.

(** What the attributes of an entry depend on. *)
Lemma attr_reply_same m m' a : m_files m' = m_files m → disk (m_journal m') = disk (m_journal m) → attr_reply m' a = attr_reply m a.
Proof. intros H1 H2. unfold attr_reply, overlay_live_size, live_write_size. by rewrite H1, H2. Qed.

Lemma attr_reply_ino m a ttl b : attr_reply m a = RAttr ttl b → at_ino b = at_ino a ∧ at_kind b = at_kind a.
Proof.
  unfold attr_reply, overlay_live_size. destruct (at_kind a) eqn:E; [by intros [= _ <-]|].
  destruct (live_write_size m (at_ino a)); by intros [= _ <-].
Qed.

(** What lookup tells the kernel holds.  The inode it hands out for a listed name is that
    path's and no other's, old inodes keep theirs; asked at once for the attributes of that
    inode, getattr answers the same block with the same lifetime; and both report the size of
    bytes written here and not yet sent, never to be cached, instead of the server's. *)
Theorem lookup_then_getattr m parent_path name entries ttl a m' e :
  inode_wf (m_cache m) → inodes (m_cache m) !! 1%nat = Some root →
  lookup_finish honor_locks parent_path name (Ok entries) m = (RAttr ttl a, m') →
  dir_cache (m_cache m) !! parent_path = Some e → d_files e = entries →
  m_ghosts m !! join parent_path [name] = None →
  get_path (m_cache m') (at_ino a) = Some (join parent_path [name]) ∧ inode_wf (m_cache m') ∧
  (∀ i p, get_path (m_cache m) i = Some p → get_path (m_cache m') i = Some p) ∧
  getattr (at_ino a) m' = RAttr ttl a ∧
  (at_kind a = RegularFile → ∀ size, live_write_size m (at_ino a) = Some size → at_size a = size ∧ ttl = 0).
Proof.
  intros Hwf Hroot H He Hf Hg. unfold lookup_finish in H. destruct (find (has_name name) entries) as [entry|] eqn:Efind; [|done].
  set (target := join parent_path [name]) in *.
  pose proof (allocate_path (m_cache m) target Hwf) as Hpath. pose proof (allocate_inode_wf (m_cache m) target Hwf) as Hwf'.
  pose proof (λ i p, allocate_keeps (m_cache m) target i p Hwf) as Hkeep. pose proof (allocate_dirs (m_cache m) target) as Hdirs.
  destruct (allocate_inode (m_cache m) target) as [ino c]. cbn [fst snd] in *.
  set (m1 := upd_cache (λ _, c) m) in *. set (attr := make_file_attr honor_locks (m_locks m1) ino entry) in *.
  assert (Hm' : m_cache m' = c ∧ m_files m' = m_files m ∧ m_ghosts m' = m_ghosts m ∧ m_locks m' = m_locks m ∧
    disk (m_journal m') = disk (m_journal m)) by (injection H as _ <-; by destruct (e_is_dir entry)).
  destruct Hm' as (Hc & Hfi & Hgh & Hlo & Hdi).
  assert (Hr : attr_reply m1 attr = RAttr ttl a) by (injection H as H _; done). clear H.
  assert (Hino : at_ino a = ino).
  { by apply attr_reply_ino in Hr as [-> _]. }
  assert (Hne : (ino =? 1)%nat = false).
  { apply Nat.eqb_neq. intros ->. apply Hkeep in Hroot. unfold get_path in Hpath. rewrite Hroot in Hpath. injection Hpath as Hpath.
    unfold target, join, root in Hpath. by destruct parent_path. }
  rewrite Hc, Hino. split_and!; [done|done|done| |].
  - unfold getattr, getattr_start. rewrite Hne. rewrite Hc. rewrite Hpath. rewrite Hgh, Hg.
    assert (Hpar : parent_or_root target = parent_path) by (unfold parent_or_root, target, join; by rewrite Naming.parent_snoc).
    rewrite Hpar. unfold get_cached_dir_readonly. rewrite Hdirs, He. unfold next_access_tick. cbn [fst snd getattr_finish].
    assert (Hname : default ""%string (file_name target) = name) by (unfold file_name, target, join; by rewrite last_snoc).
    rewrite Hname, Hf, Efind, Hlo. change (m_locks m) with (m_locks m1). rewrite <- Hr.
    by apply attr_reply_same.
  - intros Hk size Hl. rewrite (proj2 (attr_reply_ino _ _ _ _ Hr)) in Hk. revert Hr. unfold attr_reply, overlay_live_size.
    assert (Hl1 : live_write_size m1 (at_ino attr) = Some size) by exact Hl.
    by rewrite Hk, Hl1; intros [= <- <-].
Qed.
End coherent.

(** *** The attributes' protocol *)

Lemma split_nul_app (a b : string) : (∀ c, c ∈ list_ascii_of_string a → c ≠ ascii_of_nat 0) →
  split_nul (a +:+ NUL +:+ b) = a :: split_nul b.
Proof.
  induction a as [|c a IH]; intros H; [done|].
  change (String c a +:+ NUL +:+ b)%string with (String c (a +:+ NUL +:+ b)). cbn [split_nul].
  assert (Hc : Ascii.eqb c (ascii_of_nat 0) = false) by (apply Ascii.eqb_neq, H; left).
  rewrite Hc, IH; [done|]. intros d Hd. apply H. by right.
Qed.

(** Names without repetition, by first occurrence, onto those listed. *)
Definition add_new (l : list string) (n : string) : list string := if bool_decide (n ∈ l) then l else l ++ [n].
Definition nul_list (l : list string) : string := foldr (λ n s, n +:+ NUL +:+ s)%string ""%string l.
Definition plain_name (n : string) : Prop := n ≠ ""%string ∧ ∀ c, c ∈ list_ascii_of_string n → c ≠ ascii_of_nat 0.

Lemma nul_list_cons n l : nul_list (n :: l) = (n +:+ NUL +:+ nul_list l)%string.
Proof. done. Qed.

Lemma split_nul_list l : Forall plain_name l → split_nul (nul_list l) = l ++ [""%string].
Proof. induction 1 as [|n l [_ Hn] _ IH]; [done|]. rewrite nul_list_cons, split_nul_app by done. by rewrite IH. Qed.

Lemma string_app_nil (n : string) : (n +:+ NUL +:+ "" = "" +:+ n +:+ NUL)%string.
Proof. done. Qed.
Lemma nul_list_snoc l n : nul_list (l ++ [n]) = (nul_list l +:+ n +:+ NUL)%string.
Proof.
  induction l as [|x l IH].
  - cbn [app]. rewrite nul_list_cons. change (nul_list []) with ""%string. by rewrite string_app_nil.
  - change ((x :: l) ++ [n]) with (x :: (l ++ [n])). by rewrite !nul_list_cons, IH, !string_app_assoc.
Qed.

Lemma add_probes probes l : Forall plain_name probes → Forall plain_name l →
  foldl add_probe (nul_list l) probes = nul_list (foldl add_new l probes).
Proof.
  intros Hp. revert l. induction Hp as [|n probes Hn _ IH]; intros l Hl; [done|]. cbn [foldl].
  assert (E : add_probe (nul_list l) n = nul_list (add_new l n)).
  { unfold add_probe, add_new. rewrite split_nul_list by done. destruct Hn as [Hn _].
    assert (n ∈ l ++ [""%string] ↔ n ∈ l) as Hiff.
    { rewrite elem_of_app. split; [intros [?|?%list_elem_of_singleton]; done|by left]. }
    rewrite (bool_decide_ext _ _ Hiff). case_bool_decide; [done|]. by rewrite nul_list_snoc. }
  rewrite E. apply IH. unfold add_new. case_bool_decide; [done|]. apply Forall_app. by split; [|constructor].
Qed.

(** The size-then-data protocol of listxattr works: for a listed file with a content type
    the answer to size 0 is the length of the list, a buffer at least that long gets the
    list, a shorter one ERANGE; and the list parses back, at its NULs, into the attributes
    the enabled profiles probe, each once, in their order. *)
Theorem listxattr_roundtrip {W : Type} probes ino path entries entry (m : Mount W) :
  Forall plain_name probes → get_path (m_cache m) ino = Some path →
  find (has_name (default ""%string (file_name path))) entries = Some entry → is_Some (e_content_type entry) →
  ∃ data, listxattr probes ino 0 (Ok entries) m = XSize (Z.of_nat (String.length data)) ∧
    split_nul data = foldl add_new [] probes ++ [""%string] ∧
    ∀ size, 0 < size → listxattr probes ino size (Ok entries) m =
      if Z.of_nat (String.length data) <=? size then XData data else XRange.
Proof.
  intros Hp Hpath Hf [ct Hct]. exists (foldl add_probe ""%string probes).
  assert (Hl : ∀ size, listxattr probes ino size (Ok entries) m = sized size (foldl add_probe ""%string probes)).
  { intros size. unfold listxattr, entry_of, relist_if_missing. rewrite Hpath. cbn. rewrite Hf. cbn. by rewrite Hct. }
  split_and!.
  - by rewrite Hl.
  - change ""%string with (nul_list []) at 1. rewrite add_probes by done. apply split_nul_list.
    assert (H : ∀ l, Forall plain_name l → Forall plain_name (foldl add_new l probes)); [|by apply H].
    clear -Hp. induction Hp as [|n probes Hn _ IH]; intros l Hl; [done|]. apply IH. unfold add_new.
    case_bool_decide; [done|]. apply Forall_app. by split; [|constructor].
  - intros size Hs. rewrite Hl. unfold sized. by rewrite (proj2 (Z.eqb_neq size 0)) by lia.
Qed.

(** A mount whose root lists one file, being written through an open handle. *)
Definition ex_root_entry : RemoteEntry :=
  {| e_path := ["f"%string]; e_is_dir := false; e_size := 3; e_modified := None; e_change_token := Some "t"%string;
     e_content_type := Some "text/plain"%string; e_ext := ext_default |}.
Definition ex_root_cache : FsCache :=
  put_dir_cache (Build_FsCache {[1%nat := root]} {[root := 1%nat]} 2 ∅ 0 ∅ ∅ ∅ ∅ ∅ false 0) false 0 0 root None None [ex_root_entry].
Definition ex_handle : OpenFile :=
  {| remote_path := ["f"%string]; write_path := Some ["w"%string]; dirty := true; original_etag := None; total_written := 0;
     stream_eligible := false; chunk_upload := None; of_ino := 2; io_kind := KCached; upload_failed := false; created := false;
     unlinked := false; opened_gen := 0; pin := {| pin_etag := None; pin_frozen := false |} |}.
Definition ex_mount : Mount unit :=
  let d := Build_Disk (Some []) None {[ ["w"%string] := Build_LocalFile [Byte.x40; Byte.x41] 0 ]} true in
  Build_Mount (Build_RState (load_or_create 0 ["cache"%string] d) ex_root_cache ∅ ∅ [] tt)
    ∅ ∅ ∅ ∅ ∅ {[1%nat := ex_handle]} 2 ∅ no_uploads ∅ ∅ false PathSeq.init [].

(** The file shows the two bytes written, not the three the server lists. *)
Lemma lookup_then_getattr_witness :
  ∃ a m', lookup_finish true [] "f"%string (Ok [ex_root_entry]) ex_mount = (RAttr 0 a, m') ∧ at_size a = 2 ∧
    getattr (λ _, 0) true 2 m' = RAttr 0 a.
Proof.
  assert (Hwf : inode_wf (m_cache ex_mount)).
  { split; intros i p; unfold ex_mount, m_cache, ex_root_cache; cbn.
    - change (<[[]:=1%nat]> ∅ !! p) with (({[root := 1%nat]} : gmap PathBuf nat) !! p). rewrite !lookup_singleton_Some. naive_solver.
    - rewrite lookup_singleton_Some. intros [<- _]. lia. }
  destruct (lookup_finish true [] "f"%string (Ok [ex_root_entry]) ex_mount) as [r m'] eqn:E.
  assert (Hr : ∃ a, r = RAttr 0 a ∧ at_ino a = 2%nat ∧ at_size a = 2).
  { apply (f_equal fst) in E. vm_compute in E. subst r. by eexists. }
  destruct Hr as (a & -> & Hino & Hs). exists a, m'. split_and!; [done|done|].
  destruct (lookup_then_getattr (λ _ : unit, 0) true ex_mount [] "f"%string [ex_root_entry] 0 a m'
    (Build_DirCacheEntry [ex_root_entry] None None 0 0 false false false None 0)) as (_ & _ & _ & H & _);
    [exact Hwf|done|exact E|by vm_compute|done|done|]. by rewrite Hino in H.
Defined.

Definition ex_typed : RemoteEntry :=
  {| e_path := []; e_is_dir := true; e_size := 0; e_modified := None; e_change_token := None;
     e_content_type := Some "x"%string; e_ext := ext_default |}.
Lemma listxattr_roundtrip_witness :
  ∃ data, listxattr ["user.mime"%string; "user.mime"%string] 1 0 (Ok [ex_typed]) ex_mount =
    XSize (Z.of_nat (String.length data)) ∧ split_nul data = ["user.mime"; ""]%string.
Proof.
  assert (Hp : plain_name "user.mime"%string).
  { split; [done|]. intros c Hc. vm_compute in Hc. set_unfold. naive_solver. }
  destruct (listxattr_roundtrip ["user.mime"%string; "user.mime"%string] 1 [] [ex_typed] ex_typed ex_mount) as (data & H1 & H2 & _).
  - exact (Forall_cons_2 _ _ _ Hp (Forall_cons_2 _ _ _ Hp (Forall_nil_2 _))).
  - by vm_compute.
  - by vm_compute.
  - by eexists.
  - exists data. split; [exact H1|]. rewrite H2. by vm_compute.
Defined.
