(* ===== verification/LiveUpload.v ===== *)
(** [lib.rs], saving a file: flush(), release(), what release() commits, and the job that
    uploads it.

    release() queues the save in the journal and, online, leaves a [JPut] or [JFinish] job.
    The job claims its entry, asks the journal where the bytes go ([settle_live_upload]),
    sends them and settles the entry by the answer.  While it waits and while the bytes are
    on the wire the rest of the mount goes on: [waits] and [during] are what it does then. *)
From S2P Require Import Prelude Paths Naming Backend Server FsCache Journal Replay ChunkUpload Versions AppLocks Attr IoMode PathSeq Mount.

(** Where the copies the cache keeps are, and which are kept. *)
Class KeepConfig := {
  auto_keep_locally_modified_files : bool;
  kept_dir : PathBuf;
  auto_cache_dir : PathBuf;
}.

Section uploads.
Context {W : Type} `{CloudBackend W} (clock : W → Z) (mono : W → Instant) `{KeepConfig}.
Implicit Types m : Mount W.
Local Abbreviation now := (Mount.now mono).
Local Abbreviation now_system := (Mount.now_system clock).
Local Abbreviation note_error := (Mount.note_error clock).
Local Abbreviation enqueue_op := (Mount.enqueue_op clock).
Local Abbreviation adopt_server_version := (Mount.adopt_server_version mono).

Definition staged m : Files := files (disk (m_journal m)).
Definition set_online (b : bool) m : Mount W :=
  Build_Mount (m_core m) (m_displaced m) (m_shared m) (m_fileids m) (m_details m) (m_children m) (m_files m)
    (m_next_fh m) (m_io m) (m_uploads m) (m_ghosts m) (m_locks m) (negb b) (m_seq m) (m_jobs m).
Definition put_status (path : PathBuf) (s : FileStatus) : Mount W → Mount W := upd_status (<[path := s]>).
(** The listing shows the file with its new length and time. *)
Definition show_size (path : PathBuf) (size : Z) (mtime : SystemTime) : Mount W → Mount W :=
  upd_cache (upd_listing (parent_or_root path) (update_first (has_path path) (λ e, with_size e size mtime))).
Definition drop_file (p : PathBuf) : Mount W → Mount W := upd_j (λ j, remove_file j p).

(** ** The job of a save *)

(** [waits]: what the rest of the mount does while the job sleeps between two polls; it gives
    up after the last ([SETTLE_WAIT]). *)
(* lib.rs:2627-2648 settle_live_upload *)
Fixpoint settle_live_upload (waits : list (Mount W → Mount W)) (s : SeqId) (started_as : PathBuf)
    (if_match : option Etag) m : option (PathBuf * option Etag) * Mount W :=
  let '(settled, j) := settle_upload s started_as if_match (m_journal m) in
  let m := upd_j (λ _, j) m in
  match settled with
  | Go path etag => (Some (path, etag), m)
  | Wait =>
      match waits with
      | others :: waits => settle_live_upload waits s started_as if_match (others m)
      | [] => (None, upd_j (mark_deferred s (MText "an earlier change to the same file did not finish")) m)
      end
  | Deferred | SWithdrawn => (None, m)
  end.

(** A superseded or replayed save leaves its guard to whichever upload is still queued. *)
(* lib.rs:6137-6145 commit_released *)
Definition put_start (u : Upload) m : option (option Etag) * Mount W :=
  let '(ok, j) := claim (u_seq u) (m_journal m) in
  if ok then (Some (etag_for (m_uploads m) (u_path u) (u_gen u) (u_etag u)), upd_j (λ _, j) m)
  else (None, if has_pending_put (u_path u) (m_journal m) then m else upd_cache (stop_uploading (u_path u)) m).

(* lib.rs:6164-6185 commit_released *)
Definition put_withdrawn (u : Upload) (remote_path : PathBuf) m : Mount W :=
  let current := op_path ∘ op <$> find (has_seq (u_seq u)) (entries (m_journal m)) in
  let deferred := bool_decide (is_Some current) in
  let remote_path := default remote_path current in
  let stop p m := if deferred || negb (has_pending_put p (m_journal m)) then upd_cache (stop_uploading p) m else m in
  let m := stop remote_path (stop (u_path u) m) in
  if deferred then put_status remote_path PendingSync m else m.

(** The server's new version, wherever the mount remembers one. *)
(* lib.rs:6186-6212 commit_released *)
Definition put_recorded (u : Upload) (remote_path : PathBuf) (token : option Etag) m : Mount W :=
  let m := upd_uploads (λ o, record o remote_path token) (upd_cache (stop_uploading remote_path) m) in
  let m := upd_cache (λ c, expire_listing (now m) (parent_or_root remote_path)
             (upd_listing (parent_or_root remote_path)
                (update_first (has_path remote_path) (landed_entry token (u_size u) (u_mtime u))) c)) m in
  upd_files (alter (λ o, {| remote_path := Mount.remote_path o; write_path := write_path o; dirty := false;
      original_etag := token; total_written := total_written o; stream_eligible := stream_eligible o;
      chunk_upload := chunk_upload o; of_ino := of_ino o; io_kind := io_kind o; upload_failed := upload_failed o;
      created := created o; unlinked := unlinked o; opened_gen := opened_gen o; pin := pin o |}) (u_fh u)) (λ d, d) m.

Definition pinned (path : PathBuf) m : bool :=
  match file_cache (m_cache m) !! path with Some e => fc_kept e | None => false end.
Definition keep_path (path : PathBuf) m : PathBuf := join (if pinned path m then kept_dir else auto_cache_dir) path.
Definition put_copy (path keep : PathBuf) (mtime : SystemTime) (token : option Etag) (size : Z) m : Mount W :=
  let k := pinned path m in
  put_status path (if k then Kept else Replay.Cached)
    (upd_cache (λ c, with_file_cache c (<[path := Build_FileCacheEntry keep (Some mtime) token k size]> (file_cache c))) m).
Definition move_file (from to : PathBuf) (f : LocalFile) : Mount W → Mount W :=
  upd_j (λ j, set_files j (<[to := f]> (delete from (files (disk j))))).
Definition copy_file (to : PathBuf) (f : LocalFile) : Mount W → Mount W :=
  upd_j (λ j, set_files j (<[to := f]> (files (disk j)))).

(** The saved bytes become the file's local copy: by a rename where nothing else needs the
    staging file, else by a copy. [rename_ok], [copy_ok]: what the file system answers. *)
(* lib.rs:6229-6267 commit_released *)
Definition keep_saved (rename_ok copy_ok handed : bool) (u : Upload) (path : PathBuf) (token : option Etag) m : Mount W :=
  let source := staged m !! u_staging u in
  let drop m := if handed then m else drop_file (u_staging u) m in
  if auto_keep_locally_modified_files || pinned path m then
    let keep := keep_path path m in
    match source with
    | Some f =>
        if negb handed && rename_ok then
          put_copy path keep (u_mtime u) token (u_size u) (move_file (u_staging u) keep f m)
        else if copy_ok then
          drop (put_copy path keep (u_mtime u) token (u_size u) (copy_file keep f m))
        else drop (put_status path Synced m)
    | None => drop (put_status path Synced m)
    end
  else drop (put_status path Synced m).

(* lib.rs:6186-6270 commit_released *)
Definition put_landed (rename_ok copy_ok : bool) (u : Upload) (path : PathBuf) (sent : option Etag) (r : PutResult) m : Mount W :=
  let m := put_recorded u path (new_change_token r) m in
  let '(handed, j) := hand_staging_to_rename path (u_staging u) (m_journal m) in
  let m := upd_j (λ _, rebase path sent (new_change_token r) (remove (u_seq u) j)) m in
  let m := keep_saved rename_ok copy_ok handed u path (new_change_token r) m in
  upd_core (mark_dirty [path; parent_or_root path]) m.

Definition retry_later (s : SeqId) (e : BackendWriteError) : Mount W → Mount W :=
  upd_j (if is_transient e then mark_deferred s (MWrite e) else mark_failed s (MWrite e)).

(* lib.rs:6271-6303 commit_released *)
Definition put_conflicted (u : Upload) (path : PathBuf) m : Mount W :=
  let m := upd_cache (stop_uploading path) m in
  let copy := make_conflict_name (now_secs clock (m_world m)) path in
  let '(r, w) := put_file_from_path (staged m) copy (u_staging u) None (m_world m) in
  let m := log_world w m in
  let m := match r with
    | Ok _ =>
        let m := note_error path KConflict "Server version changed - conflicted copy created" m in
        let m := upd_status (delete path) (adopt_server_version path m) in
        let m := upd_files (alter (λ o, {| remote_path := remote_path o; write_path := write_path o; dirty := false;
            original_etag := original_etag o; total_written := total_written o; stream_eligible := stream_eligible o;
            chunk_upload := chunk_upload o; of_ino := of_ino o; io_kind := io_kind o; upload_failed := upload_failed o;
            created := created o; unlinked := unlinked o; opened_gen := opened_gen o; pin := pin o |}) (u_fh u)) (λ d, d) m in
        drop_file (u_staging u) (upd_j (remove (u_seq u)) m)
    | Err e =>
        let m := note_error path KConflict "Server version changed - your version is kept locally until its conflicted copy uploads" m in
        retry_later (u_seq u) e (put_status path PendingSync m)
    end in
  upd_core (mark_dirty [path; parent_or_root path]) m.

Definition write_error_kind (e : BackendWriteError) : SyncErrorKind :=
  match e with
  | Forbidden => PermissionDenied
  | QuotaExceeded => KQuotaExceeded
  | Backend.Server code _ => ServerError code
  | _ => UploadFailed
  end.

(* lib.rs:6304-6354 commit_released *)
Definition put_failed (u : Upload) (path : PathBuf) (e : BackendWriteError) m : Mount W :=
  let m := put_status path PendingSync (upd_cache (stop_uploading path) m) in
  let m := if is_transient e then
             let m := if is_network_down e then set_online false m else m in
             let m := match e with
                      | Locked => note_error path KLocked "Locked on the server - your save is kept and goes up once it is unlocked" m
                      | _ => m
                      end in
             upd_j (mark_deferred (u_seq u) (MWrite e)) m
           else upd_j (mark_failed (u_seq u) (MWrite e)) (note_error path (write_error_kind e) "" m) in
  upd_core (mark_dirty [path]) m.

(** What the server's answer, or the upload being called off, makes of the save. *)
(* lib.rs:6162-6355 commit_released *)
Definition put_done (rename_ok copy_ok : bool) (u : Upload) (named : PathBuf * option Etag)
    (r : result PutResult BackendWriteError) m : Mount W :=
  match r with
  | Err Withdrawn => put_withdrawn u named.1 m
  | Ok res => put_landed rename_ok copy_ok u named.1 named.2 res m
  | Err Conflict => put_conflicted u named.1 m
  | Err e => put_failed u named.1 e m
  end.

(* lib.rs:6136-6356 commit_released *)
Definition run_put (waits : list (Mount W → Mount W)) (during : Mount W → Mount W) (rename_ok copy_ok : bool)
    (u : Upload) m : Mount W :=
  match put_start u m with
  | (None, m) => m
  | (Some etag, m) =>
      let '(named, m) := settle_live_upload waits (u_seq u) (u_path u) etag m in
      let '(r, w) := put_file_settled (staged m) (u_staging u) named (m_world m) in
      put_done rename_ok copy_ok u (default (u_path u, None) named) r (during (log_world w m))
  end.

(** ** The job of a streamed save *)

(** The whole file kept here becomes its local copy, unless a queued MOVE was given it. *)
(* lib.rs:5904-5933 commit_streamed *)
Definition keep_streamed (rename_ok handed whole : bool) (u : Upload) (path : PathBuf) (token : option Etag) m : Mount W :=
  let keep := keep_path path m in
  match staged m !! u_staging u with
  | Some f =>
      if whole && negb handed && (auto_keep_locally_modified_files || pinned path m) && rename_ok then
        put_copy path keep (u_mtime u) token (u_size u) (move_file (u_staging u) keep f m)
      else let m := put_status path Synced m in if handed then m else drop_file (u_staging u) m
  | None => put_status path Synced m
  end.

(* lib.rs:5876-5934 commit_streamed *)
Definition finish_landed (rename_ok whole : bool) (u : Upload) (sent : option Etag) (r : PutResult) m : Mount W :=
  let path := u_path u in
  let token := new_change_token r in
  let m := upd_j (rebase path sent token) (upd_uploads (λ o, record o path token) m) in
  let m := upd_cache (λ c, expire_listing (now m) (parent_or_root path)
             (upd_listing (parent_or_root path) (update_first (has_path path) (landed_entry token (u_size u) (u_mtime u))) c)) m in
  let '(handed, j) := if whole then hand_staging_to_rename path (u_staging u) (m_journal m) else (false, m_journal m) in
  keep_streamed rename_ok handed whole u path token (upd_j (λ _, remove (u_seq u) j) m).

(* lib.rs:5935-5960 commit_streamed *)
Definition finish_conflicted (whole : bool) (u : Upload) (base : Session) m : Mount W :=
  let path := u_path u in
  let copy := make_conflict_name (now_secs clock (m_world m)) path in
  let '(r, w) := assemble_conflicted_copy (staged m) base copy (u_size u) (u_staging u) whole (m_world m) in
  let m := log_world w m in
  match r with
  | Ok _ =>
      let m := note_error path KConflict "Server version changed - conflicted copy created" m in
      let m := upd_status (delete path) (adopt_server_version path m) in
      upd_j (remove (u_seq u)) (drop_file (u_staging u) m)
  | Err e =>
      let m := note_error path KConflict "Server version changed - your version is kept until its conflicted copy uploads" m in
      retry_later (u_seq u) e (put_status path PendingSync m)
  end.

(* lib.rs:5961-5991 commit_streamed *)
Definition finish_failed (whole : bool) (u : Upload) (base : Session) (e : BackendWriteError) m : Mount W :=
  let path := u_path u in
  if is_transient e then
    let m := if is_network_down e then set_online false m else m in
    upd_j (mark_deferred (u_seq u) (MWrite e)) (put_status path PendingSync m)
  else
    let m := note_error path (write_error_kind e)
               (if whole then "Upload failed" else "Streamed upload could not complete - please retry the copy") m in
    let m := put_status path PendingSync m in
    if negb whole && is_404 e then
      upd_j (remove (u_seq u)) (drop_file (u_staging u) (log_world (abort_chunked_upload base (m_world m)) m))
    else upd_j (mark_failed (u_seq u) (MWrite e)) m.

(* lib.rs:5874-5993 commit_streamed *)
Definition finish_done (rename_ok whole : bool) (u : Upload) (base : Session) (sent : option Etag)
    (r : result PutResult BackendWriteError) m : Mount W :=
  let m := upd_cache (stop_uploading (u_path u)) m in
  let m := match r with
    | Ok res => finish_landed rename_ok whole u sent res m
    | Err Conflict => finish_conflicted whole u base m
    | Err e => finish_failed whole u base e m
    end in
  upd_core (mark_dirty [u_path u; parent_or_root (u_path u)]) m.

(** [p]: the session's progress as release() closed it. *)
(* lib.rs:5856-5995 commit_streamed *)
Definition run_finish (during : Mount W → Mount W) (rename_ok : bool) (u : Upload) (st : Stream) (p : PumpState) m : Mount W :=
  match put_start u m with
  | (None, m) => m
  | (Some etag, m) =>
      let whole := negb (punching p) in
      let '(r, w) := finish_chunked (staged m) (uploads_base st) (next_index p) (bytes_confirmed p) (u_size u) (u_staging u)
                       true (head (cs st)) whole (u_path u) etag (m_world m) in
      finish_done rename_ok whole u (uploads_base st) etag r (during (log_world w m))
  end.

(** ** release() *)

(** Queued and, online, left to a job. *)
Definition queue_save (op : MutationOp) (path : PathBuf) (job : SeqId → LiveJob) m : Mount W :=
  let '(s, m) := enqueue_op op m in
  let m := upd_j (supersede_uploads path s) m in
  let m := upd_core (mark_dirty [path]) (put_status path (if m_offline m then PendingSync else Uploading) m) in
  if m_offline m then m
  else submit_mutation (ticket_entry path) (job s) (upd_cache (start_uploading path) m).

(* lib.rs:5792-5855 commit_streamed *)
Definition commit_streamed (fh : nat) (o : OpenFile) (tail_path : PathBuf) (st : Stream) (p : PumpState) m : Mount W :=
  let path := remote_path o in
  let total_len := total_written o in
  let mtime := default (now_system m) (staged_mtime (staged m) tail_path) in
  let m := show_size path total_len mtime m in
  queue_save (FinishChunked path (uploads_base st) (next_index p) (bytes_confirmed p) total_len tail_path
                (original_etag o) true (head (cs st)) (negb (punching p))) path
    (λ s, JFinish {| u_seq := s; u_path := path; u_staging := tail_path; u_etag := original_etag o; u_gen := opened_gen o;
                     u_size := total_len; u_mtime := mtime; u_fh := fh |} st p) m.

(** The whole staging file; [false] when it is missing. *)
(* lib.rs:6061-6135 commit_released *)
Definition commit_whole (fh : nat) (o : OpenFile) (staging : PathBuf) m : bool * Mount W :=
  match staged m !! staging with
  | None => (false, m)
  | Some f =>
      let path := remote_path o in
      let size := blen (lf_bytes f) in
      let mtime := default (now_system m) (staged_mtime (staged m) staging) in
      let m := show_size path size mtime m in
      (true, queue_save (Put path staging (original_etag o)) path
         (λ s, JPut {| u_seq := s; u_path := path; u_staging := staging; u_etag := original_etag o; u_gen := opened_gen o;
                       u_size := size; u_mtime := mtime; u_fh := fh |}) m)
  end.

(** [room]: the background pool takes the job that deletes the session. *)
(* lib.rs:5710-5714 abandon_stream *)
Definition abandon_stream (room : bool) (st : Stream) m : Mount W :=
  if room then log_world (abort_chunked_upload (uploads_base st) (m_world m)) m else m.

(** Which way a handle's bytes go up; [false]: they are lost and close() is told EIO. *)
(* lib.rs:6031-6060 commit_released *)
Definition commit_released (room : bool) (fh : nat) (o : OpenFile) m : bool * Mount W :=
  match write_path o with
  | None => (true, m)
  | Some wp =>
      match chunk_upload o with
      | None => commit_whole fh o wp m
      | Some st =>
          let p := close (pump (cs st)) in
          match failed p, punching p with
          | false, true => (true, commit_streamed fh o wp st p m)
          | false, false => if m_offline m then commit_whole fh o wp (abandon_stream room st m)
                            else (true, commit_streamed fh o wp st p m)
          | true, false => commit_whole fh o wp (abandon_stream room st m)
          | true, true =>
              let m := note_error (remote_path o) UploadFailed "Streamed upload could not complete - please retry the copy" m in
              (false, drop_file wp (abandon_stream room st m))
          end
      end
  end.

Definition other_handle (ino : nat) m : bool := existsb (λ o, of_ino o =? ino) (map_to_list (m_files m)).*2.

(* lib.rs:8201-8268 release *)
Definition release (room : bool) (fh : nat) m : Mount W :=
  match m_files m !! fh with
  | None => m
  | Some o =>
      let m := with_fh (m_next_fh m) (IoMode.release (m_io m) (of_ino o) (io_kind o))
                 (upd_files (delete fh) (λ d, d) m) in
      let m := if unlinked o && negb (other_handle (of_ino o) m)
               then upd_files (λ f, f) (delete (of_ino o)) m else m in
      if upload_failed o || unlinked o then
        let m := match unlinked o, write_path o with true, Some wp => drop_file wp m | _, _ => m end in
        let m := if created o then upd_cache (stop_uploading (remote_path o)) m else m in
        match chunk_upload o with Some st => abandon_stream room st m | None => m end
      else if negb (dirty o) then
        match write_path o with
        | Some wp => let m := drop_file wp m in
                     if created o then upd_cache (stop_uploading (remote_path o)) m else m
        | None => m
        end
      else (commit_released room fh o m).2
  end.

(** ** flush() and the times a program sets *)

(** [lost_fh]: a reattach could not restore this handle. *)
(* lib.rs:8644-8682 flush *)
Definition flush (lost_fh : bool) (fh : nat) m : Reply * Mount W :=
  match m_files m !! fh with
  | None => (if lost_fh then Error EIO else Done, m)
  | Some o =>
      if lost_fh || upload_failed o || match chunk_upload o with Some st => lost (pump (cs st)) | None => false end
      then (Error EIO, m)
      else
        (Done,
         match dirty o, write_path o with
         | true, Some wp =>
             match match chunk_upload o with
                   | Some _ => Some (total_written o)
                   | None => (λ f, blen (lf_bytes f)) <$> staged m !! wp
                   end with
             | Some size => upd_cache (upd_listing (parent_or_root (remote_path o)) (update_first (has_path (remote_path o))
                 (λ e, {| e_path := e_path e; e_is_dir := e_is_dir e; e_size := size; e_modified := e_modified e;
                          e_change_token := e_change_token e; e_content_type := e_content_type e; e_ext := e_ext e |}))) m
             | None => m
             end
         | _, _ => m
         end)
  end.

(** The last staging file stamped, in the handle map's own order, gives the time shown. *)
(* lib.rs:6006-6029 set_pending_mtime *)
Definition set_pending_mtime (ino : nat) (t : SystemTime) m : Mount W :=
  let l := omap (λ o, if (of_ino o =? ino) && dirty o then write_path o else None) (map_to_list (m_files m)).*2 in
  let '(stamped, m) := foldl (λ '(stamped, m) wp,
    match staged m !! wp with
    | Some f => let m := copy_file wp {| lf_bytes := lf_bytes f; lf_mtime := t |} m in (staged_mtime (staged m) wp, m)
    | None => (stamped, m)
    end) (None, m) l in
  match stamped, get_path (m_cache m) ino with
  | Some stamped, Some path =>
      upd_cache (upd_listing (parent_or_root path) (update_first (has_path path) (λ e, with_size e (e_size e) stamped))) m
  | _, _ => m
  end.

(** ** What the server's answer makes of a save *)

Lemma save_files j : files (disk (save_journal j)) = files (disk j).
Proof. unfold save_journal. by destruct (Journal.writable (disk j)). Qed.
Lemma rebase_files p s n j : files (disk (rebase p s n j)) = files (disk j).
Proof. unfold rebase. destruct s; [|done]. destruct (existsb _ _); [|done]. by rewrite save_files. Qed.
Lemma hand_files p s j : files (disk (hand_staging_to_rename p s j).2) = files (disk j).
Proof. unfold hand_staging_to_rename. destruct (existsb _ _); [|done]. cbn [snd]. by rewrite save_files. Qed.

Lemma rebase_entries p s n j e' :
  e' ∈ entries (rebase p s n j) → ∃ e, e ∈ entries j ∧ seq e' = seq e ∧ op_staging (op e') = op_staging (op e).
Proof.
  unfold rebase. destruct s as [s|]; [|eauto]. destruct (existsb _ _); [|eauto]. simpl.
  intros (e & -> & He)%list_elem_of_fmap. exists e. split; [done|]. unfold rebase_entry.
  destruct (_ && _); [|done]. split; [done|]. simpl. by destruct (op e).
Qed.
Lemma hand_entries p st j e' :
  e' ∈ entries (hand_staging_to_rename p st j).2 →
  ∃ e, e ∈ entries j ∧ seq e' = seq e ∧
    (op_staging (op e') = op_staging (op e) ∨ (hand_staging_to_rename p st j).1 = true).
Proof.
  unfold hand_staging_to_rename. destruct (existsb _ _); simpl; [|by eauto].
  intros [He|(e & He & _ & ->)]%elem_of_update_first; [exists e'; split_and!; [done..|by left]|].
  exists e. split_and!; [done| |by right]. unfold give_copy. by repeat case_match.
Qed.
Lemma remove_contains s j : Journal.contains s (remove s j) = false.
Proof.
  apply not_true_iff_false. unfold Journal.contains. rewrite existsb_exists. intros (x & Hx & Hs).
  simpl in Hx. rewrite filter_In, Hs in Hx. by destruct Hx.
Qed.
Lemma rebase_contains p s n q j : Journal.contains q (rebase p s n j) = Journal.contains q j.
Proof.
  unfold rebase. destruct s as [s|]; [|done]. destruct (existsb _ (entries j)); [|done]. unfold Journal.contains. simpl.
  induction (entries j) as [|e l IH]; [done|]. cbn [fmap list_fmap existsb]. rewrite IH. f_equal.
  unfold rebase_entry. by destruct (conditioned_on p (op e) && _).
Qed.

Lemma seqs_inj j e1 e2 : seqs_ok j → e1 ∈ entries j → e2 ∈ entries j → seq e1 = seq e2 → e1 = e2.
Proof. intros [Hnd _]. intros. by apply (NoDup_fmap_inj seq (entries j)). Qed.
Lemma failure_hit s n msg j e :
  seqs_ok j → e ∈ entries j → seq e = s →
  ∃ e', e' ∈ update_first (has_seq s) (λ q, set_failure q (n q) msg) (entries j) ∧ seq e' = s ∧ op e' = op e ∧ attempts e' = n e.
Proof.
  intros Hok He Hs. destruct (update_first_hit (has_seq s) (λ q, set_failure q (n q) msg) (entries j)) as (y & Hy & Hf & Hin).
  { apply existsb_exists. exists e. split; [by apply list_elem_of_In|by apply Nat.eqb_eq]. }
  apply Nat.eqb_eq in Hf. assert (y = e) as -> by (apply (seqs_inj j); [done..|congruence]).
  by exists (set_failure e (n e) msg).
Qed.

(** Still queued with its bytes, [n] attempts further. *)
Definition still_queued (u : Upload) (e : JournalEntry) (f : LocalFile) (n : nat) m : Prop :=
  staged m !! u_staging u = Some f ∧
  ∃ e', e' ∈ entries (m_journal m) ∧ seq e' = seq e ∧ op e' = op e ∧ attempts e' = n + attempts e.

Lemma staged_upd g m : staged (upd_j g m) = files (disk (g (m_journal m))).
Proof. done. Qed.
Lemma retry_later_queued u e f b m :
  seqs_ok (m_journal m) → e ∈ entries (m_journal m) → seq e = u_seq u → staged m !! u_staging u = Some f →
  still_queued u e f (if is_transient b then 0 else 1) (retry_later (u_seq u) b m).
Proof.
  intros Hok He Hs Hf. split.
  - unfold retry_later. rewrite staged_upd. destruct (is_transient b); unfold mark_deferred, mark_failed; by rewrite save_files.
  - rewrite Hs. unfold retry_later, m_journal. destruct (is_transient b); by apply failure_hit.
Qed.

(** The copy the cache keeps of the saved file. *)
Definition local_copy (path keep : PathBuf) (token : option Etag) (f : LocalFile) m : Prop :=
  staged m !! keep = Some f ∧
  ∃ c, file_cache (m_cache m) !! path = Some c ∧ fc_etag c = token ∧ fc_local_path c = keep.

Lemma staged_drop p m q : q ≠ p → staged (drop_file p m) !! q = staged m !! q.
Proof. intros. unfold staged, drop_file, m_journal. simpl. by rewrite lookup_delete_ne. Qed.

Lemma keep_saved_spec rename_ok copy_ok handed u path token m f :
  staged m !! u_staging u = Some f → keep_path path m ≠ u_staging u →
  let m' := keep_saved rename_ok copy_ok handed u path token m in
  entries (m_journal m') = entries (m_journal m) ∧ m_uploads m' = m_uploads m ∧
  (handed = true → staged m' !! u_staging u = Some f) ∧
  (auto_keep_locally_modified_files || pinned path m = true → copy_ok = true →
     local_copy path (keep_path path m) token f m').
Proof.
  intros Hf Hk. unfold keep_saved. rewrite Hf. set (keep := keep_path path m) in *.
  assert (Hdrop : ∀ m1, entries (m_journal (drop_file (u_staging u) m1)) = entries (m_journal m1)) by done.
  destruct (auto_keep_locally_modified_files || pinned path m); [destruct (negb handed && rename_ok) eqn:Eh|].
  - apply andb_true_iff in Eh as [Eh%negb_true_iff _]. rewrite Eh. split_and!; [done..|]. intros _ _. split.
    + apply lookup_insert_eq.
    + eexists. split; [apply lookup_insert_eq|by split].
  - destruct copy_ok.
    + destruct handed; split_and!; try done; intros _.
      * unfold staged, copy_file, m_journal. simpl. by rewrite lookup_insert_ne.
      * intros _. split; [apply lookup_insert_eq|]. eexists. split; [apply lookup_insert_eq|by split].
      * intros _. split; [rewrite staged_drop by done; apply lookup_insert_eq|]. eexists. split; [apply lookup_insert_eq|by split].
    + by destruct handed; split_and!.
  - by destruct handed; split_and!.
Qed.

Lemma file_cache_listing t d g c : file_cache (expire_listing t d (upd_listing d g c)) = file_cache c.
Proof. unfold expire_listing, upd_listing. destruct c. simpl. by repeat case_match. Qed.
Lemma recorded_frame u dest token m : let m1 := put_recorded u dest token m in
  m_journal m1 = m_journal m ∧ pinned dest m1 = pinned dest m ∧
  snd <$> committed (m_uploads m1) !! dest = Some token.
Proof.
  unfold put_recorded. split_and!; [done| |].
  - unfold pinned, m_cache. simpl. by rewrite file_cache_listing.
  - simpl. by rewrite lookup_insert_eq.
Qed.

Lemma put_landed_spec m rename_ok copy_ok u e f dest sent v :
  seqs_ok (m_journal m) → e ∈ entries (m_journal m) → seq e = u_seq u →
  staged m !! u_staging u = Some f → keep_path dest m ≠ u_staging u →
  (∀ q, q ∈ entries (m_journal m) → op_staging (op q) = Some (u_staging u) → q = e) →
  let m' := put_landed rename_ok copy_ok u dest sent v m in
  Journal.contains (u_seq u) (m_journal m') = false ∧
  snd <$> committed (m_uploads m') !! dest = Some (new_change_token v) ∧
  (∀ q, q ∈ entries (m_journal m') → op_staging (op q) = Some (u_staging u) → staged m' !! u_staging u = Some f) ∧
  (auto_keep_locally_modified_files || pinned dest m = true → copy_ok = true →
     local_copy dest (keep_path dest m) (new_change_token v) f m').
Proof.
  intros Hok He Hs Hf Hk Hone. unfold put_landed. cbv zeta.
  destruct (recorded_frame u dest (new_change_token v) m) as (Hj & Hp & Hc).
  set (m1 := put_recorded _ _ _ m) in *. clearbody m1. rewrite Hj.
  pose proof (hand_entries dest (u_staging u) (m_journal m)) as Hh. pose proof (hand_files dest (u_staging u) (m_journal m)) as Hhf.
  destruct (hand_staging_to_rename dest (u_staging u) (m_journal m)) as [handed j]. simpl in Hh, Hhf.
  set (j2 := rebase dest sent (new_change_token v) (remove (u_seq u) j)).
  set (m2 := upd_j (λ _, j2) m1). assert (Hk2 : keep_path dest m2 = keep_path dest m) by (unfold keep_path; by rewrite <- Hp).
  assert (Hf2 : staged m2 !! u_staging u = Some f).
  { unfold m2, j2. rewrite staged_upd, rebase_files. unfold remove. rewrite save_files. simpl. rewrite Hhf. exact Hf. }
  destruct (keep_saved_spec rename_ok copy_ok handed u dest (new_change_token v) m2 f Hf2) as (He' & Hu' & Hst & Hcp); [by rewrite Hk2|].
  set (m3 := keep_saved _ _ _ _ _ _ m2) in *. clearbody m3.
  change (m_journal (upd_core _ m3)) with (m_journal m3). change (m_uploads (upd_core _ m3)) with (m_uploads m3).
  split_and!.
  - unfold Journal.contains. rewrite He'. change (Journal.contains (u_seq u) j2 = false).
    unfold j2. by rewrite rebase_contains, remove_contains.
  - by rewrite Hu'.
  - intros q Hq Hqs. apply Hst. rewrite He' in Hq. apply rebase_entries in Hq as (q1 & Hq1 & Hseq & Hst1).
    simpl in Hq1. apply elem_of_filterb in Hq1 as [Hq1 Hne]. destruct (Hh q1 Hq1) as (q0 & Hq0 & Hseq0 & [Hst0|?]); [|done].
    exfalso. assert (q0 = e) as -> by (apply Hone; [done|congruence]). unfold has_seq in Hne.
    by rewrite Hseq0, Hs, Nat.eqb_refl in Hne.
  - intros Ha Hcopy. rewrite <- Hk2. apply Hcp; [|done]. change (pinned dest m2) with (pinned dest m1). by rewrite Hp.
Qed.

Lemma put_failed_spec m u e f dest b :
  seqs_ok (m_journal m) → e ∈ entries (m_journal m) → seq e = u_seq u → staged m !! u_staging u = Some f →
  still_queued u e f (if is_transient b then 0 else 1) (put_failed u dest b m) ∧
  r_status (m_core (put_failed u dest b m)) !! dest = Some PendingSync.
Proof.
  intros Hok He Hs Hf.
  assert (Hm1 : ∃ m1, m_journal m1 = m_journal m ∧ r_status (m_core m1) !! dest = Some PendingSync ∧
            put_failed u dest b m = upd_core (mark_dirty [dest]) (retry_later (u_seq u) b m1)).
  { unfold put_failed, retry_later. cbv zeta. set (m0 := put_status dest PendingSync _).
    assert (Hm0 : m_journal m0 = m_journal m ∧ r_status (m_core m0) !! dest = Some PendingSync)
      by (split; [done|apply lookup_insert_eq]).
    destruct (is_transient b); [|eexists; split_and!; [..|done]; apply Hm0].
    set (m1 := if is_network_down b then _ else m0).
    assert (Hm1 : m_journal m1 = m_journal m ∧ r_status (m_core m1) !! dest = Some PendingSync)
      by (unfold m1; by destruct (is_network_down b)).
    eexists. split_and!; [..|done]; destruct b; apply Hm1. }
  destruct Hm1 as (m1 & Hj & Hst & ->). split; [|exact Hst].
  change (still_queued u e f (if is_transient b then 0 else 1) (retry_later (u_seq u) b m1)).
  apply retry_later_queued; unfold staged; rewrite ?Hj; done.
Qed.
Lemma withdrawn_frame u p m : m_journal (put_withdrawn u p m) = m_journal m.
Proof. unfold put_withdrawn. cbv zeta. by repeat case_match. Qed.

(** C1: Whatever the server answers to an upload, the save is accounted for.  Accepted: the
    entry is gone, the file's new version is the server's, a MOVE queued meanwhile keeps the
    bytes it was given, and a copy the cache is to keep has them under the new version.
    Refused for another version: the bytes are on the server as a conflicted copy, or else
    still queued.  Any other answer: still queued, with its bytes, one attempt charged when
    retrying as it is cannot help, and shown as waiting to sync.  Called off: the journal is
    left as it is. *)
Theorem put_answer_safe m rename_ok copy_ok u e f dest sent r :
  seqs_ok (m_journal m) → e ∈ entries (m_journal m) → seq e = u_seq u →
  staged m !! u_staging u = Some f → keep_path dest m ≠ u_staging u →
  (∀ q, q ∈ entries (m_journal m) → op_staging (op q) = Some (u_staging u) → q = e) →
  let m' := put_done rename_ok copy_ok u (dest, sent) r m in
  let copy := make_conflict_name (now_secs clock (m_world m)) dest in
  match r with
  | Ok v =>
      Journal.contains (u_seq u) (m_journal m') = false ∧
      snd <$> committed (m_uploads m') !! dest = Some (new_change_token v) ∧
      (∀ q, q ∈ entries (m_journal m') → op_staging (op q) = Some (u_staging u) → staged m' !! u_staging u = Some f) ∧
      (auto_keep_locally_modified_files || pinned dest m = true → copy_ok = true →
         local_copy dest (keep_path dest m) (new_change_token v) f m')
  | Err Withdrawn => m_journal m' = m_journal m
  | Err Conflict =>
      match (put_file copy (lf_bytes f) None (m_world m)).1 with
      | Ok _ => Journal.contains (u_seq u) (m_journal m') = false
      | Err b => still_queued u e f (if is_transient b then 0 else 1) m'
      end
  | Err b => still_queued u e f (if is_transient b then 0 else 1) m' ∧ r_status (m_core m') !! dest = Some PendingSync
  end.
Proof.
  intros Hok He Hs Hf Hk Hone m' copy. destruct r as [v|b]; [by apply (put_landed_spec m rename_ok copy_ok u e)|].
  destruct b; try (apply (put_failed_spec m u e f dest); done); [|by apply withdrawn_frame].
  simpl in m'. unfold m', put_conflicted, put_file_from_path. cbv zeta.
  change (staged (upd_cache _ m)) with (staged m). rewrite Hf. fold copy.
  change (m_world (upd_cache _ m)) with (m_world m). fold copy.
  destruct (put_file copy (lf_bytes f) None (m_world m)) as [[v|b] w]; simpl fst; cbv iota.
  - change (m_journal (upd_core (mark_dirty ?l) ?x)) with (m_journal x).
    change (m_journal (drop_file ?p (upd_j ?g ?x))) with (remove_file (g (m_journal x)) p).
    apply remove_contains.
  - set (m1 := put_status dest PendingSync _).
    change (still_queued u e f (if is_transient b then 0 else 1) (retry_later (u_seq u) b m1)).
    by apply retry_later_queued.
Qed.

(** ** What release() leaves *)

Lemma remove_files_lookup l j q : q ∉ l → files (disk (remove_files j l)) !! q = files (disk j) !! q.
Proof.
  unfold remove_files. revert j. induction l as [|p l IH]; intros j Hq; [done|]. simpl.
  apply not_elem_of_cons in Hq as [Hp Hq]. rewrite IH by done. simpl. by rewrite lookup_delete_ne.
Qed.

Definition is_save (o : MutationOp) : bool :=
  match o with Put _ _ _ | FinishChunked _ _ _ _ _ _ _ _ _ _ => true | _ => false end.

Lemma supersede_spec path n l e j :
  entries j = l ++ [e] → n ≤ seq e →
  let j' := supersede_uploads path n j in
  last (entries j') = Some e ∧
  (∀ q, q ∈ entries j' ↔ q ∈ entries j ∧ superseded path n q = false) ∧
  (∀ p, (∀ q, q ∈ entries j → op_staging (op q) = Some p → superseded path n q = false) →
     files (disk j') !! p = files (disk j) !! p).
Proof.
  intros Hl Hs. set (keep := λ q, negb (superseded path n q)).
  assert (He' : entries (supersede_uploads path n j) = List.filter keep (entries j)).
  { unfold supersede_uploads. destruct (List.filter (superseded path n) (entries j)) eqn:E; [done|]. rewrite <- E.
    change (entries (save_journal ?x)) with (entries x). apply remove_files_same. }
  cbv zeta. rewrite He'. split_and!.
  - rewrite Hl, List.filter_app. assert (List.filter keep [e] = [e]) as ->; [|apply last_snoc].
    simpl. unfold keep, superseded. by rewrite (proj2 (Nat.ltb_ge _ _) Hs).
  - intros q. rewrite elem_of_filterb. unfold keep. by rewrite negb_true_iff.
  - intros p Hp. unfold supersede_uploads. destruct (List.filter (superseded path n) (entries j)) eqn:E; [done|].
    rewrite <- E. rewrite save_files, remove_files_lookup; [done|].
    intros (q & Hst & Hq)%list_elem_of_omap. apply elem_of_filterb in Hst as [Hin Hsup].
    by rewrite (Hp q Hin Hq) in Hsup.
Qed.

(** The save is the newest entry of the queue and its bytes are there; no other save of the
    same file that is not already on the wire is left, and online a job has it. *)
Definition queued_save m (path wp : PathBuf) (etag : option Etag) m' : Prop :=
  ∃ e job, last (entries (m_journal m')) = Some e ∧ seq e = next_seq (m_journal m) ∧ is_save (op e) = true ∧
    op_path (op e) = path ∧ op_staging (op e) = Some wp ∧ op_condition (op e) = etag ∧
    staged m' !! wp = staged m !! wp ∧
    (∀ q, q ∈ entries (m_journal m') → is_upload_of (op q) path = true → q = e ∨ in_flight q = true) ∧
    m_jobs m' = m_jobs m ++ (if m_offline m then [] else [((PathSeq.ticket (m_seq m) (ticket_entry path)).1, job)]) ∧
    r_status (m_core m') !! path = Some (if m_offline m then PendingSync else Uploading).

Lemma queue_save_spec m o path wp job :
  seqs_ok (m_journal m) → is_save o = true → op_path o = path → op_staging o = Some wp →
  (∀ q, q ∈ entries (m_journal m) → op_staging (op q) ≠ Some wp) →
  queued_save m path wp (op_condition o) (queue_save o path job m).
Proof.
  intros [_ Hlt] Ho Hp Hst Hfresh. unfold queue_save, enqueue_op.
  set (e := Build_JournalEntry (next_seq (m_journal m)) o (clock (m_world m)) 0 None false false false).
  destruct (enqueue (clock (m_world m)) o (m_journal m)) as [s j1] eqn:Eq.
  assert (Hj1 : s = next_seq (m_journal m) ∧ entries j1 = entries (m_journal m) ++ [e] ∧
            files (disk j1) = files (disk (m_journal m))).
  { destruct o; try done; injection Eq as <- <-; by rewrite save_files. }
  destruct Hj1 as (-> & He1 & Hf1). clear Eq. set (s := next_seq (m_journal m)) in *.
  destruct (supersede_spec path s (entries (m_journal m)) e j1 He1 (le_n _)) as (Hl & Hin & Hfl).
  set (j2 := supersede_uploads path s j1) in *.
  set (m2 := upd_core _ _). assert (H2 : m_journal m2 = j2 ∧ m_offline m2 = m_offline m ∧ m_jobs m2 = m_jobs m ∧ m_seq m2 = m_seq m ∧
    r_status (m_core m2) !! path = Some (if m_offline m then PendingSync else Uploading)).
  { split_and!; try done. apply lookup_insert_eq. }
  clearbody m2. destruct H2 as (Hj2 & Hof & Hjobs & Hsq & Hstat).
  assert (Hgoal : ∀ m', m_journal m' = j2 → r_status (m_core m') = r_status (m_core m2) →
    (∃ jb, m_jobs m' = m_jobs m ++ (if m_offline m then [] else [((PathSeq.ticket (m_seq m) (ticket_entry path)).1, jb)])) →
    queued_save m path wp (op_condition o) m').
  { intros m' Hj Hs' [jb Hjb]. exists e, jb. rewrite Hj, Hs'. split_and!; try done.
    - unfold staged. rewrite Hj, <- Hf1. apply Hfl. intros q Hq Hqs. rewrite He1 in Hq.
      apply elem_of_app in Hq as [Hq| ->%list_elem_of_singleton]; [by destruct (Hfresh q Hq)|].
      unfold superseded. simpl. by rewrite Nat.ltb_irrefl.
    - intros q [Hq Hsup]%Hin Hup. rewrite He1 in Hq. apply elem_of_app in Hq as [Hq| ->%list_elem_of_singleton]; [|by left].
      right. unfold superseded in Hsup. rewrite Hup, (proj2 (Nat.ltb_lt _ _) (Hlt q Hq)) in Hsup.
      by destruct (in_flight q). }
  rewrite Hof. destruct (m_offline m) eqn:Eo.
  - apply Hgoal; [done..|]. exists (job s). by rewrite app_nil_r.
  - destruct (submit_spec (ticket_entry path) (job s) (upd_cache (start_uploading path) m2)) as [Hc Hj'].
    apply Hgoal; [unfold m_journal in *; by rewrite Hc|by rewrite Hc|]. exists (job s).
    rewrite Hj'. change (m_seq (upd_cache _ m2)) with (m_seq m2). change (m_jobs (upd_cache _ m2)) with (m_jobs m2).
    by rewrite Hjobs, Hsq.
Qed.

Lemma queued_save_same m1 m path wp etag m' : same_queue m1 m → queued_save m1 path wp etag m' → queued_save m path wp etag m'.
Proof. unfold queued_save, staged. by intros (-> & -> & -> & ->). Qed.

Lemma files_queue_save o path job m : m_files (queue_save o path job m) = m_files m.
Proof.
  unfold queue_save, enqueue_op. destruct (enqueue _ _ _). cbv zeta.
  destruct (m_offline _); [done|]. unfold submit_mutation. by destruct (PathSeq.ticket _ _).
Qed.

Lemma commit_whole_spec m fh o wp :
  seqs_ok (m_journal m) → (∀ q, q ∈ entries (m_journal m) → op_staging (op q) ≠ Some wp) →
  let m' := (commit_whole fh o wp m).2 in
  m_files m' = m_files m ∧
  if bool_decide (is_Some (staged m !! wp)) then queued_save m (remote_path o) wp (original_etag o) m' else m' = m.
Proof.
  intros Hok Hfresh. unfold commit_whole. destruct (staged m !! wp) as [f|] eqn:Ef; simpl; [|done].
  split; [by rewrite files_queue_save|]. eapply queued_save_same; [|by apply (queue_save_spec _ (Put _ wp _))]. done.
Qed.
Lemma commit_streamed_spec m fh o wp st p :
  seqs_ok (m_journal m) → (∀ q, q ∈ entries (m_journal m) → op_staging (op q) ≠ Some wp) →
  let m' := commit_streamed fh o wp st p m in
  m_files m' = m_files m ∧ queued_save m (remote_path o) wp (original_etag o) m'.
Proof.
  intros Hok Hfresh. unfold commit_streamed. split; [by rewrite files_queue_save|].
  eapply queued_save_same; [|by apply (queue_save_spec _ (FinishChunked _ _ _ _ _ wp _ _ _ _))]. done.
Qed.

(** Neither queues anything nor touches a handle, and leaves the staging files but one. *)
Definition queues_nothing m m' : Prop :=
  entries (m_journal m') = entries (m_journal m) ∧ m_jobs m' = m_jobs m ∧ m_files m' = m_files m.

Lemma abandon_frame room st m : same_queue (abandon_stream room st m) m ∧ m_files (abandon_stream room st m) = m_files m.
Proof. unfold abandon_stream. by destruct room. Qed.
Lemma discard_spec (b c : bool) room so wp path m :
  let m1 := if b then drop_file wp m else m in
  let m2 := if c then upd_cache (stop_uploading path) m1 else m1 in
  let m' := match so with Some st => abandon_stream room st m2 | None => m2 end in
  queues_nothing m m' ∧ staged m' !! wp = if b then None else staged m !! wp.
Proof.
  cbv zeta. assert (Hd : staged (drop_file wp m) !! wp = None) by apply lookup_delete_eq.
  by destruct b, c, so, room.
Qed.
(** The bytes of the handle that cannot be saved any more: sent chunks were freed and the
    rest cannot follow. *)
Definition lost_stream (o : OpenFile) : bool :=
  match chunk_upload o with Some st => failed (pump (cs st)) && punching (pump (cs st)) | None => false end.
(** The handle's session can be finished from here. *)
Definition finishes_stream m (o : OpenFile) : bool :=
  match chunk_upload o with
  | Some st => negb (failed (pump (cs st))) && (punching (pump (cs st)) || negb (m_offline m))
  | None => false
  end.

Lemma commit_released_spec m room fh o wp :
  seqs_ok (m_journal m) → write_path o = Some wp → (∀ q, q ∈ entries (m_journal m) → op_staging (op q) ≠ Some wp) →
  let m' := (commit_released room fh o m).2 in
  m_files m' = m_files m ∧
  if lost_stream o then queues_nothing m m' ∧ staged m' !! wp = None
  else if finishes_stream m o || bool_decide (is_Some (staged m !! wp))
  then queued_save m (remote_path o) wp (original_etag o) m'
  else queues_nothing m m'.
Proof.
  intros Hok Hwp Hfresh. unfold commit_released, lost_stream, finishes_stream. rewrite Hwp.
  assert (Hwhole : ∀ m1, same_queue m1 m → m_files m1 = m_files m →
    let m' := (commit_whole fh o wp m1).2 in
    m_files m' = m_files m ∧
    if bool_decide (is_Some (staged m !! wp)) then queued_save m (remote_path o) wp (original_etag o) m' else queues_nothing m m').
  { intros m1 Hq Hf. pose proof Hq as (Hj & Hb & _ & _).
    destruct (commit_whole_spec m1 fh o wp) as [Hf' Hc]; [by rewrite Hj..|].
    split; [by rewrite Hf'|]. unfold staged in *. rewrite Hj in Hc. case_bool_decide.
    - by eapply queued_save_same.
    - rewrite Hc. unfold queues_nothing. by rewrite Hj. }
  destruct (chunk_upload o) as [st|]; [|by apply Hwhole].
  change (failed (close (pump (cs st)))) with (failed (pump (cs st))).
  change (punching (close (pump (cs st)))) with (punching (pump (cs st))).
  destruct (abandon_frame room st m) as [Hq Hf].
  destruct (failed (pump (cs st))), (punching (pump (cs st))); simpl.
  - set (m1 := note_error _ _ _ m). destruct (abandon_frame room st m1) as [(Hj & Hb & _) Hf1].
    split; [exact Hf1|]. split; [|apply lookup_delete_eq].
    unfold queues_nothing. split_and!; [change (m_journal m) with (m_journal m1); by rewrite <- Hj|exact Hb|exact Hf1].
  - by apply Hwhole.
  - by apply commit_streamed_spec.
  - destruct (m_offline m); [by apply Hwhole|by apply commit_streamed_spec].
Qed.

(** C2: Closing a handle saves exactly what it wrote: a handle that wrote, did not fail and
    was not deleted leaves its save as the newest entry of the journal, under the name the
    handle has now and conditional on the version it was opened on, with its staged bytes
    untouched, every older save of the file that is not already on the wire withdrawn, and
    online with a job; nothing is queued for any other handle. *)
Theorem release_outcome m room fh o wp :
  seqs_ok (m_journal m) → m_files m !! fh = Some o → write_path o = Some wp →
  (∀ q, q ∈ entries (m_journal m) → op_staging (op q) ≠ Some wp) →
  let m' := release room fh m in
  let nothing := entries (m_journal m') = entries (m_journal m) ∧ m_jobs m' = m_jobs m in
  m_files m' = delete fh (m_files m) ∧
  if unlinked o || upload_failed o || negb (dirty o) then
    nothing ∧ staged m' !! wp = (if upload_failed o && negb (unlinked o) then staged m !! wp else None)
  else if lost_stream o then nothing ∧ staged m' !! wp = None
  else if finishes_stream m o || bool_decide (is_Some (staged m !! wp))
  then queued_save m (remote_path o) wp (original_etag o) m'
  else nothing.
Proof.
  intros Hok Hfh Hwp Hfresh. unfold release. rewrite Hfh, Hwp. cbv zeta.
  set (m0 := with_fh _ _ _). set (m1 := if unlinked o && _ then _ else m0).
  assert (H1 : same_queue m1 m ∧ m_files m1 = delete fh (m_files m)) by (unfold m1; by destruct (_ && _)).
  clearbody m1. destruct H1 as [Hq Hf1]. pose proof Hq as (Hj & Hjb & Hof & Hsq).
  assert (Hst : staged m1 = staged m) by (unfold staged; by rewrite Hj).
  rewrite <- Hf1, <- Hj, <- Hjb, <- Hst.
  rewrite (orb_comm (unlinked o) (upload_failed o)). destruct (upload_failed o || unlinked o) eqn:Efu.
  - destruct (discard_spec (unlinked o) (created o) room (chunk_upload o) wp (remote_path o) m1) as [(He & Hb & Hf) Hw].
    split; [exact Hf|]. simpl. split; [by split|]. rewrite Hw. destruct (unlinked o), (upload_failed o); done.
  - apply orb_false_iff in Efu as [-> ->]. simpl. destruct (dirty o); simpl.
    + assert (Hc := commit_released_spec m1 room fh o wp). rewrite Hj in Hc. specialize (Hc Hok Hwp Hfresh) as [Hf Hc].
      split; [exact Hf|]. assert (finishes_stream m o = finishes_stream m1 o) as -> by (unfold finishes_stream; by rewrite Hof).
      destruct (lost_stream o); [by destruct Hc as [(? & ? & _) ?]|].
      destruct (finishes_stream m1 o || _); [by eapply queued_save_same|by destruct Hc as (? & ? & _)].
    + destruct (discard_spec true (created o) room None wp (remote_path o) m1) as [(He & Hb & Hf) Hw].
      by split_and!.
Qed.
End uploads.

(** ** A save, end to end *)

Definition sv_cfg : KeepConfig :=
  {| auto_keep_locally_modified_files := true; kept_dir := ["kept"%string]; auto_cache_dir := ["auto"%string] |}.
Definition sv_clock (w : Srv) : Z := 0.
Definition sv_path : PathBuf := ["f"%string].
Definition sv_staging : PathBuf := ["cache"; "write_1"]%string.
Definition sv_file : LocalFile := Build_LocalFile [Byte.x41; Byte.x42] (secs 7).
(** A handle that wrote the file [f], opened when the server's version was [etag]. *)
Definition sv_handle (etag : option Etag) : OpenFile :=
  {| remote_path := sv_path; write_path := Some sv_staging; dirty := true; original_etag := etag; total_written := 2;
     stream_eligible := false; chunk_upload := None; of_ino := 2; io_kind := KCached; upload_failed := false;
     created := false; unlinked := false; opened_gen := 0; pin := {| pin_etag := None; pin_frozen := false |} |}.
Definition sv_mount (etag : option Etag) : Mount Srv :=
  let d := Build_Disk (Some []) None {[ sv_staging := sv_file ]} true in
  let c := Build_FsCache ∅ ∅ 2 ∅ 100 ∅ ∅ ∅ ∅ ∅ false 0 in
  let srv := Build_Srv {[ sv_path := ([Byte.x40], 5) ]} ∅ ∅ 6 in
  Build_Mount (Build_RState (load_or_create 0 ["cache"%string] d) c ∅ ∅ [] srv)
    ∅ ∅ ∅ ∅ ∅ {[ 1 := sv_handle etag ]} 2 ∅ no_uploads ∅ ∅ false PathSeq.init [].
Definition sv_released (etag : option Etag) : Mount Srv := release sv_clock true 1 (sv_mount etag).
Definition sv_upload (etag : option Etag) : Upload :=
  {| u_seq := 1; u_path := sv_path; u_staging := sv_staging; u_etag := etag; u_gen := 0; u_size := 2;
     u_mtime := secs 7; u_fh := 1 |}.
Definition sv_saved (etag : option Etag) : Mount Srv :=
  run_put (H0 := sv_cfg) sv_clock sv_clock [] (λ m, m) true true (sv_upload etag) (sv_released etag).

Lemma sv_seqs m : seq <$> entries (m_journal (W := Srv) m) = [1] → next_seq (m_journal m) = 2 → seqs_ok (m_journal m).
Proof.
  intros Hs Hn. split; [rewrite Hs; apply NoDup_singleton|]. intros e He.
  assert (Hin : seq e ∈ seq <$> entries (m_journal m)) by by apply list_elem_of_fmap_2.
  rewrite Hs in Hin. apply list_elem_of_singleton in Hin as ->. rewrite Hn. lia.
Qed.

Lemma release_outcome_witness :
  queued_save (sv_mount (Some "5"%string)) sv_path sv_staging (Some "5"%string) (sv_released (Some "5"%string)) ∧
  m_jobs (sv_released (Some "5"%string)) ≠ [].
Proof.
  split; [|by vm_compute].
  destruct (release_outcome sv_clock (sv_mount (Some "5"%string)) true 1 (sv_handle (Some "5"%string)) sv_staging)
    as [_ Hq]; [|done|done| |exact Hq].
  - split; [constructor|]. intros e He. vm_compute in He. by apply elem_of_nil in He.
  - intros q Hq. vm_compute in Hq. by apply elem_of_nil in Hq.
Defined.

(** The save reaches the server, and its bytes become the local copy. *)
Example sv_reaches_server :
  content (m_world (sv_saved (Some "5"%string))) sv_path = Some (lf_bytes sv_file) ∧
  entries (m_journal (sv_saved (Some "5"%string))) = [] ∧
  staged (sv_saved (Some "5"%string)) !! ["auto"; "f"]%string = Some sv_file.
Proof. by vm_compute. Qed.
(** Based on a version the server no longer has, it lands beside the server's. *)
Example sv_conflict :
  content (m_world (sv_saved (Some "4"%string))) sv_path = Some [Byte.x40] ∧
  content (m_world (sv_saved (Some "4"%string))) (make_conflict_name 0 sv_path) = Some (lf_bytes sv_file) ∧
  entries (m_journal (sv_saved (Some "4"%string))) = [].
Proof. by vm_compute. Qed.

(** A server that cannot be reached: the save stays queued with its bytes. *)
Lemma put_answer_safe_witness :
  let m := sv_released (Some "5"%string) in
  ∃ e, entries (m_journal m) = [e] ∧
    still_queued (sv_upload None) e sv_file 0
      (put_done (H0 := sv_cfg) sv_clock sv_clock true true (sv_upload None) (sv_path, None) (Err (Network "down"%string)) m).
Proof.
  cbv zeta. set (m := sv_released (Some "5"%string)).
  assert (Hs : seq <$> entries (m_journal m) = [1]) by (vm_compute; reflexivity).
  destruct (entries (m_journal m)) as [|e [|]] eqn:He; try done. exists e. split; [done|].
  assert (Hin : e ∈ entries (m_journal m)) by (rewrite He; left).
  pose proof (put_answer_safe (H0 := sv_cfg) sv_clock sv_clock m true true (sv_upload None) e sv_file sv_path None
    (Err (Network "down"%string))) as Hp.
  apply Hp; [apply sv_seqs; [by rewrite He|by vm_compute]|exact Hin|by injection Hs|by vm_compute|by vm_compute|].
  intros q Hq _. rewrite He in Hq. by apply list_elem_of_singleton in Hq.
Defined.
