(* ===== verification/ReadDir.v ===== *)
(** [lib.rs]: open directories and READDIR.

    A READDIR at offset 0 lists the folder, pins the listing to the handle and answers the
    first page; the kernel asks for the rest by the offset of the last row it took.  The
    reply buffer is [full rows row]: does the row no longer fit after those added?  The
    listing comes from [Listing.get_or_list_dir]; it is an argument here.  Between the
    handler's stretches other code may run: [others].

    Thumbnails, the prefetch of subfolders, the deletion of GIO temporaries and the
    revalidation in the background are jobs of their own and left out. *)
From Stdlib Require Import Ascii String.
From S2P Require Import Prelude Paths Backend Errors FsCache Versions AppLocks Attr Journal Replay ChunkUpload IoMode Mount LiveUpload Lookup.
From S2P Require Backoff.
Local Open Scope Z_scope.

(* lib.rs:4976-4979 OpenDir *)
Record OpenDir := { od_path : PathBuf; od_snapshot : option (list RemoteEntry) }.

(** A row of a page: offsets are what the kernel comes back with. *)
Record Row := { row_ino : nat; row_off : Z; row_kind : FileType; row_name : string; row_attr : FileAttr }.

Inductive DirAnswer := Rows (l : list Row) | DirError (e : Errno).

Section readdir.
Context {W : Type} `{KeepConfig} (honor_locks : bool) (is_gio_temp_file : string → bool) (exclude_folders : gset PathBuf)
  (full : list Row → Row → bool).
Implicit Types m : Mount W.

Record Dirs := { d_mount : Mount W; d_open : gmap nat OpenDir }.
Implicit Types d : Dirs.
Definition on_mount (f : Mount W → Mount W) d : Dirs := {| d_mount := f (d_mount d); d_open := d_open d |}.
Definition on_open (f : gmap nat OpenDir → gmap nat OpenDir) d : Dirs := {| d_mount := d_mount d; d_open := f (d_open d) |}.

(* lib.rs:8270-8283 opendir *)
Definition opendir (ino : nat) d : result nat Errno * Dirs :=
  match get_path (m_cache (d_mount d)) ino with
  | None => (Err Errors.ENOENT, d)
  | Some path =>
      let fh := m_next_fh (d_mount d) in
      (Ok fh, {| d_mount := with_fh (S fh) (m_io (d_mount d)) (d_mount d);
                 d_open := <[fh := {| od_path := path; od_snapshot := None |}]> (d_open d) |})
  end.
(* lib.rs:8285-8288 releasedir *)
Definition releasedir (fh : nat) : Dirs → Dirs := on_open (delete fh).

(** [DirReply::add] until the buffer is full. *)
(* lib.rs:6545-6549 readdir_common *)
Fixpoint add_rows (acc rows : list Row) : list Row :=
  match rows with
  | [] => acc
  | r :: rows => if full acc r then acc else add_rows (acc ++ [r]) rows
  end.

Definition hidden_temp (e : RemoteEntry) : bool := is_gio_temp_file (default ""%string (file_name (e_path e))).
(* lib.rs:6617-6623 readdir_common *)
Definition visible (entries : list RemoteEntry) : list RemoteEntry := List.filter (λ e, negb (hidden_temp e)) entries.

Definition listed_name (path : PathBuf) (e : RemoteEntry) : option string :=
  n ← file_name (e_path e);
  if e_is_dir e && bool_decide (join path [n] ∈ exclude_folders) then None else Some n.

(** The row of the [i]-th visible entry. *)
(* lib.rs:6536-6548 readdir_common *)
Definition row_of (m : Mount W) (ino : nat) (i : nat) (name : string) (e : RemoteEntry) : Row :=
  {| row_ino := ino; row_off := Z.of_nat i + 3; row_kind := if e_is_dir e then Directory else RegularFile; row_name := name;
     row_attr := (overlay_live_size m (make_file_attr honor_locks (m_locks m) ino e)).1 |}.

(** Continuation pages allocate inodes on demand. *)
(* lib.rs:6514-6541 readdir_common *)
Fixpoint page_rows (path : PathBuf) (i : nat) (entries : list RemoteEntry) m : list Row * Mount W :=
  match entries with
  | [] => ([], m)
  | e :: entries =>
      match listed_name path e with
      | None => page_rows path (S i) entries m
      | Some name =>
          let '(ino, c) := allocate_inode (m_cache m) (join path [name]) in
          let m := upd_cache (λ _, c) m in
          let '(rows, m') := page_rows path (S i) entries m in
          (row_of m ino i name e :: rows, m')
      end
  end.
(** The first page looks up the inodes allocated before. *)
(* lib.rs:6737-6748 readdir_common *)
Fixpoint first_rows (path : PathBuf) (i : nat) (entries : list RemoteEntry) m : list Row :=
  match entries with
  | [] => []
  | e :: entries =>
      match listed_name path e with
      | None => first_rows path (S i) entries m
      | Some name => row_of m (default 1%nat (get_inode (m_cache m) (join path [name]))) i name e :: first_rows path (S i) entries m
      end
  end.

(** [(offset - 2) as usize] of a [u64], as release builds compute it. *)
(* lib.rs:6482-6483 readdir_common *)
Definition skip_of (offset : Z) : nat := Z.to_nat ((offset - 2) mod 2 ^ 64).

(** [r]: what a fetch of the listing gives, when one is needed. *)
(* lib.rs:6491-6510 readdir_common *)
Definition page_source (fh : nat) (path : PathBuf) (r : result (list RemoteEntry) string) d : option (list RemoteEntry) * Dirs :=
  match (o ← d_open d !! fh; if bool_decide (od_path o = path) then od_snapshot o else None) with
  | Some e => (Some e, d)
  | None =>
      let '(c, cache) := get_cached_dir_readonly (m_cache (d_mount d)) path in
      let d := on_mount (upd_cache (λ _, cache)) d in
      (match c with Some e => Some e | None => result_ok r end, d)
  end.

(* lib.rs:6482-6552 readdir_common *)
Definition next_page (fh : nat) (path : PathBuf) (offset : Z) (r : result (list RemoteEntry) string) d : DirAnswer * Dirs :=
  let '(src, d) := page_source fh path r d in
  match src with
  | None => (Rows [], d)
  | Some entries =>
      let '(rows, m) := page_rows path (skip_of offset) (drop (skip_of offset) (visible entries)) (d_mount d) in
      (Rows (add_rows [] rows), on_mount (λ _, m) d)
  end.

(** *** The first page *)

Definition dot_rows (ino parent_ino : nat) : list Row :=
  [{| row_ino := ino; row_off := 1; row_kind := Directory; row_name := "."; row_attr := make_dir_attr ino |};
   {| row_ino := parent_ino; row_off := 2; row_kind := Directory; row_name := ".."; row_attr := make_dir_attr parent_ino |}].

(** Pins the listing to the handle. *)
(* lib.rs:6627-6634 readdir_common *)
Definition pin_snapshot (fh : nat) (path : PathBuf) (entries : list RemoteEntry) : Dirs → Dirs :=
  on_open (alter (λ o, if bool_decide (od_path o = path) then {| od_path := path; od_snapshot := Some entries |} else o) fh).

(* lib.rs:6655-6660 readdir_common *)
Definition allocate_all (path : PathBuf) (entries : list RemoteEntry) (c : FsCache) : FsCache :=
  foldl (λ c e, match file_name (e_path e) with Some n => (allocate_inode c (join path [n])).2 | None => c end) c entries.

(** What the rest of the daemon is told of the listed entries. *)
Record Published := {
  pb_shared : list PathBuf;
  pb_fileids : list (PathBuf * Z);
  pb_details : list (PathBuf * FileDetail);
  pb_status : list (PathBuf * FileStatus);
  pb_cached : list (PathBuf * FileCacheEntry);
}.

(** The file's copy on disk: kept, else cached; empty files do not count. *)
(* lib.rs:6697-6724 readdir_common *)
Definition local_copy (fs : Files) (p : PathBuf) (e : RemoteEntry) : FileStatus * option FileCacheEntry :=
  let copy (base : PathBuf) (kept : bool) : option FileCacheEntry :=
    f ← fs !! join base p;
    if 0 <? blen (lf_bytes f)
    then Some {| fc_local_path := join base p; fc_remote_modified := e_modified e; fc_etag := e_change_token e;
                 fc_kept := kept; fc_size := blen (lf_bytes f) |} else None in
  match copy kept_dir true with
  | Some fc => (Replay.Kept, Some fc)
  | None => match copy auto_cache_dir false with Some fc => (Replay.Cached, Some fc) | None => (Remote, None) end
  end.

(* lib.rs:6664-6733 readdir_common *)
Definition publish (fs : Files) (path : PathBuf) (self_entry : option RemoteEntry) (entries : list RemoteEntry) : Published :=
  let named := match self_entry with Some se => [(path, se)] | None => [] end
               ++ omap (λ e, (λ n, (join path [n], e)) <$> file_name (e_path e)) entries in
  let child_files := List.filter (λ q, negb (e_is_dir q.2)) (omap (λ e, (λ n, (join path [n], e)) <$> file_name (e_path e)) entries) in
  {| pb_shared := (List.filter (λ q, ext_flag (e_ext q.2) "is_shared") named).*1;
     pb_fileids := omap (λ q, (λ f, (q.1, f)) <$> ext_int (e_ext q.2) "fileid") named;
     pb_details := (λ q, (q.1, detail_of q.2)) <$> named;
     pb_status := (λ q, (q.1, (local_copy fs q.1 q.2).1)) <$> child_files;
     pb_cached := omap (λ q, (λ fc, (q.1, fc)) <$> (local_copy fs q.1 q.2).2) child_files |}.

Definition insert_all {A} (l : list (PathBuf * A)) (g : gmap PathBuf A) : gmap PathBuf A := foldl (λ g q, <[q.1 := q.2]> g) g l.

(** Before the reply: fresh data only is added. *)
(* lib.rs:6759-6770 readdir_common *)
Definition publish_before (pb : Published) : Mount W → Mount W :=
  upd_maps (λ s, s ∪ list_to_set (pb_shared pb)) (insert_all (pb_fileids pb)) (insert_all (pb_details pb)) (λ ch, ch).

(** After the reply the folder's known children are taken. *)
(* lib.rs:6784-6787 readdir_common *)
Definition take_children (path : PathBuf) m : gset PathBuf * Mount W :=
  (default ∅ (m_children m !! path), upd_maps (λ s, s) (λ f, f) (λ f, f) (alter (λ _, ∅) path) m).

(** What was a child and no longer is, goes; children a lookup added meanwhile stay. *)
(* lib.rs:6789-6871 readdir_common *)
Definition publish_after (path : PathBuf) (pb : Published) (old : gset PathBuf) m : Mount W :=
  let fresh : gset PathBuf := list_to_set (List.filter (λ p, bool_decide (Paths.parent p = Some path)) (pb_details pb).*1) in
  let gone := old ∖ fresh in
  let m := upd_maps (λ s, s ∖ gone) (filter (λ q, q.1 ∉ gone)) (filter (λ q, q.1 ∉ gone))
    (partial_alter (λ o, Some (filter (λ p, p ∉ old ∨ p ∈ fresh) (default ∅ o) ∪ fresh)) path) m in
  let uploads : gset PathBuf := list_to_set (List.filter (λ p, bool_decide (r_status (m_core m) !! p ∈ [Some Uploading; Some Synced])) (pb_status pb).*1) in
  let m := upd_status (λ st, insert_all (List.filter (λ q, negb (bool_decide (q.1 ∈ uploads))) (pb_status pb))
                               (filter (λ q, q.1 ∉ old) (delete path st))) m in
  let m := upd_cache (λ c, with_file_cache c (file_cache c ∪ list_to_map (pb_cached pb))) m in
  upd_core (λ s, mark_dirty (path :: elements uploads) s) m.

(** [others]: what runs while the rows are made, and while the maps are updated. *)
(* lib.rs:6617-6872 readdir_common *)
Definition first_page (others : Mount W → Mount W) (fh ino parent_ino : nat) (path : PathBuf)
    (entries : list RemoteEntry) (self_entry : option RemoteEntry) d : DirAnswer * Dirs :=
  let entries := visible entries in
  let d := pin_snapshot fh path entries d in
  let d := on_mount (upd_cache (allocate_all path entries)) d in
  let pb := publish (files (disk (m_journal (d_mount d)))) path self_entry entries in
  let d := on_mount others d in
  let rows := add_rows [] (dot_rows ino parent_ino ++ first_rows path 0 entries (d_mount d)) in
  let d := on_mount (publish_before pb) d in
  let '(old, m) := take_children path (d_mount d) in
  (Rows rows, on_mount (λ _, publish_after path pb old (others m)) d).

(** A listing that failed is shown to the user, unless the server struggles and the breaker
    has said so already. *)
(* lib.rs:6904-6924 readdir_common *)
Definition list_failed (clock : W → Z) (breaker_open : bool) (path : PathBuf) (e : string) d : DirAnswer * Dirs :=
  let code := server_error_code e in
  let kind := match code with
    | Some c => if (c =? 401) || (c =? 403) then PermissionDenied else ServerError c
    | None => match error_to_errno e with Errors.EACCES => PermissionDenied | _ => NetworkError end
    end in
  let quiet := match code with Some c => Backoff.is_struggling c && breaker_open | None => false end in
  (DirError (error_to_errno e), if quiet then d else on_mount (note_error clock path kind "listing failed") d).

(* lib.rs:6422-6931 readdir_common *)
Definition readdir_common (clock : W → Z) (others : Mount W → Mount W) (breaker_open : bool) (fh ino : nat) (offset : Z)
    (r : result (list RemoteEntry * option RemoteEntry) string) d : DirAnswer * Dirs :=
  match get_path (m_cache (d_mount d)) ino with
  | None => (DirError Errors.ENOENT, d)
  | Some path =>
      let parent_ino := if (ino =? 1)%nat then 1%nat
                        else default 1%nat (get_inode (m_cache (d_mount d)) (parent_or_root path)) in
      if 0 <? offset then next_page fh path offset (map_ok fst r) d
      else
        let dots := add_rows [] (dot_rows ino parent_ino) in
        if (length dots <? 2)%nat then (Rows dots, d)
        else match r with
             | Ok (entries, self_entry) => first_page others fh ino parent_ino path entries self_entry d
             | Err e => list_failed clock breaker_open path e d
             end
  end.
End readdir.

(** ** Reading a directory to its end *)

Section pages.
Context {W : Type} `{KeepConfig} (honor_locks : bool) (is_gio_temp_file : string → bool) (exclude_folders : gset PathBuf)
  (full : list Row → Row → bool).
Implicit Types m : Mount W.
Implicit Types d : Dirs (W := W).
Local Abbreviation visible := (visible is_gio_temp_file).
Local Abbreviation listed_name := (listed_name exclude_folders).
Local Abbreviation page_rows := (page_rows honor_locks exclude_folders).
Local Abbreviation first_rows := (first_rows honor_locks exclude_folders).
Local Abbreviation add_rows := (add_rows full).
Local Abbreviation readdir_common := (readdir_common honor_locks is_gio_temp_file exclude_folders full).

(** What a directory reads as: each row's offset and name. *)
Definition offs (r : Row) : Z * string := (row_off r, row_name r).
Fixpoint children (path : PathBuf) (i : nat) (entries : list RemoteEntry) : list (Z * string) :=
  match entries with
  | [] => []
  | e :: entries => match listed_name path e with
                    | None => children path (S i) entries
                    | Some n => (Z.of_nat i + 3, n) :: children path (S i) entries
                    end
  end.
Definition whole (path : PathBuf) (snapshot : list RemoteEntry) : list (Z * string) :=
  [(1, "."%string); (2, ".."%string)] ++ children path 0 (visible snapshot).
(** What is left of it after a row. *)
Definition rest (path : PathBuf) (snapshot : list RemoteEntry) (offset : Z) : list (Z * string) :=
  List.filter (λ x, offset <? x.1) (whole path snapshot).

Lemma page_rows_offs path entries i m : offs <$> (page_rows path i entries m).1 = children path i entries.
Proof using.
  revert i m. induction entries as [|e l IH]; intros i m; [done|]. cbn [ReadDir.page_rows children].
  destruct (listed_name path e); [|apply IH]. destruct (allocate_inode _ _) as [ino c].
  specialize (IH (S i) (upd_cache (λ _, c) m)). destruct (page_rows path (S i) l _) as [rows m']. cbn in *. by rewrite IH.
Qed.
Lemma first_rows_offs path entries i m : offs <$> first_rows path i entries m = children path i entries.
Proof using.
  revert i. induction entries as [|e l IH]; intros i; [done|]. cbn [ReadDir.first_rows children].
  destruct (listed_name path e); [|apply IH]. cbn. by rewrite IH.
Qed.

Lemma add_rows_take acc rows : ∃ k, add_rows acc rows = acc ++ take k rows.
Proof using.
  revert acc. induction rows as [|r rows IH]; intros acc; cbn [ReadDir.add_rows]; [exists 0%nat; by rewrite app_nil_r|].
  destruct (full acc r); [exists 0%nat; by rewrite app_nil_r|]. destruct (IH (acc ++ [r])) as [k ->].
  exists (S k). by rewrite <- app_assoc.
Qed.
Lemma add_rows_nonempty r rows : full [] r = false → add_rows [] (r :: rows) ≠ [].
Proof using. intros Hf. cbn. rewrite Hf. by destruct (add_rows_take [r] rows) as [k ->]. Qed.

Lemma children_bounds path entries i x : x ∈ children path i entries → Z.of_nat i + 3 ≤ x.1 < Z.of_nat (i + length entries) + 3.
Proof using.
  revert i. induction entries as [|e l IH]; intros i; cbn [children length]; [by intros ?%elem_of_nil|].
  destruct (listed_name path e); [intros [->|Hx]%elem_of_cons; [cbn; lia|]|intros Hx]; apply IH in Hx; lia.
Qed.

Lemma children_after path k entries i :
  List.filter (λ x, Z.of_nat (i + k) + 2 <? x.1) (children path i entries) = children path (i + k) (drop k entries).
Proof using.
  revert i entries. induction k as [|k IH]; intros i entries.
  - rewrite Nat.add_0_r, drop_0. apply filterb_all. intros x Hx%children_bounds. apply Z.ltb_lt. lia.
  - destruct entries as [|e l]; [done|]. cbn [children drop]. rewrite <- Nat.add_succ_comm, <- IH.
    destruct (listed_name path e); [|done]. cbn [List.filter fst]. by rewrite (proj2 (Z.ltb_ge _ _)) by lia.
Qed.

Lemma rest_children path snapshot k : rest path snapshot (Z.of_nat k + 2) = children path k (drop k (visible snapshot)).
Proof using.
  unfold rest, whole. rewrite List.filter_app. cbn [List.filter fst]. rewrite !(proj2 (Z.ltb_ge _ _)) by lia.
  cbn [app]. apply (children_after path k _ 0).
Qed.

(** The folder is open on this handle and its listing pinned. *)
Definition pinned (fh ino : nat) (path : PathBuf) (snapshot : list RemoteEntry) d : Prop :=
  get_path (m_cache (d_mount d)) ino = Some path ∧
  d_open d !! fh = Some {| od_path := path; od_snapshot := Some snapshot |}.

Lemma page_pinned clock others brk fh ino path snapshot offset r d :
  pinned fh ino path snapshot d → 2 ≤ offset < 2 ^ 64 →
  ∃ rows d', readdir_common clock others brk fh ino offset r d = (Rows rows, d') ∧
    (∃ k, offs <$> rows = take k (rest path snapshot offset)) ∧
    ((∀ row, full [] row = false) → rest path snapshot offset ≠ [] → rows ≠ []) ∧ d_open d' = d_open d.
Proof using.
  intros [Hp Ho] Hoff. unfold ReadDir.readdir_common. rewrite Hp. rewrite (proj2 (Z.ltb_lt 0 offset)) by lia.
  unfold next_page, page_source. rewrite Ho. cbn [mbind option_bind od_path od_snapshot]. rewrite bool_decide_eq_true_2 by done.
  assert (Hs : skip_of offset = Z.to_nat (offset - 2)) by (unfold skip_of; by rewrite Z.mod_small by lia).
  rewrite Hs. set (k := Z.to_nat (offset - 2)). assert (Hk : offset = Z.of_nat k + 2) by lia.
  pose proof (page_rows_offs path (drop k (visible snapshot)) k (d_mount d)) as Hr.
  rewrite <- (rest_children path snapshot k) in Hr. rewrite <- Hk in Hr.
  destruct (page_rows _ _ _ _) as [rows m]. cbn [fst] in Hr. eexists _, _. split; [done|].
  split_and!; [|intros Hf Hne|done].
  - destruct (add_rows_take [] rows) as [n ->]. exists n. cbn [app]. by rewrite fmap_take, Hr.
  - destruct rows as [|row rows]; [by rewrite <- Hr in Hne|]. by apply add_rows_nonempty.
Qed.

(** A directory read on from its first row, the dot, is at its end: the offset wraps. *)
Lemma offset_one_is_empty clock others brk fh ino path snapshot r d :
  pinned fh ino path snapshot d → Z.of_nat (length (visible snapshot)) < 2 ^ 64 - 1 →
  (readdir_common clock others brk fh ino 1 r d).1 = Rows [].
Proof using.
  intros [Hp Ho] Hl. unfold ReadDir.readdir_common. rewrite Hp. cbn [Z.ltb Z.compare].
  unfold next_page, page_source. rewrite Ho. cbn [mbind option_bind od_path od_snapshot]. rewrite bool_decide_eq_true_2 by done.
  rewrite drop_ge; [done|]. unfold skip_of. change ((1 - 2) mod 2 ^ 64) with (2 ^ 64 - 1). lia.
Qed.

Definition before (x y : Z * string) : Prop := x.1 < y.1.
Lemma children_sorted path entries i : StronglySorted before (children path i entries).
Proof using.
  revert i. induction entries as [|e l IH]; intros i; cbn [children]; [constructor|].
  destruct (listed_name path e); [|apply IH]. constructor; [apply IH|]. apply Forall_forall. intros x Hx%children_bounds.
  unfold before. cbn. lia.
Qed.
Lemma whole_sorted path snapshot : StronglySorted before (whole path snapshot).
Proof using.
  unfold whole. constructor; [constructor; [apply children_sorted|]|].
  - apply Forall_forall. intros x Hx%children_bounds. unfold before. cbn. lia.
  - constructor; [unfold before; cbn; lia|]. apply Forall_forall. intros x Hx%children_bounds. unfold before. cbn. lia.
Qed.

Lemma sorted_after (l1 l2 : list (Z * string)) x :
  StronglySorted before (l1 ++ x :: l2) → List.filter (λ y, x.1 <? y.1) (l1 ++ x :: l2) = l2.
Proof using.
  intros Hs. apply StronglySorted_app in Hs as (H12 & H1 & H2). apply StronglySorted_inv in H2 as [_ H2].
  rewrite List.filter_app. cbn [List.filter]. rewrite (proj2 (Z.ltb_ge x.1 x.1)) by lia.
  rewrite filterb_none, filterb_all; [done| |].
  - intros y Hy. rewrite Forall_forall in H2. specialize (H2 y Hy). unfold before in H2. apply Z.ltb_lt. lia.
  - intros y Hy. specialize (H12 y x Hy ltac:(left)). unfold before in H12. apply Z.ltb_ge. lia.
Qed.

(** Taking rows off the front of what is left moves the offset on. *)
Lemma rest_drop path snapshot offset got tail x :
  rest path snapshot offset = got ++ tail → last got = Some x → rest path snapshot x.1 = tail ∧ offset < x.1.
Proof using.
  intros Hr Hl. apply last_Some in Hl as [g ->]. rewrite <- app_assoc in Hr. cbn [app] in Hr.
  assert (Hx : offset < x.1).
  { assert (Hin : x ∈ rest path snapshot offset) by (rewrite Hr; apply elem_of_app; right; left).
    unfold rest in Hin. apply elem_of_filterb in Hin as [_ Hin]. by bool_prop. }
  split; [|done]. assert (Hs : StronglySorted before (rest path snapshot offset)).
  { unfold rest. pose proof (whole_sorted path snapshot) as Hw. induction Hw as [|y l _ IH Hy]; cbn [List.filter]; [constructor|].
    destruct (offset <? y.1); [|done]. constructor; [done|]. rewrite Forall_forall in *. intros z [Hz _]%elem_of_filterb. auto. }
  rewrite Hr in Hs. apply sorted_after in Hs. rewrite <- Hr in Hs. rewrite <- Hs. unfold rest.
  generalize (whole path snapshot). intros l. induction l as [|y l IH]; [done|]. cbn [List.filter].
  destruct (offset <? y.1) eqn:E1; cbn [List.filter]; [destruct (x.1 <? y.1); [by f_equal|done]|].
  rewrite (proj2 (Z.ltb_ge x.1 y.1)); [done|]. bool_prop. lia.
Qed.

(** One READDIR after another: each on whatever state the mount is in by then, the kernel
    taking some of the rows; the flag: an empty page said the directory is at its end. *)
Record Request := {
  q_dirs : Dirs (W := W);
  q_taken : nat;
  q_list : result (list RemoteEntry * option RemoteEntry) string;
  q_open : bool;
}.
Fixpoint read_dir (clock : W → Z) (others : Mount W → Mount W) (fh ino : nat) (reqs : list Request) (offset : Z) :
    list (Z * string) * bool :=
  match reqs with
  | [] => ([], false)
  | q :: reqs =>
      match (readdir_common clock others (q_open q) fh ino offset (q_list q) (q_dirs q)).1 with
      | Rows [] => ([], true)
      | Rows rows =>
          let got := take (S (q_taken q)) (offs <$> rows) in
          let '(l, ended) := read_dir clock others fh ino reqs (default offset (fst <$> last got)) in (got ++ l, ended)
      | DirError _ => ([], false)
      end
  end.

End pages.

(** ** The first page, and what the kernel and the rest of the daemon are told *)

Section first.
Context {W : Type} `{KeepConfig} (honor_locks : bool) (is_gio_temp_file : string → bool) (exclude_folders : gset PathBuf)
  (full : list Row → Row → bool).
Implicit Types m : Mount W.
Implicit Types d : Dirs (W := W).
Local Abbreviation visible := (visible is_gio_temp_file).
Local Abbreviation listed_name := (listed_name exclude_folders).
Local Abbreviation readdir_common := (readdir_common honor_locks is_gio_temp_file exclude_folders full).
Local Abbreviation whole := (whole is_gio_temp_file exclude_folders).

Lemma visible_idem entries : visible (visible entries) = visible entries.
Proof using. apply filterb_all. intros e He. by apply elem_of_filterb in He as [_ ?]. Qed.

Lemma rows_eq {A} (a c : list Row) (b e : A) : (Rows a, b) = (Rows c, e) → a = c ∧ b = e.
Proof using. by intros [= -> ->]. Qed.

(** The first page lists the dots and then the same listing it pins to the handle. *)
Lemma first_page_pins clock others brk fh ino path entries se snap d rows d' :
  get_path (m_cache (d_mount d)) ino = Some path → d_open d !! fh = Some {| od_path := path; od_snapshot := snap |} →
  readdir_common clock others brk fh ino 0 (Ok (entries, se)) d = (Rows rows, d') →
  (∃ k, offs <$> rows = take k (whole path (visible entries))) ∧
  ((∀ row acc, (length acc < 2)%nat → full acc row = false) →
     d_open d' !! fh = Some {| od_path := path; od_snapshot := Some (visible entries) |}).
Proof using.
  intros Hp Ho. unfold ReadDir.readdir_common. rewrite Hp. cbn [Z.ltb Z.compare].
  set (parent_ino := if (ino =? 1)%nat then _ else _). clearbody parent_ino.
  assert (Hdots : offs <$> dot_rows ino parent_ino = [(1, "."%string); (2, ".."%string)]) by done.
  assert (Hall : (∀ row acc, (length acc < 2)%nat → full acc row = false) → add_rows full [] (dot_rows ino parent_ino) = dot_rows ino parent_ino).
  { intros Hf. unfold dot_rows. cbn. by rewrite !Hf by (cbn; lia). }
  destruct (add_rows_take full [] (dot_rows ino parent_ino)) as [k Hk]. revert Hall Hk.
  generalize (add_rows full [] (dot_rows ino parent_ino)). intros dots Hall Hk. cbn [app] in Hk.
  destruct (length dots <? 2)%nat eqn:El.
  - intros [= <- <-]. split.
    + exists (k `min` 2)%nat. rewrite Hk, fmap_take, Hdots. destruct k as [|[|[|k]]]; done.
    + intros Hf. exfalso. bool_prop. rewrite (Hall Hf) in El. cbn in El. lia.
  - unfold first_page. destruct (take_children _ _) as [old m2]. intros [<- <-]%rows_eq. split.
    + match goal with |- context [add_rows full [] ?l] => set (rows := l) end.
      destruct (add_rows_take full [] rows) as [n ->]. exists n. cbn [app]. rewrite fmap_take. f_equal. unfold rows.
      rewrite fmap_app, Hdots, first_rows_offs. unfold ReadDir.whole. by rewrite visible_idem.
    + intros _. cbn. rewrite lookup_alter_eq, Ho. cbn. by rewrite bool_decide_eq_true_2.
Qed.

(** *** Inodes *)

Definition keeps_inodes (f : Mount W → Mount W) : Prop := ∀ m, inode_wf (m_cache m) → inode_wf (m_cache (f m)) ∧
  ∀ i p, get_path (m_cache m) i = Some p → get_path (m_cache (f m)) i = Some p.
Definition named (path : PathBuf) m (r : Row) : Prop := get_path (m_cache m) (row_ino r) = Some (join path [row_name r]).

Lemma page_rows_inodes path entries i m : inode_wf (m_cache m) →
  let '(rows, m') := page_rows honor_locks exclude_folders path i entries m in
  inode_wf (m_cache m') ∧ (∀ k p, get_path (m_cache m) k = Some p → get_path (m_cache m') k = Some p) ∧
  Forall (named path m') rows.
Proof using.
  revert i m. induction entries as [|e l IH]; intros i m Hwf; [done|]. cbn [page_rows].
  destruct (listed_name path e) as [name|]; [|by apply IH].
  pose proof (allocate_path (m_cache m) (join path [name]) Hwf) as Hpath.
  pose proof (allocate_inode_wf (m_cache m) (join path [name]) Hwf) as Hwf'.
  pose proof (λ i p, allocate_keeps (m_cache m) (join path [name]) i p Hwf) as Hk.
  destruct (allocate_inode _ _) as [ino c]. cbn [fst snd] in *. specialize (IH (S i) (upd_cache (λ _, c) m) Hwf').
  destruct (page_rows _ _ path (S i) l _) as [rows m']. destruct IH as (H1 & H2 & H3). split_and!; [done| |].
  - intros k p Hp. apply H2. by apply Hk.
  - constructor; [|done]. by apply H2.
Qed.

Lemma allocate_all_spec path entries c : inode_wf c →
  inode_wf (allocate_all path entries c) ∧ (∀ k p, inodes c !! k = Some p → inodes (allocate_all path entries c) !! k = Some p) ∧
  ∀ e n, e ∈ entries → file_name (e_path e) = Some n → is_Some (paths (allocate_all path entries c) !! join path [n]).
Proof using.
  unfold allocate_all. revert c. induction entries as [|e l IH]; intros c Hwf; cbn [foldl].
  { split_and!; [done|done|]. by intros e n ?%elem_of_nil. }
  set (c1 := match file_name (e_path e) with Some n => (allocate_inode c (join path [n])).2 | None => c end).
  assert (H1 : inode_wf c1 ∧ (∀ k p, inodes c !! k = Some p → inodes c1 !! k = Some p) ∧
    ∀ n, file_name (e_path e) = Some n → ∃ k, inodes c1 !! k = Some (join path [n])).
  { unfold c1. destruct (file_name (e_path e)) as [n|]; [|done]. split_and!.
    - by apply allocate_inode_wf.
    - intros k p. by apply allocate_keeps.
    - intros n' [= <-]. exists (allocate_inode c (join path [n])).1. by apply allocate_path. }
  destruct H1 as (Hwf1 & Hk1 & Hn1). destruct (IH c1 Hwf1) as (H2 & H3 & H4). split_and!; [done|auto|].
  intros e' n [->|He]%elem_of_cons Hn; [|by eapply H4]. destruct (Hn1 n Hn) as [k Hk]. exists k. apply H2. by apply H3.
Qed.

Lemma first_rows_inodes path entries i m : inode_wf (m_cache m) →
  (∀ e n, e ∈ entries → file_name (e_path e) = Some n → is_Some (paths (m_cache m) !! join path [n])) →
  Forall (named path m) (first_rows honor_locks exclude_folders path i entries m).
Proof using.
  intros Hwf. revert i. induction entries as [|e l IH]; intros i Hall; [constructor|]. cbn [first_rows].
  assert (Hl : ∀ e n, e ∈ l → file_name (e_path e) = Some n → is_Some (paths (m_cache m) !! join path [n])) by (intros; eapply Hall; [by right|done]).
  destruct (listed_name path e) as [name|] eqn:En; [|by apply IH]. constructor; [|by apply IH].
  assert (Hn : file_name (e_path e) = Some name).
  { unfold ReadDir.listed_name in En. destruct (file_name (e_path e)) as [n|]; [|done]. cbn in En. by case_match; simplify_eq. }
  destruct (Hall e name ltac:(left) Hn) as [k Hk]. unfold named, row_of. cbn. unfold get_inode. rewrite Hk. cbn. by apply Hwf.
Qed.

Lemma add_rows_forall (P : Row → Prop) rows acc : Forall P acc → Forall P rows → Forall P (add_rows full acc rows).
Proof using. intros Ha Hr. destruct (add_rows_take full acc rows) as [k ->]. apply Forall_app. split; [done|]. by apply Forall_take. Qed.

(** C33: Every row READDIR gives carries the inode of its own path: an inode handed out for a
    name is that name's in the table the kernel's next requests are resolved by, inodes given
    before stay, and the table stays one to one.  The first page needs that what runs while
    it is made renames nothing. *)
Theorem row_inodes clock others brk fh ino path offset r d rows d' :
  inode_wf (m_cache (d_mount d)) → get_path (m_cache (d_mount d)) ino = Some path → keeps_inodes others → 0 ≤ offset →
  readdir_common clock others brk fh ino offset r d = (Rows rows, d') →
  inode_wf (m_cache (d_mount d')) ∧
  (∀ i p, get_path (m_cache (d_mount d)) i = Some p → get_path (m_cache (d_mount d')) i = Some p) ∧
  ∀ row, row ∈ rows → 3 ≤ row_off row → get_path (m_cache (d_mount d')) (row_ino row) = Some (join path [row_name row]).
Proof using.
  intros Hwf Hp Hothers Hoff. unfold ReadDir.readdir_common. rewrite Hp. set (parent_ino := if (ino =? 1)%nat then _ else _).
  clearbody parent_ino.
  assert (Hdots : Forall (λ row, 3 ≤ row_off row → False) (dot_rows ino parent_ino)) by (repeat constructor; cbn; lia).
  destruct (0 <? offset).
  - unfold next_page. assert (Hsrc : m_cache (d_mount (page_source fh path (map_ok fst r) d).2) = m_cache (d_mount d) ∨
      ∃ c, m_cache (d_mount (page_source fh path (map_ok fst r) d).2) = c ∧ inodes c = inodes (m_cache (d_mount d)) ∧ paths c = paths (m_cache (d_mount d)) ∧ next_inode c = next_inode (m_cache (d_mount d))).
    { unfold page_source. destruct (d_open d !! fh ≫= _); [by left|]. right. unfold get_cached_dir_readonly.
      destruct (dir_cache _ !! path); [|by eexists]. unfold next_access_tick. by eexists. }
    destruct (page_source fh path (map_ok fst r) d) as [src d1]. cbn [snd] in Hsrc.
    assert (H1 : inode_wf (m_cache (d_mount d1)) ∧ ∀ i p, get_path (m_cache (d_mount d)) i = Some p → get_path (m_cache (d_mount d1)) i = Some p).
    { unfold inode_wf, get_path in *. destruct Hsrc as [->|(c & -> & -> & -> & ->)]; by split. }
    destruct H1 as [Hwf1 Hk1]. destruct src as [entries|]; [|intros [= <- <-]; split_and!; [done|done|by intros row ?%elem_of_nil]].
    pose proof (page_rows_inodes path (drop (skip_of offset) (visible entries)) (skip_of offset) (d_mount d1) Hwf1) as Hr.
    destruct (page_rows _ _ _ _ _ _) as [rs m]. destruct Hr as (H1 & H2 & H3). intros [= <- <-]. split_and!; [done|auto|].
    intros row Hrow _. apply (add_rows_forall (named path m) rs [] ltac:(constructor)) in H3. rewrite Forall_forall in H3. by apply H3.
  - destruct (length _ <? 2)%nat.
    { intros [= <- <-]. split_and!; [done|done|]. intros row Hrow Ho. exfalso.
      pose proof (add_rows_forall _ _ [] ltac:(constructor) Hdots) as Hd. rewrite Forall_forall in Hd. by eapply Hd. }
    destruct r as [[entries se]|e]; [|by unfold list_failed].
    unfold first_page. destruct (take_children _ _) as [old m2] eqn:Et. apply (f_equal snd) in Et. cbn [snd take_children] in Et. subst m2.
    set (c0 := m_cache (d_mount d)) in *. destruct (allocate_all_spec path (visible entries) c0 Hwf) as (A1 & A2 & A3).
    set (d1 := on_mount (upd_cache (allocate_all path (visible entries))) _).
    assert (Hc1 : m_cache (d_mount d1) = allocate_all path (visible entries) c0) by done.
    destruct (Hothers (d_mount d1) ltac:(by rewrite Hc1)) as [B1 B2].
    set (m1 := others (d_mount d1)) in *. set (pb := publish _ _ _ _).
    set (m2 := upd_maps _ _ _ _ _). assert (Hm2 : m_cache m2 = m_cache m1) by done.
    destruct (Hothers m2 ltac:(by rewrite Hm2)) as [C1 C2]. rewrite Hm2 in C2.
    intros [= <- <-]. cbn [on_mount d_mount].
    assert (Hfin : inodes (m_cache (publish_after path pb old (others m2))) = inodes (m_cache (others m2)) ∧
      inode_wf (m_cache (publish_after path pb old (others m2)))) by done.
    destruct Hfin as [Hfi Hfw]. unfold get_path in *. rewrite Hfi. split_and!; [done| |].
    + intros i p Hi. apply C2, B2. rewrite Hc1. by apply A2.
    + intros row Hrow Ho. apply C2.
      assert (Hall : Forall (λ row, 3 ≤ row_off row → named path m1 row) (dot_rows ino parent_ino ++ first_rows honor_locks exclude_folders path 0 (visible entries) m1)).
      { apply Forall_app. split; [eapply Forall_impl; [exact Hdots|]; intros x Hx Hx3; by destruct (Hx Hx3)|].
        eapply Forall_impl; [apply first_rows_inodes; [done|]|by intros].
        intros e n He Hn. destruct (A3 e n He Hn) as [k Hk]. exists k. apply B1. apply B2. rewrite Hc1. by apply A1. }
      apply (add_rows_forall _ _ [] ltac:(constructor)) in Hall. rewrite Forall_forall in Hall. by apply Hall.
Qed.
End first.

(** *** The maps of the file manager *)

Section maps.
Context {W : Type} `{KeepConfig}.
Implicit Types m : Mount W.

Lemma insert_all_lookup {A} (l : list (PathBuf * A)) (g : gmap PathBuf A) p :
  NoDup l.*1 → insert_all l g !! p = match (list_to_map l : gmap PathBuf A) !! p with Some x => Some x | None => g !! p end.
Proof using.
  unfold insert_all. revert g. induction l as [|[q x] l IH]; intros g; cbn [foldl list_to_map foldr fst snd].
  { intros _. by rewrite lookup_empty. }
  intros [Hq Hl]%NoDup_cons. rewrite IH by done. destruct (decide (p = q)) as [->|Hne].
  - rewrite lookup_insert_eq. rewrite (not_elem_of_list_to_map_1 l q) by done. by rewrite lookup_insert_eq.
  - by rewrite !lookup_insert_ne.
Qed.

(** The paths a listing names: the folder's own entry aside. *)
Definition children_of (path : PathBuf) (entries : list RemoteEntry) : list (PathBuf * RemoteEntry) :=
  omap (λ e, (λ n, (join path [n], e)) <$> file_name (e_path e)) entries.

Lemma children_parent path entries q : q ∈ children_of path entries → Paths.parent q.1 = Some path.
Proof using.
  intros (e & _ & He)%list_elem_of_omap. destruct (file_name (e_path e)) as [n|]; [|done].
  injection He as <-. apply Naming.parent_snoc.
Qed.
Lemma self_not_child path : Paths.parent path ≠ Some path.
Proof using. intros Hp. assert (length path ≠ 0%nat) by (by destruct path). 
  assert (Hl : ∀ p q, Paths.parent p = Some q → (length q < length p)%nat).
  { clear. induction p as [|c p IH]; [done|]. intros q. cbn. destruct p as [|c' p]; [intros [= <-]; cbn; lia|].
    destruct (Paths.parent (c' :: p)) as [q'|] eqn:E; [|done]. cbn. intros [= <-]. specialize (IH q' eq_refl). cbn in *. lia. }
  apply Hl in Hp. lia.
Qed.

Lemma sub_fmap {A B} (f : A → bool) (g : A → B) l x : x ∈ g <$> List.filter f l → x ∈ g <$> l.
Proof using. intros (q & -> & [Hq _]%elem_of_filterb)%list_elem_of_fmap. by apply list_elem_of_fmap_2. Qed.

Lemma NoDup_fmap_filterb {A B} (f : A → bool) (g : A → B) l : NoDup (g <$> l) → NoDup (g <$> List.filter f l).
Proof using.
  induction l as [|x l IH]; [done|]. intros [Hx Hl]%NoDup_cons. cbn. destruct (f x); [|by apply IH].
  cbn. apply NoDup_cons. split; [|by apply IH]. intros Hin. by apply Hx, (sub_fmap f).
Qed.

(** After READDIR the file manager's maps are those of the listing: the folder's known
    children are exactly the entries listed, each with the server's details; a child known
    before and listed no longer has gone from every map; and the upload emblem of a file the
    folder was not known to hold stays, whatever the listing says. *)
Theorem maps_match_listing m fs path se entries :
  NoDup (children_of path entries).*1 →
  let pb := publish fs path se entries in
  let '(old, m1) := take_children path (publish_before pb m) in
  let m' := publish_after path pb old m1 in
  m_children m' !! path = Some (list_to_set (children_of path entries).*1) ∧
  (∀ p e, (p, e) ∈ children_of path entries → m_details m' !! p = Some (detail_of e)) ∧
  (∀ p, p ∈ default ∅ (m_children m !! path) → p ∉ (children_of path entries).*1 →
     p ∉ m_shared m' ∧ m_fileids m' !! p = None ∧ m_details m' !! p = None ∧ r_status (m_core m') !! p = None) ∧
  (∀ p e, (p, e) ∈ children_of path entries → e_is_dir e = false → p ∉ default ∅ (m_children m !! path) →
     r_status (m_core m) !! p ∈ [Some Uploading; Some Synced] → r_status (m_core m') !! p = r_status (m_core m) !! p).
Proof using.
  intros Hnd. cbv zeta. set (pb := publish fs path se entries). cbn [take_children].
  set (old := default ∅ (m_children (publish_before pb m) !! path)).
  set (kids := children_of path entries) in *.
  assert (Hdet : pb_details pb = (match se with Some e => [(path, detail_of e)] | None => [] end) ++ ((λ q, (q.1, detail_of q.2)) <$> kids)).
  { unfold pb, publish. cbn. rewrite fmap_app. by destruct se. }
  assert (Hkids : (pb_details pb).*1 = (match se with Some e => [path] | None => [] end) ++ kids.*1).
  { rewrite Hdet, fmap_app. f_equal; [by destruct se|]. rewrite <- list_fmap_compose. apply list_fmap_ext. by intros ? []. }
  assert (Hfresh : List.filter (λ p, bool_decide (Paths.parent p = Some path)) (pb_details pb).*1 = kids.*1).
  { rewrite Hkids, List.filter_app. rewrite (filterb_none _ (match se with Some _ => _ | None => _ end)), filterb_all; [done| |].
    - intros p Hp. apply list_elem_of_fmap in Hp as (q & -> & Hq). apply bool_decide_eq_true. by eapply children_parent.
    - intros p Hp. apply bool_decide_eq_false. destruct se; [apply list_elem_of_singleton in Hp as ->; apply self_not_child|by apply elem_of_nil in Hp]. }
  unfold publish_after. rewrite Hfresh. set (fresh := list_to_set kids.*1 : gset PathBuf).
  assert (Hin : ∀ p, p ∈ fresh ↔ p ∈ kids.*1) by (intros p; apply elem_of_list_to_set).
  assert (Hst : (pb_status pb).*1 = (List.filter (λ q, negb (e_is_dir q.2)) kids).*1).
  { unfold pb, publish. cbn. rewrite <- list_fmap_compose. by apply list_fmap_ext. }
  assert (Hstat : ∀ p, p ∈ (pb_status pb).*1 → p ∈ kids.*1) by (intros p; rewrite Hst; apply sub_fmap).
  match goal with |- context [insert_all (List.filter ?f (pb_status pb))] => assert (Hnds : NoDup (List.filter f (pb_status pb)).*1) by
    (apply NoDup_fmap_filterb; rewrite Hst; by apply NoDup_fmap_filterb) end.
  cbn [m_children m_details m_shared m_fileids upd_core upd_cache upd_status upd_maps m_core take_children publish_before].
  split_and!.
  - rewrite lookup_partial_alter_eq. cbn. f_equal. apply set_eq. intros p.
    destruct (m_children m !! path) as [s|] eqn:E; rewrite lookup_alter_eq, E; cbn; set_solver.
  - intros p e Hpe. assert (Hp : p ∈ kids.*1) by (apply list_elem_of_fmap; by exists (p, e)).
    rewrite map_lookup_filter_Some_2 with (x := detail_of e); [done| |cbn; set_solver].
    rewrite insert_all_lookup.
    + rewrite Hdet. rewrite list_to_map_app. rewrite lookup_union_r.
      * rewrite (elem_of_list_to_map_1 _ p (detail_of e)); [done| |].
        -- rewrite <- list_fmap_compose. by erewrite list_fmap_ext; [exact Hnd|]; intros ? [].
        -- apply list_elem_of_fmap. by exists (p, e).
      * apply not_elem_of_list_to_map_1. destruct se; [|by intros ?%elem_of_nil]. cbn. intros ->%list_elem_of_singleton.
        by apply (self_not_child path), (children_parent path entries (path, e)).
    + rewrite Hkids. apply NoDup_app. split_and!; [destruct se; [apply NoDup_singleton|constructor]| |done].
      intros q Hq Hqk. destruct se; [|by apply elem_of_nil in Hq]. apply list_elem_of_singleton in Hq as ->.
      apply list_elem_of_fmap in Hqk as ([q e'] & Hq & Hq'). cbn in Hq. subst q. by apply (self_not_child path), (children_parent path entries (path, e')).
  - intros p Hold Hp. assert (Hold' : p ∈ old) by exact Hold. split_and!.
    + rewrite elem_of_difference. intros [_ Hn]. apply Hn. set_solver.
    + apply map_lookup_filter_None. right. intros x _. cbn. set_solver.
    + apply map_lookup_filter_None. right. intros x _. cbn. set_solver.
    + cbn [r_status mark_dirty set_cache upd_core upd_cache m_core upd_status].
      rewrite insert_all_lookup by done. rewrite not_elem_of_list_to_map_1.
      * apply map_lookup_filter_None. right. intros x _. cbn. set_solver.
      * intros Hs. apply Hp, Hstat, (sub_fmap _ _ _ _ Hs).
  - intros p e Hpe Hfile Hold Hup. cbn [r_status mark_dirty set_cache upd_core upd_cache m_core upd_status].
    rewrite insert_all_lookup by done.
    assert (Hpk : p ∈ kids.*1) by (apply list_elem_of_fmap; by exists (p, e)).
    assert (Hne : p ≠ path) by (intros ->; by apply (self_not_child path), (children_parent path entries (path, e))).
    rewrite not_elem_of_list_to_map_1.
    + destruct (r_status (m_core m) !! p) as [s|] eqn:Es.
      * apply map_lookup_filter_Some. rewrite lookup_delete_ne by done. split; [done|]. cbn. exact Hold.
      * apply map_lookup_filter_None. left. by rewrite lookup_delete_ne.
    + intros Hs. apply list_elem_of_fmap in Hs as (q & -> & [Hq Hq']%elem_of_filterb). apply negb_true_iff, bool_decide_eq_false in Hq'.
      apply Hq', elem_of_list_to_set. apply elem_of_filterb. split; [by apply list_elem_of_fmap_2|]. by apply bool_decide_eq_true.
Qed.
End maps.

(** ** Witnesses, and what the theorems leave out *)

Definition rd_entry (name : string) : RemoteEntry :=
  {| e_path := [name]; e_is_dir := false; e_size := 1; e_modified := None; e_change_token := None; e_content_type := None;
     e_ext := ext_default |}.
Definition rd_list : list RemoteEntry := [rd_entry "a"; rd_entry ".goutputstream-1"; rd_entry "b"; rd_entry "c"].
Definition rd_temp (n : string) : bool := String.prefix ".goutputstream-" n.
Definition rd_roomy (rows : list Row) (r : Row) : bool := false.
Definition rd_dirs (snap : option (list RemoteEntry)) : Dirs (W := unit) :=
  {| d_mount := ex_mount; d_open := {[ 7%nat := {| od_path := root; od_snapshot := snap |} ]} |}.
Local Abbreviation rd_read others := (readdir_common (H := sv_cfg) true rd_temp ∅ rd_roomy (λ _, 0) others false 7 1).

Lemma rd_wf : inode_wf (m_cache ex_mount).
Proof.
  split; intros i p; unfold ex_mount, m_cache, ex_root_cache; cbn.
  - change (<[[]:=1%nat]> ∅ !! p) with (({[root := 1%nat]} : gmap PathBuf nat) !! p). rewrite !lookup_singleton_Some. naive_solver.
  - rewrite lookup_singleton_Some. intros [<- _]. lia.
Qed.


Lemma row_inodes_witness :
  ∃ rows d', rd_read (λ m, m) 0 (Ok (rd_list, None)) (rd_dirs None) = (Rows rows, d') ∧ length rows = 5%nat ∧
    ∀ row, row ∈ rows → 3 ≤ row_off row → get_path (m_cache (d_mount d')) (row_ino row) = Some [row_name row].
Proof.
  destruct (rd_read (λ m, m) 0 (Ok (rd_list, None)) (rd_dirs None)) as [a d'] eqn:E.
  assert (Ha : match a with Rows rows => length rows = 5%nat | _ => False end).
  { apply (f_equal fst) in E. vm_compute in E. by subst a. }
  destruct a as [rows|]; [|done]. exists rows, d'. split_and!; [done|done|].
  apply (row_inodes (H := sv_cfg) true rd_temp ∅ rd_roomy (λ _, 0) (λ m, m) false 7 1 root 0 (Ok (rd_list, None)) (rd_dirs None) rows d');
    [apply rd_wf|by vm_compute|by split|done|exact E].
Defined.

Lemma maps_match_listing_witness :
  let pb := publish (H := sv_cfg) ∅ root None rd_list in
  let '(old, m1) := take_children root (publish_before pb ex_mount) in
  m_children (publish_after root pb old m1) !! root = Some (list_to_set (children_of root rd_list).*1).
Proof.
  apply (maps_match_listing (H := sv_cfg) ex_mount ∅ root None rd_list). vm_compute.
  repeat (constructor; [set_unfold; naive_solver|]). constructor.
Defined.

(** A file known to the folder and being uploaded loses its emblem to the listing. *)
Lemma emblem_lost :
  let m := upd_status (<[["a"%string] := Uploading]>) (upd_maps (λ s, s) (λ f, f) (λ f, f) (<[root := {[ ["a"%string] ]}]>) ex_mount) in
  let pb := publish (H := sv_cfg) ∅ root None rd_list in
  let '(old, m1) := take_children root (publish_before pb m) in
  r_status (m_core m) !! ["a"%string] = Some Uploading ∧
  r_status (m_core (publish_after root pb old m1)) !! ["a"%string] = None.
Proof. by vm_compute. Qed.

(** A rename while the first page is made: the child's row carries the root's inode. *)
Lemma row_of_renamed_child :
  match (rd_read (upd_cache (λ c, move_path c ["a"%string] ["z"%string] false)) 0 (Ok ([rd_entry "a"], None)) (rd_dirs None)).1 with
  | Rows rows => (λ r, (row_name r, row_ino r)) <$> rows
  | DirError _ => []
  end = [("."%string, 1%nat); (".."%string, 1%nat); ("a"%string, 1%nat)].
Proof. by vm_compute. Qed.

(** A folder renamed while it is read loses its pinned listing: the page comes from another. *)
Lemma renamed_folder_unpinned :
  let d := {| d_mount := ex_mount; d_open := {[ 7%nat := {| od_path := ["old"%string]; od_snapshot := Some rd_list |} ]} |} in
  (page_source 7 root (Err ""%string) d).1 = Some [ex_root_entry].
Proof. by vm_compute. Qed.
