(* ===== verification/Namespace.v ===== *)
(** [lib.rs], the requests that change the namespace: create, mkdir, unlink, rmdir, rename.

    A handler changes the cache, the desktop's maps and the open handles, queues the change in
    the journal and answers; online it also takes a [PathSeq] ticket and leaves a job that
    sends the change to the server.  A handler is one step (the scheduler of [Dispatch] keeps
    the requests on its inodes away), a job's request and what it does with the answer
    another. *)
From Stdlib Require Import Ascii String.
From S2P Require Import Prelude Paths Filenames Backend Server FsCache Journal Replay Versions AppLocks Attr IoMode KeyedFifo PathSeq Mount LiveUpload.

Section handlers.
Context {W : Type} `{CloudBackend W} (clock : W → Z) (mono : W → Instant).
Context `{KeepConfig} (tracker_ignore : bool) (honor_locks : bool).
Implicit Types m : Mount W.

Local Abbreviation now := (Mount.now mono).
Local Abbreviation now_system := (Mount.now_system clock).
Local Abbreviation note_error := (Mount.note_error clock).
Local Abbreviation enqueue_op := (Mount.enqueue_op clock).
Local Abbreviation adopt_server_version := (Mount.adopt_server_version mono).

Definition dir_perms (ino : nat) m : option string * Mount W :=
  let '(p, c) := nc_dir_perms (m_cache m) ino in (p, upd_cache (λ _, c) m).
(** The grant is there, or the folder's grants are unknown. *)
Definition granted (c : ascii) (perms : option string) : bool :=
  match perms with Some p => contains c p | None => true end.
Definition fresh_ghost m (g : GhostEntry) : bool := (sat_sub (now m) (g_created_at g) <? GHOST_TTL)%Z.

(* lib.rs:10723-10726 is_trash_dir *)
Definition is_trash_dir (name : string) : bool := String.prefix ".Trash" name.

(** ** mkdir *)

(* lib.rs:8938-8948 mkdir *)
Definition new_dir_entry (path : PathBuf) (t : SystemTime) : RemoteEntry :=
  {| e_path := path; e_is_dir := true; e_size := 0; e_modified := Some t; e_change_token := None;
     e_content_type := None; e_ext := set_str ext_default "permissions" "RGDNVCK" |}.

(* lib.rs:8889-9001 mkdir *)
Definition mkdir (parent : nat) (name : string) m : Reply * Mount W :=
  if is_trash_dir name then (Error EPERM, m)
  else match validate name with
  | Some e => (Error (to_errno e), note_error [name] InvalidFilename "invalid name" m)
  | None =>
      match get_path (m_cache m) parent with
      | None => (Error ENOENT, m)
      | Some parent_path =>
          let path := join parent_path [name] in
          let ghost := m_ghosts m !! path in
          let m := with_ghosts (delete path (m_ghosts m)) m in
          let hidden := match ghost with
                        | Some g => fresh_ghost m g && match g_kind g with HiddenAdd => true | VisibleDelete _ => false end
                        | None => false
                        end in
          if hidden then
            let '(ino, c) := allocate_inode (m_cache m) path in
            (Entry (make_dir_attr ino), upd_cache (λ _, c) m)
          else
            let entry := new_dir_entry path (now_system m) in
            let '(ino, c) := allocate_inode (m_cache m) path in
            let c := upd_listing parent_path (λ files, files ++ [entry]) c in
            let c := put_dir_cache c tracker_ignore (now m) (now_system m) path None None [] in
            let m := upd_core (mark_dirty [parent_path]) (upd_cache (λ _, c) m) in
            let '(s, m) := enqueue_op (MkDir path) m in
            let m := if m_offline m then m else submit_mutation (ticket_entry path) (JMkdir s path) m in
            (Entry (make_dir_attr ino), m)
      end
  end.

(** ** create *)

(* lib.rs:8804-8814 create *)
Definition new_file_entry (path : PathBuf) (t : SystemTime) : RemoteEntry :=
  {| e_path := path; e_is_dir := false; e_size := 0; e_modified := Some t; e_change_token := None;
     e_content_type := None; e_ext := set_str ext_default "permissions" "RGDNVW" |}.

Definition plain_handle (path : PathBuf) (staging : option PathBuf) (ino : nat) (k : IoKind) (streams made : bool) (g : Z) : OpenFile :=
  {| remote_path := path; write_path := staging; dirty := false; original_etag := None; total_written := 0; stream_eligible := streams;
     chunk_upload := None; of_ino := ino; io_kind := k; upload_failed := false; created := made; unlinked := false;
     opened_gen := g; pin := {| pin_etag := None; pin_frozen := false |} |}.

Definition open_handle (ino : nat) (o : IoKind → OpenFile) m : nat * Mount W :=
  let fh := m_next_fh m in
  let '(k, io) := acquire_plain (B := nat) (E := unit) (m_io m) ino in
  (fh, upd_files (insert fh (o k)) (λ d, d) (with_fh (S fh) io m)).

(** The staging file of a handle, in the cache directory. *)
Definition staging_path (m : Mount W) (fh : nat) : PathBuf := join (cache_dir (m_journal m)) [("write_" +:+ pretty.pretty fh)%string].

(** A lock file made here starts the tracking of its document. *)
(* lib.rs:8867-8886 create *)
Definition track_document (tgid_of : W → nat → option nat) (comm_of : W → nat → option string) (enabled : bool)
    (pid : nat) (parent_path : PathBuf) (name : string) m : Mount W :=
  if honor_locks && enabled then
    match document_for name with
    | None => m
    | Some (app, doc) =>
        let '(files, c) := get_cached_dir_readonly (m_cache m) parent_path in
        let m := upd_cache (λ _, c) m in
        let listed := files ≫= find (λ e, negb (e_is_dir e)
                        && match file_name (e_path e) with Some n => matches doc n | None => false end) in
        let target := match listed, doc with
                      | Some e, _ => Some (e_path e)
                      | None, Exact n => Some (join parent_path [n])
                      | None, OfficeOwner _ => None
                      end in
        match target with
        | None => m
        | Some target =>
            let s := Build_AState (m_locks m) (m_cache m) (m_journal m) (m_uploads m) (m_world m) in
            upd_locks (λ _, a_table (track tgid_of comm_of target (join parent_path [name]) app pid s).2) m
        end
    end
  else m.

(* lib.rs:8698-8866 create *)
Definition create (streams_on disk_ok : bool) (parent : nat) (name : string) m : Reply * Mount W :=
  match get_path (m_cache m) parent with
  | None => (Error ENOENT, m)
  | Some parent_path =>
      let path := join parent_path [name] in
      if bool_decide (path = trackerignore_path) then (Error EACCES, m)
      else
        let ghost := m_ghosts m !! path in
        let m := with_ghosts (delete path (m_ghosts m)) m in
        let hidden := match ghost with
                      | Some g => fresh_ghost m g && match g_kind g with HiddenAdd => true | VisibleDelete _ => false end
                      | None => false
                      end in
        let '(listed, m) :=
          if hidden then
            let '(files, c) := get_cached_dir_readonly (m_cache m) parent_path in
            (files ≫= find (has_path path), upd_cache (λ _, c) m)
          else (None, m) in
        match listed with
        | Some entry =>
            let '(ino, c) := allocate_inode (m_cache m) path in
            let m := upd_cache (λ _, c) m in
            let attr := make_file_attr honor_locks (m_locks m) ino entry in
            let '(fh, m) := open_handle ino (λ k, plain_handle [] None ino k false false (gen (m_uploads m))) m in
            (Created attr fh, m)
        | None =>
            match validate name with
            | Some e => (Error (to_errno e), note_error [name] InvalidFilename "invalid name" m)
            | None =>
                let staging := staging_path m (m_next_fh m) in
                if negb disk_ok then (Error EIO, with_fh (S (m_next_fh m)) (m_io m) m)
                else
                  let m := upd_j (λ j, set_files j (<[staging := Build_LocalFile [] (now_system m)]> (files (disk j)))) m in
                  let '(ino, c) := allocate_inode (m_cache m) path in
                  let entry := new_file_entry path (now_system m) in
                  let c := start_uploading path (upd_listing parent_path (λ files, files ++ [entry]) c) in
                  let m := upd_cache (λ _, c) m in
                  let '(fh, m) := open_handle ino (λ k, plain_handle path (Some staging) ino k streams_on true (gen (m_uploads m))) m in
                  (Created (make_file_attr honor_locks (m_locks m) ino entry) fh, m)
            end
        end
  end.

(** ** unlink and rmdir *)

(** What the desktop's maps know of a path that went away. *)
(* lib.rs:9085-9091 unlink *)
Definition forget_path (dir path : PathBuf) m : Mount W :=
  upd_status (delete path)
    (upd_maps (λ s, s ∖ {[path]}) (delete path) (delete path) (alter (λ s, s ∖ {[path]}) dir) m).

Definition ghost_deleted m (g : GhostEntry) : bool :=
  fresh_ghost m g && match g_kind g with VisibleDelete _ => true | HiddenAdd => false end.

(* lib.rs:9003-9203 unlink *)
Definition unlink (parent : nat) (name : string) m : Reply * Mount W :=
  let '(perms, m) := dir_perms parent m in
  if negb (granted "D" perms) then (Error EACCES, m)
  else match get_path (m_cache m) parent with
  | None => (Error ENOENT, m)
  | Some parent_path =>
      let path := join parent_path [name] in
      if bool_decide (path = trackerignore_path) then
        (Done, upd_cache (λ c, upd_listing parent_path (without path) (hide_trackerignore c)) m)
      else
        let ghost := m_ghosts m !! path in
        let m := with_ghosts (delete path (m_ghosts m)) m in
        if match ghost with Some g => ghost_deleted m g | None => false end then (Done, m)
        else
          let m := upd_cache (λ c,
            let c := upd_listing parent_path (without path) c in
            let c := with_file_cache c (delete path (file_cache c)) in
            with_guards c (uploading c ∖ {[path]}) ({[path]} ∪ deleting c)) m in
          let m := upd_core (mark_dirty [parent_path]) (forget_path parent_path path m) in
          let m := upd_files (fmap (λ o, if bool_decide (remote_path o = path) then set_unlinked o else o)) (λ d, d) m in
          let '(s, m) := enqueue_op (Unlink path) m in
          let m := upd_locks (lock_file_removed path (now m)) m in
          (Done, if m_offline m then upd_cache (stop_deleting path) m
                 else submit_mutation (ticket_entry path) (JUnlink s path) m)
  end.

(* lib.rs:9205-9319 rmdir *)
Definition rmdir (parent : nat) (name : string) m : Reply * Mount W :=
  let '(perms, m) := dir_perms parent m in
  if negb (granted "D" perms) then (Error EACCES, m)
  else match get_path (m_cache m) parent with
  | None => (Error ENOENT, m)
  | Some parent_path =>
      let path := join parent_path [name] in
      let ghost := m_ghosts m !! path in
      let m := with_ghosts (delete path (m_ghosts m)) m in
      if match ghost with Some g => ghost_deleted m g | None => false end then (Done, m)
      else
        let m := upd_cache (λ c,
          let c := upd_listing parent_path (without path) c in
          let c := with_dirs c (delete path (dir_cache c)) in
          with_guards c (uploading c) ({[path]} ∪ deleting c)) m in
        let m := upd_core (mark_dirty [parent_path]) (forget_path parent_path path m) in
        let '(s, m) := enqueue_op (RmDir path) m in
        (Done, if m_offline m then upd_cache (stop_deleting path) m
               else submit_mutation (ticket_entry path) (JRmdir s path) m)
  end.

(** ** rename *)

Definition rekey {A} (from to : PathBuf) (g : gmap PathBuf A) : gmap PathBuf A :=
  match g !! from with Some v => <[to := v]> (delete from g) | None => g end.

(* lib.rs:9447-9469 rename *)
Definition move_maps (old_parent new_parent from to : PathBuf) m : Mount W :=
  upd_status (rekey from to)
    (upd_maps (λ s, if bool_decide (from ∈ s) then {[to]} ∪ (s ∖ {[from]}) else s) (rekey from to) (rekey from to)
       (λ ch, let ch := alter (λ s, s ∖ {[from]}) old_parent ch in
              <[new_parent := {[to]} ∪ default ∅ (ch !! new_parent)]> ch) m).

(** Both ghosts of a rename seen on the server. *)
(* lib.rs:9369-9386 rename *)
Definition ghost_rename (from to : PathBuf) m : bool :=
  match m_ghosts m !! from, m_ghosts m !! to with
  | Some fg, Some tg =>
      fresh_ghost m fg && fresh_ghost m tg && bool_decide (is_Some (g_rename_pair_id fg))
      && bool_decide (g_rename_pair_id fg = g_rename_pair_id tg)
      && match g_kind fg, g_kind tg with VisibleDelete _, HiddenAdd => true | _, _ => false end
  | _, _ => false
  end.

Definition moved_entry (to : PathBuf) (size : option Z) (e : RemoteEntry) : RemoteEntry :=
  {| e_path := to; e_is_dir := e_is_dir e; e_size := default (e_size e) size; e_modified := e_modified e;
     e_change_token := e_change_token e; e_content_type := e_content_type e; e_ext := e_ext e |}.

(** What the cache learns of the move, and what rename has to know of it. *)
Record Moving := {
  mv_displaced : option (nat * option FileAttr);
  mv_dest_listed : option (option Etag);
  mv_source_on_server : bool;
  mv_dir : bool;
}.

(* lib.rs:9412-9444 rename *)
Definition move_listed (locks : Table) (old_parent new_parent from to : PathBuf) (staged : option Z) (c : FsCache) : Moving * FsCache :=
  let '(dest_files, c) := get_cached_dir_readonly c new_parent in
  let dest_entry := dest_files ≫= find (λ f, has_path to f && negb (e_is_dir f)) in
  let displaced := match get_inode c to with
                   | Some d => if bool_decide (Some d = get_inode c from) then None
                               else Some (d, (λ e, make_file_attr honor_locks locks d e) <$> dest_entry)
                   | None => None
                   end in
  let moved := dir_cache c !! old_parent ≫= λ d, find (has_path from) (d_files d) in
  let c := upd_listing old_parent (without from) c in
  let is_dir := match moved with Some e => e_is_dir e | None => false end
                || bool_decide (is_Some (dir_cache c !! from)) in
  let c := match moved with
           | Some e => upd_listing new_parent (λ files, without to files ++ [moved_entry to staged e]) c
           | None => c
           end in
  ({| mv_displaced := displaced; mv_dest_listed := e_change_token <$> dest_entry;
      mv_source_on_server := match moved with
                             | Some e => e_is_dir e || bool_decide (is_Some (e_change_token e))
                             | None => true
                             end;
      mv_dir := is_dir |}, move_path c from to is_dir).

(** A handle under the source follows it; a handle on the replaced file loses it. *)
(* lib.rs:9486-9505 rename *)
Definition retarget_handle (from to : PathBuf) (displaced : option (nat * option FileAttr)) (o : OpenFile) : OpenFile :=
  match strip_prefix (remote_path o) from with
  | Some [] => set_path o to
  | Some rel => set_path o (join to rel)
  | None => match displaced with
            | Some (ino, _) => if of_ino o =? ino then displace o else o
            | None => o
            end
  end.

Definition on_path (p : PathBuf) (o : OpenFile) : bool := bool_decide (strip_prefix (remote_path o) p = Some []).
Definition loses_file (from : PathBuf) (ino : nat) (o : OpenFile) : bool :=
  bool_decide (strip_prefix (remote_path o) from = None) && (of_ino o =? ino).

(* lib.rs:9482-9510 rename *)
Definition retarget_handles (from to : PathBuf) (displaced : option (nat * option FileAttr)) m : bool * Mount W :=
  let handles := (map_to_list (m_files m)).*2 in
  let uncommitted := existsb (λ o, on_path from o && created o && negb (unlinked o)) handles in
  let keep_attr := match displaced with
                   | Some (ino, Some a) =>
                       if existsb (loses_file from ino) handles
                       then insert ino {| at_ino := at_ino a; at_size := at_size a; at_blocks := at_blocks a;
                              at_mtime := at_mtime a; at_kind := at_kind a; at_perm := at_perm a; at_nlink := 0 |}
                       else λ d, d
                   | _ => λ d, d
                   end in
  (uncommitted, upd_files (fmap (retarget_handle from to displaced)) keep_attr m).

(** An upload's guard moves with its file. *)
(* lib.rs:9513-9516 rename *)
Definition move_guard (from to : PathBuf) (c : FsCache) : FsCache :=
  if bool_decide (from ∈ uploading c) then with_guards c ({[to]} ∪ (uploading c ∖ {[from]})) (deleting c) else c.

(** The version of the destination the save replaces. *)
(* lib.rs:9529-9534 rename *)
Definition dest_version (to : PathBuf) (mv : Moving) m : option Etag :=
  if mv_dir mv then None
  else match pending_base to (m_journal m) with
       | Some queued => queued
       | None => mv_dest_listed mv ≫= λ listed,
                   match served (versions (m_uploads m)) to with Some v => Some v | None => listed end
       end.

(** The MOVE's ticket: both names, and both folders shared. *)
(* lib.rs:9570-9575 rename *)
Definition ticket_move (from to : PathBuf) : list (PathBuf * Access) :=
  [(from, Exclusive); (to, Exclusive); (parent_or_root from, Shared); (parent_or_root to, Shared)].

(** Whether the rename needs a MOVE: not for a file of ours that is not uploaded yet, nor when
    its queued upload can be pointed at the new name instead. *)
(* lib.rs:9511-9727 rename *)
Definition rename_sent (from to : PathBuf) (mv : Moving) (uncommitted : bool) m : Mount W :=
  if uncommitted && negb (has_pending_put from (m_journal m)) then upd_cache (move_guard from to) m
  else
    let base := dest_version to mv m in
    let '(retargeted, j) := if mv_source_on_server mv then (false, m_journal m) else retarget_upload from to base (m_journal m) in
    if retargeted then upd_cache (move_guard from to) (upd_j (λ _, j) m)
    else
      let '(s, m) := enqueue_op (Rename from to None base) (upd_j (λ _, j) m) in
      if m_offline m then m
      else
        let m := if mv_dir mv then m else upd_cache (start_uploading to) m in
        submit_mutation (ticket_move from to) (JMove s from to base (mv_dir mv)) m.

(* lib.rs:9321-9727 rename *)
Definition rename (parent : nat) (name : string) (newparent : nat) (newname : string) m : Reply * Mount W :=
  match validate newname with
  | Some e => (Error (to_errno e), note_error [newname] InvalidFilename "invalid name" m)
  | None =>
      let '(perms, m) := dir_perms parent m in
      if negb (granted (if parent =? newparent then "N" else "V") perms) then (Error EACCES, m)
      else match get_path (m_cache m) parent, get_path (m_cache m) newparent with
      | Some old_parent, Some new_parent =>
          let from := join old_parent [name] in
          let to := join new_parent [newname] in
          if ghost_rename from to m then (Done, with_ghosts (delete to (delete from (m_ghosts m))) m)
          else
            let staged := get_inode (m_cache m) from ≫= λ ino,
              newest_staged_len (files (disk (m_journal m))) (m_files m) (λ _ o, of_ino o =? ino) in
            let '(mv, c) := move_listed (m_locks m) old_parent new_parent from to staged (m_cache m) in
            let m := move_maps old_parent new_parent from to (upd_cache (λ _, c) m) in
            let m := upd_core (mark_dirty (old_parent :: if decide (old_parent = new_parent) then [] else [new_parent])) m in
            let '(uncommitted, m) := retarget_handles from to (mv_displaced mv) m in
            (Done, rename_sent from to mv uncommitted m)
      | _, _ => (Error ENOENT, m)
      end
  end.

(** ** The jobs *)

Definition settle_delete (s : SeqId) (path : PathBuf) m : Mount W :=
  upd_cache (stop_deleting path) (upd_j (remove s) m).

(* lib.rs:8977-8993 mkdir *)
Definition run_mkdir (s : SeqId) (path : PathBuf) m : Mount W :=
  let '(r, w) := Backend.mkdir path (m_world m) in
  let m := log_world w m in
  match r with
  | Ok _ =>
      let m := upd_j (remove s) m in
      match dir_cache (m_cache m) !! path with
      | Some d => if bool_decide (d_etag d = None) && bool_decide (d_files d = [])
                  then upd_cache (λ c, with_dirs c (delete path (dir_cache c))) m else m
      | None => m
      end
  | Err e => upd_j (mark_failed s (MWrite e)) (note_error path (ServerError 0) "mkdir failed" m)
  end.

(* lib.rs:9145-9194 unlink *)
Definition run_unlink (s : SeqId) (path : PathBuf) m : Mount W :=
  let m := upd_uploads (λ u, forget u path) m in
  let '(r, w) := delete_path path (m_world m) in
  let m := log_world w m in
  match r with
  | Ok _ => settle_delete s path (upd_locks (set_token path None (now m)) m)
  | Err e =>
      if is_404 e then settle_delete s path m
      else if is_transient e then upd_j (mark_deferred s (MWrite e)) m
      else upd_cache (stop_deleting path)
             (upd_j (mark_failed s (MWrite e)) (note_error path (ServerError 0) "delete failed" m))
  end.

(* lib.rs:9292-9313 rmdir *)
Definition run_rmdir (s : SeqId) (path : PathBuf) m : Mount W :=
  let '(r, w) := delete_path path (m_world m) in
  let m := log_world w m in
  match r with
  | Ok _ => settle_delete s path m
  | Err e =>
      if is_404 e then settle_delete s path m
      else if is_transient e then upd_j (mark_deferred s (MWrite e)) m
      else upd_cache (stop_deleting path)
             (upd_j (mark_failed s (MWrite e)) (note_error path (ServerError 0) "rmdir failed" m))
  end.

(** Both outcomes that end the entry leave the destination's listing to the server. *)
(* lib.rs:9618-9628 rename *)
Definition settle_listing (from to : PathBuf) (pending : bool) m : Mount W :=
  upd_cache (λ c,
    let c := if pending then c else stop_uploading to c in
    expire_listing (now m) (parent_or_root from) (expire_listing (now m) (parent_or_root to) c)) m.

Definition upload_pending (path : PathBuf) m : bool := bool_decide (is_Some (pending_upload path (m_journal m))).

(** A MOVE answers with no etag: the moved file's is asked for. *)
(* lib.rs:9636-9653 rename *)
Definition ask_version (to : PathBuf) m : Mount W :=
  let '(r, w) := list_dir to (m_world m) in
  let m := log_world w m in
  match (match r with Ok (_, Some entry, _) => e_change_token entry | _ => None end) with
  | Some tag =>
      upd_cache (upd_listing (parent_or_root to) (update_first (has_path to) (with_token (Some tag))))
        (upd_uploads (λ u, {| committed := committed u; gen := gen u; versions := wrote (versions u) to tag |}) m)
  | None => upd_uploads (λ u, {| committed := committed u; gen := gen u; versions := unknown (versions u) to |}) m
  end.

(* lib.rs:9609-9615 rename *)
Definition release_source_lock (from : PathBuf) m : Mount W :=
  match token_for (m_locks m) from with
  | Some token => let w := (unlock_file from token (m_world m)).2 in
                  let m := log_world w m in upd_locks (set_token from None (now m)) m
  | None => m
  end.

Definition drop_staging (st : option PathBuf) : Mount W → Mount W :=
  match st with Some sp => upd_j (λ j, remove_file j sp) | None => λ m, m end.

(* lib.rs:9630-9677 rename *)
Definition move_done (s : SeqId) (from to : PathBuf) (base : option Etag) (moved_dir : bool) (st : option PathBuf) m : Mount W :=
  let m := upd_uploads (λ u, moved u from to) m in
  let m := upd_locks (set_token to None (now m)) m in
  let m := if moved_dir then m else ask_version to m in
  let m := drop_staging st (upd_j (λ j, rebase to base None (remove s j)) m) in
  let pending := upload_pending to m in
  let m := settle_listing from to pending m in
  let m := upd_status (λ st, let st := delete from st in
             if negb pending && bool_decide (st !! to = Some Uploading) then <[to := Synced]> st else st) m in
  upd_core (mark_dirty [to; parent_or_root to]) m.

(* lib.rs:9678-9697 rename *)
Definition move_conflicted (s : SeqId) (from to copy : PathBuf) (st : option PathBuf) m : Mount W :=
  let m := note_error to KConflict "Changed on the server since it was opened" m in
  let m := drop_staging st (upd_j (remove s) m) in
  let m := settle_listing from to (upload_pending to m) m in
  let m := adopt_server_version to m in
  upd_core (mark_dirty [to; parent_or_root to]) (upd_status (delete from) m).

(* lib.rs:9608-9722 rename *)
Definition run_move (s : SeqId) (from to : PathBuf) (base : option Etag) (moved_dir : bool) m : Mount W :=
  let st := rename_staging s (m_journal m) in
  let m := release_source_lock from m in
  let '(outcome, w) := send_move clock (files (disk (m_journal m))) from to st base (m_world m) in
  let m := log_world w m in
  match outcome with
  | Replay.Moved => move_done s from to base moved_dir st m
  | ConflictCopy copy => move_conflicted s from to copy st m
  | SourceGone =>
      upd_cache (stop_uploading to)
        (upd_j (λ j, remove s (add_conflict (clock (m_world m)) (MoveSourceGone from to) j).2) m)
  | Failed e =>
      let m := upd_cache (stop_uploading to) m in
      if is_transient e then upd_j (mark_deferred s (MWrite e)) m
      else upd_j (mark_failed s (MWrite e)) (note_error from (ServerError 0) "rename failed" m)
  end.

(** An upload's job here runs with nothing else going on; its parts interleave with the rest
    of the mount in [nstep]. *)
Definition run_job (j : LiveJob) m : Mount W :=
  match j with
  | JPut u => run_put clock mono [] (λ m, m) true true u m
  | JFinish u st p => run_finish clock mono (λ m, m) true u st p m
  | JMkdir s path => run_mkdir s path m
  | JUnlink s path => run_unlink s path m
  | JRmdir s path => run_rmdir s path m
  | JMove s from to base d => run_move s from to base d m
  end.

(** A delete and a MOVE wait up to 30 seconds for an upload of their path still under way. *)
(* lib.rs:9153-9156 unlink *)
Definition still_uploading (j : LiveJob) m : bool :=
  match j with
  | JUnlink _ path | JMove _ path _ _ _ =>
      bool_decide (path ∈ uploading (m_cache m)) || has_pending_put path (m_journal m)
  | _ => false
  end.

(** ** Handles follow their inodes *)

Definition names (c : FsCache) : gmap nat PathBuf * gmap PathBuf nat * nat := (inodes c, paths c, next_inode c).

Lemma names_put_dir_cache c ti t w p e s f : names (put_dir_cache c ti t w p e s f) = names c.
Proof.
  unfold put_dir_cache. case_match; [done|]. unfold evict_dir_cache, next_access_tick, put_entry.
  destruct c. simpl. by repeat case_match.
Qed.
Lemma names_readonly c p : names (get_cached_dir_readonly c p).2 = names c.
Proof. unfold get_cached_dir_readonly. destruct c. simpl. by case_match. Qed.
Lemma names_nc_dir_perms c i : names (nc_dir_perms c i).2 = names c.
Proof.
  unfold nc_dir_perms. repeat case_match; try done;
    match goal with E : get_cached_dir_readonly ?c ?p = (_, ?c') |- _ =>
      pose proof (names_readonly c p) as Hn; rewrite E in Hn end; done.
Qed.
Lemma names_upd_listing d f c : names (upd_listing d f c) = names c.
Proof. unfold upd_listing. destruct c. simpl. by case_match. Qed.
Lemma names_inode_wf c c' : names c' = names c → inode_wf c → inode_wf c'.
Proof. unfold names, inode_wf. by intros [= -> -> ->]. Qed.
Lemma names_get_path c c' i : names c' = names c → get_path c' i = get_path c i.
Proof. unfold names, get_path. by intros [= -> _ _]. Qed.
Lemma names_get_inode c c' p : names c' = names c → get_inode c' p = get_inode c p.
Proof. unfold names, get_inode. by intros [= _ -> _]. Qed.

(** Every open handle whose file still has a name knows the name its inode has. *)
Definition handles_ok (c : FsCache) (files : gmap nat OpenFile) : Prop :=
  ∀ fh o, files !! fh = Some o → unlinked o = false → remote_path o ≠ [] →
    get_path c (of_ino o) = Some (remote_path o).
Definition ns_inv m : Prop := inode_wf (m_cache m) ∧ handles_ok (m_cache m) (m_files m).

(** A change that gives no path a new inode and touches no handle. *)
Definition same_names m m' : Prop := names (m_cache m') = names (m_cache m) ∧ m_files m' = m_files m.

Lemma same_refl m : same_names m m.
Proof. done. Qed.
Lemma same_trans m1 m2 m3 : same_names m1 m2 → same_names m2 m3 → same_names m1 m3.
Proof. intros [E1 E2] [F1 F2]. split; congruence. Qed.
Lemma same_inv m m' : same_names m m' → ns_inv m → ns_inv m'.
Proof.
  intros [Hn Hf] [Hw Hh]. split; [by eapply names_inode_wf|]. rewrite Hf. intros fh o Ho Hu Hr.
  rewrite (names_get_path _ _ _ Hn). by eapply Hh.
Qed.
Lemma same_cache f m : names (f (m_cache m)) = names (m_cache m) → same_names m (upd_cache f m).
Proof. done. Qed.
Lemma same_if (b : bool) m m1 m2 : same_names m m1 → same_names m m2 → same_names m (if b then m1 else m2).
Proof. by destruct b. Qed.
Lemma same_dir_perms i m : same_names m (dir_perms i m).2.
Proof.
  unfold dir_perms. pose proof (names_nc_dir_perms (m_cache m) i) as Hn.
  by destruct (nc_dir_perms (m_cache m) i).
Qed.
Lemma same_enqueue o m : same_names m (enqueue_op o m).2.
Proof. unfold enqueue_op. by destruct (enqueue _ _ _). Qed.
Lemma same_submit ps j m : same_names m (submit_mutation ps j m).
Proof. unfold submit_mutation. by destruct (PathSeq.ticket _ _). Qed.

Lemma allocate_spec c path : inode_wf c →
  let '(ino, c') := allocate_inode c path in
  inode_wf c' ∧ get_path c' ino = Some path ∧ ∀ i p, get_path c i = Some p → get_path c' i = Some p.
Proof.
  intros Hw. pose proof (allocate_inode_wf c path Hw) as Hw'. unfold allocate_inode in *.
  destruct (FsCache.paths c !! path) as [ino|] eqn:E; simpl in *.
  - split_and!; [done|by apply Hw|done].
  - split_and!; [done|apply lookup_insert_eq|]. intros i p Hp. unfold get_path in *. simpl.
    rewrite lookup_insert_ne; [done|]. intros <-. apply Hw in Hp. lia.
Qed.

(** A handle's request ends with the change queued and, online, a job submitted. *)
Lemma queued_inv o m (k : SeqId → Mount W → Mount W) :
  ns_inv m → (∀ s m', same_names m' (k s m')) → ns_inv (let '(s, m) := enqueue_op o m in k s m).
Proof.
  intros Hi Hk. pose proof (same_enqueue o m) as He. destruct (enqueue_op o m) as [s m'].
  eapply same_inv; [|exact Hi]. eapply same_trans; [exact He|apply Hk].
Qed.

Lemma mkdir_inv parent name m : ns_inv m → ns_inv (mkdir parent name m).2.
Proof.
  intros Hi. unfold mkdir. destruct (is_trash_dir name); [done|].
  destruct (validate name); [by apply (same_inv m)|].
  destruct (get_path (m_cache m) parent) as [pp|]; [|done]. cbv zeta.
  set (m1 := with_ghosts _ m). assert (H1 : ns_inv m1) by by apply (same_inv m). clearbody m1.
  set (path := join pp [name]). destruct H1 as [Hw Hh]. pose proof (allocate_spec (m_cache m1) path Hw) as Ha.
  destruct (allocate_inode (m_cache m1) path) as [ino c]. destruct Ha as (Hw' & _ & Hkeep).
  assert (Hc : ns_inv (upd_cache (λ _, c) m1)) by (split; [done|intros fh o ???; by apply Hkeep, (Hh fh)]).
  destruct (match m_ghosts m !! path with Some g => _ | None => false end); [done|].
  set (c2 := put_dir_cache _ _ _ _ _ _ _ _).
  assert (H2 : ns_inv (upd_core (mark_dirty [pp]) (upd_cache (λ _, c2) m1))).
  { eapply same_inv; [|exact Hc]. split; [|done]. unfold c2, m_cache. simpl.
    by rewrite names_put_dir_cache, names_upd_listing. }
  clearbody c2. revert H2. generalize (upd_core (mark_dirty [pp]) (upd_cache (λ _, c2) m1)). intros m2 H2.
  pose proof (queued_inv (MkDir path) m2
    (λ s m, if m_offline m then m else submit_mutation (ticket_entry path) (JMkdir s path) m) H2) as Hq.
  destruct (enqueue_op _ _). apply Hq. intros. apply same_if; [apply same_refl|apply same_submit].
Qed.

Lemma unlinking_inv f d m : (∀ o, f o = o ∨ unlinked (f o) = true) → ns_inv m → ns_inv (upd_files (fmap f) d m).
Proof.
  intros Hf [Hw Hh]. split; [done|]. intros fh o. change (m_files _) with (f <$> m_files m). rewrite lookup_fmap.
  intros (o' & Ho & ->)%fmap_Some Hu Hr. destruct (Hf o') as [E|E]; [|congruence].
  rewrite E in *. by apply (Hh fh).
Qed.

Lemma unlink_inv parent name m : ns_inv m → ns_inv (unlink parent name m).2.
Proof.
  intros Hi. unfold unlink. pose proof (same_dir_perms parent m) as Hs.
  destruct (dir_perms parent m) as [perms m0]. assert (H9 : ns_inv m0) by by eapply same_inv. clear Hs Hi m.
  destruct (negb _); [done|]. destruct (get_path (m_cache m0) parent) as [pp|]; [|done]. cbv zeta.
  destruct (bool_decide _).
  { eapply same_inv; [|exact H9]. apply same_cache. by rewrite names_upd_listing. }
  set (path := join pp [name]). destruct (match m_ghosts m0 !! path with Some g => _ | None => false end).
  { by eapply same_inv. }
  match goal with |- context [enqueue_op ?o ?x] => assert (Hx : ns_inv x); [|revert Hx; generalize x; intros m1 Hx] end.
  { apply unlinking_inv; [intros o; case_bool_decide; [by right|by left]|].
    eapply same_inv; [|exact H9]. split; [|done]. unfold m_cache. simpl.
    by etransitivity; [|apply (names_upd_listing pp (without path))]. }
  pose proof (queued_inv (Unlink path) m1 (λ s m, let m := upd_locks (lock_file_removed path (now m)) m in
    if m_offline m then upd_cache (stop_deleting path) m
    else submit_mutation (ticket_entry path) (JUnlink s path) m) Hx) as Hq.
  destruct (enqueue_op _ _). apply Hq. intros. apply same_if; [done|]. by eapply same_trans; [|apply same_submit].
Qed.

Lemma rmdir_inv parent name m : ns_inv m → ns_inv (rmdir parent name m).2.
Proof.
  intros Hi. unfold rmdir. pose proof (same_dir_perms parent m) as Hs.
  destruct (dir_perms parent m) as [perms m0]. assert (H9 : ns_inv m0) by by eapply same_inv. clear Hs Hi m.
  destruct (negb _); [done|]. destruct (get_path (m_cache m0) parent) as [pp|]; [|done]. cbv zeta.
  set (path := join pp [name]). destruct (match m_ghosts m0 !! path with Some g => _ | None => false end).
  { by eapply same_inv. }
  match goal with |- context [enqueue_op ?o ?x] => assert (Hx : ns_inv x); [|revert Hx; generalize x; intros m1 Hx] end.
  { eapply same_inv; [|exact H9]. split; [|done]. unfold m_cache. simpl.
    by etransitivity; [|apply (names_upd_listing pp (without path))]. }
  pose proof (queued_inv (RmDir path) m1 (λ s m, if m_offline m then upd_cache (stop_deleting path) m
    else submit_mutation (ticket_entry path) (JRmdir s path) m) Hx) as Hq.
  destruct (enqueue_op _ _). apply Hq. intros. by apply same_if; [|apply same_submit].
Qed.

Lemma open_handle_inv ino o m : ns_inv m →
  (∀ k, of_ino (o k) = ino ∧ (remote_path (o k) = [] ∨ get_path (m_cache m) ino = Some (remote_path (o k)))) →
  ns_inv (open_handle ino o m).2.
Proof.
  intros [Hw Hh] Ho. unfold open_handle. destruct (acquire_plain _ _) as [k io]. destruct (Ho k) as [Hino Hp].
  split; [done|]. intros fh o'. simpl. destruct (decide (fh = m_next_fh m)) as [->|Hne].
  - rewrite lookup_insert_eq. intros [= <-] _ Hr. rewrite Hino. naive_solver.
  - rewrite lookup_insert_ne by done. apply Hh.
Qed.

Lemma create_inv st dk parent name m : ns_inv m → ns_inv (create st dk parent name m).2.
Proof.
  intros Hi. unfold create. destruct (get_path (m_cache m) parent) as [pp|]; [|done]. cbv zeta.
  destruct (bool_decide _); [done|]. set (path := join pp [name]).
  set (b := match m_ghosts m !! path with Some g => _ | None => false end). clearbody b.
  set (m1 := with_ghosts _ m). assert (H1 : ns_inv m1) by by apply (same_inv m). clearbody m1.
  assert (H2 : ∀ l m2, (if b then let '(files, c) := get_cached_dir_readonly (m_cache m1) pp in
      (files ≫= find (has_path path), upd_cache (λ _, c) m1) else (None, m1)) = (l, m2) → ns_inv m2).
  { intros l m2. pose proof (names_readonly (m_cache m1) pp) as Hn. destruct b; [|by intros [= <- <-]].
    destruct (get_cached_dir_readonly _ _) as [fs c]. intros [= <- <-]. by eapply same_inv. }
  destruct (if b then _ else _) as [listed m2]. specialize (H2 listed m2 eq_refl). clear H1 m1 b.
  destruct listed as [e|].
  - pose proof (allocate_spec (m_cache m2) path (proj1 H2)) as Ha.
    destruct (allocate_inode _ _) as [ino c]. destruct Ha as (Hw & _ & Hk).
    match goal with |- context [open_handle ?i ?o ?x] => assert (Hx : ns_inv x);
      [|pose proof (open_handle_inv i o x Hx) as Ho; destruct (open_handle i o x); apply Ho; intros; by split; [|left]] end.
    split; [done|]. intros fh o ???. by apply Hk, (proj2 H2 fh).
  - destruct (validate name); [by eapply same_inv|]. destruct dk; [|by eapply same_inv]. simpl.
    set (m3 := upd_j _ m2). assert (H3 : ns_inv m3) by by eapply same_inv. clearbody m3.
    pose proof (allocate_spec (m_cache m3) path (proj1 H3)) as Ha.
    destruct (allocate_inode _ _) as [ino c]. destruct Ha as (Hw & Hp & Hk).
    set (c2 := start_uploading _ _). assert (Hc2 : names c2 = names c) by (etransitivity; [|apply (names_upd_listing pp (λ f, f ++ [new_file_entry path (now_system m3)]))]; done).
    clearbody c2. match goal with |- context [open_handle ?i ?o ?x] => assert (Hx : ns_inv x);
      [|pose proof (open_handle_inv i o x Hx) as Ho; destruct (open_handle i o x); apply Ho] end.
    + split; [by eapply names_inode_wf|]. intros fh o ???. change (get_path c2 (of_ino o) = Some (remote_path o)).
      rewrite (names_get_path _ _ _ Hc2). by apply Hk, (proj2 H3 fh).
    + intros k. split; [done|]. right. change (get_path c2 ino = Some path). by rewrite (names_get_path _ _ _ Hc2).
Qed.

(** *** The jobs leave names and handles alone *)

Lemma names_expire t d c : names (expire_listing t d c) = names c.
Proof. unfold expire_listing. destruct c. simpl. by case_match. Qed.
Lemma same_settle from to b m : same_names m (settle_listing from to b m).
Proof. apply same_cache. rewrite !names_expire. by destruct b. Qed.
Lemma same_drop st m : same_names m (drop_staging st m).
Proof. by destruct st. Qed.
Lemma same_ask to m : same_names m (ask_version to m).
Proof.
  unfold ask_version. destruct (list_dir _ _) as [r w]. cbv zeta. case_match; [|done].
  split; [|done]. unfold m_cache. simpl. by rewrite names_upd_listing.
Qed.
Lemma same_adopt p m : same_names m (adopt_server_version p m).
Proof. unfold adopt_server_version. destruct (list_dir _ _). split; [|done]. unfold m_cache. simpl. by rewrite names_expire. Qed.
Lemma same_release from m : same_names m (release_source_lock from m).
Proof. unfold release_source_lock. by case_match. Qed.

Lemma same_move_done s from to base d st m : same_names m (move_done s from to base d st m).
Proof.
  unfold move_done. cbv zeta.
  set (m1 := upd_locks _ _). assert (H1 : same_names m m1) by done. clearbody m1.
  set (m2 := if d then m1 else _). assert (H2 : same_names m1 m2) by (apply same_if; [done|apply same_ask]). clearbody m2.
  eapply same_trans; [exact H1|]. eapply same_trans; [exact H2|].
  eapply same_trans; [apply (same_drop st (upd_j (λ j, rebase to base None (remove s j)) m2))|].
  by eapply same_trans; [apply same_settle|].
Qed.
Lemma same_move_conflicted s from to cp st m : same_names m (move_conflicted s from to cp st m).
Proof.
  unfold move_conflicted. cbv zeta.
  set (m1 := upd_j _ (note_error _ _ _ m)). assert (H1 : same_names m m1) by done. clearbody m1.
  eapply same_trans; [exact H1|]. eapply same_trans; [apply (same_drop st)|].
  eapply same_trans; [apply same_settle|]. by eapply same_trans; [apply same_adopt|].
Qed.

(** *** Saving leaves names alone, and changes what a handle knows of its bytes only *)

Definition sub_names m m' : Prop :=
  names (m_cache m') = names (m_cache m) ∧
  ∀ fh o', m_files m' !! fh = Some o' → ∃ o, m_files m !! fh = Some o ∧
    of_ino o' = of_ino o ∧ remote_path o' = remote_path o ∧ unlinked o' = unlinked o.

Lemma same_sub m m' : same_names m m' → sub_names m m'.
Proof. intros [Hn Hf]. split; [done|]. intros fh o. rewrite Hf. eauto. Qed.
Lemma sub_trans m1 m2 m3 : sub_names m1 m2 → sub_names m2 m3 → sub_names m1 m3.
Proof.
  intros [E1 H1] [E2 H2]. split; [congruence|]. intros fh o3 Ho. destruct (H2 fh o3 Ho) as (o2 & Ho2 & ? & ? & ?).
  destruct (H1 fh o2 Ho2) as (o1 & Ho1 & ? & ? & ?). exists o1. split_and!; [done|congruence..].
Qed.
Lemma sub_inv m m' : sub_names m m' → ns_inv m → ns_inv m'.
Proof.
  intros [Hn Hs] [Hw Hh]. split; [by eapply names_inode_wf|]. intros fh o' Ho Hu Hr.
  destruct (Hs fh o' Ho) as (o & Ho' & Hi & Hp & Hu'). rewrite (names_get_path _ _ _ Hn), Hi, Hp.
  apply (Hh fh); congruence.
Qed.
Lemma sub_alter g fh d m :
  (∀ o, of_ino (g o) = of_ino o ∧ remote_path (g o) = remote_path o ∧ unlinked (g o) = unlinked o) →
  sub_names m (upd_files (alter g fh) d m).
Proof.
  intros Hg. split; [done|]. intros fh' o'. change (m_files (upd_files (alter g fh) d m)) with (alter g fh (m_files m)).
  intros [(-> & o & Ho & ->)|[_ Ho]]%lookup_alter_Some; [exists o; by split; [|apply Hg]|by exists o'].
Qed.
Lemma sub_delete fh d m : sub_names m (upd_files (delete fh) d m).
Proof. split; [done|]. intros fh' o'. change (m_files (upd_files (delete fh) d m)) with (delete fh (m_files m)). intros [_ Ho]%lookup_delete_Some. by exists o'. Qed.

Lemma same_keep_saved a b c u p t m : same_names m (keep_saved a b c u p t m).
Proof. unfold keep_saved. by repeat case_match. Qed.
Lemma same_keep_streamed a b c u p t m : same_names m (keep_streamed a b c u p t m).
Proof. unfold keep_streamed. by repeat case_match. Qed.
Lemma sub_recorded u p t m : sub_names m (put_recorded mono u p t m).
Proof.
  unfold put_recorded. eapply sub_trans; [|by apply sub_alter]. apply same_sub. split; [|done].
  unfold m_cache. simpl. by rewrite names_expire, names_upd_listing.
Qed.
Lemma same_put_start u m : same_names m (put_start u m).2.
Proof. unfold put_start. destruct (claim _ _) as [[] j]; [done|]. by case_match. Qed.
Lemma same_settle_live s p e m : same_names m (settle_live_upload [] s p e m).2.
Proof. simpl. destruct (settle_upload _ _ _ _) as [[] j]; done. Qed.
Lemma sub_put_done a b u named r m : sub_names m (put_done clock mono a b u named r m).
Proof.
  assert (Hfail : ∀ e, same_names m (put_failed clock u named.1 e m)) by (intros e; unfold put_failed; by repeat case_match).
  destruct r as [v|e].
  - simpl. unfold put_landed. eapply sub_trans; [apply (sub_recorded u named.1 (new_change_token v))|].
    destruct (hand_staging_to_rename _ _ _) as [handed j]. apply same_sub.
    by eapply same_trans; [|apply same_keep_saved].
  - destruct e; try (apply same_sub, Hfail); simpl.
    + unfold put_conflicted. cbv zeta. destruct (put_file_from_path _ _ _ _ _) as [[v|b'] w].
      * match goal with |- context [upd_files (alter ?g ?fh) ?d ?x] => change (sub_names m (upd_files (alter g fh) d x)) end.
        eapply sub_trans; [|by apply sub_alter]. apply same_sub.
        exact (same_adopt named.1 (note_error named.1 KConflict _ (log_world w (upd_cache (stop_uploading named.1) m)))).
      * by apply same_sub.
    + apply same_sub. unfold put_withdrawn. by repeat case_match.
Qed.
Lemma sub_finish_done a w u base sent r m : sub_names m (finish_done clock mono a w u base sent r m).
Proof.
  apply same_sub. unfold finish_done. cbv zeta. set (m1 := upd_cache _ m). assert (H1 : same_names m m1) by done. clearbody m1.
  eapply same_trans; [exact H1|]. clear H1 m.
  assert (Hfail : ∀ e, same_names m1 (finish_failed clock w u base e m1)) by (intros e; unfold finish_failed; by repeat case_match).
  destruct r as [v|e]; [|destruct e; try apply Hfail].
  - unfold finish_landed. cbv zeta. destruct (if w then _ else _) as [handed j].
    match goal with |- context [keep_streamed ?b ?h ?w ?u ?p ?t ?x] => change (same_names m1 (keep_streamed b h w u p t x)) end.
    eapply same_trans; [|apply same_keep_streamed]. split; [|done]. unfold m_cache. simpl. by rewrite names_expire, names_upd_listing.
  - unfold finish_conflicted. cbv zeta. destruct (assemble_conflicted_copy _ _ _ _ _ _ _) as [[v|b'] w']; [|done].
    exact (same_adopt (u_path u) (note_error (u_path u) KConflict _ (log_world w' m1))).
Qed.
Lemma same_queue_save o p job m : same_names m (queue_save clock o p job m).
Proof.
  unfold queue_save. pose proof (same_enqueue o m) as He. destruct (Mount.enqueue_op clock o m) as [s m1].
  eapply same_trans; [exact He|]. cbv zeta. apply same_if; [done|]. by eapply same_trans; [|apply same_submit].
Qed.
Lemma same_show p n t m : same_names m (show_size p n t m).
Proof. apply same_cache. by rewrite names_upd_listing. Qed.
Lemma same_commit room fh o m : same_names m (commit_released clock room fh o m).2.
Proof.
  assert (Hw : ∀ wp m1, same_names m1 (commit_whole clock fh o wp m1).2).
  { intros wp m1. unfold commit_whole. case_match; [|done]. eapply same_trans; [apply same_show|apply same_queue_save]. }
  assert (Hs : ∀ wp st p m1, same_names m1 (commit_streamed clock fh o wp st p m1)).
  { intros wp st p m1. unfold commit_streamed. eapply same_trans; [apply same_show|apply same_queue_save]. }
  assert (Ha : ∀ st m1, same_names m1 (abandon_stream room st m1)) by (intros; unfold abandon_stream; by destruct room).
  unfold commit_released. repeat case_match; try done; try apply Hw; try apply Hs;
    try (eapply same_trans; [apply Ha|apply Hw]). by eapply same_trans; [|apply Ha].
Qed.
Lemma sub_release room fh m : sub_names m (release clock room fh m).
Proof.
  unfold release. destruct (m_files m !! fh) as [o|]; [|by apply same_sub]. cbv zeta.
  eapply sub_trans; [apply (sub_delete fh (λ d, d))|]. apply same_sub.
  set (m1 := upd_files (delete fh) (λ d, d) m). set (m2 := if unlinked o && _ then _ else _).
  assert (H2 : same_names m1 m2) by (unfold m2; by case_match). clearbody m2 m1. eapply same_trans; [exact H2|].
  destruct (upload_failed o || unlinked o); [|destruct (dirty o); [apply same_commit|by repeat case_match]].
  destruct (unlinked o), (write_path o), (created o), (chunk_upload o); try done; unfold abandon_stream; by destruct room.
Qed.
Lemma same_flush b fh m : same_names m (flush b fh m).2.
Proof. unfold flush. repeat case_match; try done; apply same_cache; by rewrite names_upd_listing. Qed.
Lemma same_mtime i t m : same_names m (set_pending_mtime i t m).
Proof.
  unfold set_pending_mtime. cbv zeta. set (l := omap _ _). clearbody l.
  match goal with |- context [foldl ?h] => set (g := h) end.
  assert (Hl : ∀ st m1, same_names m1 (foldl g (st, m1) l).2).
  { induction l as [|wp l IH]; intros st m1; [done|]. simpl. destruct (staged m1 !! wp); [|apply IH].
    by eapply same_trans; [|apply IH]. }
  specialize (Hl None m). destruct (foldl g _ l) as [st m1]. simpl in Hl. repeat case_match; try done.
  eapply same_trans; [exact Hl|]. apply same_cache. by rewrite names_upd_listing.
Qed.

Lemma sub_run_job j m : sub_names m (run_job j m).
Proof.
  destruct j as [u|u st p|s p|s p|s p|s from to b d]; simpl.
  - unfold run_put. pose proof (same_put_start u m) as Hp. destruct (put_start u m) as [[etag|] m1]; [|by apply same_sub].
    eapply sub_trans; [apply same_sub, Hp|]. pose proof (same_settle_live (u_seq u) (u_path u) etag m1) as Hs.
    destruct (settle_live_upload _ _ _ _ _) as [named m2]. eapply sub_trans; [apply same_sub, Hs|].
    destruct (put_file_settled _ _ _ _) as [r w]. eapply sub_trans; [|apply sub_put_done]. by apply same_sub.
  - unfold run_finish. pose proof (same_put_start u m) as Hp. destruct (put_start u m) as [[etag|] m1]; [|by apply same_sub].
    eapply sub_trans; [apply same_sub, Hp|]. destruct (finish_chunked _ _ _ _ _ _ _ _ _ _ _ _) as [r w].
    eapply sub_trans; [|apply sub_finish_done]. by apply same_sub.
  - apply same_sub. unfold run_mkdir. destruct (Backend.mkdir _ _) as [[|] w]; [|done]. by repeat case_match.
  - apply same_sub. unfold run_unlink. destruct (delete_path _ _) as [[|] w]; [done|]. by repeat case_match.
  - apply same_sub. unfold run_rmdir. destruct (delete_path _ _) as [[|] w]; [done|]. by repeat case_match.
  - apply same_sub. unfold run_move. cbv zeta. eapply same_trans; [apply (same_release from m)|].
    destruct (send_move _ _ _ _ _ _ _) as [o w]. destruct o.
    + by eapply same_trans; [|apply same_move_done].
    + by eapply same_trans; [|apply same_move_conflicted].
    + done.
    + by destruct (is_transient e).
Qed.

(** *** Rename *)

(** Whether the code moves the source as a folder. *)
Definition moves_dir (old_parent from : PathBuf) (c : FsCache) : bool :=
  match dir_cache c !! old_parent ≫= λ d, find (has_path from) (d_files d) with
  | Some e => e_is_dir e
  | None => false
  end || bool_decide (is_Some (dir_cache c !! from)).

Lemma dir_cache_upd_listing d f c p : is_Some (dir_cache (upd_listing d f c) !! p) ↔ is_Some (dir_cache c !! p).
Proof.
  unfold upd_listing. destruct (dir_cache c !! d) eqn:E; [|done]. simpl.
  destruct (decide (d = p)) as [->|]; [rewrite lookup_insert_eq, E|by rewrite lookup_insert_ne].
  split; intros _; by eexists.
Qed.
Lemma readonly_files c p q : d_files <$> dir_cache (get_cached_dir_readonly c p).2 !! q = d_files <$> dir_cache c !! q.
Proof.
  unfold get_cached_dir_readonly, next_access_tick. simpl. destruct (dir_cache c !! p) as [d|] eqn:E; simpl; [|done].
  destruct (decide (p = q)) as [->|]; [by rewrite lookup_insert_eq, E|by rewrite lookup_insert_ne].
Qed.
Lemma moves_dir_readonly op from c p : moves_dir op from (get_cached_dir_readonly c p).2 = moves_dir op from c.
Proof.
  pose proof (readonly_files c p op) as H1. pose proof (readonly_files c p from) as H2.
  unfold moves_dir. f_equal.
  - revert H1. generalize (dir_cache (get_cached_dir_readonly c p).2 !! op), (dir_cache c !! op).
    intros [d|] [d'|] E; try discriminate; [|done]. injection E as E. simpl. by rewrite E.
  - apply bool_decide_ext. rewrite <- !(fmap_is_Some d_files). by rewrite H2.
Qed.

(** The moved inodes, and what was at the destination. *)
Lemma move_listed_spec locks op np from to st c :
  let '(mv, c') := move_listed locks op np from to st c in
  mv_dir mv = moves_dir op from c ∧
  (∃ c1, names c1 = names c ∧ c' = move_path c1 from to (mv_dir mv)) ∧
  (∀ d, get_inode c to = Some d → get_inode c from ≠ Some d → ∃ a, mv_displaced mv = Some (d, a)).
Proof.
  unfold move_listed. pose proof (names_readonly c np) as Hn. pose proof (moves_dir_readonly op from c np) as Hd.
  destruct (get_cached_dir_readonly c np) as [fs c1]. simpl in Hn, Hd. split_and!.
  - rewrite <- Hd. unfold moves_dir. simpl. f_equal. apply bool_decide_ext, dir_cache_upd_listing.
  - eexists. split; [|done]. destruct (dir_cache c1 !! op ≫= _); by rewrite ?names_upd_listing.
  - simpl. intros d Ht Hf. rewrite !(names_get_inode _ _ _ Hn), Ht. rewrite bool_decide_false by congruence. eauto.
Qed.

(** What the kernel and the mount's users guarantee of a rename: neither name is below the
    other, nothing is open below the replaced name, and a file open below the source's name
    has the source known as a folder. *)
Definition rename_ok (op from to : PathBuf) m : Prop :=
  starts_with from to = false ∧ starts_with to from = false ∧
  ∀ fh o, m_files m !! fh = Some o → unlinked o = false → ∀ rel, rel ≠ [] →
    remote_path o ≠ to ++ rel ∧ (remote_path o = from ++ rel → moves_dir op from (m_cache m) = true).

Lemma retarget_handles_ok c c1 op from to disp m :
  inode_wf c → names c1 = names c → handles_ok c (m_files m) → m_cache m = c → rename_ok op from to m → from ≠ [] →
  (∀ d, get_inode c to = Some d → get_inode c from ≠ Some d → ∃ a, disp = Some (d, a)) →
  let c' := move_path c1 from to (moves_dir op from c) in
  inode_wf c' ∧ handles_ok c' (retarget_handle from to disp <$> m_files m).
Proof.
  intros Hw Hn Hh <- (Hft & Htf & Hk) Hne Hd. set (c := m_cache m) in *.
  pose proof (move_path_spec c1 from to (moves_dir op from c) (names_inode_wf _ _ Hn Hw) Hft Htf) as (Hw' & Hin & Hout).
  split; [done|]. intros fh o'. rewrite lookup_fmap. intros (o & Ho & ->)%fmap_Some.
  unfold retarget_handle. destruct (strip_prefix (remote_path o) from) as [rel|] eqn:Es.
  - apply strip_prefix_Some in Es. destruct rel as [|x rel]; simpl; intros Hu Hr.
    + pose proof (Hin [] (of_ino o)) as Hi. rewrite app_nil_r in Es, Hi. rewrite app_nil_r in Hi.
      apply Hi; [|by left]. rewrite (names_get_path _ _ _ Hn), <- Es. apply (Hh fh); [done..|by rewrite Es].
    + apply Hin.
      * rewrite (names_get_path _ _ _ Hn), <- Es. apply (Hh fh); [done..|]. rewrite Es. by destruct from.
      * right. by apply (Hk fh o Ho Hu (x :: rel)).
  - assert (Hfrom : ∀ rel, remote_path o = from ++ rel → False).
    { intros rel E%strip_prefix_Some. congruence. }
    assert (Hkeep : unlinked o = false → remote_path o ≠ [] → (∀ rel, remote_path o ≠ to ++ rel) →
              get_path (move_path c1 from to (moves_dir op from c)) (of_ino o) = Some (remote_path o)).
    { intros Hu Hr Hto. apply Hout; [rewrite (names_get_path _ _ _ Hn); by apply (Hh fh)| |].
      - intros rel E _. by apply (Hfrom rel).
      - intros rel E. by destruct (Hto rel). }
    assert (Hto : unlinked o = false → remote_path o ≠ [] → remote_path o = to →
              ∃ a, disp = Some (of_ino o, a)).
    { intros Hu Hr E. pose proof (Hh fh o Ho Hu Hr) as Hp. apply Hd.
      - apply (proj1 Hw). by rewrite <- E.
      - intros Hf%(proj1 Hw). unfold get_path in Hp. rewrite Hp in Hf. injection Hf as Hf.
        apply (Hfrom []). by rewrite app_nil_r. }
    destruct disp as [[d a]|]; [destruct (of_ino o =? d) eqn:Ed|]; [done| |]; intros Hu Hr; apply Hkeep; try done.
    all: intros [|x rel] E; [|by apply (Hk fh o Ho Hu (x :: rel))].
    all: rewrite app_nil_r in E; destruct (Hto Hu Hr E) as [a' [= ]]; subst.
    by rewrite Nat.eqb_refl in Ed.
Qed.

Lemma moves_dir_perms i op from m : moves_dir op from (m_cache (dir_perms i m).2) = moves_dir op from (m_cache m).
Proof.
  unfold dir_perms, nc_dir_perms. repeat (case_match; simplify_eq); try done;
    match goal with E : get_cached_dir_readonly ?c ?p = (_, ?c') |- _ =>
      pose proof (moves_dir_readonly op from c p) as Hm; rewrite E in Hm; by rewrite <- Hm end.
Qed.

Lemma same_rename_sent from to mv b m : same_names m (rename_sent from to mv b m).
Proof.
  unfold rename_sent, move_guard. destruct (b && _); [apply same_cache; by case_match|].
  destruct (if mv_source_on_server mv then _ else _) as [[] j]; [split; [|done]; unfold m_cache, move_guard; simpl; by case_match|].
  pose proof (same_enqueue (Rename from to None (dest_version to mv m)) (upd_j (λ _, j) m)) as He.
  destruct (enqueue_op _ _) as [s m1]. eapply same_trans; [exact He|]. apply same_if; [done|].
  eapply same_trans; [|apply same_submit]. by destruct (mv_dir mv).
Qed.

Lemma rename_inv parent name np nn m : ns_inv m →
  (∀ op np', get_path (m_cache m) parent = Some op → get_path (m_cache m) np = Some np' →
     rename_ok op (join op [name]) (join np' [nn]) m) →
  ns_inv (rename parent name np nn m).2.
Proof.
  intros Hi Hok. unfold rename. destruct (validate nn); [by eapply same_inv|].
  pose proof (same_dir_perms parent m) as Hs. pose proof (moves_dir_perms parent) as Hmd.
  specialize (λ op from, Hmd op from m). destruct (dir_perms parent m) as [perms m0]. simpl in Hs, Hmd.
  assert (H9 : ns_inv m0) by by eapply same_inv. destruct Hs as [Hn Hf].
  destruct (negb _); [done|]. rewrite !(names_get_path _ _ _ Hn).
  destruct (get_path (m_cache m) parent) as [op|]; [|done]. destruct (get_path (m_cache m) np) as [np'|]; [|done].
  specialize (Hok op np' eq_refl eq_refl). cbv zeta. set (from := join op [name]) in *. set (to := join np' [nn]) in *.
  destruct (ghost_rename from to m0); [done|].
  set (st := get_inode (m_cache m0) from ≫= _). clearbody st.
  pose proof (move_listed_spec (m_locks m0) op np' from to st (m_cache m0)) as Hml.
  destruct (move_listed _ _ _ _ _ _ _) as [mv c']. destruct Hml as (Hdir & (c1 & Hc1 & ->) & Hdisp).
  assert (Hok0 : rename_ok op from to m0).
  { destruct Hok as (A & B & C). split_and!; [done..|]. rewrite Hf, Hmd. exact C. }
  assert (Hne : from ≠ []) by by destruct op.
  pose proof (retarget_handles_ok (m_cache m0) c1 op from to (mv_displaced mv) m0 (proj1 H9) Hc1 (proj2 H9) eq_refl Hok0 Hne Hdisp)
    as [Hw Hh].
  rewrite Hdir. unfold retarget_handles. simpl. eapply same_inv; [apply same_rename_sent|]. by split.
Qed.

(** *** The requests and jobs in any order *)

(** What happens to names and open files: the requests, the jobs whole or in their parts, a
    name looked up, a listing that arrives, the server and the clock moving on. *)
Inductive nstep : Mount W → Mount W → Prop :=
| ns_mkdir m parent name : nstep m (mkdir parent name m).2
| ns_create m streams disk_ok parent name : nstep m (create streams disk_ok parent name m).2
| ns_unlink m parent name : nstep m (unlink parent name m).2
| ns_rmdir m parent name : nstep m (rmdir parent name m).2
| ns_rename m parent name np nn :
    (∀ op np', get_path (m_cache m) parent = Some op → get_path (m_cache m) np = Some np' →
       rename_ok op (join op [name]) (join np' [nn]) m) →
    nstep m (rename parent name np nn m).2
| ns_job m j : nstep m (run_job j m)
| ns_release m room fh : nstep m (release clock room fh m)
| ns_flush m lost fh : nstep m (flush lost fh m).2
| ns_mtime m ino t : nstep m (set_pending_mtime ino t m)
| ns_put_start m u : nstep m (put_start u m).2
| ns_put_settle m s path etag : nstep m (settle_live_upload [] s path etag m).2
| ns_put_done m rename_ok copy_ok u named r : nstep m (put_done clock mono rename_ok copy_ok u named r m)
| ns_finish_done m rename_ok whole u base sent r : nstep m (finish_done clock mono rename_ok whole u base sent r m)
| ns_lookup m path : nstep m (upd_cache (λ c, (allocate_inode c path).2) m)
| ns_listing m now wall path etag self files :
    nstep m (upd_cache (λ c, put_dir_cache c tracker_ignore now wall path etag self files) m)
| ns_world m w : nstep m (log_world w m).

Lemma nstep_inv m m' : ns_inv m → nstep m m' → ns_inv m'.
Proof.
  intros Hi Hs. destruct Hs.
  - by apply mkdir_inv.
  - by apply create_inv.
  - by apply unlink_inv.
  - by apply rmdir_inv.
  - by apply rename_inv.
  - eapply sub_inv; [apply sub_run_job|done].
  - eapply sub_inv; [apply sub_release|done].
  - eapply same_inv; [apply same_flush|done].
  - eapply same_inv; [apply same_mtime|done].
  - eapply same_inv; [apply same_put_start|done].
  - eapply same_inv; [apply same_settle_live|done].
  - eapply sub_inv; [apply sub_put_done|done].
  - eapply sub_inv; [apply sub_finish_done|done].
  - pose proof (allocate_spec (m_cache m) path (proj1 Hi)) as Ha. unfold ns_inv, m_cache in *. simpl.
    destruct (allocate_inode _ _) as [i c]. destruct Ha as (Hw & _ & Hk). split; [done|].
    intros fh o ???. by apply Hk, (proj2 Hi fh).
  - eapply same_inv; [|exact Hi]. apply same_cache, names_put_dir_cache.
  - by eapply same_inv.
Qed.


(** ** What becomes of a delete *)

(** How an answer to a DELETE ends its job. *)
Inductive Ending := Gone | Later (e : BackendWriteError) | Refused (e : BackendWriteError).
Definition ending {A} (r : result A BackendWriteError) : Ending :=
  match r with
  | Ok _ => Gone
  | Err e => if is_404 e then Gone else if is_transient e then Later e else Refused e
  end.

Lemma delete_job_ends m s path j :
  j = JUnlink s path ∨ j = JRmdir s path →
  let m' := run_job j m in
  match ending (delete_path path (m_world m)).1 with
  | Gone => entries (m_journal m') = List.filter (λ e, negb (has_seq s e)) (entries (m_journal m)) ∧
            deleting (m_cache m') = deleting (m_cache m) ∖ {[path]}
  | Later e => entries (m_journal m') =
                 update_first (has_seq s) (λ q, set_failure q (attempts q) (MWrite e)) (entries (m_journal m)) ∧
               m_cache m' = m_cache m
  | Refused e => entries (m_journal m') =
                   update_first (has_seq s) (λ q, set_failure q (S (attempts q)) (MWrite e)) (entries (m_journal m)) ∧
                 deleting (m_cache m') = deleting (m_cache m) ∖ {[path]} ∧
                 se_path <$> last (r_errors (m_core m')) = Some path
  end.
Proof.
  assert (Hlast : ∀ t k msg q, se_path <$> last (push_error t path k msg q) = Some path).
  { intros t k msg q. unfold push_error. destruct (last q) as [l|] eqn:El; [|by rewrite last_snoc].
    destruct (bool_decide (se_path l = path) && _) eqn:Eb; [|by rewrite last_snoc].
    rewrite El. apply andb_true_iff in Eb as [Hb%bool_decide_eq_true _]. by simpl; rewrite Hb. }
  intros [-> | ->]; cbv zeta; simpl; unfold ending, run_unlink, run_rmdir;
    change (m_world (upd_uploads ?f ?x)) with (m_world x);
    destruct (delete_path path (m_world m)) as [[r|e] w]; simpl;
    try (destruct (is_404 e); [|destruct (is_transient e)]); split_and?; try done; apply Hlast.
Qed.

Lemma other_entries (s : SeqId) (l : list JournalEntry) e :
  seq e ≠ s → e ∈ List.filter (λ q, negb (has_seq s q)) l ↔ e ∈ l.
Proof.
  intros Hs. rewrite list_elem_of_In, filter_In, <- list_elem_of_In. unfold has_seq.
  rewrite negb_true_iff, Nat.eqb_neq. naive_solver.
Qed.
Lemma failure_other s n msg (l : list JournalEntry) e :
  seq e ≠ s → e ∈ update_first (has_seq s) (λ q, set_failure q (n q) msg) l ↔ e ∈ l.
Proof.
  intros Hs. split.
  - intros [He|(y & _ & Hy & ->)]%elem_of_update_first; [done|]. unfold has_seq in Hy. apply Nat.eqb_eq in Hy.
    by destruct Hs.
  - intros He. apply elem_of_update_first_other; [done|]. by apply Nat.eqb_neq.
Qed.
(** C37: A delete sent to the server ends as its answer says and leaves the rest of the queue
    alone: done, or the server never had the file, and the entry is gone and the path may be
    listed again; an answer that may change (no connection, an overload) and the entry stays,
    no attempt charged, with the path kept out of listings until replay retries it; any other
    answer and the entry stays with one more attempt, the error is shown and the path may be
    listed again. *)
Theorem delete_job_outcome m s path j :
  j = JUnlink s path ∨ j = JRmdir s path →
  seqs_ok (m_journal m) →
  let m' := run_job j m in
  let kept n := ∀ e, e ∈ entries (m_journal m) → seq e = s →
     ∃ e', e' ∈ entries (m_journal m') ∧ seq e' = s ∧ op e' = op e ∧ attempts e' = n + attempts e in
  (∀ e, seq e ≠ s → e ∈ entries (m_journal m') ↔ e ∈ entries (m_journal m)) ∧
  match ending (delete_path path (m_world m)).1 with
  | Gone => Journal.contains s (m_journal m') = false ∧ path ∉ deleting (m_cache m')
  | Later _ => kept 0 ∧ deleting (m_cache m') = deleting (m_cache m)
  | Refused _ => kept 1 ∧ path ∉ deleting (m_cache m') ∧ se_path <$> last (r_errors (m_core m')) = Some path
  end.
Proof.
  intros Hj Hs m' kept. pose proof (delete_job_ends m s path j Hj) as H1. fold m' in H1. simpl in H1.
  destruct (ending _) as [|e|e].
  - destruct H1 as [He Hd]. split; [intros e Hne; by rewrite He, other_entries|]. split; [|set_solver].
    apply not_true_iff_false. unfold Journal.contains. rewrite existsb_exists. intros (x & Hx & Hxs).
    rewrite He, filter_In, Hxs in Hx. by destruct Hx.
  - destruct H1 as [He Hc]. split; [intros q Hne; by rewrite He, failure_other|]. split; [|by rewrite Hc].
    intros q Hq Hqs. rewrite He. by apply failure_hit.
  - destruct H1 as (He & Hd & Hl). split; [intros q Hne; by rewrite He, failure_other|]. split; [|set_solver].
    intros q Hq Hqs. rewrite He. by apply failure_hit.
Qed.

(** ** What becomes of a rename *)

Lemma retarget_upload_moves from to base j j' :
  from ≠ to → retarget_upload from to base j = (true, j') →
  has_pending_put to j' = true ∧ has_pending_put from j' = false ∧ seq <$> entries j' ≡ₚ seq <$> entries j.
Proof.
  intros Hne. unfold retarget_upload.
  destruct (List.filter _ (imap pair (entries j))) as [|[i e] [|]] eqn:Ef; try done.
  destruct (dest_fixed e); [done|]. destruct (op e) as [p st [c|]| | | | |] eqn:Eo; try done.
  destruct (existsb _ _); [done|]. unfold take_entry.
  destruct (entries j !! i) as [e'|] eqn:Ei; [|done]. simpl. intros [= <-].
  assert (Hin : (i, e) ∈ List.filter (λ ie, is_upload_of (op ie.2) from) (imap pair (entries j))) by (rewrite Ef; left).
  rewrite list_elem_of_In, filter_In, <- list_elem_of_In in Hin. destruct Hin as [Hi Hup].
  apply imap_pair_lookup in Hi. assert (e' = e) as -> by congruence. split_and!.
  - unfold has_pending_put. simpl. rewrite existsb_app. simpl. by rewrite bool_decide_true, !orb_true_r.
  - apply not_true_iff_false. unfold has_pending_put. simpl. rewrite existsb_app. simpl. rewrite orb_false_r, orb_true_iff.
    intros [(x & Hx & Hxf)%existsb_exists|Hx].
    + assert (Hk : ∃ k, k ≠ i ∧ entries j !! k = Some x).
      { apply list_elem_of_In, elem_of_app in Hx as [[k Hk]%list_elem_of_lookup|[k Hk]%list_elem_of_lookup].
        - apply lookup_take_Some in Hk as [? ?]. exists k. split; [lia|done].
        - rewrite lookup_drop in Hk. exists (S i + k). split; [lia|done]. }
      destruct Hk as (k & Hki & Hk).
      assert (Hin : (k, x) ∈ List.filter (λ ie, is_upload_of (op ie.2) from) (imap pair (entries j))).
      { rewrite list_elem_of_In, filter_In. split; [|done]. apply list_elem_of_In, list_elem_of_lookup. exists k.
        by rewrite list_lookup_imap, Hk. }
      rewrite Ef in Hin. apply list_elem_of_singleton in Hin. by simplify_eq.
    + simpl in Hx. by case_bool_decide.
  - simpl. rewrite !fmap_app. simpl. rewrite <- (take_drop_middle (entries j) i e Ei) at 3.
    rewrite !fmap_app. simpl. solve_Permutation.
Qed.

(** What [rename] leaves to be done on the server. *)
Inductive Sending m : Mount W → PathBuf → PathBuf → Prop :=
| by_handle m' from to fh o :
    m_files m' !! fh = Some o → remote_path o = to → created o = true → unlinked o = false →
    has_pending_put from (m_journal m') = false →
    entries (m_journal m') = entries (m_journal m) → m_jobs m' = m_jobs m → Sending m m' from to
| by_upload m' from to :
    has_pending_put to (m_journal m') = true → has_pending_put from (m_journal m') = false →
    seq <$> entries (m_journal m') ≡ₚ seq <$> entries (m_journal m) → m_jobs m' = m_jobs m → Sending m m' from to
| by_move m' from to e base d :
    last (entries (m_journal m')) = Some e → op e = Rename from to None base → seq e = next_seq (m_journal m) →
    m_jobs m' = m_jobs m ++ (if m_offline m then []
                             else [((PathSeq.ticket (m_seq m) (ticket_move from to)).1, JMove (seq e) from to base d)]) →
    Sending m m' from to.

Lemma rename_sent_spec from to mv b m : from ≠ to →
  (b = true → ∃ fh o, m_files m !! fh = Some o ∧ remote_path o = to ∧ created o = true ∧ unlinked o = false) →
  Sending m (rename_sent from to mv b m) from to.
Proof.
  intros Hne Hb. unfold rename_sent. destruct (b && _) eqn:Ebp.
  { apply andb_true_iff in Ebp as [-> Hp%negb_true_iff]. destruct (Hb eq_refl) as (fh & o & ? & ? & ? & ?).
    by apply by_handle with fh o. }
  set (base := dest_version to mv m).
  assert (Hmove : ∀ j, next_seq j = next_seq (m_journal m) → Sending m
    (let '(s, m1) := enqueue_op (Rename from to None base) (upd_j (λ _, j) m) in
     if m_offline m1 then m1 else submit_mutation (ticket_move from to) (JMove s from to base (mv_dir mv))
       (if mv_dir mv then m1 else upd_cache (start_uploading to) m1)) from to).
  { intros j Hj. unfold enqueue_op. destruct (enqueue _ _ _) as [s j2] eqn:Eq. unfold enqueue in Eq.
    injection Eq as Es Ej. set (m1 := upd_j (λ _, j2) (upd_j (λ _, j) m)). cbv beta iota.
    set (e := Build_JournalEntry s (Rename from to None base) (clock (m_world (upd_j (λ _, j) m))) 0 None false false false).
    assert (Hl : last (entries (m_journal m1)) = Some e) by (unfold m_journal, e; rewrite <- Es; simpl; rewrite <- Ej; apply last_snoc).
    assert (He : seq e = next_seq (m_journal m)) by (simpl; by rewrite <- Es).
    change (m_offline m1) with (m_offline m). set (m2 := if mv_dir mv then m1 else _).
    assert (H2 : m_journal m2 = m_journal m1 ∧ m_jobs m2 = m_jobs m ∧ m_seq m2 = m_seq m) by by unfold m2; destruct (mv_dir mv).
    destruct H2 as (H2 & H3 & H4). destruct (m_offline m) eqn:Eo.
    - apply by_move with e base true; [done..|]. by rewrite Eo, app_nil_r.
    - destruct (submit_spec (ticket_move from to) (JMove s from to base (mv_dir mv)) m2) as [Hc Hj'].
      apply by_move with e base (mv_dir mv); [|done..|].
      + unfold m_journal in *. by rewrite Hc, H2.
      + by rewrite Hj', H3, H4, Eo. }
  destruct (if mv_source_on_server mv then _ else _) as [[] j] eqn:Er.
  - destruct (mv_source_on_server mv); [done|]. apply (retarget_upload_moves _ _ _ _ _ Hne) in Er as (? & ? & ?).
    by apply by_upload.
  - apply Hmove. destruct (mv_source_on_server mv); [by injection Er as <-|].
    unfold retarget_upload in Er. by repeat case_match; simplify_eq.
Qed.

Lemma Sending_same m1 m2 m' from to : same_queue m1 m2 → Sending m1 m' from to → Sending m2 m' from to.
Proof.
  intros (Hj & Hb & Ho & Hs) [a f t fh o|a f t|a f t e base d]; rewrite ?Hj, ?Hb, ?Ho, ?Hs in *.
  - by apply by_handle with fh o.
  - by apply by_upload.
  - by apply by_move with e base d.
Qed.

Lemma retarget_leaves from to disp o :
  starts_with from to = false → starts_with to from = false →
  strip_prefix (remote_path (retarget_handle from to disp o)) from = None.
Proof.
  intros Hft Htf. assert (Hno : ∀ rel, strip_prefix (to ++ rel) from = None).
  { intros rel. destruct (strip_prefix (to ++ rel) from) as [q|] eqn:E; [|done].
    apply strip_prefix_Some in E. by destruct (disjoint_trees from to q rel). }
  unfold retarget_handle. destruct (strip_prefix (remote_path o) from) as [[|x rel]|] eqn:Es.
  - pose proof (Hno []) as Hn. by rewrite app_nil_r in Hn.
  - apply (Hno (x :: rel)).
  - destruct disp as [[d a]|]; [|done]. by destruct (of_ino o =? d).
Qed.

End handlers.

(** ** A mount of a small server *)

#[local] Instance demo_keep : KeepConfig :=
  {| auto_keep_locally_modified_files := false; kept_dir := ["kept"%string]; auto_cache_dir := ["auto"%string] |}.

Section demo.
Local Open Scope string_scope.

(** The folder [d] with the file [d/f], both listed, and nothing queued. *)
Definition demo_listing (files : list RemoteEntry) : DirCacheEntry :=
  Build_DirCacheEntry files None None 0 0 false false false None 0.
Definition demo_cache : FsCache :=
  let f := {| e_path := ["d"; "f"]; e_is_dir := false; e_size := 1; e_modified := None; e_change_token := Some "0";
              e_content_type := None; e_ext := ext_default |} in
  Build_FsCache {[ 1 := [] ]} {[ [] := 1 ]} 2
    {[ [] := demo_listing [new_dir_entry ["d"] 0]; ["d"] := demo_listing [f] ]} 100 ∅ ∅ ∅ ∅ ∅ false 0.
Definition demo_srv : Srv := Build_Srv {[ ["d"; "f"] := ([Byte.x41], 0) ]} {[ ["d"] ]} ∅ 1.
Definition demo_mount (offline : bool) : Mount Srv :=
  Build_Mount (Build_RState (load_or_create 0 ["cache"] (Build_Disk (Some []) None ∅ true)) demo_cache ∅ ∅ [] demo_srv)
    ∅ ∅ ∅ ∅ ∅ ∅ 1 ∅ (Build_UploadOrder ∅ 0 ∅) ∅ ∅ offline PathSeq.init [].
Definition no_clock (w : Srv) : Z := 0.

Definition demo_mkdir : Mount Srv → Mount Srv := λ m, (mkdir no_clock no_clock false 1 "n" m).2.
Definition demo_create : Mount Srv → Mount Srv := λ m, (create no_clock no_clock false true true 2 "x" m).2.
Definition demo_rename (parent : nat) (name : string) (np : nat) (nn : string) : Mount Srv → Mount Srv :=
  λ m, (rename no_clock no_clock false parent name np nn m).2.
Definition demo_lookup (p : PathBuf) : Mount Srv → Mount Srv := upd_cache (λ c, (allocate_inode c p).2).
End demo.

Definition dm1 : Mount Srv := demo_lookup ["d"%string] (demo_mount false).
Definition dm2 : Mount Srv := demo_create dm1.
Definition dm3 : Mount Srv := demo_rename 1 "d" 1 "e" dm2.

Example demo_follow : (λ o, (remote_path o, of_ino o)) <$> m_files dm3 !! 1 = Some (["e"; "x"]%string, 3).
Proof. vm_compute. reflexivity. Qed.
Example demo_jobs : map snd (m_jobs dm3) = [JMove 1 ["d"]%string ["e"]%string None true].
Proof. vm_compute. reflexivity. Qed.

Lemma demo_cache_wf : inode_wf demo_cache.
Proof.
  split; intros i p; unfold demo_cache; simpl; rewrite !lookup_singleton_Some; naive_solver lia.
Qed.

Lemma demo_rename_ok : rename_ok [] ["d"]%string ["e"]%string dm2.
Proof.
  split_and!; [done..|]. intros fh o Ho _ rel Hrel.
  assert (Hf : remote_path o = ["d"; "x"]%string).
  { assert (remote_path <$> m_files dm2 = {[ 1 := ["d"; "x"]%string ]}) as Hm by (vm_compute; reflexivity).
    assert ((remote_path <$> m_files dm2) !! fh = Some (remote_path o)) as Hl by (by rewrite lookup_fmap, Ho).
    rewrite Hm in Hl. by apply lookup_singleton_Some in Hl as [_ <-]. }
  rewrite Hf. split; [by simpl; intros [= ]|]. intros _. vm_compute. reflexivity.
Qed.



(** Removing a folder the server has: the answer is the server's, the folder goes with what
    it holds. *)
Definition dm_rmdir : Mount Srv := (rmdir no_clock no_clock 1 "d" dm1).2.
Definition dm_gone : Mount Srv := run_job no_clock no_clock (JRmdir 1 ["d"]%string) dm_rmdir.

Lemma delete_job_outcome_witness :
  entries (m_journal dm_rmdir) ≠ [] ∧ Journal.contains 1 (m_journal dm_gone) = false.
Proof.
  split; [by vm_compute|].
  destruct (delete_job_outcome no_clock no_clock dm_rmdir 1 ["d"]%string (JRmdir 1 ["d"]%string) (or_intror eq_refl))
    as [_ H]; [|exact (proj1 H)].
  assert (Hs : seq <$> entries (m_journal dm_rmdir) = [1]) by (vm_compute; reflexivity).
  split; [rewrite Hs; apply NoDup_singleton|]. intros e He.
  assert (Hin : seq e ∈ seq <$> entries (m_journal dm_rmdir)) by by apply list_elem_of_fmap_2.
  rewrite Hs in Hin. apply list_elem_of_singleton in Hin as ->. vm_compute. lia.
Defined.

(** [rmdir] does not ask whether the folder is empty, and DELETE takes what is in it. *)
Lemma rmdir_takes_contents :
  (rmdir no_clock no_clock 1 "d" dm1).1 = Done ∧
  find_entry (m_cache dm1) ["d"; "f"]%string ≠ None ∧
  content (m_world dm1) ["d"; "f"]%string = Some [Byte.x41] ∧
  content (m_world dm_gone) ["d"; "f"]%string = None.
Proof. by vm_compute. Qed.

(** The ticket of a MOVE of a folder is ready while an upload deeper inside holds its own:
    only the uploads directly in the folder hold it. *)
Lemma folder_move_not_ordered :
  let '(put, s) := PathSeq.ticket PathSeq.init (ticket_entry ["a"; "b"; "c"]%string) in
  let '(mv, s) := PathSeq.ticket s (ticket_move ["a"]%string ["z"]%string) in
  PathSeq.ready s put = true ∧ PathSeq.ready s mv = true.
Proof. by vm_compute. Qed.
