(* ===== verification/FuseSched.v ===== *)
(** [fuse_sched.rs]: per-key FIFO scheduling of FUSE requests on a worker pool.

    [submit] queues a task behind every earlier one on its keys and starts it at once when
    nothing conflicts ahead of it; [complete] takes a finished task off its queues and starts
    the tasks that became runnable, looking only at the heads of those queues.  The state is
    the one behind the mutex; a task's job is [None] from the moment it is started. *)
From S2P Require Import Prelude KeyedFifo.

Section sched.
Context {K : Type} `{Countable K} {Job : Type}.

Abbreviation keys := (list (K * Mode)).

(* fuse_sched.rs:44-48 Task *)
Record Task := { t_keys : keys; t_job : option Job }.

(* fuse_sched.rs:50-59 State *)
Record State := {
  next_id : nat;
  queues : gmap K (list (nat * Mode));
  tasks : gmap nat Task;
  peak_inflight : nat;
  dispatch_waits : nat;
  paused_until : option Instant;
}.

(* fuse_sched.rs:80-94 Scheduler::new *)
Definition new : State :=
  {| next_id := 0; queues := ∅; tasks := ∅; peak_inflight := 0; dispatch_waits := 0;
     paused_until := None |}.

(* fuse_sched.rs:251-259 ready *)
Definition ready (st : State) (id : nat) : bool :=
  match tasks st !! id with
  | None => false
  | Some task => ready_on (queues st) id (t_keys task)
  end.

(* fuse_sched.rs:261-263 take_job *)
Definition take_job (st : State) (id : nat) : option Job * State :=
  match tasks st !! id with
  | Some task =>
      (t_job task,
       {| next_id := next_id st; queues := queues st;
          tasks := <[id := {| t_keys := t_keys task; t_job := None |}]> (tasks st);
          peak_inflight := peak_inflight st; dispatch_waits := dispatch_waits st;
          paused_until := paused_until st |})
  | None => (None, st)
  end.

(** What the dispatch thread does before it queues anything: it waits while the scheduler
    is paused (until the pause expires at [until]) and then while [max_inflight] tasks are
    live.  The flag says whether it may go on at [now]. *)
(* fuse_sched.rs:115-132 Scheduler::submit *)
Definition admission (max_inflight : nat) (st : State) (now : Instant) : State * bool :=
  let paused := match paused_until st with Some until => (now <? until)%Z | None => false end in
  let full := max_inflight <=? size (tasks st) in
  if paused then (st, false)
  else ({| next_id := next_id st; queues := queues st; tasks := tasks st;
           peak_inflight := peak_inflight st;
           dispatch_waits := if full then S (dispatch_waits st) else dispatch_waits st;
           paused_until := None |}, negb full).

(** The rest of [submit] queues the task on its merged keys, *)
(* fuse_sched.rs:133-139 Scheduler::submit *)
Definition enqueue (st : State) (ks : keys) (job : Job) : State :=
  let merged := merge_keys ks in
  let id := S (next_id st) in
  let tasks' := <[id := {| t_keys := merged; t_job := Some job |}]> (tasks st) in
  {| next_id := id; queues := push_all id merged (queues st); tasks := tasks';
     peak_inflight := Nat.max (peak_inflight st) (size tasks');
     dispatch_waits := dispatch_waits st; paused_until := paused_until st |}.

(** and takes its job at once when it is ready.  The returned job is handed to the pool after
    the lock is released. *)
(* fuse_sched.rs:103-146 Scheduler::submit *)
Definition submit (st : State) (ks : keys) (job : Job) : option (nat * Job) * State :=
  let st1 := enqueue st ks job in
  let id := next_id st1 in
  if ready st1 id
  then let '(start, st2) := take_job st1 id in ((λ j, (id, j)) <$> start, st2)
  else (None, st1).

Definition with_queues (st : State) (qs : gmap K (list (nat * Mode))) : State :=
  {| next_id := next_id st; queues := qs; tasks := tasks st;
     peak_inflight := peak_inflight st; dispatch_waits := dispatch_waits st;
     paused_until := paused_until st |}.

(** A candidate that still waits and is ready gives up its job. *)
(* fuse_sched.rs:193-199 Scheduler::complete *)
Definition try_start (acc : State * list (nat * Job)) (c : nat) : State * list (nat * Job) :=
  let '(st, runnable) := acc in
  match tasks st !! c with
  | Some {| t_job := Some _ |} =>
      if ready st c
      then match take_job st c with
           | (Some job, st') => (st', runnable ++ [(c, job)])
           | (None, st') => (st', runnable)
           end
      else (st, runnable)
  | _ => (st, runnable)
  end.

(** The tasks that can have been waiting on the finished one at the head of a queue. *)
(* fuse_sched.rs:176-192 Scheduler::complete *)
Definition candidates (st : State) (q : list (nat * Mode)) : list nat :=
  match q with
  | [] => []
  | (h, hm) :: _ =>
      match tasks st !! h with
      | Some {| t_job := None |} => []
      | _ => match hm with
             | Exclusive => [h]
             | Shared => (take_while (λ e, bool_decide (e.2 = Shared)) q).*1
             end
      end
  end.

(* fuse_sched.rs:168-200 Scheduler::complete *)
Definition complete_key (id : nat) (acc : State * list (nat * Job)) (k : K) :
    State * list (nat * Job) :=
  let '(st, runnable) := acc in
  match queues st !! k with
  | None => acc
  | Some q =>
      match remove_first (λ e, e.1 =? id) q with
      | [] => (with_queues st (delete k (queues st)), runnable)
      | q' =>
          let st1 := with_queues st (<[k := q']> (queues st)) in
          foldl try_start (st1, runnable) (candidates st1 q')
      end
  end.

(** The jobs to hand to the pool once the lock is released, and the new state. *)
(* fuse_sched.rs:164-206 Scheduler::complete *)
Definition complete (st : State) (id : nat) : State * list (nat * Job) :=
  match tasks st !! id with
  | None => (st, [])
  | Some task =>
      let st1 := {| next_id := next_id st; queues := queues st;
                    tasks := delete id (tasks st); peak_inflight := peak_inflight st;
                    dispatch_waits := dispatch_waits st; paused_until := paused_until st |} in
      foldl (complete_key id) (st1, []) (t_keys task).*1
  end.

(** The pause part of [quiesce]; it then waits for [tasks] to empty, up to [budget]. *)
(* fuse_sched.rs:213-225 Scheduler::quiesce *)
Definition quiesce (st : State) (now : Instant) (budget : Duration) : State * bool :=
  ({| next_id := next_id st; queues := queues st; tasks := tasks st;
      peak_inflight := peak_inflight st; dispatch_waits := dispatch_waits st;
      paused_until := Some (now + budget + secs 5)%Z |},
   bool_decide (tasks st = ∅)).

(* fuse_sched.rs:228-231 Scheduler::resume *)
Definition resume (st : State) : State :=
  {| next_id := next_id st; queues := queues st; tasks := tasks st;
     peak_inflight := peak_inflight st; dispatch_waits := dispatch_waits st;
     paused_until := None |}.

(* fuse_sched.rs:234-236 Scheduler::busy_keys *)
Definition busy_keys (st : State) : gset K := dom (queues st).

(** ** Meaning *)

Definition started (st : State) (id : nat) : Prop :=
  ∃ t, tasks st !! id = Some t ∧ t_job t = None.

(** [live] is the list of live tasks in submission order. *)
Definition holds (live : list (nat * keys)) (st : State) : Prop :=
  ∀ id ks, (id, ks) ∈ live ↔ t_keys <$> tasks st !! id = Some ks.

Record wf (live : list (nat * keys)) (st : State) : Prop := {
  wf_rep : rep live (queues st);
  wf_inc : increasing live.*1;
  wf_bound : ∀ id, id ∈ live.*1 → id ≤ next_id st;
  wf_keys : ∀ t, t ∈ live → NoDup t.2.*1;
  wf_tasks : holds live st;
}.

(** Nothing runnable is left waiting, and nothing runs before its turn. *)
Definition settled (st : State) : Prop :=
  ∀ id, started st id ↔ ready st id = true.

(** ** Readiness as "nothing live and earlier conflicts" *)

Definition job_of (st : State) (id : nat) : option Job := tasks st !! id ≫= t_job.

(** Order-based facts about any ordered item list [L] that the queues represent. *)
Definition ordered (L : list (nat * keys)) : Prop :=
  increasing L.*1 ∧ ∀ t, t ∈ L → NoDup t.2.*1.

Lemma ready_char st la i ki lb :
  ordered (la ++ (i, ki) :: lb) → rep (la ++ (i, ki) :: lb) (queues st) →
  t_keys <$> tasks st !! i = Some ki →
  ready st i = true ↔ ∀ t, t ∈ la → ¬ conflict t.2 ki.
Proof.
  intros [Hinc Hnd] Hr Hk. unfold ready.
  apply fmap_Some in Hk as (t & -> & ->).
  rewrite fmap_app in Hinc. apply increasing_NoDup, NoDup_app in Hinc as (_ & Hn & _).
  apply (ready_on_iff _ _ _ la lb).
  - apply Forall_forall. intros t' Ht'. apply Hnd. set_solver.
  - apply (Hnd (i, t_keys t)). set_solver.
  - intros Hin. by apply (Hn _ Hin); left.
  - done.
Qed.

(** ** [try_start] and its folds *)

(** [acc] is [st0] with some waiting tasks started, their jobs collected. *)
Record progress (st0 : State) (acc : State * list (nat * Job)) : Prop := {
  pr_next : next_id acc.1 = next_id st0;
  pr_keys : ∀ id, t_keys <$> tasks acc.1 !! id = t_keys <$> tasks st0 !! id;
  pr_jobs : ∀ id j, job_of acc.1 id = Some j → job_of st0 id = Some j;
  pr_run : ∀ id j, (id, j) ∈ acc.2 ↔ job_of st0 id = Some j ∧ job_of acc.1 id = None;
  pr_nodup : NoDup acc.2.*1;
}.

Lemma progress_refl st : progress st (st, []).
Proof.
  split; simpl; try done; [|constructor]. intros id j. split; [by intros ?%elem_of_nil|].
  intros [H1 H2]. congruence.
Qed.

Lemma progress_queues st0 st r qs : progress st0 (st, r) → progress st0 (with_queues st qs, r).
Proof. intros [? ? ? ? ?]. by split. Qed.

Lemma ready_keys_eq st st' i :
  queues st = queues st' → t_keys <$> tasks st !! i = t_keys <$> tasks st' !! i →
  ready st i = ready st' i.
Proof.
  unfold ready. intros ->.
  destruct (tasks st !! i), (tasks st' !! i); simpl; intros; simplify_eq; congruence.
Qed.

Lemma try_start_progress st0 acc c : progress st0 acc → progress st0 (try_start acc c).
Proof.
  destruct acc as [st r]. intros Hp. unfold try_start.
  destruct (tasks st !! c) as [[tk [job|]]|] eqn:Hc; [|done|done].
  destruct (ready st c); [|done]. unfold take_job. rewrite Hc. simpl.
  destruct Hp as [Hn Hk Hj Hr Hd]; simpl in *.
  assert (Hjc : job_of st c = Some job) by (unfold job_of; by rewrite Hc).
  assert (Hins : ∀ i, job_of {| next_id := next_id st; queues := queues st;
            tasks := <[c:={| t_keys := tk; t_job := None |}]> (tasks st);
            peak_inflight := peak_inflight st; dispatch_waits := dispatch_waits st;
            paused_until := paused_until st |} i =
          if decide (i = c) then None else job_of st i).
  { intros i. unfold job_of. simpl. case_decide as Hd'; [subst; by rewrite lookup_insert_eq|].
    by rewrite lookup_insert_ne. }
  split; simpl.
  - done.
  - intros i. rewrite <- Hk. destruct (decide (c = i)) as [<-|]; [|by rewrite lookup_insert_ne].
    by rewrite lookup_insert_eq, Hc.
  - intros i j. rewrite Hins. case_decide; [done|]. apply Hj.
  - intros i j. rewrite elem_of_app, Hr, list_elem_of_singleton, Hins.
    case_decide as Hd'; [subst i|].
    + pose proof (Hj _ _ Hjc) as Hj0. split.
      * intros [[? ?]|[= ->]]; [congruence|done].
      * intros [? _]. right. congruence.
    + split; [intros [?|[= -> _]]; done|by left].
  - rewrite fmap_app. apply NoDup_app. split; [done|]. split; [|apply NoDup_singleton].
    intros i ([i' j'] & -> & [_ Hno]%Hr)%list_elem_of_fmap Hc'.
    apply list_elem_of_singleton in Hc'. simpl in *. subst. congruence.
Qed.

Lemma try_start_queues acc c : queues (try_start acc c).1 = queues acc.1.
Proof.
  destruct acc as [st r]. unfold try_start, take_job.
  repeat (case_match; simplify_eq; simpl; try done).
Qed.

Lemma started_job st i : started st i ↔ is_Some (tasks st !! i) ∧ job_of st i = None.
Proof.
  unfold started, job_of. destruct (tasks st !! i) as [t|]; simpl.
  - split; [intros (? & [= <-] & ?); by split; [eexists|]|intros [_ ?]; by exists t].
  - split; [naive_solver|by intros [[? ?] _]].
Qed.

Lemma try_start_started acc c i :
  started (try_start acc c).1 i ↔ started acc.1 i ∨ (i = c ∧ ready acc.1 i = true).
Proof.
  destruct acc as [st r]. unfold try_start.
  destruct (tasks st !! c) as [[tk [job|]]|] eqn:Hc; simpl.
  - destruct (ready st c) eqn:Hr; simpl.
    + unfold take_job. rewrite Hc. simpl. unfold started; simpl.
      destruct (decide (c = i)) as [<-|Hne].
      * rewrite lookup_insert_eq. split; [by right|]. intros _. by eexists.
      * rewrite lookup_insert_ne by done. split; [by left|]. intros [?|[-> _]]; done.
    + split; [by left|]. intros [?|[-> ?]]; congruence.
  - split; [by left|]. intros [?|[-> _]]; [done|]. by eexists.
  - split; [by left|]. intros [?|[-> Hr]]; [done|]. unfold ready in Hr. by rewrite Hc in Hr.
Qed.

Lemma foldl_try_start cs st0 acc :
  progress st0 acc →
  let acc' := foldl try_start acc cs in
  progress st0 acc' ∧ queues acc'.1 = queues acc.1 ∧
  (∀ i, started acc'.1 i ↔ started acc.1 i ∨ (i ∈ cs ∧ ready acc.1 i = true)) ∧
  (∀ i, ready acc'.1 i = ready acc.1 i).
Proof.
  revert acc. induction cs as [|c cs IH]; intros acc Hp; simpl.
  { split_and!; [done|done| |done]. intros i. split; [by left|].
    intros [?|[?%elem_of_nil _]]; done. }
  pose proof (try_start_progress st0 acc c Hp) as Hp'.
  destruct (IH (try_start acc c) Hp') as (H1 & H2 & H3 & H4).
  assert (Hready : ∀ i, ready (try_start acc c).1 i = ready acc.1 i).
  { intros i. apply ready_keys_eq; [apply try_start_queues|].
    rewrite (pr_keys _ _ Hp'). symmetry. apply (pr_keys _ _ Hp). }
  split_and!; [done| | |].
  - rewrite H2. apply try_start_queues.
  - intros i. rewrite H3, try_start_started, Hready, elem_of_cons. naive_solver.
  - intros i. by rewrite H4.
Qed.

(** ** Taking a finished task off one key *)

(** The state while [complete id] is under way: [id] has left [tasks] and is still queued
    on the keys [ks] only; what is started is what is ready. *)
Record leaving (l1 l2 : list (nat * keys)) (id : nat) (ks : keys) (st : State) : Prop := {
  lv_rep : rep (l1 ++ (id, ks) :: l2) (queues st);
  lv_ord : ordered (l1 ++ (id, ks) :: l2);
  lv_tasks : holds (l1 ++ l2) st;
  lv_first : ∀ t, t ∈ l1 → ¬ conflict t.2 ks;
  lv_settled : settled st;
}.

Lemma holds_elem live st i ki : holds live st → (i, ki) ∈ live → t_keys <$> tasks st !! i = Some ki.
Proof. intros Hh. apply Hh. Qed.

(** Readiness of a live task in terms of its place in the order. *)
Lemma leaving_ready l1 l2 id ks st i ki la lb :
  rep (l1 ++ (id, ks) :: l2) (queues st) → ordered (l1 ++ (id, ks) :: l2) →
  holds (l1 ++ l2) st →
  l2 = la ++ (i, ki) :: lb →
  ready st i = true ↔
    (∀ t, t ∈ l1 ++ la → ¬ conflict t.2 ki) ∧ ¬ conflict ks ki.
Proof.
  intros Hr Ho Hh ->.
  replace (l1 ++ (id, ks) :: la ++ (i, ki) :: lb) with ((l1 ++ (id, ks) :: la) ++ (i, ki) :: lb)
    in * by by rewrite <- app_assoc.
  rewrite (ready_char st _ _ _ _ Ho Hr) by (apply (holds_elem _ _ _ _ Hh); set_solver).
  setoid_rewrite elem_of_app. setoid_rewrite elem_of_cons. split.
  - intros Hno. split; [intros t [?|?]; apply Hno; auto|]. apply (Hno (id, ks)); auto.
  - intros [H1 H2] t [?|[->|?]]; [apply H1; auto|done|apply H1; auto].
Qed.

Lemma leaving_ready_before l1 l2 id ks st i ki la lb :
  rep (l1 ++ (id, ks) :: l2) (queues st) → ordered (l1 ++ (id, ks) :: l2) →
  holds (l1 ++ l2) st →
  l1 = la ++ (i, ki) :: lb →
  ready st i = true ↔ (∀ t, t ∈ la → ¬ conflict t.2 ki).
Proof.
  intros Hr Ho Hh ->.
  replace ((la ++ (i, ki) :: lb) ++ (id, ks) :: l2) with (la ++ (i, ki) :: (lb ++ (id, ks) :: l2))
    in * by by rewrite <- app_assoc.
  apply (ready_char st _ _ _ _ Ho Hr). apply (holds_elem _ _ _ _ Hh). set_solver.
Qed.

Lemma ordered_weaken l1 l2 id k m ks :
  ordered (l1 ++ (id, (k, m) :: ks) :: l2) → ordered (l1 ++ (id, ks) :: l2).
Proof.
  intros [Hi Hn]. split.
  - by rewrite fmap_app, fmap_cons in *.
  - intros t Ht. apply elem_of_app in Ht as [?|[->|?]%elem_of_cons].
    + apply Hn. set_solver.
    + assert (Hk : NoDup ((k, m) :: ks).*1) by (apply (Hn (id, (k, m) :: ks)); set_solver).
      by apply NoDup_cons in Hk as [_ ?].
    + apply Hn. set_solver.
Qed.

Lemma ordered_ids l1 l2 id (ks : keys) :
  ordered (l1 ++ (id, ks) :: l2) → id ∉ l1.*1 ∧ id ∉ l2.*1.
Proof.
  intros [Hi _]. rewrite fmap_app, fmap_cons in Hi.
  apply increasing_NoDup, NoDup_app in Hi as (_ & H1 & [H2 _]%NoDup_cons).
  split; [|done]. intros Hin. by apply (H1 _ Hin); left.
Qed.

(** The front of a queue: every entry before [i] belongs to a live item ordered before it. *)
Lemma candidate_found l1 l2 id k m ks st q i ki la lb mi :
  leaving l1 l2 id ((k, m) :: ks) st →
  l2 = la ++ (i, ki) :: lb → (k, mi) ∈ ki → both_shared m mi = false →
  (∀ t, t ∈ l1 ++ la → ¬ conflict t.2 ki) →
  q = queue_of k (l1 ++ l2) → ¬ started st i → i ∈ candidates (with_queues st (<[k := q]> (queues st))) q.
Proof.
  intros Hl Hl2 Hki Hb Hno -> Hns.
  assert (Hnd : NoDup ki.*1).
  { apply (proj2 (lv_ord _ _ _ _ _ Hl) (i, ki)). subst l2. set_solver. }
  assert (Hsh : ∀ h hm, (h, hm) ∈ queue_of k (l1 ++ la) → both_shared hm mi = true).
  { intros h hm (kh & Hh & Hm%mode_of_Some)%elem_of_queue_of.
    destruct (both_shared hm mi) eqn:E; [done|]. exfalso.
    apply (Hno (h, kh) Hh). by exists k, hm, mi. }
  assert (Hq : queue_of k (l1 ++ l2) = queue_of k (l1 ++ la) ++ (i, mi) :: queue_of k lb).
  { subst l2. rewrite !app_assoc, (queue_of_app k (l1 ++ la)), queue_of_cons.
    by rewrite (mode_of_elem k mi ki). }
  rewrite Hq. destruct (queue_of k (l1 ++ la)) as [|[h hm] front] eqn:Hfr; simpl.
  - destruct (tasks st !! i) as [[ti [j|]]|] eqn:Hti; [| exfalso; apply Hns; by eexists |].
    all: destruct mi; simpl; set_solver.
  - assert (Hhm : hm = Shared ∧ mi = Shared).
    { specialize (Hsh h hm ltac:(left)). by destruct hm, mi. }
    destruct Hhm as [-> ->]. assert (m = Exclusive) as -> by (by destruct m).
    assert (Hh : (h, Shared) ∈ queue_of k (l1 ++ la)) by (rewrite Hfr; left).
    apply elem_of_queue_of in Hh as (kh & Hh & Hmh%mode_of_Some).
    destruct (tasks st !! h) as [[th [j|]]|] eqn:Hth.
    2: { exfalso. apply elem_of_app in Hh as [Hh|Hh].
      - apply (lv_first _ _ _ _ _ Hl (h, kh) Hh). exists k, Shared, Exclusive.
        split; [done|]. split; [left|done].
      - apply list_elem_of_split in Hh as (la1 & la2 & ->).
        assert (Hst : started st h) by (by eexists).
        apply (lv_settled _ _ _ _ _ Hl) in Hst.
        apply (leaving_ready l1 l2 id ((k, Exclusive) :: ks) st h kh la1 (la2 ++ (i, ki) :: lb)) in Hst as [_ Hst];
          [|apply Hl|apply Hl|apply Hl|subst l2; by rewrite <- app_assoc].
        apply Hst. exists k, Exclusive, Shared. split; [left|done]. }
    all: apply list_elem_of_fmap; exists (i, Shared); split; [done|].
    all: right; apply take_while_prefix; [|done].
    all: apply Forall_forall; intros [e em] He; simpl; apply bool_decide_eq_true.
    all: specialize (Hsh e em ltac:(by right)); by destruct em.
Qed.

(** The queues after the key's entry of [id] is gone represent the shorter item. *)
Lemma complete_key_rep l1 l2 id k m ks st :
  leaving l1 l2 id ((k, m) :: ks) st →
  let q' := queue_of k (l1 ++ l2) in
  queues st !! k = Some (queue_of k (l1 ++ (id, (k, m) :: ks) :: l2)) ∧
  remove_first (λ e, e.1 =? id) (queue_of k (l1 ++ (id, (k, m) :: ks) :: l2)) = q' ∧
  rep (l1 ++ (id, ks) :: l2)
    (match q' with [] => delete k (queues st) | _ => <[k := q']> (queues st) end).
Proof.
  intros Hl q'. pose proof (lv_rep _ _ _ _ _ Hl) as Hr.
  destruct (ordered_ids _ _ _ _ (lv_ord _ _ _ _ _ Hl)) as [H1 H2].
  assert (Hnd : NoDup ((k, m) :: ks).*1).
  { apply (proj2 (lv_ord _ _ _ _ _ Hl) (id, (k, m) :: ks)). set_solver. }
  assert (Hks : mode_of k ks = None) by (apply NoDup_cons in Hnd as [? _]; by apply mode_of_None).
  assert (Hq' : q' = queue_of k (l1 ++ (id, ks) :: l2)).
  { unfold q'. by rewrite !queue_of_app, queue_of_cons, Hks. }
  split_and!.
  - rewrite (Hr k). rewrite queue_of_app, queue_of_cons, mode_of_cons_eq. simpl.
    by destruct (queue_of k l1).
  - rewrite Hq'. symmetry. by apply queue_of_drop_key.
  - intros k'. destruct (decide (k = k')) as [<-|Hne].
    + rewrite <- Hq'. destruct q'; [apply lookup_delete_eq|apply lookup_insert_eq].
    + rewrite (queue_of_drop_other k k' id m ks) by done. rewrite <- (Hr k').
      destruct q'; by rewrite ?lookup_delete_ne, ?lookup_insert_ne.
Qed.

Lemma conflict_tail k m (ks ki : keys) : conflict ks ki → conflict ((k, m) :: ks) ki.
Proof. intros. apply conflict_cons. by right. Qed.

(** Where a live task sits relative to the one that leaves. *)
Lemma live_split (l1 l2 : list (nat * keys)) i ki :
  (i, ki) ∈ l1 ++ l2 →
  (∃ la lb, l1 = la ++ (i, ki) :: lb) ∨ (∃ la lb, l2 = la ++ (i, ki) :: lb).
Proof. intros [H1|H1]%elem_of_app; apply list_elem_of_split in H1; auto. Qed.

Lemma ready_live live st i : holds live st → ready st i = true → ∃ ki, (i, ki) ∈ live.
Proof.
  unfold ready. intros Hh. destruct (tasks st !! i) as [t|] eqn:E; [|done].
  intros _. exists (t_keys t). apply Hh. by rewrite E.
Qed.

(** Readiness only grows when a key's entry goes, and what it adds conflicted there. *)
Lemma leaving_ready_step l1 l2 id k m ks st st1 i :
  leaving l1 l2 id ((k, m) :: ks) st →
  rep (l1 ++ (id, ks) :: l2) (queues st1) → tasks st1 = tasks st →
  (ready st i = true → ready st1 i = true) ∧
  (ready st1 i = true → ready st i = true ∨
    ∃ ki la lb mi, l2 = la ++ (i, ki) :: lb ∧ (k, mi) ∈ ki ∧ both_shared m mi = false ∧
      ∀ t, t ∈ l1 ++ la → ¬ conflict t.2 ki).
Proof.
  intros Hl Hr1 Ht. pose proof (lv_tasks _ _ _ _ _ Hl) as Hh.
  assert (Hh1 : holds (l1 ++ l2) st1) by (unfold holds; by rewrite Ht).
  pose proof (ordered_weaken _ _ _ _ _ _ (lv_ord _ _ _ _ _ Hl)) as Ho1.
  assert (Hcase : ∀ ki, (i, ki) ∈ l1 ++ l2 →
    (ready st i = ready st1 i) ∨
    ∃ la lb, l2 = la ++ (i, ki) :: lb ∧
      (ready st i = true ↔ (∀ t, t ∈ l1 ++ la → ¬ conflict t.2 ki) ∧ ¬ conflict ((k,m)::ks) ki) ∧
      (ready st1 i = true ↔ (∀ t, t ∈ l1 ++ la → ¬ conflict t.2 ki) ∧ ¬ conflict ks ki)).
  { intros ki [(la & lb & Hs)|(la & lb & Hs)]%live_split.
    - left. apply eq_true_iff_eq.
      rewrite (leaving_ready_before l1 l2 id ((k,m)::ks) st i ki la lb (lv_rep _ _ _ _ _ Hl)
                 (lv_ord _ _ _ _ _ Hl) Hh Hs).
      by rewrite (leaving_ready_before l1 l2 id ks st1 i ki la lb Hr1 Ho1 Hh1 Hs).
    - right. exists la, lb. split; [done|]. split.
      + by apply (leaving_ready l1 l2 id ((k,m)::ks) st i ki la lb (lv_rep _ _ _ _ _ Hl)
                    (lv_ord _ _ _ _ _ Hl) Hh).
      + by apply (leaving_ready l1 l2 id ks st1 i ki la lb). }
  split.
  - intros Hri. destruct (ready_live _ _ _ Hh Hri) as [ki Hki].
    destruct (Hcase ki Hki) as [<-|(la & lb & Hs & Hst & Hst1)]; [done|].
    apply Hst1. destruct (proj1 Hst Hri) as [Hno Hnc]. split; [exact Hno|].
    intros Hc. by apply Hnc, conflict_tail.
  - intros Hri. destruct (ready_live _ _ _ Hh1 Hri) as [ki Hki].
    destruct (Hcase ki Hki) as [->|(la & lb & Hs & Hst & Hst1)]; [by left|].
    destruct (proj1 Hst1 Hri) as [Hno Hnc]. clear Hri.
    destruct (ready st i) eqn:Hri; [by left|]. right.
    assert (Hex : ∃ mi, (k, mi) ∈ ki ∧ both_shared m mi = false).
    { destruct (bool_decide ((k, Exclusive) ∈ ki)) eqn:E1; bool_prop;
        [exists Exclusive; split; [done|by destruct m]|].
      destruct (bool_decide ((k, Shared) ∈ ki)) eqn:E2; bool_prop.
      - destruct m; [|by exists Shared]. exfalso. cut (false = true); [done|]. apply Hst.
        split; [done|]. intros [(mb & Hmb & Hb)|Hc]%conflict_cons; [by destruct mb|done].
      - exfalso. cut (false = true); [done|]. apply Hst.
        split; [done|]. intros [(mb & Hmb & Hb)|Hc]%conflict_cons; [by destruct mb|done]. }
    destruct Hex as (mi & Hmi & Hb). by exists ki, la, lb, mi.
Qed.

Lemma complete_key_leaving l1 l2 id k m ks st0 st r :
  leaving l1 l2 id ((k, m) :: ks) st → progress st0 (st, r) →
  leaving l1 l2 id ks (complete_key id (st, r) k).1 ∧ progress st0 (complete_key id (st, r) k).
Proof.
  intros Hl Hp. destruct (complete_key_rep _ _ _ _ _ _ _ Hl) as (Hlk & Hrm & Hrep).
  pose proof (ordered_weaken _ _ _ _ _ _ (lv_ord _ _ _ _ _ Hl)) as Ho1.
  assert (Hf1 : ∀ t, t ∈ l1 → ¬ conflict t.2 ks).
  { intros t Ht Hc. apply (lv_first _ _ _ _ _ Hl t Ht). apply conflict_sym, conflict_tail.
    by apply conflict_sym. }
  pose proof (λ st1 i, leaving_ready_step l1 l2 id k m ks st st1 i Hl) as Hstep.
  pose proof (lv_settled _ _ _ _ _ Hl) as Hset.
  unfold complete_key. rewrite Hlk, Hrm.
  remember (queue_of k (l1 ++ l2)) as q eqn:Hq.
  destruct q as [|e q].
  - split; [|by apply progress_queues]. split; try done; simpl.
    + exact (lv_tasks _ _ _ _ _ Hl).
    + intros i. destruct (Hstep (with_queues st (delete k (queues st))) i Hrep eq_refl) as [Hup Hdn].
      change (started st i ↔ ready (with_queues st (delete k (queues st))) i = true).
      rewrite (Hset i). split; [exact Hup|]. intros Hri. destruct (Hdn Hri) as [?|(ki & la & lb & mi & Hs & Hmi & _)];
        [done|]. exfalso.
      assert (Hin : (i, mi) ∈ queue_of k (l1 ++ l2)).
      { apply elem_of_queue_of. exists ki. split; [subst l2; set_solver|].
        apply mode_of_elem; [|done]. apply (proj2 Ho1 (i, ki)). subst l2. set_solver. }
      rewrite <- Hq in Hin. by apply elem_of_nil in Hin.
  - set (st1 := with_queues st (<[k := e :: q]> (queues st))).
    destruct (foldl_try_start (candidates st1 (e :: q)) st0 (st1, r)) as (Hp' & Hqs & Hst & Hrd);
      [by apply progress_queues|].
    split; [|exact Hp']. split; try done; simpl in *.
    + by rewrite Hqs.
    + intros i ki. rewrite (pr_keys _ _ Hp' i), <- (pr_keys _ _ Hp i). apply (lv_tasks _ _ _ _ _ Hl).
    + intros i. rewrite Hst, Hrd.
      destruct (Hstep st1 i Hrep eq_refl) as [Hup Hdn].
      change (started st1 i) with (started st i). rewrite (Hset i). split.
      * intros [?|[_ ?]]; auto.
      * intros Hri. destruct (decide (is_Some (tasks st !! i) ∧ job_of st i = None)) as [Hs|Hns].
        { left. by apply Hset, started_job. }
        destruct (Hdn Hri) as [?|(ki & la & lb & mi & Hs & Hmi & Hb & Hno)]; [by left|].
        right. split; [|done].
        apply (candidate_found l1 l2 id k m ks st (e :: q) i ki la lb mi Hl Hs Hmi Hb Hno Hq).
        intros Hc%started_job. by apply Hns.
Qed.

Lemma complete_keys_leaving l1 l2 id ks st0 st r :
  leaving l1 l2 id ks st → progress st0 (st, r) →
  leaving l1 l2 id [] (foldl (complete_key id) (st, r) ks.*1).1 ∧
  progress st0 (foldl (complete_key id) (st, r) ks.*1).
Proof.
  revert st r. induction ks as [|[k m] ks IH]; intros st r Hl Hp; [done|].
  destruct (complete_key_leaving _ _ _ _ _ _ _ _ _ Hl Hp) as [Hl' Hp'].
  rewrite fmap_cons. cbn [foldl fst]. destruct (complete_key id (st, r) k) as [st' r'].
  by apply IH.
Qed.

(** [complete] leaves the counters alone. *)
Lemma complete_counters {A} (f : State → A) st id :
  (∀ s qs, f (with_queues s qs) = f s) →
  (∀ s ts, f {| next_id := next_id s; queues := queues s; tasks := ts; peak_inflight := peak_inflight s;
                dispatch_waits := dispatch_waits s; paused_until := paused_until s |} = f s) →
  f (complete st id).1 = f st.
Proof.
  intros Hq Htk.
  assert (Ht : ∀ acc c, f (try_start acc c).1 = f acc.1).
  { intros [s r] c. unfold try_start, take_job. by repeat (case_match; simplify_eq; simpl; rewrite ?Htk). }
  assert (Hts : ∀ cs acc, f (foldl try_start acc cs).1 = f acc.1).
  { induction cs as [|c cs IH]; intros acc; simpl; [done|]. by rewrite IH, Ht. }
  assert (Hk : ∀ acc k, f (complete_key id acc k).1 = f acc.1).
  { intros [s r] k. unfold complete_key. repeat case_match; rewrite ?Hts; simpl; rewrite ?Hq; done. }
  assert (Hf : ∀ ks acc, f (foldl (complete_key id) acc ks).1 = f acc.1).
  { induction ks as [|k ks IH]; intros acc; simpl; [done|]. by rewrite IH, Hk. }
  unfold complete. destruct (tasks st !! id) as [t|]; [|done]. rewrite Hf. simpl. apply Htk.
Qed.

Lemma complete_peak st id : peak_inflight (complete st id).1 = peak_inflight st.
Proof. by apply complete_counters. Qed.
Lemma complete_next st id : next_id (complete st id).1 = next_id st.
Proof. by apply complete_counters. Qed.

(** ** Whole operations *)

Lemma wf_ordered live st : wf live st → ordered live.
Proof. intros [? ? ? ? ?]. by split. Qed.

(** The state right after [complete] took the task off: [id] is still on all its queues. *)
Lemma leaving_start l1 id l2 task st :
  wf (l1 ++ (id, t_keys task) :: l2) st → settled st → started st id → tasks st !! id = Some task →
  leaving l1 l2 id (t_keys task)
    {| next_id := next_id st; queues := queues st; tasks := delete id (tasks st); peak_inflight := peak_inflight st;
       dispatch_waits := dispatch_waits st; paused_until := paused_until st |}.
Proof.
  intros Hwf Hset Hst Htask. pose proof (wf_ordered _ _ Hwf) as Ho.
  destruct (ordered_ids _ _ _ _ Ho) as [H1 H2]. split; [apply (wf_rep _ _ Hwf)|done| | |].
  - intros i ki. simpl. destruct (decide (i = id)) as [->|Hne].
    + rewrite lookup_delete_eq. split; [|done]. intros Hin%(list_elem_of_fmap_2 fst).
      rewrite fmap_app in Hin. simpl in Hin. set_solver.
    + rewrite lookup_delete_ne by done. rewrite <- (wf_tasks _ _ Hwf i ki). set_solver.
  - apply Hset in Hst.
    pose proof (ready_char st l1 id (t_keys task) l2 Ho (wf_rep _ _ Hwf)) as Hrc.
    rewrite Htask in Hrc. by apply Hrc.
  - intros i. unfold started, ready. simpl. destruct (decide (i = id)) as [->|Hne].
    + rewrite lookup_delete_eq. split; [by intros (? & ? & _)|done].
    + rewrite lookup_delete_ne by done. apply Hset.
Qed.

Lemma complete_wf l1 id ks l2 st :
  wf (l1 ++ (id, ks) :: l2) st → settled st → started st id →
  wf (l1 ++ l2) (complete st id).1 ∧ settled (complete st id).1 ∧
  (∀ i j, (i, j) ∈ (complete st id).2 ↔
     i ≠ id ∧ job_of st i = Some j ∧ job_of (complete st id).1 i = None) ∧
  NoDup (complete st id).2.*1 ∧
  (∀ i j, job_of (complete st id).1 i = Some j → job_of st i = Some j ∧ i ≠ id) ∧
  next_id (complete st id).1 = next_id st ∧
  size (tasks (complete st id).1) ≤ size (tasks st).
Proof.
  intros Hwf Hset Hst. pose proof (wf_ordered _ _ Hwf) as Ho.
  destruct (ordered_ids _ _ _ _ Ho) as [H1 H2].
  assert (Hid : t_keys <$> tasks st !! id = Some ks) by (apply (wf_tasks _ _ Hwf); set_solver).
  unfold complete. apply fmap_Some in Hid as (task & Htask & ->). rewrite Htask.
  set (st1 := {| tasks := delete id (tasks st) |}).
  pose proof (leaving_start _ _ _ _ _ Hwf Hset Hst Htask) as Hlv. fold st1 in Hlv.
  destruct (complete_keys_leaving l1 l2 id (t_keys task) st1 st1 [] Hlv (progress_refl st1))
    as [[Hr' Ho' Ht' _ Hs'] Hp].
  assert (Hjob1 : ∀ i j, job_of st1 i = Some j ↔ i ≠ id ∧ job_of st i = Some j).
  { intros i j. unfold job_of; simpl. destruct (decide (i = id)) as [->|Hne].
    - rewrite lookup_delete_eq. split; [done|by intros []].
    - rewrite lookup_delete_ne by done. split; [done|by intros []]. }
  destruct (foldl (complete_key id) (st1, []) (t_keys task).*1) as [st' r] eqn:Hf.
  destruct Hp as [P1 P2 P3 P4 P5]. simpl in *.
  split_and!.
  - split; simpl.
    + intros k. rewrite (Hr' k). by rewrite queue_of_no_keys.
    + destruct Ho as [Hi _]. rewrite fmap_app, fmap_cons in Hi. rewrite fmap_app.
      apply increasing_app in Hi as (? & [? ?]%StronglySorted_inv & Hlt).
      apply increasing_app. split; [done|]. split; [done|]. intros. apply Hlt; [done|by right].
    + intros i Hi. rewrite P1. apply (wf_bound _ _ Hwf).
      rewrite fmap_app, fmap_cons. rewrite fmap_app in Hi. set_solver.
    + intros t Ht. apply (wf_keys _ _ Hwf). set_solver.
    + done.
  - done.
  - intros i j. rewrite P4, Hjob1. naive_solver.
  - done.
  - intros i j Hj. apply P3 in Hj. apply Hjob1 in Hj. naive_solver.
  - done.
  - assert (Hdom : dom (tasks st') = dom (delete id (tasks st))).
    { apply set_eq. intros i. rewrite !elem_of_dom. pose proof (P2 i) as Hk.
      simpl in Hk. destruct (tasks st' !! i), (delete id (tasks st) !! i); simpl in Hk;
        simplify_eq; try done; split; intros [? ?]; done. }
    rewrite <- (size_dom (tasks st')), Hdom, size_dom.
    rewrite map_size_delete, Htask. lia.
Qed.

Lemma next_id_fresh live st : wf live st → tasks st !! S (next_id st) = None.
Proof.
  intros Hwf. destruct (tasks st !! S (next_id st)) as [t|] eqn:E; [|done].
  assert (Hin : (S (next_id st), t_keys t) ∈ live) by (apply (wf_tasks _ _ Hwf); by rewrite E).
  apply (list_elem_of_fmap_2 fst), (wf_bound _ _ Hwf) in Hin. simpl in Hin. lia.
Qed.

Lemma enqueue_wf live st ks job :
  wf live st → wf (live ++ [(S (next_id st), merge_keys ks)]) (enqueue st ks job).
Proof.
  intros Hwf. set (id := S (next_id st)).
  assert (Hlt : ∀ i, i ∈ live.*1 → i < id) by (intros i Hi%(wf_bound _ _ Hwf); lia).
  split; simpl.
  - apply push_all_rep; [apply merge_keys_NoDup|apply Hwf].
  - rewrite fmap_app. simpl. apply increasing_app. split; [apply Hwf|].
    split; [repeat constructor|]. intros a b Ha%Hlt Hb%list_elem_of_singleton. by subst.
  - intros i Hi. rewrite fmap_app in Hi.
    apply elem_of_app in Hi as [Hi%Hlt|Hi%list_elem_of_singleton]; simpl in *; lia.
  - intros t [Ht|Ht%list_elem_of_singleton]%elem_of_app; [by apply (wf_keys _ _ Hwf)|].
    subst t. apply merge_keys_NoDup.
  - intros i ki. simpl. fold id. rewrite elem_of_app, list_elem_of_singleton.
    destruct (decide (id = i)) as [<-|Hne].
    + rewrite lookup_insert_eq. simpl. split.
      * intros [Hin|[= ->]]; [|done]. apply (list_elem_of_fmap_2 fst), Hlt in Hin. simpl in Hin. lia.
      * intros [= ->]. by right.
    + rewrite lookup_insert_ne by done. rewrite <- (wf_tasks _ _ Hwf i ki).
      split; [intros [?|[= ? ?]]; [done|congruence]|by left].
Qed.

Lemma enqueue_jobs st ks job i j :
  job_of (enqueue st ks job) i = Some j ↔
    (i ≠ S (next_id st) ∧ job_of st i = Some j) ∨ (i = S (next_id st) ∧ j = job).
Proof.
  unfold job_of, enqueue; simpl. destruct (decide (S (next_id st) = i)) as [<-|Hne].
  - rewrite lookup_insert_eq. simpl. split; [intros [= ->]; by right|]. intros [[? _]|[_ ->]]; done.
  - rewrite lookup_insert_ne by done. split; [by left|]. intros [[_ ?]|[-> _]]; done.
Qed.

(** Queueing a task changes nothing for the tasks before it. *)
Lemma enqueue_settled live st ks job i :
  wf live st → settled st → i ≠ S (next_id st) →
  started (enqueue st ks job) i ↔ ready (enqueue st ks job) i = true.
Proof.
  intros Hwf Hset Hne. pose proof (enqueue_wf _ _ ks job Hwf) as Hwf1.
  assert (Hi : tasks (enqueue st ks job) !! i = tasks st !! i) by (simpl; by rewrite lookup_insert_ne).
  assert (Hr : ready (enqueue st ks job) i = ready st i).
  { destruct (tasks st !! i) as [t|] eqn:E.
    2: { unfold ready. by rewrite Hi, E. }
    assert (Hin : (i, t_keys t) ∈ live) by (apply (wf_tasks _ _ Hwf); by rewrite E).
    apply list_elem_of_split in Hin as (la & lb & ->).
    apply eq_true_iff_eq. rewrite (ready_char st la i (t_keys t) lb);
      [|by apply wf_ordered with st|apply Hwf|by rewrite E].
    rewrite <- app_assoc in Hwf1. cbn [app] in Hwf1.
    apply (ready_char _ la i (t_keys t) (lb ++ [(S (next_id st), merge_keys ks)])).
    - by eapply wf_ordered.
    - apply Hwf1.
    - by rewrite Hi. }
  rewrite Hr. unfold started. rewrite Hi. apply Hset.
Qed.

(** Taking a waiting task's job starts it and nothing else. *)
Lemma take_job_spec live st id job st' :
  wf live st → job_of st id = Some job → ready st id = true → take_job st id = (Some job, st') →
  (∀ i, i ≠ id → started st i ↔ ready st i = true) →
  wf live st' ∧ settled st' ∧ (∀ i, job_of st' i = if decide (i = id) then None else job_of st i) ∧
  next_id st' = next_id st ∧ size (tasks st') = size (tasks st) ∧ peak_inflight st' = peak_inflight st.
Proof.
  intros Hwf Hj Hr. unfold take_job, job_of in *. destruct (tasks st !! id) as [t|] eqn:Et; [|done].
  simpl in Hj. intros [= _ <-] Hset. set (st' := {| tasks := <[id := _]> (tasks st) |}).
  assert (Hk : ∀ i, t_keys <$> tasks st' !! i = t_keys <$> tasks st !! i).
  { intros i. simpl. destruct (decide (id = i)) as [<-|?]; [by rewrite lookup_insert_eq, Et|by rewrite lookup_insert_ne]. }
  split_and!; try done.
  - destruct Hwf as [W1 W2 W3 W4 W5]. split; try done. intros i ki. rewrite Hk. apply W5.
  - intros i. rewrite (ready_keys_eq st' st i eq_refl (Hk i)). destruct (decide (i = id)) as [->|Hne].
    + rewrite Hr. split; [done|]. intros _. eexists. split; [apply lookup_insert_eq|done].
    + rewrite <- Hset by done. unfold started; simpl. by rewrite lookup_insert_ne.
  - intros i. simpl. case_decide as Hd; [subst; by rewrite lookup_insert_eq|by rewrite lookup_insert_ne].
  - simpl. apply map_size_insert_Some. by rewrite Et.
Qed.

Lemma submit_wf live st ks job :
  wf live st → settled st →
  let id := S (next_id st) in
  let r := submit st ks job in
  wf (live ++ [(id, merge_keys ks)]) r.2 ∧ settled r.2 ∧
  (∀ i j, (i, j) ∈ option_list r.1 ↔ i = id ∧ j = job ∧ job_of r.2 id = None) ∧
  (∀ i j, job_of r.2 i = Some j ↔ (i ≠ id ∧ job_of st i = Some j) ∨
                                   (i = id ∧ j = job ∧ job_of r.2 id ≠ None)) ∧
  next_id r.2 = id ∧ size (tasks r.2) = S (size (tasks st)) ∧
  peak_inflight r.2 = Nat.max (peak_inflight st) (S (size (tasks st))).
Proof.
  intros Hwf Hset id r. pose proof (enqueue_wf _ _ ks job Hwf) as Hwf1.
  pose proof (λ i, enqueue_settled _ _ ks job i Hwf Hset) as Hset1.
  pose proof (enqueue_jobs st ks job) as Hjob1.
  assert (Hsz : size (tasks (enqueue st ks job)) = S (size (tasks st))).
  { apply map_size_insert_None. by eapply next_id_fresh. }
  assert (Hjid : job_of (enqueue st ks job) id = Some job) by (apply Hjob1; by right).
  assert (Hpk : peak_inflight (enqueue st ks job) = Nat.max (peak_inflight st) (S (size (tasks st)))).
  { rewrite <- Hsz. done. }
  unfold r, submit. change (next_id (enqueue st ks job)) with id.
  destruct (ready (enqueue st ks job) id) eqn:Hrdy.
  - destruct (take_job (enqueue st ks job) id) as [start st2] eqn:Et.
    assert (start = Some job) as ->.
    { unfold take_job in Et. unfold job_of in Hjid. destruct (tasks _ !! id); simpl in *; congruence. }
    destruct (take_job_spec _ _ _ _ _ Hwf1 Hjid Hrdy Et Hset1) as (W & S & J & N & Z & P). simpl.
    split_and!; try done; try congruence; [| ].
    + intros i j. rewrite list_elem_of_singleton, J, decide_True by done. naive_solver.
    + intros i j. rewrite !J, (decide_True (P := id = id)) by done. case_decide; rewrite ?Hjob1; naive_solver.
  - simpl. split_and!; try done.
    + intros i. destruct (decide (i = id)) as [->|Hne]; [|by apply Hset1]. rewrite Hrdy. split; [|done].
      intros (t & Ht & Hn). unfold job_of in Hjid. rewrite Ht in Hjid. simpl in Hjid. congruence.
    + intros i j. rewrite Hjid. split; [by intros ?%elem_of_nil|]. by intros (_ & _ & ?).
    + intros i j. rewrite Hjob1, Hjid. naive_solver.
Qed.

(** ** The dispatch thread and the workers *)

(** The scheduler with its live tasks in submission order, every job submitted so far and
    every job handed to the pool so far. *)
Record World := {
  w_st : State;
  w_live : list (nat * keys);
  w_jobs : list (nat * Job);
  w_run : list (nat * Job);
}.

Definition start_world : World := {| w_st := new; w_live := []; w_jobs := []; w_run := [] |}.

Inductive step (max_inflight : nat) : World → World → Prop :=
| step_hold w now st :
    admission max_inflight (w_st w) now = (st, false) →
    step max_inflight w {| w_st := st; w_live := w_live w; w_jobs := w_jobs w; w_run := w_run w |}
| step_submit w now st ks job start st' :
    admission max_inflight (w_st w) now = (st, true) →
    submit st ks job = (start, st') →
    step max_inflight w
      {| w_st := st'; w_live := w_live w ++ [(S (next_id st), merge_keys ks)];
         w_jobs := w_jobs w ++ [(S (next_id st), job)]; w_run := w_run w ++ option_list start |}
| step_complete w l1 id ks l2 :
    w_live w = l1 ++ (id, ks) :: l2 → started (w_st w) id →
    step max_inflight w
      {| w_st := (complete (w_st w) id).1; w_live := l1 ++ l2; w_jobs := w_jobs w;
         w_run := w_run w ++ (complete (w_st w) id).2 |}
| step_quiesce w now budget :
    step max_inflight w
      {| w_st := (quiesce (w_st w) now budget).1; w_live := w_live w; w_jobs := w_jobs w;
         w_run := w_run w |}
| step_resume w :
    step max_inflight w
      {| w_st := resume (w_st w); w_live := w_live w; w_jobs := w_jobs w; w_run := w_run w |}.

Definition reachable (max_inflight : nat) : World → Prop := star (step max_inflight) start_world.

Record inv (max_inflight : nat) (w : World) : Prop := {
  i_wf : wf (w_live w) (w_st w);
  i_settled : settled (w_st w);
  i_jobs : ∀ id j, (id, j) ∈ w_jobs w ↔ (id, j) ∈ w_run w ∨ job_of (w_st w) id = Some j;
  i_once : NoDup (w_run w).*1;
  i_apart : ∀ id, id ∈ (w_run w).*1 → job_of (w_st w) id = None ∧ id ≤ next_id (w_st w);
  i_size : size (tasks (w_st w)) ≤ max_inflight ∧ peak_inflight (w_st w) ≤ max_inflight;
}.

(** States that differ only in counters and the pause are alike for the invariant. *)
Lemma inv_same mx w st :
  next_id st = next_id (w_st w) → queues st = queues (w_st w) → tasks st = tasks (w_st w) →
  peak_inflight st = peak_inflight (w_st w) → inv mx w →
  inv mx {| w_st := st; w_live := w_live w; w_jobs := w_jobs w; w_run := w_run w |}.
Proof.
  destruct w as [w0 lv jb rn]. destruct w0, st; simpl. intros -> -> -> -> [[] ? ? ? ? ?].
  by split.
Qed.

Lemma admission_same mx st now st' b :
  admission mx st now = (st', b) →
  next_id st' = next_id st ∧ queues st' = queues st ∧ tasks st' = tasks st ∧
  peak_inflight st' = peak_inflight st ∧ (b = true → size (tasks st) < mx).
Proof.
  unfold admission. intros Ha. case_match; simplify_eq; [done|]. simpl. split_and!; try done.
  intros ?%negb_true_iff%Nat.leb_gt. lia.
Qed.

Lemma inv_submit mx w st ks job start st' :
  inv mx {| w_st := st; w_live := w_live w; w_jobs := w_jobs w; w_run := w_run w |} →
  size (tasks st) < mx → submit st ks job = (start, st') →
  inv mx {| w_st := st'; w_live := w_live w ++ [(S (next_id st), merge_keys ks)];
            w_jobs := w_jobs w ++ [(S (next_id st), job)]; w_run := w_run w ++ option_list start |}.
Proof.
  intros [Hwf Hset Hj Ho Hap Hsz] Hlt Hs. simpl in *.
  destruct (submit_wf _ _ ks job Hwf Hset) as (S1 & S2 & S3 & S4 & S5 & S6 & S7).
  rewrite Hs in *. simpl in *.
  assert (Hrun : ∀ i, i ∈ (option_list start).*1 → i = S (next_id st) ∧ job_of st' i = None).
  { intros i ([i' j'] & -> & (-> & -> & ?)%S3)%list_elem_of_fmap. done. }
  assert (Hnew : S (next_id st) ∉ (w_run w).*1) by (intros [_ ?]%Hap; lia).
  split; simpl; try done.
  - intros i j. rewrite !elem_of_app, list_elem_of_singleton, Hj, S3, S4.
    destruct (decide (i = S (next_id st))) as [->|Hne].
    + assert (job_of st (S (next_id st)) = None) as ->.
      { destruct (job_of st _) as [j'|] eqn:E; [|done]. exfalso.
        unfold job_of in E. apply bind_Some in E as (t & Ht & _).
        assert (Hin : (S (next_id st), t_keys t) ∈ w_live w) by (apply (wf_tasks _ _ Hwf); by rewrite Ht).
        apply (list_elem_of_fmap_2 fst), (wf_bound _ _ Hwf) in Hin. simpl in Hin. lia. }
      destruct (job_of st' (S (next_id st))); naive_solver.
    + naive_solver.
  - rewrite fmap_app. apply NoDup_app. split; [done|]. split.
    + intros i Hi Hi'%Hrun. destruct Hi' as [-> _]. done.
    + destruct start; simpl; [apply NoDup_singleton|constructor].
  - intros i. rewrite fmap_app. intros [Hi|Hi]%elem_of_app.
    + destruct (Hap i Hi) as [Hn Hle]. rewrite S5. split; [|lia].
      destruct (job_of st' i) as [j|] eqn:E; [|done]. apply S4 in E. naive_solver lia.
    + rewrite S5. apply Hrun in Hi as [-> ?]. done.
  - lia.
Qed.

Lemma inv_complete mx w l1 id ks l2 :
  inv mx w → w_live w = l1 ++ (id, ks) :: l2 → started (w_st w) id →
  inv mx {| w_st := (complete (w_st w) id).1; w_live := l1 ++ l2; w_jobs := w_jobs w;
            w_run := w_run w ++ (complete (w_st w) id).2 |}.
Proof.
  intros [Hwf Hset Hj Ho Hap Hsz] Hl Hst. rewrite Hl in Hwf.
  pose proof Hst as [_ Hnone]%started_job.
  destruct (complete_wf _ _ _ _ _ Hwf Hset Hst) as (S1 & S2 & S3 & S4 & S5 & S6 & S7).
  split; simpl; try done.
  - intros i j. rewrite elem_of_app, Hj, S3.
    destruct (decide (i = id)) as [->|Hne].
    + rewrite Hnone. split; [naive_solver|].
      intros [[?|(? & _)]|Hc%S5]; [by left|done|naive_solver].
    + split.
      * intros [?|Hji]; [by left; left|].
        destruct (job_of (complete (w_st w) id).1 i) as [j'|] eqn:E; [|by left; right].
        right. apply S5 in E as [E _]. congruence.
      * intros [[?|(_ & ? & _)]|[? _]%S5]; auto.
  - rewrite fmap_app. apply NoDup_app. split; [done|]. split; [|done].
    intros i [Hi _]%Hap ([i' j'] & -> & (_ & Hc & _)%S3)%list_elem_of_fmap. simpl in *. congruence.
  - intros i. rewrite fmap_app. rewrite S6. intros [Hi|Hi]%elem_of_app.
    + destruct (Hap i Hi) as [Hn Hle]. split; [|done].
      destruct (job_of (complete (w_st w) id).1 i) as [j|] eqn:E; [|done].
      apply S5 in E as [E _]. congruence.
    + apply list_elem_of_fmap in Hi as ([i' j'] & -> & (Hne & Hji & Hn)%S3). split; [done|].
      simpl in *. unfold job_of in Hji. apply bind_Some in Hji as (t & Ht & _).
      apply (wf_bound _ _ Hwf). apply list_elem_of_fmap. exists (i', t_keys t).
      split; [done|]. apply (wf_tasks _ _ Hwf). by rewrite Ht.
  - destruct Hsz as [Hsz Hpk]. split; [lia|].
    replace (peak_inflight (complete (w_st w) id).1) with (peak_inflight (w_st w)); [done|].
    symmetry. apply complete_peak.
Qed.

Lemma inv_step mx w w' : inv mx w → step mx w w' → inv mx w'.
Proof.
  intros Hi Hs. destruct Hs as [w now st Ha|w now st ks job start st' Ha Hsub|w l1 id ks l2 Hl Hst
                               |w now budget|w].
  - destruct (admission_same _ _ _ _ _ Ha) as (? & ? & ? & ? & _). by apply inv_same.
  - destruct (admission_same _ _ _ _ _ Ha) as (? & ? & Ht & ? & Hlt).
    eapply inv_submit; [by apply inv_same| |done]. rewrite Ht. by apply Hlt.
  - by eapply inv_complete.
  - by apply inv_same.
  - by apply inv_same.
Qed.

Lemma reachable_inv mx w : reachable mx w → inv mx w.
Proof.
  intros Hr. eapply star_invariant; [apply inv_step|exact Hr|].
  split; simpl.
  - split; simpl; [apply rep_nil|constructor|by intros i ?%elem_of_nil|by intros t ?%elem_of_nil|].
    intros id ks. simpl. by rewrite lookup_empty, elem_of_nil.
  - intros id. unfold started, ready. simpl. rewrite lookup_empty.
    split; [by intros (? & ? & _)|done].
  - intros id j. rewrite elem_of_nil. unfold job_of. simpl. rewrite lookup_empty.
    split; [done|by intros []].
  - constructor.
  - by intros id ?%elem_of_nil.
  - rewrite map_size_empty. lia.
Qed.

(** Started exactly when no earlier live task conflicts, for any state with the invariant. *)
Lemma inv_started_iff mx w la id ks lb :
  inv mx w → w_live w = la ++ (id, ks) :: lb →
  started (w_st w) id ↔ ∀ t, t ∈ la → ¬ conflict t.2 ks.
Proof.
  intros [Hwf Hset _ _ _ _] Hl. rewrite (Hset id). rewrite Hl in Hwf.
  apply (ready_char _ la id ks lb); [by apply wf_ordered with (w_st w)|apply Hwf|].
  apply (wf_tasks _ _ Hwf). set_solver.
Qed.

(** A live task keeps every later one it conflicts with from starting. *)
Lemma inv_blocked mx w a ka b kb :
  inv mx w → (a, ka) ∈ w_live w → (b, kb) ∈ w_live w → a < b → conflict ka kb →
  ¬ started (w_st w) b.
Proof.
  intros Hi Ha (la & lb & Hl)%list_elem_of_split Hlt Hc Hst.
  pose proof (proj1 (inv_started_iff mx w la b kb lb Hi Hl) Hst (a, ka)) as Hno.
  rewrite Hl in Ha. apply elem_of_app in Ha as [Ha|[[= -> ->]|Ha]%elem_of_cons]; [by apply Hno|lia|].
  pose proof (wf_inc _ _ (i_wf _ _ Hi)) as Hinc. rewrite Hl, fmap_app, fmap_cons in Hinc.
  apply increasing_app in Hinc as (_ & [_ Hf]%StronglySorted_inv & _).
  eapply Forall_forall in Hf; [|by apply (list_elem_of_fmap_2 fst) in Ha]. simpl in Hf. lia.
Qed.

Lemma started_live mx w id : inv mx w → started (w_st w) id → ∃ ks, (id, ks) ∈ w_live w.
Proof.
  intros Hi (t & Ht & _). exists (t_keys t). apply (wf_tasks _ _ (i_wf _ _ Hi)). by rewrite Ht.
Qed.

(** The keys some live task is queued on are the busy ones. *)
Lemma busy_keys_live mx w id ks k :
  inv mx w → (id, ks) ∈ w_live w → k ∈ ks.*1 → k ∈ busy_keys (w_st w).
Proof.
  intros Hi Hin ([k' m] & -> & Hk)%list_elem_of_fmap. apply elem_of_dom.
  rewrite (wf_rep _ _ (i_wf _ _ Hi)).
  assert (Hq : (id, m) ∈ queue_of k' (w_live w)).
  { apply elem_of_queue_of. exists ks. split; [done|]. apply mode_of_elem; [|done].
    by apply (wf_keys _ _ (i_wf _ _ Hi) (id, ks)). }
  simpl. destruct (queue_of k' (w_live w)); [by apply elem_of_nil in Hq|by eexists].
Qed.

(** C23: The scheduler runs exactly what may run: in every reachable state a live task has
    been started if and only if no live task submitted before it conflicts with it on a key.
    So conflicting requests run one at a time and in arrival order, and [complete] never
    misses a task that became runnable although it only inspects queue heads (in
    particular the oldest live task always runs: no deadlock). *)
Theorem sched_started_iff mx w la id ks lb :
  reachable mx w → w_live w = la ++ (id, ks) :: lb →
  started (w_st w) id ↔ ∀ t, t ∈ la → ¬ conflict t.2 ks.
Proof. intros Hi%reachable_inv Hl. exact (inv_started_iff mx w la id ks lb Hi Hl). Qed.

(** Every submitted job is handed to the pool at most once and only if it was
    submitted, and when no task is live every submitted job has been handed over. *)
Theorem sched_jobs_once mx w :
  reachable mx w →
  NoDup (w_run w).*1 ∧ (∀ x, x ∈ w_run w → x ∈ w_jobs w) ∧
  (w_live w = [] → ∀ x, x ∈ w_jobs w → x ∈ w_run w).
Proof.
  intros [Hwf _ Hj Ho _ _]%reachable_inv. split_and!; [done| |].
  - intros [id j] Hin. apply Hj. by left.
  - intros Hl [id j] [?|Hw]%Hj; [done|]. exfalso.
    apply bind_Some in Hw as (t & Ht & _).
    assert (Hin : (id, t_keys t) ∈ w_live w) by (apply (wf_tasks _ _ Hwf); by rewrite Ht).
    rewrite Hl in Hin. by apply elem_of_nil in Hin.
Qed.

(** At most [max_inflight] tasks are ever live, so a runnable task always fits the
    pool's queue, which is sized to it. *)
Theorem sched_bounded mx w :
  reachable mx w → size (tasks (w_st w)) ≤ mx ∧ peak_inflight (w_st w) ≤ mx ∧
  (w_live w = [] → queues (w_st w) = ∅).
Proof.
  intros [Hwf _ _ _ _ [? ?]]%reachable_inv. split_and!; [done|done|].
  intros Hl. apply map_eq. intros k. rewrite (wf_rep _ _ Hwf k), Hl. by rewrite lookup_empty.
Qed.
End sched.

(** ** Witnesses: a reader and two writers on one inode. *)

Definition ex_s1 := submit (K := nat) (Job := string) new [(1, Shared)] "read"%string.
Definition ex_s2 := submit ex_s1.2 [(1, Exclusive); (2, Shared)] "write"%string.
Definition ex_w1 : World :=
  {| w_st := ex_s1.2; w_live := [(1, [(1, Shared)])]; w_jobs := [(1, "read"%string)];
     w_run := [(1, "read"%string)] |}.
Definition ex_w : World :=
  {| w_st := ex_s2.2; w_live := [(1, [(1, Shared)]); (2, [(1, Exclusive); (2, Shared)])];
     w_jobs := [(1, "read"%string); (2, "write"%string)]; w_run := [(1, "read"%string)] |}.

Lemma ex_w_reachable : reachable 2 ex_w.
Proof.
  eapply star_snoc; [eapply star_snoc; [apply star_refl|]|].
  - exact (step_submit 2 start_world 0 new [(1, Shared)] "read"%string ex_s1.1 ex_s1.2
             eq_refl eq_refl : step 2 start_world ex_w1).
  - exact (step_submit 2 ex_w1 0 ex_s1.2 [(1, Exclusive); (2, Shared)] "write"%string ex_s2.1 ex_s2.2
             eq_refl eq_refl : step 2 ex_w1 ex_w).
Defined.

Lemma sched_started_iff_witness : started (w_st ex_w) 1.
Proof.
  apply (sched_started_iff 2 ex_w [] 1 [(1, Shared)] [(2, [(1, Exclusive); (2, Shared)])]
           ex_w_reachable eq_refl).
  by intros t ?%elem_of_nil.
Defined.

Lemma sched_jobs_once_witness : NoDup (w_run ex_w).*1.
Proof. exact (proj1 (sched_jobs_once 2 ex_w ex_w_reachable)). Defined.

Lemma sched_bounded_witness : size (tasks (w_st ex_w)) ≤ 2.
Proof. exact (proj1 (sched_bounded 2 ex_w ex_w_reachable)). Defined.
