(* ===== verification/Dispatch.v ===== *)
(** [fuse_dispatch.rs]: what each FUSE request is ordered on, and the dispatch thread that
    queues it.

    Each request names inodes and file handles ([Key]) with a mode, read off the in-memory
    cache; a folder rename also orders the requests under the folder, those in flight before
    it and those that arrive until it has run.  [dstep] composes the dispatch thread with the
    scheduler of [FuseSched] and with request bodies that change the cache in any way. *)
From S2P Require Import Prelude Paths Backend FsCache KeyedFifo FuseSched.

(* fuse_dispatch.rs:42-45 Key *)
Inductive Key := Ino (ino : nat) | Fh (fh : nat).
#[export] Instance Key_eq_dec : EqDecision Key.
Proof. solve_decision. Defined.
#[export] Instance Key_countable : Countable Key.
Proof.
  refine (inj_countable' (λ k, match k with Ino i => inl i | Fh f => inr f end)
                         (λ s, match s with inl i => Ino i | inr f => Fh f end) _).
  by intros [].
Defined.

Abbreviation Keys := (list (Key * Mode)).

(** The requests of [impl Filesystem for SchedFs], with the arguments their keys depend on.
    A name is one path component: the kernel never sends a separator in it. *)
(* fuse_dispatch.rs:180-346 SchedFs *)
Inductive Request :=
| Lookup (parent : nat) (name : string)
| Getattr (ino : nat)
| Getxattr (ino : nat)
| Listxattr (ino : nat)
| Open (ino : nat) (flags : Z)
| Read (ino fh : nat)
| Release (ino : nat)
| Opendir (ino : nat)
| Releasedir (ino : nat)
| Readdir (ino : nat)
| Readdirplus (ino : nat)
| Setattr (ino : nat)
| Write (ino : nat)
| Flush (ino : nat)
| Fsync (ino : nat)
| Create (parent : nat) (name : string)
| Mkdir (parent : nat) (name : string)
| Unlink (parent : nat) (name : string)
| Rmdir (parent : nat) (name : string)
| Rename (parent : nat) (name : string) (newparent : nat) (newname : string).

(* fuse_dispatch.rs:63-68 Move *)
Record Move := { m_id : nat; m_ino : nat; m_from : PathBuf; m_to : PathBuf }.

(* fuse_dispatch.rs:71-74 Moves *)
Record Moves := { mv_next_id : nat; mv_live : list Move }.

(** The entry of a rename is pushed before the rename is queued, *)
(* fuse_dispatch.rs:371-377 SchedFs::rename *)
Definition register (tree : option (nat * PathBuf * PathBuf)) (ms : Moves) : option Move * Moves :=
  match tree with
  | None => (None, ms)
  | Some (ino, from, to) =>
      let m := {| m_id := S (mv_next_id ms); m_ino := ino; m_from := from; m_to := to |} in
      (Some m, {| mv_next_id := m_id m; mv_live := mv_live ms ++ [m] |})
  end.

(** and taken off when its job ends. *)
(* fuse_dispatch.rs:83-85 MoveDone::drop *)
Definition move_done (m : option Move) (ms : Moves) : Moves :=
  match m with
  | None => ms
  | Some m => {| mv_next_id := mv_next_id ms;
                 mv_live := List.filter (λ m', negb (m_id m' =? m_id m)) (mv_live ms) |}
  end.

Section keys.
Context (c : FsCache).

(* fuse_dispatch.rs:145-148 SchedFs::child *)
Definition child (parent : nat) (name : string) : option nat :=
  get_path c parent ≫= λ p, get_inode c (join p [name]).

(* fuse_dispatch.rs:151-155 SchedFs::entry_keys *)
Definition entry_keys (parent : nat) (name : string) : Keys :=
  (Ino parent, Exclusive) :: option_list ((λ i, (Ino i, Exclusive)) <$> child parent name).

(** Looking a name up in a folder that has a listing shares the folder; reading the listing
    marks it used. *)
(* fuse_dispatch.rs:165-178 SchedFs::lookup *)
Definition lookup_keys (parent : nat) (name : string) : Keys * FsCache :=
  let '(listed, c') := match get_path c parent with
                       | None => (true, c)
                       | Some p => let '(l, c') := get_cached_dir_readonly c p in
                                   (match l with Some _ => true | None => false end, c')
                       end in
  ((Ino parent, if listed then Shared else Exclusive)
     :: option_list ((λ i, (Ino i, Shared)) <$> child parent name), c').

(** [O_WRONLY | O_RDWR | O_APPEND | O_TRUNC] of Linux. *)
Definition O_WRONLY : Z := 1.
Definition O_RDWR : Z := 2.
Definition O_TRUNC : Z := 512.
Definition O_APPEND : Z := 1024.
(* fuse_dispatch.rs:197-197 SchedFs::open *)
Definition open_writes (flags : Z) : bool :=
  negb (Z.land flags (Z.lor (Z.lor (Z.lor O_WRONLY O_RDWR) O_APPEND) O_TRUNC) =? 0)%Z.

(** The moved folder, where it is and where it goes, when all three are known. *)
(* fuse_dispatch.rs:349-369 SchedFs::rename *)
Definition rename_tree (parent : nat) (name : string) (newparent : nat) (newname : string) :
    option (nat * PathBuf * PathBuf) :=
  p ← get_path c parent; q ← get_path c newparent;
  let from := join p [name] in let to := join q [newname] in
  src ← get_inode c from; Some (src, from, to).

(** The key of a request already queued inside the moved folder. *)
(* fuse_dispatch.rs:358-363 SchedFs::rename *)
Definition busy_under (src : nat) (from : PathBuf) (k : Key) : bool :=
  match k with
  | Ino i => negb (i =? src) &&
             match get_path c i with Some p => starts_with p from | None => false end
  | Fh _ => false
  end.

(* fuse_dispatch.rs:347-364 SchedFs::rename *)
Definition rename_keys (busy : list Key) (parent : nat) (name : string) (newparent : nat)
    (newname : string) : Keys :=
  let from := (λ p, join p [name]) <$> get_path c parent in
  let to := (λ p, join p [newname]) <$> get_path c newparent in
  let src := from ≫= get_inode c in
  [(Ino parent, Exclusive); (Ino newparent, Exclusive)]
    ++ option_list ((λ i, (Ino i, Exclusive)) <$> src)
    ++ option_list ((λ i, (Ino i, Exclusive)) <$> (to ≫= get_inode c))
    ++ match src, from with
       | Some src, Some from => (λ k, (k, Exclusive)) <$> List.filter (busy_under src from) busy
       | _, _ => []
       end.

(** What a request names; a rename looks at the keys in use as well. *)
(* fuse_dispatch.rs:180-335 SchedFs *)
Definition request_keys (busy : list Key) (r : Request) : Keys * FsCache :=
  match r with
  | Lookup parent name => lookup_keys parent name
  | Getattr ino | Getxattr ino | Listxattr ino
  | Opendir ino | Releasedir ino | Readdir ino | Readdirplus ino => ([(Ino ino, Shared)], c)
  | Open ino flags => ([(Ino ino, if open_writes flags then Exclusive else Shared)], c)
  | Read ino fh => ([(Ino ino, Shared); (Fh fh, Exclusive)], c)
  | Release ino | Setattr ino | Write ino | Flush ino | Fsync ino => ([(Ino ino, Exclusive)], c)
  | Create parent name | Mkdir parent name | Unlink parent name | Rmdir parent name =>
      (entry_keys parent name, c)
  | Rename parent name newparent newname => (rename_keys busy parent name newparent newname, c)
  end.

Definition request_tree (r : Request) : option (nat * PathBuf * PathBuf) :=
  match r with
  | Rename parent name newparent newname => rename_tree parent name newparent newname
  | _ => None
  end.

(** Every key on an inode that is inside a folder being moved, before or after the move,
    is queued behind the folder too. *)
Definition under_move (m : Move) (k : Key) : bool :=
  match k with
  | Ino i => match get_path c i with
             | Some p => starts_with p (m_from m) || starts_with p (m_to m)
             | None => false
             end
  | Fh _ => false
  end.

(* fuse_dispatch.rs:125-142 SchedFs::order_under_moves *)
Definition order_under_moves (live : list Move) (ks : Keys) : Keys :=
  ks ++ (km ← ks; (λ m, (Ino (m_ino m), Shared)) <$> List.filter (λ m, under_move m km.1) live).
End keys.

(** ** The dispatch thread *)

(** A queued job: the request, its move, and (history, for the statements below) the busy
    keys and live tasks it saw, and the caches and moves it was named and ordered against. *)
(* fuse_dispatch.rs:119-123 SchedFs::queue *)
Record Job := {
  j_req : Request;
  j_ahead : list (nat * Keys);
  j_busy : list Key;
  j_named : FsCache;
  j_move : option Move;
  j_moves : list Move;
  j_ordered : FsCache;
}.

Definition named_keys (j : Job) : Keys := (request_keys (j_named j) (j_busy j) (j_req j)).1.
Definition job_keys (j : Job) : Keys := order_under_moves (j_ordered j) (j_moves j) (named_keys j).

(** Where the dispatch thread is with the request it holds: it has read the keys in use, then
    named the request's keys and registered its move, then ordered it under the moves; last
    it queues it, once the scheduler has room. *)
Inductive Phase :=
| Idle
| Asked (r : Request) (ahead : list (nat * Keys)) (busy : list Key)
| Named (j : Job)
| Ordered (j : Job).

Record DState := {
  cache : FsCache;
  sched : World (K := Key) (Job := Job);
  moves : Moves;
  phase : Phase;
}.

Definition with_moves_ordered (j : Job) (ms : list Move) (c : FsCache) : Job :=
  {| j_req := j_req j; j_ahead := j_ahead j; j_busy := j_busy j; j_named := j_named j;
     j_move := j_move j; j_moves := ms; j_ordered := c |}.

Inductive dstep (max_inflight : nat) : DState → DState → Prop :=
| d_ask s r :
    phase s = Idle →
    dstep max_inflight s
      {| cache := cache s; sched := sched s; moves := moves s;
         phase := Asked r (w_live (sched s)) (elements (busy_keys (w_st (sched s)))) |}
| d_name s r ahead busy :
    phase s = Asked r ahead busy →
    dstep max_inflight s
      (let '(mv, ms) := register (request_tree (cache s) r) (moves s) in
       {| cache := (request_keys (cache s) busy r).2; sched := sched s; moves := ms;
          phase := Named {| j_req := r; j_ahead := ahead; j_busy := busy; j_named := cache s;
                            j_move := mv; j_moves := []; j_ordered := cache s |} |})
| d_order s j :
    phase s = Named j →
    dstep max_inflight s
      {| cache := cache s; sched := sched s; moves := moves s;
         phase := Ordered (with_moves_ordered j (mv_live (moves s)) (cache s)) |}
| d_hold s j now st :
    phase s = Ordered j →
    admission max_inflight (w_st (sched s)) now = (st, false) →
    dstep max_inflight s
      {| cache := cache s;
         sched := {| w_st := st; w_live := w_live (sched s); w_jobs := w_jobs (sched s);
                     w_run := w_run (sched s) |};
         moves := moves s; phase := phase s |}
| d_queue s j now st start st' :
    phase s = Ordered j →
    admission max_inflight (w_st (sched s)) now = (st, true) →
    submit st (job_keys j) j = (start, st') →
    dstep max_inflight s
      {| cache := cache s;
         sched := {| w_st := st'; w_live := w_live (sched s) ++ [(S (next_id st), merge_keys (job_keys j))];
                     w_jobs := w_jobs (sched s) ++ [(S (next_id st), j)];
                     w_run := w_run (sched s) ++ option_list start |};
         moves := moves s; phase := Idle |}
(** The body of a started request runs for as long as it likes and changes the cache. *)
| d_body s c :
    dstep max_inflight s {| cache := c; sched := sched s; moves := moves s; phase := phase s |}
| d_body_done s id j :
    (id, j) ∈ w_jobs (sched s) → started (w_st (sched s)) id →
    dstep max_inflight s
      {| cache := cache s; sched := sched s; moves := move_done (j_move j) (moves s); phase := phase s |}
| d_complete s l1 id ks l2 :
    w_live (sched s) = l1 ++ (id, ks) :: l2 → started (w_st (sched s)) id →
    dstep max_inflight s
      {| cache := cache s;
         sched := {| w_st := (complete (w_st (sched s)) id).1; w_live := l1 ++ l2;
                     w_jobs := w_jobs (sched s);
                     w_run := w_run (sched s) ++ (complete (w_st (sched s)) id).2 |};
         moves := moves s; phase := phase s |}
| d_handoff s now budget b :
    dstep max_inflight s
      {| cache := cache s;
         sched := {| w_st := if b : bool then (quiesce (w_st (sched s)) now budget).1
                             else resume (w_st (sched s));
                     w_live := w_live (sched s); w_jobs := w_jobs (sched s); w_run := w_run (sched s) |};
         moves := moves s; phase := phase s |}.

Definition dstart (c : FsCache) : DState :=
  {| cache := c; sched := start_world; moves := {| mv_next_id := 0; mv_live := [] |}; phase := Idle |}.

Definition dreachable (max_inflight : nat) (s : DState) : Prop :=
  ∃ c, star (dstep max_inflight) (dstart c) s.

(** ** The invariant *)

Abbreviation jobs s := (w_jobs (sched s)).
Abbreviation live s := (w_live (sched s)).
Abbreviation running s := (started (w_st (sched s))).

(** What the dispatch thread saw when it read the busy keys: tasks queued before. *)
Definition ahead_ok (js : list (nat * Job)) (last : nat) (ahead : list (nat * Keys)) (busy : list Key) : Prop :=
  ∀ t ks, (t, ks) ∈ ahead →
    t ≤ last ∧ (∀ k, k ∈ ks.*1 → k ∈ busy) ∧ ∃ jt, (t, jt) ∈ js ∧ ks = merge_keys (job_keys jt).

(** What holds of a job from the moment it is named. *)
Record job_ok (js : list (nat * Job)) (last : nat) (j : Job) : Prop := {
  jk_tree : (λ m, (m_ino m, m_from m, m_to m)) <$> j_move j = request_tree (j_named j) (j_req j);
  jk_ahead : ahead_ok js last (j_ahead j) (j_busy j);
}.

Lemma job_ok_mono js js' last j : js ⊆ js' → job_ok js last j → job_ok js' last j.
Proof.
  intros Hsub [? Ha]. split; [done|]. intros t ks Hin.
  destruct (Ha t ks Hin) as (? & ? & jt & ? & ?). split_and!; [done|done|]. exists jt. auto.
Qed.

Definition seen_before (s : DState) (last : nat) (m : Move) : Prop :=
  ∃ id j, (id, j) ∈ jobs s ∧ id ≤ last ∧ j_move j = Some m.

Definition pending_move (s : DState) : option Move :=
  match phase s with Named j | Ordered j => j_move j | _ => None end.

Record dinv (mx : nat) (s : DState) : Prop := {
  di_sched : inv mx (sched s);
  di_ids : ∀ id j, (id, j) ∈ jobs s → id ≤ next_id (w_st (sched s));
  di_keys : ∀ id j ks, (id, j) ∈ jobs s → (id, ks) ∈ live s → ks = merge_keys (job_keys j);
  di_live : ∀ id ks, (id, ks) ∈ live s → ∃ j, (id, j) ∈ jobs s;
  di_jobs : ∀ id j, (id, j) ∈ jobs s →
    job_ok (jobs s) (pred id) j ∧ 0 < id ∧
    ∀ m, m ∈ j_moves j → j_move j = Some m ∨ seen_before s (pred id) m;
  di_moves : ∀ m, m ∈ mv_live (moves s) →
    seen_before s (next_id (w_st (sched s))) m ∨ pending_move s = Some m;
  di_phase : match phase s with
    | Idle => True
    | Asked r ahead busy => ahead_ok (jobs s) (next_id (w_st (sched s))) ahead busy
    | Named j => job_ok (jobs s) (next_id (w_st (sched s))) j
    | Ordered j => job_ok (jobs s) (next_id (w_st (sched s))) j ∧
        ∀ m, m ∈ j_moves j → j_move j = Some m ∨ seen_before s (next_id (w_st (sched s))) m
    end;
}.

(** A step of the scheduler that takes or adds no task keeps the rest of the invariant. *)
Lemma dinv_sched mx s w c ms :
  dinv mx s → next_id (w_st w) = next_id (w_st (sched s)) → w_live w ⊆ live s → w_jobs w = jobs s →
  (∀ m, m ∈ mv_live ms → m ∈ mv_live (moves s)) → inv mx w →
  dinv mx {| cache := c; sched := w; moves := ms; phase := phase s |}.
Proof.
  intros [] Hn Hsub Hj Hms Hi. unfold seen_before, pending_move in *.
  split; unfold seen_before, pending_move; simpl; rewrite ?Hn, ?Hj; try done.
  - intros id j ks Hin Hl. eauto.
  - intros id ks Hl. eauto.
  - intros m Hm%Hms. eauto.
Qed.

Lemma dinv_name mx s r ahead busy :
  dinv mx s → phase s = Asked r ahead busy →
  dinv mx (let '(mv, ms) := register (request_tree (cache s) r) (moves s) in
       {| cache := (request_keys (cache s) busy r).2; sched := sched s; moves := ms;
          phase := Named {| j_req := r; j_ahead := ahead; j_busy := busy; j_named := cache s;
                            j_move := mv; j_moves := []; j_ordered := cache s |} |}).
Proof.
  intros [] Hp. rewrite Hp in *.
  destruct (request_tree (cache s) r) as [[[ino from] to]|] eqn:Ht; simpl.
  - split; simpl; try done.
    intros m [Hm|Hm%list_elem_of_singleton]%elem_of_app; [|right; by subst m].
    destruct (di_moves0 m Hm) as [?|Hpm]; [by left|]. unfold pending_move in Hpm. by rewrite Hp in Hpm.
  - split; simpl; try done.
    intros m Hm. destruct (di_moves0 m Hm) as [?|Hpm]; [by left|].
    unfold pending_move in Hpm. by rewrite Hp in Hpm.
Qed.

Lemma dinv_order mx s j :
  dinv mx s → phase s = Named j →
  dinv mx {| cache := cache s; sched := sched s; moves := moves s;
             phase := Ordered (with_moves_ordered j (mv_live (moves s)) (cache s)) |}.
Proof.
  intros [] Hp. rewrite Hp in *. unfold pending_move in *. rewrite Hp in *.
  split; simpl; try done. split; [by destruct di_phase0|].
  intros m [?|?]%di_moves0; [by right|by left].
Qed.

Lemma dinv_queue mx s j now st start st' :
  dinv mx s → phase s = Ordered j →
  admission mx (w_st (sched s)) now = (st, true) → submit st (job_keys j) j = (start, st') →
  dinv mx
    {| cache := cache s;
       sched := {| w_st := st'; w_live := live s ++ [(S (next_id st), merge_keys (job_keys j))];
                   w_jobs := jobs s ++ [(S (next_id st), j)];
                   w_run := w_run (sched s) ++ option_list start |};
       moves := moves s; phase := Idle |}.
Proof.
  intros [] Hp Ha Hs. pose proof (step_submit mx (sched s) now st _ j start st' Ha Hs) as Hstep.
  destruct (admission_same _ _ _ _ _ Ha) as (Hn & _ & _ & _ & _).
  assert (Hn' : next_id st' = S (next_id st)).
  { unfold submit in Hs. destruct (ready _ _); [|by simplify_eq].
    unfold take_job in Hs. simpl in Hs. rewrite lookup_insert_eq in Hs. by simplify_eq. }
  rewrite Hp in *. unfold pending_move in *. rewrite Hp in *. destruct di_phase0 as [Hok Hmv].
  assert (Hseen : ∀ last m, seen_before s last m → ∃ id j', (id, j') ∈ jobs s ++ [(S (next_id st), j)]
            ∧ id ≤ last ∧ j_move j' = Some m).
  { intros last m (id & j' & ? & ? & ?). exists id, j'. set_solver. }
  split; simpl; try done.
  - by eapply inv_step.
  - intros id j' [Hin%di_ids0|[= -> ->]%list_elem_of_singleton]%elem_of_app; lia.
  - intros id j' ks [Hj|[= -> ->]%list_elem_of_singleton]%elem_of_app
      [Hl|Heq%list_elem_of_singleton]%elem_of_app; simplify_eq; try done; [by eapply di_keys0| |].
    + apply di_ids0 in Hj. lia.
    + destruct (di_live0 _ _ Hl) as [j' Hj%di_ids0]. lia.
  - intros id ks [[j' ?]%di_live0|[= -> _]%list_elem_of_singleton]%elem_of_app; [|exists j; set_solver].
    exists j'. set_solver.
  - intros id j' [Hj|[= -> ->]%list_elem_of_singleton]%elem_of_app.
    + destruct (di_jobs0 _ _ Hj) as (? & ? & Hm). split_and!; [eapply job_ok_mono; [|done]; set_solver|done|].
      intros m [?|Hb]%Hm; [by left|right; by apply Hseen].
    + simpl. rewrite <- Hn in Hok, Hmv. split_and!; [eapply job_ok_mono; [|done]; set_solver|lia|].
      intros m [?|Hb]%Hmv; [by left|right; by apply Hseen].
  - intros m Hm. left. destruct (di_moves0 m Hm) as [(id & j' & Hj & Hle & Hmj)|Hpm].
    + exists id, j'. simpl. split_and!; [set_solver|lia|done].
    + exists (S (next_id st)), j. simpl. split_and!; [set_solver|lia|done].
Qed.

Lemma dinv_step mx s s' : dinv mx s → dstep mx s s' → dinv mx s'.
Proof.
  intros Hi Hs. pose proof (di_sched _ _ Hi) as Hsc.
  destruct Hs as [s r Hp|s r ahead busy Hp|s j Hp|s j now st Hp Ha|s j now st start st' Hp Ha Hs
                 |s c|s id j Hj Hr|s l1 id ks l2 Hl Hr|s now budget b].
  - destruct Hi. unfold pending_move in *. rewrite Hp in *. split; simpl; try done.
    intros t ks Hin. destruct (di_live0 _ _ Hin) as [j Hj]. split_and!; [by apply di_ids0 in Hj| |].
    + intros k Hk. apply elem_of_elements. by eapply busy_keys_live.
    + exists j. split; [done|]. by eapply di_keys0.
  - by apply dinv_name.
  - by apply dinv_order.
  - destruct (admission_same _ _ _ _ _ Ha) as (? & ? & Ht & ? & Hlt).
    apply dinv_sched; try done. by apply inv_same.
  - by eapply dinv_queue.
  - by apply dinv_sched.
  - apply dinv_sched; try done. intros m. destruct (j_move j); simpl; [|done]. by intros [? _]%elem_of_filterb.
  - pose proof (step_complete mx _ _ _ _ _ Hl Hr) as Hstep.
    apply dinv_sched; try done; [apply complete_next|rewrite Hl; set_solver|by eapply inv_step].
  - apply dinv_sched; try done; destruct b; try done; by apply inv_same.
Qed.

Lemma dreachable_dinv mx s : dreachable mx s → dinv mx s.
Proof.
  intros [c Hr]. eapply star_invariant; [apply dinv_step|exact Hr|].
  split; simpl; try done; repeat (intros ?); try (by match goal with H : _ ∈ [] |- _ => apply elem_of_nil in H end).
  apply reachable_inv. constructor.
Qed.

(** ** Ordering *)

(** Two queued jobs that name a key and do not both share it do not run together. *)
Lemma keys_apart mx s i1 j1 i2 j2 :
  dinv mx s → (i1, j1) ∈ jobs s → (i2, j2) ∈ jobs s → conflict (job_keys j1) (job_keys j2) →
  running s i1 → running s i2 → i1 = i2.
Proof.
  intros Hi H1 H2 Hc%merge_keys_conflict R1 R2. pose proof (di_sched _ _ Hi) as Hs.
  destruct (started_live _ _ _ Hs R1) as [k1 L1], (started_live _ _ _ Hs R2) as [k2 L2].
  rewrite <- (di_keys _ _ Hi _ _ _ H1 L1), <- (di_keys _ _ Hi _ _ _ H2 L2) in Hc.
  destruct (Nat.lt_total i1 i2) as [Hlt|[?|Hlt]]; [exfalso|done|exfalso].
  - by apply (inv_blocked mx (sched s) i1 k1 i2 k2).
  - apply conflict_sym in Hc. by apply (inv_blocked mx (sched s) i2 k2 i1 k1).
Qed.

(** A running job that conflicts with a job queued before it runs after it has ended. *)
Lemma keys_after mx s i1 j1 i2 j2 :
  dinv mx s → (i1, j1) ∈ jobs s → (i2, j2) ∈ jobs s → i1 < i2 →
  conflict (job_keys j1) (job_keys j2) → running s i2 → i1 ∉ (live s).*1.
Proof.
  intros Hi H1 H2 Hlt Hc%merge_keys_conflict R2 ([i k1] & -> & L1)%list_elem_of_fmap.
  pose proof (di_sched _ _ Hi) as Hs. destruct (started_live _ _ _ Hs R2) as [k2 L2]. simpl in *.
  rewrite <- (di_keys _ _ Hi _ _ _ H1 L1), <- (di_keys _ _ Hi _ _ _ H2 L2) in Hc.
  by apply (inv_blocked mx (sched s) i k1 i2 k2).
Qed.

Lemma named_job_keys j k m : (k, m) ∈ named_keys j → (k, m) ∈ job_keys j.
Proof. intros. unfold job_keys, order_under_moves. set_solver. Qed.

Lemma under_move_key j mv k m :
  (k, m) ∈ named_keys j → mv ∈ j_moves j → under_move (j_ordered j) mv k = true →
  (Ino (m_ino mv), Shared) ∈ job_keys j.
Proof.
  intros Hk Hm Hu. unfold job_keys, order_under_moves. apply elem_of_app. right.
  apply list_elem_of_bind. exists (k, m). split; [|done].
  apply list_elem_of_fmap. exists mv. split; [done|]. by apply elem_of_filterb.
Qed.

(** The inodes a request carries, and those among them it takes for itself whatever the
    cache holds. *)
Definition names_ino (r : Request) : list nat :=
  match r with
  | Getattr i | Getxattr i | Listxattr i | Open i _ | Read i _ | Release i | Opendir i
  | Releasedir i | Readdir i | Readdirplus i | Setattr i | Write i | Flush i | Fsync i
  | Lookup i _ | Create i _ | Mkdir i _ | Unlink i _ | Rmdir i _ => [i]
  | Rename p _ q _ => [p; q]
  end.
Definition takes_ino (r : Request) : list nat :=
  match r with
  | Open i flags => if open_writes flags then [i] else []
  | Release i | Setattr i | Write i | Flush i | Fsync i
  | Create i _ | Mkdir i _ | Unlink i _ | Rmdir i _ => [i]
  | Rename p _ q _ => [p; q]
  | _ => []
  end.

Lemma names_ino_key c busy r i : i ∈ names_ino r → ∃ m, (Ino i, m) ∈ (request_keys c busy r).1.
Proof.
  destruct r; simpl; unfold lookup_keys, entry_keys, rename_keys;
    repeat (case_match; simplify_eq); simpl; set_solver.
Qed.

Lemma takes_ino_key c busy r i : i ∈ takes_ino r → (Ino i, Exclusive) ∈ (request_keys c busy r).1.
Proof.
  destruct r; simpl; unfold entry_keys, rename_keys; repeat case_match; simpl; set_solver.
Qed.


Lemma rename_tree_keys mx s id j m :
  dinv mx s → (id, j) ∈ jobs s → j_move j = Some m → (Ino (m_ino m), Exclusive) ∈ job_keys j.
Proof.
  intros Hi Hj Hm. destruct (di_jobs _ _ Hi _ _ Hj) as ([Ht _] & _ & _).
  rewrite Hm in Ht. simpl in Ht. symmetry in Ht. apply named_job_keys. unfold named_keys.
  destruct (j_req j); try done. simpl in *. unfold rename_tree in Ht. unfold rename_keys.
  destruct (get_path (j_named j) parent) as [p|]; [|done]. simpl in *.
  destruct (get_path (j_named j) newparent) as [q|]; [|done]. simpl in *.
  destruct (get_inode (j_named j) (join p [name])) as [src|]; [|done]. simpl in *.
  simplify_eq. set_solver.
Qed.

Lemma rename_busy_key c busy r src from to i p :
  request_tree c r = Some (src, from, to) → Ino i ∈ busy → get_path c i = Some p →
  starts_with p from = true → (Ino i, Exclusive) ∈ (request_keys c busy r).1.
Proof.
  destruct r; try done. simpl. unfold rename_tree, rename_keys. intros Ht Hb Hp Hs.
  destruct (get_path c parent) as [pp|]; [|done]. simpl in *.
  destruct (get_path c newparent) as [q|]; [|done]. simpl in *.
  destruct (get_inode c (join pp [name])) as [s'|] eqn:Hi; [|done]. simpl in *. simplify_eq.
  destruct (decide (i = src)) as [->|Hne]; [set_solver|].
  rewrite !elem_of_cons, !elem_of_app. do 4 right. apply list_elem_of_fmap.
  exists (Ino i). split; [done|]. apply elem_of_filterb. split; [done|]. simpl.
  rewrite Hp, Hs, andb_true_r. apply negb_true_iff. by apply Nat.eqb_neq.
Qed.

(** A folder rename runs alone with respect to everything under the folder.  A request on
    an inode that lies in the moved folder, under its old or its new name, and is queued
    while the rename has not run yet, runs only once the rename has ended; and the rename
    runs only once every request that was queued before it on an inode inside the folder
    has ended. *)
Theorem folder_rename_orders mx s id j :
  dreachable mx s → (id, j) ∈ jobs s → running s id →
  (∀ m i p md, m ∈ j_moves j → j_move j ≠ Some m →
     (Ino i, md) ∈ named_keys j → get_path (j_ordered j) i = Some p →
     starts_with p (m_from m) || starts_with p (m_to m) = true →
     ∃ idm jm, (idm, jm) ∈ jobs s ∧ idm < id ∧ j_move jm = Some m ∧ idm ∉ (live s).*1) ∧
  (∀ src from to t ks i p md, request_tree (j_named j) (j_req j) = Some (src, from, to) →
     (t, ks) ∈ j_ahead j → (Ino i, md) ∈ ks → get_path (j_named j) i = Some p →
     starts_with p from = true → t ∉ (live s).*1).
Proof.
  intros Hi%dreachable_dinv Hj Hr. destruct (di_jobs _ _ Hi _ _ Hj) as ([_ Ha] & Hpos & Hm). split.
  - intros m i p md Hin Hown Hk Hp Hst.
    destruct (Hm m Hin) as [?|(idm & jm & Hjm & Hle & Hmv)]; [done|].
    exists idm, jm. split_and!; [done|lia|done|].
    apply (keys_after mx s idm jm id j); try done; [lia|].
    exists (Ino (m_ino m)), Exclusive, Shared. split_and!; [by eapply rename_tree_keys| |done].
    apply (under_move_key j m (Ino i) md); [done|done|]. simpl. by rewrite Hp.
  - intros src from to t ks i p md Ht Hin Hk Hp Hst.
    destruct (Ha t ks Hin) as (Hle & Hbusy & jt & Hjt & ->).
    apply (keys_after mx s t jt id j); try done; [lia|].
    exists (Ino i), md, Exclusive. split_and!; [by apply merge_keys_sub| |by destruct md].
    apply named_job_keys. eapply rename_busy_key; [done| |done|done].
    apply Hbusy. by apply (list_elem_of_fmap_2 fst) in Hk.
Qed.

(** ** Witnesses: a write in a folder, then a rename of the folder. *)

(** The dispatch thread takes a request through all its phases with nothing in between. *)
Definition dispatched (now : Instant) (mx : nat) (s : DState) (r : Request) : DState :=
  let '(mv, ms) := register (request_tree (cache s) r) (moves s) in
  let c := (request_keys (cache s) (elements (busy_keys (w_st (sched s)))) r).2 in
  let j := {| j_req := r; j_ahead := w_live (sched s); j_busy := elements (busy_keys (w_st (sched s)));
              j_named := cache s; j_move := mv; j_moves := mv_live ms; j_ordered := c |} in
  let st := (admission mx (w_st (sched s)) now).1 in
  {| cache := c; moves := ms; phase := Idle;
     sched := {| w_st := (submit st (job_keys j) j).2;
                 w_live := w_live (sched s) ++ [(S (next_id st), merge_keys (job_keys j))];
                 w_jobs := w_jobs (sched s) ++ [(S (next_id st), j)];
                 w_run := w_run (sched s) ++ option_list (submit st (job_keys j) j).1 |} |}.

Lemma dispatched_star now mx s r :
  phase s = Idle → (admission mx (w_st (sched s)) now).2 = true →
  star (dstep mx) s (dispatched now mx s r).
Proof.
  intros Hp Ha. unfold dispatched.
  destruct (register (request_tree (cache s) r) (moves s)) as [mv ms] eqn:Hr.
  eapply star_snoc; [eapply star_snoc; [eapply star_snoc; [eapply star_snoc; [apply star_refl|]|]|]|].
  - by apply (d_ask mx s r).
  - by eapply d_name.
  - eapply d_order. cbn [cache moves phase sched]. rewrite Hr. reflexivity.
  - cbn [cache moves phase sched]. rewrite Hr. cbn [cache moves phase sched].
    destruct (admission mx (w_st (sched s)) now) as [st b] eqn:E. simpl in Ha. subst b.
    eapply (d_queue mx {| cache := _; sched := sched s; moves := ms; phase := Ordered _ |});
      [reflexivity|exact E|].
    by rewrite <- surjective_pairing.
Qed.

Definition finished (s : DState) (id : nat) : DState :=
  {| cache := cache s; moves := moves s; phase := phase s;
     sched := {| w_st := (complete (w_st (sched s)) id).1;
                 w_live := List.filter (λ t, negb (t.1 =? id)) (live s); w_jobs := jobs s;
                 w_run := w_run (sched s) ++ (complete (w_st (sched s)) id).2 |} |}.

Lemma finished_star mx s id l1 ks l2 :
  live s = l1 ++ (id, ks) :: l2 → List.filter (λ t, negb (t.1 =? id)) (live s) = l1 ++ l2 →
  running s id → star (dstep mx) s (finished s id).
Proof.
  intros Hl Hf Hr. eapply star_snoc; [apply star_refl|]. unfold finished. rewrite Hf.
  by eapply d_complete.
Qed.

Definition demo_cache : FsCache :=
  Build_FsCache (list_to_map [(1, []); (2, ["d"]); (3, ["d"; "f"])]%string)
    (list_to_map [([], 1); (["d"], 2); (["d"; "f"], 3)]%string) 4 ∅ 0 ∅ ∅ ∅ ∅ ∅ false 0.
Definition demo_1 := dispatched 0 9 (dstart demo_cache) (Write 3).
Definition demo_2 := dispatched 0 9 demo_1 (Getattr 2).
Definition demo_3 := dispatched 0 9 demo_2 (Rename 1 "d" 1 "e").
Definition demo_4 := dispatched 0 9 demo_3 (Getattr 3).
Definition demo_5 := finished (finished (finished demo_4 1) 2) 3.

Lemma demo_2_reachable : dreachable 9 demo_2.
Proof.
  exists demo_cache. eapply star_trans; [apply (dispatched_star 0); by vm_compute|].
  apply (dispatched_star 0); by vm_compute.
Qed.

Lemma demo_5_reachable : dreachable 9 demo_5.
Proof.
  destruct demo_2_reachable as [c H2]. exists c.
  assert (H4 : star (dstep 9) (dstart c) demo_4).
  { eapply star_trans; [eapply star_trans; [exact H2|]|]; apply (dispatched_star 0); by vm_compute. }
  unfold demo_5. eapply star_trans; [eapply star_trans; [eapply star_trans; [exact H4|]|]|].
  - eapply (finished_star 9 demo_4 1 []); [by vm_compute..|]. eexists. split; [by vm_compute|done].
  - eapply (finished_star 9 _ 2 []); [by vm_compute..|]. eexists. split; [by vm_compute|done].
  - eapply (finished_star 9 _ 3 []); [by vm_compute..|]. eexists. split; [by vm_compute|done].
Qed.

Definition demo_job (s : DState) (id : nat) : Job :=
  default (Build_Job (Getattr 0) [] [] demo_cache None [] demo_cache)
    (snd <$> find (λ e, e.1 =? id) (jobs s)).


Lemma folder_rename_orders_witness :
  ∃ idm jm, (idm, jm) ∈ jobs demo_5 ∧ idm < 4 ∧
    j_move jm = Some (Build_Move 1 2 ["d"]%string ["e"]%string) ∧ idm ∉ (live demo_5).*1.
Proof.
  refine (proj1 (folder_rename_orders 9 demo_5 4 (demo_job demo_5 4) demo_5_reachable _ _)
            (Build_Move 1 2 ["d"]%string ["e"]%string) 3 ["d"; "f"]%string Shared _ _ _ _ _).
  - do 3 right. left.
  - eexists. split; [by vm_compute|done].
  - left.
  - done.
  - left.
  - by vm_compute.
  - by vm_compute.
Defined.
