(* ===== verification/Read.v ===== *)
(** [lib.rs], READ: where the bytes come from.  The sources in the order of the handler: the
    handle's own uncommitted writes or a sibling's, a queued upload, the answer to a MIME
    probe, the cached copy, the windows ([Window.serve]), the cached copy again, the network.

    Other threads run while the staging file is read: [mid] is the file system then, [after]
    the handles when the bytes are checked once more.  A window READs wait on or a fetch they
    start is an answer of its own here; [Window] and [Throttle] model those. *)
From Stdlib Require Import Ascii String.
From S2P Require Import Prelude Paths Backend Server FsCache Journal Replay StreamFinish ChunkUpload Versions AppLocks Attr IoMode Mount Throttle ReadAhead.
From S2P Require Window.
Local Open Scope Z_scope.

(** The part of [OpenFile] only reads use. *)
(* lib.rs:1529-1608 OpenFile *)
Record ReadSide := {
  rs_local : option PathBuf;
  rs_cache_fresh : bool;
  rs_mime_ct : option string;
  rs_mime_max : Z;
  rs_next_off : Z;
  rs_windows : Windows;
  rs_staged_whole : bool;
}.
Definition set_rs_windows (w : Windows) (r : ReadSide) : ReadSide :=
  Build_ReadSide (rs_local r) (rs_cache_fresh r) (rs_mime_ct r) (rs_mime_max r) (rs_next_off r) w (rs_staged_whole r).
Definition set_rs_local (p : PathBuf) (r : ReadSide) : ReadSide :=
  Build_ReadSide (Some p) (rs_cache_fresh r) (rs_mime_ct r) (rs_mime_max r) (rs_next_off r) (rs_windows r) (rs_staged_whole r).

(** ** Uncommitted writes *)

(* lib.rs:1112-1115 Held *)
Record Held := { h_head : Z; h_from : Z }.
Definition ALL : Held := {| h_head := 0; h_from := 0 |}.
(* lib.rs:1120-1127 Held::of *)
Definition held_of (session : option ChunkUploadState) : Held :=
  match session with
  | Some c => if punching (pump c) then {| h_head := head c; h_from := bytes_confirmed (pump c) |} else ALL
  | None => ALL
  end.
(* lib.rs:1131-1133 Held::covers *)
Definition held_covers (h : Held) (off sz : Z) : bool := (h_from h <=? off) || (sat_add off sz <=? h_head h).

(** [read_at] until the buffer is full or the file ends. *)
(* lib.rs:1004-1015 read_at_full *)
Definition read_at_full (f : bytes) (off sz : Z) : bytes := slice f off sz.

Section staged.
Implicit Types (hs : gmap nat OpenFile) (sides : gmap nat ReadSide).

Definition source (o : OpenFile) : option (PathBuf * Held) := (λ wp, (wp, held_of (cs <$> Mount.chunk_upload o))) <$> write_path o.
(* lib.rs:1093-1107 staged_source *)
Definition staged_source hs sides (fh ino : nat) : option (PathBuf * Held) :=
  let writable o := bool_decide (is_Some (write_path o)) in
  match newest_usable_writer hs (λ k o, (k =? fh)%nat && writable o) with
  | Some q => source q.2
  | None =>
      match newest_usable_writer hs (λ k o, negb (k =? fh)%nat && (of_ino o =? ino)%nat && writable o) with
      | Some q => source q.2
      | None =>
          o ← hs !! fh;
          if default false (rs_staged_whole <$> sides !! fh) && negb (Mount.upload_failed o) then source o else None
      end
  end.
End staged.

(** ** Synthetic answers *)

Definition ascii_bytes : string → bytes := String.list_byte_of_string.
Definition TEXT : bytes := ascii_bytes "# text" ++ [Byte.x0a].
Definition MP4 (brand : string) (len : Byte.byte) (zeros : list Byte.byte) : bytes :=
  [Byte.x00; Byte.x00; Byte.x00; len] ++ ascii_bytes "ftyp" ++ ascii_bytes brand ++ zeros.
Definition ZERO4 : bytes := replicate 4 Byte.x00.

(** The media type without its parameters, [trim]med. *)
Fixpoint before (stop : Ascii.ascii) (s : string) : string :=
  match s with
  | EmptyString => EmptyString
  | String c s => if Ascii.eqb c stop then EmptyString else String c (before stop s)
  end.
Definition is_white (c : Ascii.ascii) : bool :=
  let n := Ascii.nat_of_ascii c in ((9 <=? n) && (n <=? 13))%nat || (n =? 32)%nat.
Fixpoint trim_start (s : string) : string :=
  match s with EmptyString => EmptyString | String c s' => if is_white c then trim_start s' else s end.
Fixpoint trim_end (s : string) : string :=
  match s with
  | EmptyString => EmptyString
  | String c s => match trim_end s with
                  | EmptyString => if is_white c then EmptyString else String c EmptyString
                  | t => String c t
                  end
  end.
Definition media_type (content_type : string) : string := trim_end (trim_start (before ";"%char content_type)).
Definition one_of (ct : string) (l : list string) : bool := bool_decide (ct ∈ l).

(* lib.rs:2364-2447 mime_magic_bytes *)
Definition mime_magic_bytes (content_type : string) : bytes :=
  let ct := media_type content_type in
  let among l := one_of ct l in
  if among ["application/pdf"] then ascii_bytes "%PDF-"
  else if among ["image/jpeg"] then [Byte.xff; Byte.xd8; Byte.xff; Byte.xe0]
  else if among ["image/png"] then [Byte.x89] ++ ascii_bytes "PNG" ++ [Byte.x0d; Byte.x0a; Byte.x1a; Byte.x0a]
  else if among ["image/gif"] then ascii_bytes "GIF89a"
  else if among ["image/webp"] then ascii_bytes "RIFF" ++ ZERO4 ++ ascii_bytes "WEBP"
  else if among ["image/bmp"] then ascii_bytes "BM" ++ ZERO4 ++ ZERO4
  else if among ["image/tiff"] then ascii_bytes "II*" ++ [Byte.x00]
  else if among ["image/x-dcraw"] then ascii_bytes "MM" ++ [Byte.x00] ++ ascii_bytes "*"
  else if among ["application/zip"; "application/x-zip-compressed";
              "application/vnd.openxmlformats-officedocument.wordprocessingml.document";
              "application/vnd.openxmlformats-officedocument.spreadsheetml.sheet";
              "application/vnd.openxmlformats-officedocument.presentationml.presentation"; "application/epub+zip"]
  then ascii_bytes "PK" ++ [Byte.x03; Byte.x04]
  else if among ["application/gzip"; "application/x-gzip"] then [Byte.x1f; Byte.x8b]
  else if among ["application/x-bzip2"] then ascii_bytes "BZh"
  else if among ["application/x-7z-compressed"] then ascii_bytes "7z" ++ [Byte.xbc; Byte.xaf] ++ ascii_bytes "'" ++ [Byte.x1c]
  else if among ["application/x-rar-compressed"; "application/vnd.rar"] then ascii_bytes "Rar!" ++ [Byte.x1a; Byte.x07]
  else if among ["application/ogg"; "audio/ogg"; "video/ogg"] then ascii_bytes "OggS"
  else if among ["video/mp4"] then MP4 "isom" Byte.x18 [Byte.x00; Byte.x00; Byte.x02; Byte.x00]
  else if among ["audio/mp4"] then MP4 "M4A " Byte.x18 ZERO4
  else if among ["video/quicktime"] then MP4 "qt  " Byte.x14 ZERO4
  else if among ["image/heic"; "image/heif"] then MP4 "heic" Byte.x18 ZERO4
  else if among ["audio/mpeg"] then [Byte.xff; Byte.xfb]
  else if among ["audio/flac"] then ascii_bytes "fLaC"
  else if among ["audio/wav"] then ascii_bytes "RIFF" ++ ZERO4 ++ ascii_bytes "WAVE"
  else if among ["image/svg+xml"] then ascii_bytes "<svg xmlns=" ++ [Byte.x22] ++ ascii_bytes "http://www.w3.org/2000/svg" ++ [Byte.x22] ++ ascii_bytes ">"
  else if among ["image/x-icon"; "image/vnd.microsoft.icon"] then [Byte.x00; Byte.x00; Byte.x01; Byte.x00; Byte.x01; Byte.x00]
  else if among ["application/postscript"] then ascii_bytes "%!PS-Adobe-3.0"
  else if among ["application/x-deb"; "application/vnd.debian.binary-package"] then ascii_bytes "!<arch>" ++ [Byte.x0a] ++ ascii_bytes "debian-binary"
  else if among ["application/vnd.ms-excel"; "application/msword"; "application/vnd.ms-powerpoint"]
  then [Byte.xd0; Byte.xcf; Byte.x11; Byte.xe0; Byte.xa1; Byte.xb1; Byte.x1a; Byte.xe1]
  else if among ["application/json"; "application/xml"; "application/javascript"; "application/yaml"; "application/toml"; "application/x-tex"]
  then TEXT
  else
    let top := before "/"%char ct in
    if one_of top ["image"] then ascii_bytes "II*" ++ [Byte.x00]
    else if one_of top ["video"] then MP4 "isom" Byte.x18 [Byte.x00; Byte.x00; Byte.x02; Byte.x00]
    else if one_of top ["audio"] then [Byte.xff; Byte.xfb]
    else if one_of top ["text"] then TEXT
    else ZERO4.

(* lib.rs:11673-11673 TRACKERIGNORE_CONTENT *)
Definition TRACKERIGNORE_CONTENT : bytes := [Byte.x0a].

(** ** The handler *)

Inductive ReadAns :=
| RData (bs : bytes)
| RErr (errno : Z)
| RWait (b : ReadAheadBuf)
| RFetch (len : Z)
| RPanic.
Definition EIO : Z := 5.
Definition ENOENT : Z := 2.
Definition EACCES : Z := 13.

Section read.
Context {W : Type} (clock : W → Z) (mono : W → Instant).

Record Reader := {
  rd_mount : Mount W;
  rd_sides : gmap nat ReadSide;
  rd_streams : nat → Window.StreamState;
  rd_mem : Memory;
  rd_sweep : Z;
  rd_ahead : Z;
}.
Implicit Types d : Reader.
Definition with_sides (f : gmap nat ReadSide → gmap nat ReadSide) d : Reader :=
  {| rd_mount := rd_mount d; rd_sides := f (rd_sides d); rd_streams := rd_streams d; rd_mem := rd_mem d; rd_sweep := rd_sweep d;
     rd_ahead := rd_ahead d |}.
Definition with_mem (m : Memory) (sweep : Z) d : Reader :=
  {| rd_mount := rd_mount d; rd_sides := rd_sides d; rd_streams := rd_streams d; rd_mem := m; rd_sweep := sweep; rd_ahead := rd_ahead d |}.
Definition local_files d : Files := files (disk (m_journal (rd_mount d))).

(** Windows of idle handles are given back under memory pressure. *)
(* lib.rs:938-958 release_idle_windows *)
Definition sweep_idle (now_ms : Z) (now : Instant) d : Reader :=
  if reserved (rd_mem d) <? READ_AHEAD_BUDGET / 2 then d
  else if sat_sub now_ms (rd_sweep d) <? 1000 then d
  else with_mem (rd_mem d) now_ms (with_sides (fmap (λ r, set_rs_windows (release_idle now (rs_windows r)) r)) d).

(** The position the next sequential READ starts at; [true] when this READ continues the last. *)
(* lib.rs:7543-7556 read *)
Definition note_position (fh : nat) (off sz : Z) (now : Instant) d : bool * Reader :=
  match rd_sides d !! fh with
  | Some r =>
      let w := rs_windows r in
      let w := {| read_ahead_window := read_ahead_window w; buf := buf w; next_buf := next_buf w; prev_buf := prev_buf w;
                  last_read := now; lookahead_inflight := lookahead_inflight w |} in
      (rs_next_off r =? off,
       with_sides (insert fh (Build_ReadSide (rs_local r) (rs_cache_fresh r) (rs_mime_ct r) (rs_mime_max r) (sat_add off sz) w
                                (rs_staged_whole r))) d)
  | None => (false, d)
  end.

(** A queued upload of the path: its file, and where in it the READ starts. *)
(* lib.rs:7621-7633 read *)
Definition queued_source (sniff : bool) (off sz : Z) (pending : option PendingUpload) : option (option PathBuf * Z) :=
  match pending with
  | Some (Staged sp) => Some (Some sp, off)
  | Some (StreamTail tail held_from head sparse) =>
      if sniff then Some (None, off)
      else if negb (held_covers {| h_head := head; h_from := held_from |} off sz) then None
      else Some (Some tail, if sparse then off else off - held_from)
  | None => Some (None, off)
  end.

(** The bytes of a cached copy, when they may be the whole answer. *)
(* lib.rs:7685-7700 read *)
Definition cached_bytes (fs : Files) (local : PathBuf) (off sz file_size : Z) : option bytes :=
  f ← fs !! local;
  let bs := read_at_full (lf_bytes f) off sz in
  if short_reply_ok off (blen bs) sz file_size then Some bs else None.

(** The answers at which the look-ahead is planned: the window has all of the READ, or will. *)
(* lib.rs:7712-7739 read *)
Definition fits_window (b : ReadAheadBuf) (off sz : Z) : bool := (start b <=? off) && (off + sz <=? start b + target_len b).
Definition in_window (w : Windows) (st : nat → Window.StreamState) (off sz : Z) : bool :=
  match Window.window_for w off with
  | Some b => (start b <=? off) && (off + sz <=? start b + Z.of_nat (length (Window.data (st (stream b)))))
  | None => false
  end.

(** The handle's own state: the MIME probe, the copy it was opened on, its windows. *)
(* lib.rs:7646-7809 read *)
Definition from_handle (fh : nat) (off sz file_size : Z) (sequential : bool) d : option ReadAns * Reader :=
  match rd_sides d !! fh with
  | None => (None, d)
  | Some r =>
      let w := promote_lookahead (rs_windows r) off in
      let w := retire_prev_window (λ i, (Window.ss_done (rd_streams d i), Z.of_nat (Window.waiters (rd_streams d i)))) w off in
      let d := with_sides (insert fh (set_rs_windows w r)) d in
      let probe := match rs_mime_ct r with
        | Some ct => if (off =? 0) && (sz <=? rs_mime_max r) then Some (RData (firstn (Z.to_nat sz) (mime_magic_bytes ct)))
                     else if m_offline (rd_mount d) then Some (RErr EACCES) else None
        | None => None
        end in
      match probe with
      | Some a => (Some a, d)
      | None =>
          match (l ← rs_local r; if rs_cache_fresh r then cached_bytes (local_files d) l off sz file_size else None) with
          | Some bs => (Some (RData bs), d)
          | None =>
              let ahead := plan_lookahead (rd_mem d) w off sz sequential file_size (Z.max (rd_ahead d) READ_AHEAD_INITIAL) in
              let planned := with_mem (ahead.2) (rd_sweep d) (with_sides (insert fh (set_rs_windows (ahead.1.2) r)) d) in
              match Window.serve w (rd_streams d) off sz file_size with
              | Window.Reply bs =>
                  (Some (RData bs), if in_window w (rd_streams d) off sz then planned else d)
              | Window.WaitIn b => (Some (RWait b), if fits_window b off sz && negb (Window.ss_done (rd_streams d (stream b))) then planned else d)
              | Window.Panicked => (Some RPanic, d)
              | Window.Fetch => (None, d)
              end
          end
      end
  end.

(** The path's cached copy, looked up again; the handle keeps it. *)
(* lib.rs:7817-7842 read *)
Definition from_file_cache (fh : nat) (path : PathBuf) (off sz file_size : Z) d : option bytes * Reader :=
  if default false (rs_cache_fresh <$> rd_sides d !! fh) then
    match (fc ← file_cache (m_cache (rd_mount d)) !! path;
           f ← local_files d !! fc_local_path fc;
           if 0 <? blen (lf_bytes f) then (λ bs, (fc_local_path fc, bs)) <$> cached_bytes (local_files d) (fc_local_path fc) off sz file_size
           else None) with
    | Some (local, bs) => (Some bs, with_sides (alter (set_rs_local local) fh) d)
    | None => (None, d)
    end
  else (None, d).

(** What a fetch asks for: at least the READ, at most the handle's next window. *)
(* lib.rs:7871-7887 read *)
Definition fetch_size (fh : nat) (off sz file_size : Z) (sequential : bool) d : Z * Reader :=
  let ceiling := Z.max (rd_ahead d) READ_AHEAD_INITIAL in
  match rd_sides d !! fh with
  | Some r =>
      let w := rs_windows r in
      let jump := b ← buf w; streaming_jump (read_ahead_window w) (start b) sequential file_size ceiling in
      let window := default (next_read_ahead_window (read_ahead_window w) sequential ceiling) jump in
      let w := {| read_ahead_window := window; buf := buf w; next_buf := next_buf w; prev_buf := prev_buf w;
                  last_read := last_read w; lookahead_inflight := lookahead_inflight w |} in
      (Z.max sz window, with_sides (insert fh (set_rs_windows w r)) d)
  | None => (Z.max sz (Z.min READ_AHEAD_INITIAL ceiling), d)
  end.

(** Bytes of this handle's uncommitted writes or of a sibling's; [None]: there are none. *)
(* lib.rs:7573-7608 read *)
Definition from_staged (mid : Files) (after : gmap nat OpenFile) (fh ino : nat) (off sz : Z) (sniff : bool) d : option ReadAns :=
  match staged_source (m_files (rd_mount d)) (rd_sides d) fh ino with
  | None => None
  | Some (wp, held) =>
      if held_covers held off sz then
        match mid !! wp with
        | None => Some (RErr EIO)
        | Some f =>
            let still := match staged_source after (rd_sides d) fh ino with Some (_, h) => held_covers h off sz | None => false end in
            if negb still && negb sniff then Some (RErr EIO) else Some (RData (read_at_full (lf_bytes f) off sz))
        end
      else if sniff then None else Some (RErr EIO)
  end.

(* lib.rs:7619-7643 read *)
Definition from_queue (path : PathBuf) (off sz : Z) (sniff : bool) d : option ReadAns :=
  match queued_source sniff off sz (pending_upload path (m_journal (rd_mount d))) with
  | None => Some (RErr EIO)
  | Some (file, at_) => (λ f, RData (read_at_full (lf_bytes f) at_ sz)) <$> (file ≫= λ p, local_files d !! p)
  end.

(** No newer copy: the handle's own sources, the path's cached copy, the network. *)
(* lib.rs:7645-7887 read *)
Definition from_server_copy (fh : nat) (path : PathBuf) (off sz file_size : Z) (sequential : bool) d : ReadAns * Reader :=
  let '(a, d) := from_handle fh off sz file_size sequential d in
  match a with
  | Some a => (a, d)
  | None =>
      let '(c, d) := from_file_cache fh path off sz file_size d in
      match c with
      | Some bs => (RData bs, d)
      | None => let '(n, d) := fetch_size fh off sz file_size sequential d in (RFetch n, d)
      end
  end.

(* lib.rs:7503-7887 read *)
Definition read (mid : Files) (after : gmap nat OpenFile) (now_ms : Z) (ino fh : nat) (off sz : Z) d : ReadAns * Reader :=
  match get_path (m_cache (rd_mount d)) ino with
  | None => (RErr ENOENT, d)
  | Some path =>
      if bool_decide (path = trackerignore_path)
      then (RData (slice TRACKERIGNORE_CONTENT (Z.min off 1) (Z.min (Z.min off 1 + sz) 1 - Z.min off 1)), d)
      else
        let file_size := default 0 (e_size <$> find_entry (m_cache (rd_mount d)) path) in
        let now := Mount.now mono (rd_mount d) in
        let '(sequential, d) := note_position fh off sz now (sweep_idle now_ms now d) in
        let own := m_files (rd_mount d) !! fh in
        let sniff := match rd_sides d !! fh with
                     | Some r => bool_decide (is_Some (rs_mime_ct r)) && (off =? 0) && (sz <=? rs_mime_max r)
                     | None => false
                     end in
        if default false ((λ o, Mount.dirty o && Mount.upload_failed o) <$> own) then (RErr EIO, d)
        else match from_staged mid after fh ino off sz sniff d with
        | Some a => (a, d)
        | None =>
            match from_queue path off sz sniff d with
            | Some a => (a, d)
            | None => from_server_copy fh path off sz file_size sequential d
            end
        end
  end.
End read.

(** ** Theorems *)

(** A copy of [F] with a hole where sent bytes were punched out. *)
Definition agrees (h : Held) (st F : bytes) : Prop :=
  0 ≤ h_head h ∧ blen st = blen F ∧ ∀ i : nat, Z.of_nat i < h_head h ∨ h_from h ≤ Z.of_nat i → st !! i = F !! i.

Lemma covers_agrees h st F off sz :
  0 ≤ off → 0 ≤ sz → blen F ≤ u64_max → agrees h st F → held_covers h off sz = true → slice st off sz = slice F off sz.
Proof.
  intros Ho Hs HF (Hh & Hl & Ha) Hc. apply list_eq. intros i. unfold slice.
  destruct (decide (i < Z.to_nat sz)%nat) as [Hi|]; [|by rewrite !lookup_take_ge by lia].
  rewrite !lookup_take_lt, !lookup_drop by done. unfold held_covers in Hc. apply orb_true_iff in Hc as [Hc|Hc]; bool_prop.
  - apply Ha. right. lia.
  - destruct (decide (Z.to_nat off + i < length F)%nat) as [Hn|Hn].
    + apply Ha. left. unfold sat_add, blen in *. lia.
    + unfold blen in Hl. rewrite !lookup_ge_None_2; [done|lia|lia].
Qed.

Section exact.
Context {W : Type} (mono : W → Instant).
Implicit Types d : Reader (W := W).

(** A side whose windows are some of those it had. *)
Definition narrowed (r r' : ReadSide) : Prop :=
  rs_local r' = rs_local r ∧ rs_cache_fresh r' = rs_cache_fresh r ∧ rs_mime_ct r' = rs_mime_ct r ∧ rs_mime_max r' = rs_mime_max r ∧
  rs_staged_whole r' = rs_staged_whole r ∧
  ∀ F st, Window.windows_ok F (rs_windows r) st → Window.windows_ok F (rs_windows r') st.
Definition settled d d' : Prop :=
  rd_mount d' = rd_mount d ∧ rd_streams d' = rd_streams d ∧ ∀ fh, option_Forall2 narrowed (rd_sides d !! fh) (rd_sides d' !! fh).

Lemma narrowed_refl r : narrowed r r.
Proof. by split_and!. Qed.
Lemma option_narrowed o : option_Forall2 narrowed o o.
Proof. destruct o; constructor. apply narrowed_refl. Qed.
Lemma settled_refl d : settled d d.
Proof. split_and!; [done..|]. intros fh. apply option_narrowed. Qed.
Lemma settled_trans d1 d2 d3 : settled d1 d2 → settled d2 d3 → settled d1 d3.
Proof.
  intros (H1 & H2 & H3) (H4 & H5 & H6). split_and!; [congruence..|]. intros fh. specialize (H3 fh). specialize (H6 fh).
  destruct H3 as [r1 r2 Hr|]; inversion H6 as [r3 r4 Hr'|]; constructor. subst.
  destruct Hr as (? & ? & ? & ? & ? & Hw), Hr' as (? & ? & ? & ? & ? & Hw'). split_and!; try congruence. eauto.
Qed.
Lemma settled_windows d fh r w :
  rd_sides d !! fh = Some r → (∀ F st, Window.windows_ok F (rs_windows r) st → Window.windows_ok F w st) →
  settled d (with_sides (insert fh (set_rs_windows w r)) d).
Proof.
  intros Hr Hw. split_and!; [done..|]. intros k. cbn. destruct (decide (k = fh)) as [->|].
  - rewrite Hr, lookup_insert_eq. constructor. by split_and!.
  - rewrite lookup_insert_ne by done. apply option_narrowed.
Qed.

Lemma sweep_settled now_ms now d : settled d (sweep_idle now_ms now d).
Proof.
  unfold sweep_idle. destruct (_ <? _); [apply settled_refl|]. destruct (_ <? _); [apply settled_refl|].
  split_and!; [done..|]. intros fh. cbn. rewrite lookup_fmap. destruct (rd_sides d !! fh) as [r|]; constructor. split_and!; try done.
  intros F st Hw b Hb. apply Hw. cbn in Hb. unfold release_idle in Hb. destruct (_ && _) in Hb; [|done]. cbn in Hb. naive_solver.
Qed.
Lemma position_settled fh off sz now d : settled d (note_position fh off sz now d).2.
Proof.
  unfold note_position. destruct (rd_sides d !! fh) as [r|] eqn:E; [|apply settled_refl]. split_and!; [done..|]. intros k. cbn.
  destruct (decide (k = fh)) as [->|].
  - rewrite E, lookup_insert_eq. constructor. by split_and!.
  - rewrite lookup_insert_ne by done. apply option_narrowed.
Qed.

Lemma promote_windows F st w off : Window.windows_ok F w st → Window.windows_ok F (promote_lookahead w off) st.
Proof.
  intros Hw b Hb. apply Hw. unfold promote_lookahead in Hb. destruct (opt_covers off (buf w)); [done|].
  destruct (opt_covers off (next_buf w)); [|done]. cbn in Hb. naive_solver.
Qed.
Lemma retire_windows F st f w off : Window.windows_ok F w st → Window.windows_ok F (retire_prev_window f w off) st.
Proof.
  intros Hw. assert (retire_prev_window f w off = w ∨ retire_prev_window f w off = set_windows w (buf w) (next_buf w) None) as [->| ->].
  { unfold retire_prev_window. destruct (prev_buf w), (buf w); auto. destruct (_ || _); auto. destruct (f _). destruct (_ || _); auto. }
  - done.
  - intros b Hb. apply Hw. cbn in Hb. naive_solver.
Qed.

Lemma settled_staged d d' hs fh ino : settled d d' → staged_source hs (rd_sides d') fh ino = staged_source hs (rd_sides d) fh ino.
Proof.
  intros (_ & _ & H). unfold staged_source. repeat case_goal; try done; specialize (H fh); inversion H as [r r' Hr Hx Hy|Hx Hy];
    destruct (hs !! fh); cbn; try done; destruct Hr as (_ & _ & _ & _ & -> & _); done.
Qed.

(** *** Exactness *)

Definition file_size_of path d : Z := default 0 (e_size <$> find_entry (m_cache (rd_mount d)) path).
(** The handle's MIME probe is answered without file bytes. *)
Definition sniffs (fh : nat) (off sz : Z) d : bool :=
  match rd_sides d !! fh with
  | Some r => bool_decide (is_Some (rs_mime_ct r)) && (off =? 0) && (sz <=? rs_mime_max r)
  | None => false
  end.

(** Everything held for a reader that is not a newer copy: a fresh cached copy, perhaps cut
    short, and windows of the server's file. *)
Definition holds_server_copy (F : bytes) (fh : nat) (path : PathBuf) d : Prop :=
  (file_size_of path d = 0 ∨ file_size_of path d = blen F) ∧
  ∀ r, rd_sides d !! fh = Some r →
    Window.windows_ok F (rs_windows r) (rd_streams d) ∧
    (rs_cache_fresh r = true → ∀ l f,
       rs_local r = Some l ∨ fc_local_path <$> file_cache (m_cache (rd_mount d)) !! path = Some l →
       local_files d !! l = Some f → lf_bytes f `prefix_of` F).
(** The queued upload of the path, where its file is readable. *)
Definition queued (path : PathBuf) d : option (PendingUpload * LocalFile) :=
  p ← pending_upload path (m_journal (rd_mount d));
  f ← local_files d !! (match p with Staged sp => sp | StreamTail tail _ _ _ => tail end);
  Some (p, f).
Definition holds_queued (F : bytes) (p : PendingUpload) (f : bytes) : Prop :=
  match p with
  | Staged _ => f = F
  | StreamTail _ from head true => agrees {| h_head := head; h_from := from |} f F
  | StreamTail _ from head false => head = 0 ∧ 0 ≤ from ∧ f = drop (Z.to_nat from) F
  end.

(** [F] is the file as it stands: what is newest of an open handle's uncommitted writes, a
    queued upload, and the server's file. *)
Definition current (F : bytes) (mid : Files) (after : gmap nat OpenFile) (fh ino : nat) (path : PathBuf) d : Prop :=
  match staged_source (m_files (rd_mount d)) (rd_sides d) fh ino with
  | Some (wp, _) => ∀ f wp' h, mid !! wp = Some f → staged_source after (rd_sides d) fh ino = Some (wp', h) → agrees h (lf_bytes f) F
  | None => match queued path d with
            | Some (p, f) => holds_queued F p (lf_bytes f)
            | None => holds_server_copy F fh path d
            end
  end.
Definition newer_copy (fh ino : nat) (path : PathBuf) d : Prop :=
  is_Some (staged_source (m_files (rd_mount d)) (rd_sides d) fh ino) ∨ is_Some (queued path d).

Lemma settled_sniffs d d' fh off sz : settled d d' → sniffs fh off sz d' = sniffs fh off sz d.
Proof.
  intros (_ & _ & H). unfold sniffs. specialize (H fh). inversion H as [r r' Hr Hx Hy|]; [|done].
  by destruct Hr as (_ & _ & -> & -> & _).
Qed.
Lemma settled_server_copy F fh path d d' : settled d d' → holds_server_copy F fh path d → holds_server_copy F fh path d'.
Proof.
  intros (Hm & Hst & H) [Hz Hc]. unfold holds_server_copy, file_size_of, local_files in *. rewrite Hm, Hst. split; [done|]. intros r' Hr'.
  specialize (H fh). rewrite Hr' in H. inversion H as [r r'' Hn Hr Hx|]. subst. destruct (Hc r) as [Hw Hl]; [done|].
  destruct Hn as (-> & -> & _ & _ & _ & Hw'). split; [by apply Hw'|done].
Qed.
Lemma settled_current F mid after fh ino path d d' : settled d d' →
  current F mid after fh ino path d → current F mid after fh ino path d'.
Proof.
  intros Hs. pose proof Hs as (Hm & _ & _). unfold current, queued, local_files.
  rewrite Hm, !(settled_staged d d') by done. destruct (staged_source _ _ _ _) as [[wp h]|]; [done|].
  destruct (pending_upload _ _ ≫= _) as [[p f]|]; [done|]. by apply settled_server_copy.
Qed.

Lemma cached_exact F fs l off sz file_size bs :
  0 ≤ off → 0 ≤ sz → blen F ≤ u64_max → file_size = 0 ∨ file_size = blen F → (∀ f, fs !! l = Some f → lf_bytes f `prefix_of` F) →
  cached_bytes fs l off sz file_size = Some bs → bs = slice F off sz.
Proof.
  intros Ho Hs HF Hz Hp. unfold cached_bytes. destruct (fs !! l) as [f|]; [|done]. cbn.
  destruct (Hp f eq_refl) as [t Ht]. destruct (short_reply_ok _ _ _ _) eqn:Eo; [|done]. intros [= <-].
  unfold short_reply_ok, read_at_full, slice, blen in *. rewrite length_take, length_drop in Eo. rewrite Ht in HF, Hz |- *.
  rewrite length_app in HF, Hz.
  assert (Hall : (Z.to_nat off + Z.to_nat sz ≤ length (lf_bytes f))%nat ∨ t = [] ∨ (length (lf_bytes f) + length t ≤ Z.to_nat off)%nat ∨ sz = 0).
  { apply orb_true_iff in Eo as [Eo|Eo]; bool_prop; [|unfold sat_add in *]; [destruct (decide (sz = 0)); [auto|left; lia]|].
    destruct Hz as [Hz|Hz]; [lia|]. destruct (decide (Z.to_nat off + Z.to_nat sz ≤ length (lf_bytes f))%nat); [by left|].
    destruct (decide (length (lf_bytes f) + length t ≤ Z.to_nat off)%nat); [auto|]. destruct t; [auto|]. cbn in *. lia. }
  destruct Hall as [Ha|[->|[Ha| ->]]].
  - destruct (decide (sz = 0)) as [->|]; [done|]. rewrite drop_app_le by lia. rewrite take_app_le; [done|]. rewrite length_drop. lia.
  - by rewrite app_nil_r.
  - rewrite !drop_ge; [done|rewrite length_app; lia|lia].
  - done.
Qed.

Lemma queued_exact F off sz p f file at_ :
  0 ≤ off → 0 ≤ sz → blen F ≤ u64_max → holds_queued F p f →
  queued_source false off sz (Some p) = Some (file, at_) → off + sz > 0 ∧ read_at_full f at_ sz = slice F off sz ∨ sz = 0.
Proof.
  intros Ho Hs HF Hq Hx. destruct (decide (sz = 0)) as [|Hne]; [by right|]. left. split; [lia|]. unfold read_at_full.
  destruct p as [sp|tail from head sparse]; cbn in Hx.
  - injection Hx as _ <-. by rewrite Hq.
  - destruct (held_covers _ _ _) eqn:Ec; [|done]. cbn in Hx. injection Hx as _ <-. cbn in Hq. destruct sparse.
    + by apply (covers_agrees {| h_head := head; h_from := from |}).
    + destruct Hq as (-> & Hf & ->). unfold held_covers in Ec. cbn in Ec. apply orb_true_iff in Ec as [Ec|Ec]; bool_prop; [|unfold sat_add, u64_max in *; lia].
      unfold slice. rewrite drop_drop. do 2 f_equal. lia.
Qed.

(** A READ at a handle, once no newer copy was found. *)
Lemma from_handle_exact F fh off sz path sq d :
  0 ≤ off → 0 < sz → blen F ≤ u64_max → sniffs fh off sz d = false → holds_server_copy F fh path d →
  match from_handle fh off sz (file_size_of path d) sq d with
  | (Some (RData bs), _) => bs = slice F off sz
  | (Some (RErr e), _) => e = EACCES ∧ m_offline (rd_mount d) = true
  | (Some (RWait _), _) => True
  | (Some RPanic, _) => blen F ≤ off
  | (Some (RFetch _), _) => False
  | (None, d') => settled d d'
  end.
Proof.
  intros Ho Hs HF Hn [Hz Hc]. unfold from_handle, sniffs in *. destruct (rd_sides d !! fh) as [r|] eqn:Er; [|by apply settled_refl].
  destruct (Hc r eq_refl) as [Hw Hl]. cbv zeta.
  match goal with |- context [set_rs_windows ?x r] => set (w := x) end.
  assert (Hw' : Window.windows_ok F w (rd_streams d)) by (by apply retire_windows, promote_windows).
  assert (Hset : settled d (with_sides (insert fh (set_rs_windows w r)) d)).
  { apply settled_windows; [done|]. intros G st HG. by apply retire_windows, promote_windows. }
  destruct (match rs_mime_ct r with Some _ => _ | None => _ end) as [a|] eqn:Ep.
  { destruct (rs_mime_ct r) as [ct|]; [|done]. cbn in Hn. destruct ((off =? 0) && _); [done|].
    destruct (m_offline _) eqn:Eoff; [|done]. injection Ep as <-. done. }
  destruct (l ← rs_local r; _) as [bs|] eqn:Ecb.
  { destruct (rs_local r) as [l|] eqn:El; [|done]. cbn in Ecb. destruct (rs_cache_fresh r) eqn:Ef; [|done].
    refine (cached_exact F (local_files d) l off sz _ bs Ho ltac:(lia) HF Hz _ Ecb).
    intros f Hf. apply (Hl eq_refl l); auto. }
  pose proof (Window.serve_spec F w (rd_streams d) off sz (file_size_of path d) Hw' Hs Hz) as Hsv.
  destruct (Window.serve _ _ _ _ _); done.
Qed.

Lemma from_file_cache_exact F fh off sz path d :
  0 ≤ off → 0 < sz → blen F ≤ u64_max → holds_server_copy F fh path d →
  match from_file_cache fh path off sz (file_size_of path d) d with
  | (Some bs, _) => bs = slice F off sz
  | (None, d') => d' = d
  end.
Proof.
  intros Ho Hs HF [Hz Hc]. unfold from_file_cache. destruct (rd_sides d !! fh) as [r|] eqn:Er; cbn; [|done].
  destruct (Hc r eq_refl) as [_ Hl]. destruct (rs_cache_fresh r); [|done].
  destruct (file_cache _ !! path) as [fc|] eqn:Ef; cbn; [|done]. destruct (local_files d !! fc_local_path fc) as [f|] eqn:Efl; cbn; [|done].
  destruct (0 <? _); [|done]. destruct (cached_bytes _ _ _ _ _) as [bs|] eqn:Ec; cbn; [|done].
  refine (cached_exact F (local_files d) (fc_local_path fc) off sz _ bs Ho ltac:(lia) HF Hz _ Ec).
  intros g Hg. apply (Hl eq_refl (fc_local_path fc)); [|done]. right. done.
Qed.

Lemma fetch_size_ge fh off sz fs sq d : 0 < sz → sz ≤ (fetch_size fh off sz fs sq d).1.
Proof. intros _. unfold fetch_size. destruct (rd_sides d !! fh); apply Z.le_max_l. Qed.

Lemma from_server_copy_exact F fh path off sz sq d :
  0 ≤ off → 0 < sz → blen F ≤ u64_max → sniffs fh off sz d = false → holds_server_copy F fh path d →
  match (from_server_copy fh path off sz (file_size_of path d) sq d).1 with
  | RData bs => bs = slice F off sz
  | RErr e => e = EACCES ∧ m_offline (rd_mount d) = true
  | RWait _ => True
  | RFetch n => sz ≤ n
  | RPanic => blen F ≤ off
  end.
Proof.
  intros Ho Hs HF Hn Hc. unfold from_server_copy.
  pose proof (from_handle_exact F fh off sz path sq d Ho Hs HF Hn Hc) as Hh.
  destruct (from_handle _ _ _ _ _ _) as [[[]|] d2]; cbn [fst]; try done.
  assert (Hc2 : holds_server_copy F fh path d2).
  { pose proof (settled_server_copy F fh path d d2 Hh Hc). done. }
  assert (Hfs : file_size_of path d2 = file_size_of path d) by (unfold file_size_of; by destruct Hh as [-> _]).
  pose proof (from_file_cache_exact F fh off sz path d2 Ho Hs HF Hc2) as Hf. rewrite Hfs in Hf.
  destruct (from_file_cache _ _ _ _ _ _) as [[bs|] d3]; cbn [fst]; [done|].
  pose proof (fetch_size_ge fh off sz (file_size_of path d) sq d3 Hs) as Hg. by destruct (fetch_size _ _ _ _ _ _).
Qed.

(** C9: READ gives the file as it stands.  Whatever source it takes, the bytes it answers are
    exactly the file's, where the file is, newest first, what open handles wrote to it and did
    not commit, an upload still queued, and the server's; a cached copy cut short or a window
    not filled is never given for the end of the file.  While something newer than the
    server's copy is here, a READ is never answered from the cache, the windows or the
    network: it fails with EIO if the bytes cannot be had. *)
Theorem read_exact F mid after now_ms ino fh off sz path d :
  get_path (m_cache (rd_mount d)) ino = Some path → path ≠ trackerignore_path →
  0 ≤ off → 0 < sz → blen F ≤ u64_max → sniffs fh off sz d = false → current F mid after fh ino path d →
  match (read mono mid after now_ms ino fh off sz d).1 with
  | RData bs => bs = slice F off sz
  | RErr e => e = EIO ∨ (¬ newer_copy fh ino path d ∧ e = EACCES ∧ m_offline (rd_mount d) = true)
  | RWait _ => ¬ newer_copy fh ino path d
  | RFetch n => ¬ newer_copy fh ino path d ∧ sz ≤ n
  | RPanic => ¬ newer_copy fh ino path d ∧ blen F ≤ off
  end.
Proof.
  intros Hp Ht Ho Hs HF Hn Hc. unfold read. rewrite Hp, bool_decide_eq_false_2 by done.
  destruct (note_position _ _ _ _ _) as [sq d1] eqn:E1.
  assert (Hst : settled d d1).
  { change d1 with ((sq, d1).2). rewrite <- E1. eapply settled_trans; [apply sweep_settled|apply position_settled]. }
  pose proof Hst as (Hm & _ & _). rewrite <- Hm. fold (file_size_of path d1). fold (sniffs fh off sz d1).
  rewrite (settled_sniffs d d1), Hn by done. apply (settled_current F mid after fh ino path d d1 Hst) in Hc.
  assert (Hnew : newer_copy fh ino path d = newer_copy fh ino path d1).
  { unfold newer_copy, queued, local_files. by rewrite Hm, (settled_staged d d1). }
  rewrite Hnew. clear Hnew. assert (Hn1 : sniffs fh off sz d1 = false) by (by rewrite (settled_sniffs d d1)).
  destruct (default false _); [by left|].
  unfold from_staged, current, newer_copy in *.
  destruct (staged_source _ _ fh ino) as [[wp h]|] eqn:Es.
  { destruct (held_covers h off sz); cbn; [|by left]. destruct (mid !! wp) as [f|] eqn:Ef; cbn; [|by left].
    destruct (staged_source after _ fh ino) as [[wp' h']|] eqn:Ea; cbn; [|by left].
    destruct (held_covers h' off sz) eqn:Eh; cbn; [|by left].
    apply (covers_agrees h'); [done|lia|done|by eapply Hc|done]. }
  unfold from_queue, queued in *.
  assert (Hno : ¬ (is_Some (@None (PathBuf * Held)) ∨ is_Some (@None (PendingUpload * LocalFile)))) by (by intros [[]|[]]).
  pose proof (λ Hcp, from_server_copy_exact F fh path off sz sq d1 Ho Hs HF Hn1 Hcp) as Hx.
  destruct (pending_upload path (m_journal (rd_mount d1))) as [p|] eqn:Ep; cbn [mbind option_bind] in Hc |- *.
  - destruct (queued_source false off sz (Some p)) as [[file at_]|] eqn:Eqs; [|by left].
    assert (file = Some (match p with Staged sp => sp | StreamTail tail _ _ _ => tail end)) as ->.
    { destruct p; cbn in Eqs; [by injection Eqs as <- _|]. case_match; [done|]. by injection Eqs as <- _. }
    cbn [mbind option_bind]. destruct (local_files d1 !! _) as [f|] eqn:Ef; cbn [mbind option_bind fmap option_fmap option_map] in Hc |- *.
    + cbn. destruct (queued_exact F off sz p (lf_bytes f) _ _ Ho ltac:(lia) HF Hc Eqs) as [[_ H]|]; [done|lia].
    + specialize (Hx Hc). destruct (from_server_copy _ _ _ _ _ _ _).1; tauto.
  - cbn [queued_source mbind option_bind fmap option_fmap option_map]. specialize (Hx Hc). destruct (from_server_copy _ _ _ _ _ _ _).1; tauto.
Qed.
End exact.

(** ** Reading back what is being written *)

Section written.
Context (CHUNK : Z) (u : string).
Hypothesis HCHUNK : 0 < CHUNK.
Implicit Types w : Writer.
Local Abbreviation chunk_upload := ChunkUpload.chunk_upload.
Local Abbreviation upload_failed := ChunkUpload.upload_failed.

(** What runs beside a READ: the uploader, and a session being closed, frozen or thawed.
    Writes and resizes of the file hold its inode exclusively ([Dispatch]). *)
Inductive ustep w : Writer → Prop :=
| u_begin cs : chunk_upload w = Some cs → job w = Some Queued → ustep w (job_begin w cs)
| u_read cs i from b :
    chunk_upload w = Some cs → job w = Some (Sending i from None) → job_read CHUNK w from = Some b →
    ustep w (with_session w (Some cs) (Some (Sending i from (Some b))))
| u_land i from b :
    job w = Some (Sending i from (Some b)) →
    ustep w {| file := file w; staging := staging w; ChunkUpload.total_written := ChunkUpload.total_written w; ChunkUpload.stream_eligible := ChunkUpload.stream_eligible w;
               ChunkUpload.chunk_upload := chunk_upload w; ChunkUpload.upload_failed := upload_failed w; job := job w;
               server := store_chunk u i b (server w) |}
| u_sent cs i from b room ok :
    chunk_upload w = Some cs → job w = Some (Sending i from (Some b)) → session (server w) u !! i = Some b →
    ustep w (job_sent CHUNK room ok w cs from)
| u_failed cs i from c : chunk_upload w = Some cs → job w = Some (Sending i from c) → ustep w (job_failed w cs)
| u_close cs : chunk_upload w = Some cs → ustep w (with_session w (Some (set_pump cs (close (pump cs)))) (job w))
| u_freeze cs : chunk_upload w = Some cs → ustep w (with_session w (Some (set_pump cs (ChunkUpload.freeze (pump cs)))) (job w))
| u_thaw cs : chunk_upload w = Some cs → ustep w (with_session w (Some (set_pump cs (thaw (pump cs)))) (job w)).

Lemma ustep_wstep w w' : ustep w w' → wstep CHUNK u w w'.
Proof.
  destruct 1; [by apply w_begin|by eapply w_read|by eapply w_land|by eapply w_sent|by eapply w_failed|by apply w_close|by apply w_freeze|by apply w_thaw].
Qed.

(** The hole only grows, and nothing else of the handle changes. *)
Definition hole_grows w w' : Prop :=
  file w' = file w ∧ upload_failed w' = upload_failed w ∧
  option_Forall2 (λ c c', head c' = head c ∧ punching (pump c') = punching (pump c) ∧ bytes_confirmed (pump c) ≤ bytes_confirmed (pump c'))
    (chunk_upload w) (chunk_upload w').
Lemma hole_grows_refl w : hole_grows w w.
Proof. split_and!; [done..|]. destruct (chunk_upload w); by constructor. Qed.
Lemma hole_grows_trans w1 w2 w3 : hole_grows w1 w2 → hole_grows w2 w3 → hole_grows w1 w3.
Proof.
  intros (H1 & H2 & H3) (H4 & H5 & H6). split_and!; [congruence..|].
  destruct H3 as [c1 c2 Hc|]; inversion H6 as [c3 c4 Hc'|]; subst; constructor. destruct Hc as (? & ? & ?), Hc' as (? & ? & ?). split_and!; congruence || lia.
Qed.

Lemma kick_fields room held p : let q := (kick_chunk_pump room held p).1 in
  punching q = punching p ∧ bytes_confirmed q = bytes_confirmed p.
Proof. unfold kick_chunk_pump. repeat case_goal; done. Qed.
Lemma job_end_grows room w w0 cs p :
  file w0 = file w → upload_failed w0 = upload_failed w → chunk_upload w = Some cs → punching p = punching (pump cs) →
  bytes_confirmed (pump cs) ≤ bytes_confirmed p → hole_grows w (job_end room w0 cs p).
Proof.
  intros Hf Hu Hc Hp Hb. unfold job_end. pose proof (kick_fields room true p) as [H1 H2]. destruct (kick_chunk_pump room true p) as [q b].
  cbn [fst] in H1, H2. split_and!; [done|done|]. rewrite Hc. cbn. constructor. cbn. rewrite H1, H2. by split_and!.
Qed.
Lemma ustep_grows w w' : ustep w w' → hole_grows w w'.
Proof.
  destruct 1 as [cs Hc _|cs i from b Hc _ _|i from b _|cs i from b room ok Hc _ _|cs i from c Hc _|cs Hc|cs Hc|cs Hc];
    try (split_and!; [done|done|]; cbn; rewrite Hc; constructor; cbn; split_and!; [done|by cbn|by cbn]).
  - unfold job_begin. destruct (_ || _); (split_and!; [done|done|]; cbn; rewrite Hc; constructor; done).
  - split_and!; [done|done|]. cbn. destruct (chunk_upload w); by constructor.
  - unfold job_sent. destruct (closed (pump cs)); (apply job_end_grows; try done). cbn. lia.
  - by apply job_end_grows.
  - split_and!; [done|done|]. cbn. rewrite Hc. constructor. unfold thaw. destruct (frozen (pump cs)); split_and!; try done; cbn; lia.
Qed.
Lemma usteps_grow w w' : rtc ustep w w' → hole_grows w w'.
Proof.
  induction 1 as [w|w1 w2 w3 Hs _ IH]; [apply hole_grows_refl|]. eapply hole_grows_trans; [by apply ustep_grows|done].
Qed.

(** The staging file as it was read, against the hole as it is afterwards. *)
Lemma staged_agrees w w' :
  writer_ok CHUNK u w → rtc ustep w w' → upload_failed w' = false → agrees (held_of (chunk_upload w')) (staging w) (file w).
Proof.
  intros Hok (Hf & Hu & Hg)%usteps_grow Hnf. destruct Hok as [|Hok]; [congruence|].
  destruct Hg as [c c' (Hh & Hp & Hb)|].
  - destruct Hok as (Hhead & _ & Hl & Hc1 & _ & _ & Hst & _). unfold held_of. rewrite Hp. destruct (punching (pump c)) eqn:E; cbn.
    + split_and!; [cbn; lia|done|]. intros i Hi. cbn in Hi. apply Hst. right. lia.
    + split_and!; [done|done|]. intros i _. apply Hst. by left.
  - destruct Hok as [-> _]. by split_and!.
Qed.
End written.

Lemma only_usable_writer (hs : gmap nat OpenFile) fh o (matching : nat → OpenFile → bool) :
  hs !! fh = Some o → Mount.dirty o = true → Mount.upload_failed o = false → matching fh o = true →
  (∀ k o', matching k o' = true → k = fh) → newest_usable_writer hs matching = Some (fh, o).
Proof.
  intros Ho Hd Hu Hm Hk. unfold newest_usable_writer.
  assert (Hin : (fh, o) ∈ map_to_list hs) by (by apply elem_of_map_to_list).
  assert (Hall : ∀ q, q ∈ map_to_list hs → matching q.1 q.2 = true → q = (fh, o)).
  { intros [k o'] Hq Hmq. pose proof (Hk _ _ Hmq). cbn in *. subst. apply elem_of_map_to_list in Hq. congruence. }
  revert Hin Hall. generalize (map_to_list hs) as l.
  cut (∀ l b, (b = None ∨ b = Some (fh, o)) → (b = None → (fh, o) ∈ l) → (∀ q, q ∈ l → matching q.1 q.2 = true → q = (fh, o)) →
    foldl (λ best q, if dirty q.2 && negb (upload_failed q.2) && matching q.1 q.2
      then match best with Some b => if (b.1 <? q.1)%nat then Some q else best | None => Some q end else best) b l = Some (fh, o)).
  { intros H l Hin Hall. apply H; auto. }
  induction l as [|q l IH]; intros b Hb Hin Hall; cbn [foldl].
  - destruct Hb as [->| ->]; [|done]. by apply elem_of_nil in Hin.
  - destruct (dirty q.2 && negb (upload_failed q.2) && matching q.1 q.2) eqn:E.
    + apply andb_true_iff in E as [_ E]. assert (q = (fh, o)) as -> by (apply Hall; [left|done]).
      apply IH; [| |intros; apply Hall; [by right|done]].
      * right. destruct Hb as [->| ->]; [done|]. by destruct (_ <? _)%nat.
      * destruct Hb as [->| ->]; [done|]. by destruct (_ <? _)%nat.
    + apply IH; [done| |intros; apply Hall; [by right|done]]. intros ->. pose proof (Hin eq_refl) as [<-|Hx]%elem_of_cons; [|done].
       cbn in E. by rewrite Hd, Hu, Hm in E.
Qed.

Lemma own_source hs sides fh ino o wp :
  hs !! fh = Some o → Mount.dirty o = true → Mount.upload_failed o = false → write_path o = Some wp →
  staged_source hs sides fh ino = Some (wp, held_of (cs <$> Mount.chunk_upload o)).
Proof.
  intros Ho Hd Hu Hw. unfold staged_source. rewrite (only_usable_writer _ fh o); [|done|done|done| |].
  - unfold source. cbn. by rewrite Hw.
  - by rewrite Nat.eqb_refl, Hw, bool_decide_eq_true_2.
  - intros k o' Hk. bool_prop. done.
Qed.


(** ** Witnesses *)

Definition rx_entry : RemoteEntry :=
  {| e_path := ["f"%string]; e_is_dir := false; e_size := 3; e_modified := None; e_change_token := None; e_content_type := None;
     e_ext := ext_default |}.
Definition rx_cache : FsCache :=
  Build_FsCache {[2%nat := ["f"%string]]} {[["f"%string] := 2%nat]} 3
    {[root := Build_DirCacheEntry [rx_entry] None None 0 0 false false false None 0]} 0 ∅
    {[["f"%string] := {| fc_local_path := ["copy"%string]; fc_remote_modified := None; fc_etag := None; fc_kept := false; fc_size := 3 |}]}
    ∅ ∅ ∅ false 0.
Definition rx_handle (wp : option PathBuf) (dirty : bool) (session : option Stream) : OpenFile :=
  {| remote_path := ["f"%string]; write_path := wp; Mount.dirty := dirty; original_etag := None; Mount.total_written := 6;
     Mount.stream_eligible := false; Mount.chunk_upload := session; of_ino := 2; io_kind := KCached; Mount.upload_failed := false;
     Mount.created := false; unlinked := false; opened_gen := 0; pin := {| pin_etag := None; pin_frozen := false |} |}.
Definition rx_side : ReadSide :=
  Build_ReadSide (Some ["copy"%string]) true None 0 0 (Build_Windows READ_AHEAD_INITIAL None None None 0 false) false.
Definition rx_reader (o : OpenFile) (local : bytes) : Reader (W := unit) :=
  {| rd_mount := Build_Mount (Build_RState (load_or_create 0 ["cache"%string]
         (Build_Disk (Some []) None {[ ["copy"%string] := Build_LocalFile local 0 ]} true)) rx_cache ∅ ∅ [] tt)
       ∅ ∅ ∅ ∅ ∅ {[1%nat := o]} 2 ∅ no_uploads ∅ ∅ false PathSeq.init [];
     rd_sides := {[1%nat := rx_side]}; rd_streams := λ _, Window.new_stream [] [] 0; rd_mem := Build_Memory 0 []; rd_sweep := 0;
     rd_ahead := 0 |}.
Definition rx_file : bytes := [Byte.x01; Byte.x02; Byte.x03].
Local Abbreviation rx_read o local off sz := (read (λ _, 0) ∅ ∅ 0 2 1 off sz (rx_reader o local)).1.

(** The whole cached copy is read; one cut short after two bytes is not taken for the file. *)
Lemma read_exact_witness :
  rx_read (rx_handle None false None) rx_file 1 2 = RData [Byte.x02; Byte.x03] ∧
  [Byte.x02; Byte.x03] = slice rx_file 1 2 ∧
  rx_read (rx_handle None false None) [Byte.x01; Byte.x02] 1 2 = RFetch READ_AHEAD_INITIAL.
Proof.
  split; [by vm_compute|]. split; [|by vm_compute].
  pose proof (read_exact (λ _ : unit, 0) rx_file ∅ ∅ 0 2 1 1 2 ["f"%string] (rx_reader (rx_handle None false None) rx_file)) as H.
  assert (E : rx_read (rx_handle None false None) rx_file 1 2 = RData [Byte.x02; Byte.x03]) by (by vm_compute).
  rewrite E in H. apply H; [by vm_compute|done|done|done|by vm_compute|by vm_compute|].
  unfold current. replace (staged_source _ _ _ _) with (@None (PathBuf * Held)) by (by vm_compute).
  replace (queued _ _) with (@None (PendingUpload * LocalFile)) by (by vm_compute).
  split; [right; by vm_compute|]. intros r Hr. cbn in Hr. rewrite lookup_singleton_eq in Hr. injection Hr as <-.
  split; [by intros b [?|[?|?]]|]. intros _ l f Hl Hf.
  assert (l = ["copy"%string]) as -> by (destruct Hl as [Hl|Hl]; vm_compute in Hl; by injection Hl).
  vm_compute in Hf. injection Hf as <-. by exists [].
Defined.


(** The pinned verdict does not pin the copy: a fresh copy installed over the old one (here by
    another handle's download) is read by a handle that has read the old one, and the two
    READs give a file that never was. *)
Lemma cached_copy_swapped :
  rx_read (rx_handle None false None) rx_file 0 2 = RData [Byte.x01; Byte.x02] ∧
  rx_read (rx_handle None false None) [Byte.x11; Byte.x12; Byte.x13] 2 1 = RData [Byte.x13].
Proof. by vm_compute. Qed.
