(* ===== verification/Open.v ===== *)
(** [lib.rs], OPEN: who may open a file how, what a handle opened for writing starts from, and
    the kernel I/O mode it gets.

    Others run while open() waits for a streamed upload of the path to finish: [polls] is what
    runs during each of its 100 ms sleeps, up to the deadline or until the mount goes offline.
    The requesting process is an input: whether it is a thumbnailer, and the probe its flags
    show.  [download] is a GET of the whole file; [disk_ok], whether the staging file can be
    written. *)
From Stdlib Require Import Ascii String.
From S2P Require Import Prelude Paths Backend Server FsCache Journal Replay StreamFinish ChunkUpload Versions AppLocks Attr IoMode Mount Throttle ReadAhead Read.
From S2P Require Import LiveUpload Namespace.
From S2P Require Window.
Local Open Scope Z_scope.

Definition O_WRONLY : Z := 1.
Definition O_RDWR : Z := 2.
Definition O_TRUNC : Z := 0x200.
Definition O_APPEND : Z := 0x400.
Definition EBUSY : Z := 16.

Inductive OpenReply := Opened (fh : nat) (g : IoGrant (B := nat)) | OpenError (errno : Z).

(** What the process that opens is known by. *)
Record Opener := { op_thumbnailer : bool; op_probe : option Z }.

Section open.
Context {W : Type} `{CloudBackend W} (clock : W → Z) (mono : W → Instant) (honor_locks streams_on : bool)
  (download : PathBuf → call W (result (bytes * option Etag) string)).
Implicit Types m : Mount W.
Implicit Types d : Reader (W := W).

(** [op_capable]: [passthrough_capable] and [passthrough_enabled]. *)
Record Opens := { op_reader : Reader (W := W); op_capable : bool }.
Definition on_rd_mount (f : Mount W → Mount W) d : Reader :=
  {| rd_mount := f (rd_mount d); rd_sides := rd_sides d; rd_streams := rd_streams d; rd_mem := rd_mem d; rd_sweep := rd_sweep d;
     rd_ahead := rd_ahead d |}.
Definition fs_of m : Files := files (disk (m_journal m)).

(** What open() looks up first. *)
Record Found := {
  fo_path : PathBuf; fo_local : option PathBuf; fo_local_etag : option Etag; fo_etag : option Etag;
  fo_permissions : option string; fo_size : Z; fo_locked : bool;
}.
(* lib.rs:7167-7193 open *)
Definition find_file (path : PathBuf) m : Found * Mount W :=
  let cached := fc ← file_cache (m_cache m) !! path;
                f ← fs_of m !! fc_local_path fc;
                if 0 <? blen (lf_bytes f) then Some fc else None in
  let '(files, c) := get_cached_dir_readonly (m_cache m) (parent_or_root path) in
  let e := files ≫= find (has_path path) in
  ({| fo_path := path; fo_local := fc_local_path <$> cached; fo_local_etag := cached ≫= fc_etag;
      fo_etag := e ≫= e_change_token; fo_permissions := e ≫= (λ e, permissions (e_ext e));
      fo_size := default 0 (e_size <$> e);
      fo_locked := bool_decide (is_Some (e ≫= (λ e, locked_by (e_ext e)))) && honor_locks && negb (holds (m_locks m) path) |},
   upd_cache (λ _, c) m).

Definition writable_flags (flags : Z) : bool := negb (Z.land flags (Z.lor O_WRONLY (Z.lor O_RDWR O_APPEND)) =? 0).
Definition truncating_flags (flags : Z) : bool := writable_flags flags && negb (Z.land flags O_TRUNC =? 0).
(* lib.rs:7205-7210 open *)
Definition read_only_file (fo : Found) : bool :=
  (Z.land (perms_to_mode (fo_permissions fo) false) 128 =? 0) && bool_decide (is_Some (fo_permissions fo)).

Definition unlock_entry (path : PathBuf) (e : RemoteEntry) : RemoteEntry :=
  if has_path path e then
    {| e_path := e_path e; e_is_dir := e_is_dir e; e_size := e_size e; e_modified := e_modified e; e_change_token := e_change_token e;
       e_content_type := e_content_type e;
       e_ext := Build_EntryExtensions (permissions (e_ext e)) (owner_id (e_ext e)) (owner_display_name (e_ext e)) (fileid (e_ext e))
                  (has_preview (e_ext e)) (is_shared (e_ext e)) None |}
  else e.
(** The first entry of the path, [iter_mut().find]. *)
Fixpoint unlock_first (path : PathBuf) (l : list RemoteEntry) : list RemoteEntry :=
  match l with [] => [] | e :: l => if has_path path e then unlock_entry path e :: l else e :: unlock_first path l end.

(** A file locked by someone else is asked about again: the listing may hold an old lock. *)
(* lib.rs:7212-7242 open *)
Definition still_locked (fo : Found) m : bool * Mount W :=
  if negb (fo_locked fo) then (false, m)
  else if m_offline m then (true, m)
  else
    let '(r, w) := list_dir (fo_path fo) (m_world m) in
    let m := log_world w m in
    match r with
    | Ok (_, Some now, _) =>
        if bool_decide (is_Some (locked_by (e_ext now))) then (true, m)
        else (false, upd_cache (upd_listing (parent_or_root (fo_path fo)) (unlock_first (fo_path fo))) m)
    | _ => (true, m)
    end.

(** The guards; [None]: go on. *)
(* lib.rs:7193-7263 open *)
Definition refusal (flags : Z) (who : Opener) (fo : Found) m : option Z * Mount W :=
  let writable := writable_flags flags in
  if writable && bool_decide (fo_path fo = trackerignore_path) then (Some EACCES, m)
  else if writable && read_only_file fo then (Some EACCES, m)
  else
    let '(locked, m) := if writable then still_locked fo m else (false, m) in
    if locked then (Some EACCES, m)
    else if negb writable && bool_decide (fo_local fo = None) && op_thumbnailer who then (Some EACCES, m)
    else (None, m).

(** *** The staging file *)

Definition is_tail (p : option PendingUpload) : bool := match p with Some (StreamTail _ _ _ _) => true | _ => false end.
(* lib.rs:7296-7313 open *)
Fixpoint wait_streamed (path : PathBuf) (polls : list (Mount W → Mount W)) m : option PendingUpload * Mount W :=
  let pending := pending_upload path (m_journal m) in
  match polls with
  | poll :: polls => if is_tail pending && negb (m_offline m) then wait_streamed path polls (poll m) else (pending, m)
  | [] => (pending, m)
  end.

Definition put_local (p : PathBuf) (b : bytes) m : Mount W :=
  upd_j (λ j, set_files j (<[p := Build_LocalFile b (now_system clock m)]> (files (disk j)))) m.
Definition drop_local (p : PathBuf) m : Mount W := upd_j (λ j, set_files j (delete p (files (disk j)))) m.
Definition copy_local (from to : PathBuf) m : result unit string * Mount W :=
  match fs_of m !! from with
  | Some f => (Ok tt, put_local to (lf_bytes f) m)
  | None => (Err "copy"%string, m)
  end.
Definition serve_version (path : PathBuf) (e : Etag) : Mount W → Mount W :=
  upd_uploads (λ u, {| committed := committed u; gen := gen u; versions := serve (versions u) path e |}).

(** How the staging file came to be: was it seeded with the file's content, and the version
    that is, when it was fetched. *)
Record Stage := { sg_seeded : bool; sg_etag : option Etag }.

(* lib.rs:7318-7343 open *)
Definition stage_content (disk_ok : bool) (truncating landed cache_fresh : bool) (pending : option PathBuf) (fo : Found) (wp : PathBuf) m :
    result Stage string * Mount W :=
  let bad := (Err "io"%string, m) in
  if truncating then if disk_ok then (Ok {| sg_seeded := false; sg_etag := fo_etag fo |}, put_local wp [] m) else bad
  else match pending, (if cache_fresh then fo_local fo else None) with
  | Some sp, _ =>
      if disk_ok then let '(r, m) := copy_local sp wp m in (map_ok (λ _, {| sg_seeded := true; sg_etag := fo_etag fo |}) r, m) else bad
  | None, Some local =>
      let m := match fo_local_etag fo with Some e => serve_version (fo_path fo) e m | None => m end in
      if disk_ok then let '(r, m) := copy_local local wp m in (map_ok (λ _, {| sg_seeded := true; sg_etag := fo_etag fo |}) r, m)
      else (Err "io"%string, m)
  | None, None =>
      if (0 <? fo_size fo) || landed then
        if negb disk_ok then bad
        else
          let '(r, w) := download (fo_path fo) (m_world m) in
          let m := log_world w m in
          match r with
          | Ok (b, got) =>
              let m := put_local wp b m in
              let m := match got with Some e => serve_version (fo_path fo) e m | None => m end in
              (Ok {| sg_seeded := true; sg_etag := match got with Some e => Some e | None => fo_etag fo end |}, m)
          | Err e => (Err e, m)
          end
      else (Ok {| sg_seeded := false; sg_etag := fo_etag fo |}, m)
  end.

(** [Err]: the open is refused, and nothing stays staged. *)
(* lib.rs:7282-7352 open *)
Definition stage (disk_ok truncating cache_fresh : bool) (polls : list (Mount W → Mount W)) (fo : Found) (wp : PathBuf) m :
    result Stage Z * Mount W :=
  let pending := pending_upload (fo_path fo) (m_journal m) in
  let waits := negb truncating && is_tail pending in
  let '(pending, m) := if waits then wait_streamed (fo_path fo) polls m else (pending, m) in
  if waits && is_tail pending then (Err EBUSY, drop_local wp m)
  else
    let staged := match pending with Some (Staged sp) => Some sp | _ => None end in
    let '(r, m) := stage_content disk_ok truncating waits cache_fresh staged fo wp m in
    match r with
    | Ok s => (Ok s, m)
    | Err _ => (Err EIO, drop_local wp m)
    end.

(** *** The handle *)

(** The probe the process's flags show, when the file is not here; and the content type its
    READs are answered from. *)
(* lib.rs:7364-7396 open *)
Definition mime_probe (writable : bool) (who : Opener) (fo : Found) m : option (string * Z) * Mount W :=
  match op_probe who with
  | Some max_read =>
      if negb writable && bool_decide (fo_local fo = None) then
        let '(files, c) := get_cached_dir_readonly (m_cache m) (parent_or_root (fo_path fo)) in
        let ct := (files ≫= find (has_path (fo_path fo))) ≫= e_content_type in
        (Some (default "application/octet-stream"%string ct, max_read), upd_cache (λ _, c) m)
      else (None, m)
  | None => (None, m)
  end.

(** [backing]: the cached copy's identity and what registering it gives. *)
(* lib.rs:7404-7433 open *)
Definition io_grant (writable mime cache_fresh : bool) (backing : option (FileId * result nat unit)) (ino : nat) (fo : Found) (capable : bool) m :
    IoGrant (B := nat) * bool * Mount W :=
  if mime then (GDirectIo, capable, m)
  else
    let passthrough := if negb writable && cache_fresh && capable && bool_decide (is_Some (fo_local fo)) then backing else None in
    let '(grant, err, io) := IoMode.acquire (m_io m) ino passthrough in
    (grant, capable && bool_decide (err = None), with_fh (m_next_fh m) io m).

(* lib.rs:7443-7482 open *)
Definition opened_file (ino : nat) (fo : Found) (wp : option PathBuf) (seeded truncating cache_fresh : bool) (etag : option Etag)
    (mime : option (string * Z)) (k : IoKind) (g : Z) : OpenFile * ReadSide :=
  let pinned := if cache_fresh && bool_decide (is_Some (fo_local fo)) then fo_local_etag fo else None in
  ({| remote_path := fo_path fo; write_path := wp; Mount.dirty := truncating; original_etag := etag; Mount.total_written := 0;
      Mount.stream_eligible := streams_on && negb seeded; Mount.chunk_upload := None; of_ino := ino; io_kind := k;
      Mount.upload_failed := false; Mount.created := false; unlinked := false; opened_gen := g;
      pin := {| pin_etag := pinned; pin_frozen := false |} |},
   {| rs_local := fo_local fo; rs_cache_fresh := cache_fresh; rs_mime_ct := fst <$> mime; rs_mime_max := default 0 (snd <$> mime);
      rs_next_off := 0; rs_windows := Build_Windows READ_AHEAD_INITIAL None None None 0 false;
      rs_staged_whole := seeded || truncating |}).

(** From the accepted open on: [fh] is its handle. *)
(* lib.rs:7265-7500 open *)
Definition open_handle_on (disk_ok : bool) (polls : list (Mount W → Mount W)) (backing : option (FileId * result nat unit))
    (ino : nat) (flags : Z) (who : Opener) (fo : Found) (s : Opens) : OpenReply * Opens :=
  let m := rd_mount (op_reader s) in
  let writable := writable_flags flags in
  let fh := m_next_fh m in
  let m := with_fh (S fh) (m_io m) m in
  let path := fo_path fo in
  let cache_fresh := file_cache_matches_remote (m_cache m) path && bool_decide (pending_upload path (m_journal m) = None) in
  let wp := staging_path m fh in
  let '(r, m) := if writable then stage disk_ok (truncating_flags flags) cache_fresh polls fo wp m
                 else (Ok {| sg_seeded := false; sg_etag := fo_etag fo |}, m) in
  match r with
  | Err e => (OpenError e, {| op_reader := on_rd_mount (λ _, m) (op_reader s); op_capable := op_capable s |})
  | Ok sg =>
      let '(mime, m) := mime_probe writable who fo m in
      let '(grant, capable, m) := io_grant writable (bool_decide (is_Some mime)) cache_fresh backing ino fo (op_capable s) m in
      let '(o, side) := opened_file ino fo (if writable then Some wp else None) (sg_seeded sg) (truncating_flags flags) cache_fresh
                          (sg_etag sg) mime (grant_kind grant) (generation (m_uploads m)) in
      let m := match pin_etag (pin o) with Some e => serve_version path e m | None => m end in
      let m := upd_files (insert fh o) (λ g, g) m in
      (Opened fh grant,
       {| op_reader := with_sides (insert fh side) (on_rd_mount (λ _, m) (op_reader s)); op_capable := capable |})
  end.

(* lib.rs:7166-7500 open *)
Definition open_ (disk_ok : bool) (polls : list (Mount W → Mount W)) (backing : option (FileId * result nat unit)) (ino : nat) (flags : Z)
    (who : Opener) (s : Opens) : OpenReply * Opens :=
  let m := rd_mount (op_reader s) in
  match get_path (m_cache m) ino with
  | None => (OpenError ENOENT, s)
  | Some path =>
      let '(fo, m) := find_file path m in
      let '(r, m) := refusal flags who fo m in
      let s := {| op_reader := on_rd_mount (λ _, m) (op_reader s); op_capable := op_capable s |} in
      match r with
      | Some e => (OpenError e, s)
      | None => open_handle_on disk_ok polls backing ino flags who fo s
      end
  end.
End open.

(** ** Theorems *)

Section current.
Context {W : Type} `{CloudBackend W} (clock : W → Z) (honor_locks streams_on : bool)
  (download : PathBuf → call W (result (bytes * option Etag) string)).
Implicit Types m : Mount W.

Local Abbreviation find_file := (find_file honor_locks).
Local Abbreviation stage := (stage clock download).

Lemma find_file_frame path m fo m1 : find_file path m = (fo, m1) →
  fo_path fo = path ∧ fs_of m1 = fs_of m ∧ m_journal m1 = m_journal m ∧ m_files m1 = m_files m ∧ m_next_fh m1 = m_next_fh m ∧
  ∀ lp, fo_local fo = Some lp → is_Some (fs_of m !! lp).
Proof.
  unfold Open.find_file. destruct (get_cached_dir_readonly _ _) as [l c]. intros [= <- <-]. split_and!; try done. cbn. intros lp.
  destruct (file_cache _ !! path) as [fc|]; [cbn|done]. destruct (fs_of m !! fc_local_path fc) as [f|] eqn:E; [cbn|done].
  destruct (0 <? _); [|done]. intros [= <-]. by exists f.
Qed.

Lemma still_locked_frame fo m : let m' := (still_locked fo m).2 in
  m_journal m' = m_journal m ∧ m_files m' = m_files m ∧ m_next_fh m' = m_next_fh m ∧ file_cache (m_cache m') = file_cache (m_cache m).
Proof.
  unfold still_locked. destruct (negb _); [done|]. destruct (m_offline m); [done|].
  destruct (list_dir _ _) as [[[[l [e|]] t]|err] w]; try done. destruct (bool_decide _); [done|]. cbn [snd]. split_and!; try done.
  change (file_cache (upd_listing (parent_or_root (fo_path fo)) (unlock_first (fo_path fo)) (m_cache m)) = file_cache (m_cache m)).
  unfold upd_listing. by case_match.
Qed.

Lemma refusal_frame flags who fo m r m' : refusal flags who fo m = (r, m') →
  m_journal m' = m_journal m ∧ m_files m' = m_files m ∧ m_next_fh m' = m_next_fh m ∧ file_cache (m_cache m') = file_cache (m_cache m).
Proof.
  unfold refusal. pose proof (still_locked_frame fo m) as Hf. destruct (still_locked fo m) as [lk m1].
  intros Hr. repeat (case_match; simplify_eq/=; try done).
Qed.

(** What the file's queued upload holds is [F], and nothing is staged under the handle's name. *)
Definition stands_for (F : bytes) (path wp : PathBuf) m : Prop :=
  fs_of m !! wp = None ∧
  ∀ sp, pending_upload path (m_journal m) = Some (Staged sp) → lf_bytes <$> fs_of m !! sp = Some F.

Lemma wait_stands F path wp polls : Forall (λ poll, ∀ m, stands_for F path wp m → stands_for F path wp (poll m)) polls →
  ∀ m p m', stands_for F path wp m → wait_streamed path polls m = (p, m') →
  stands_for F path wp m' ∧ p = pending_upload path (m_journal m').
Proof.
  induction 1 as [|poll polls Hp Hps IH]; intros m p m' Hs; cbn [wait_streamed]; [by intros [= <- <-]|].
  destruct (_ && _); [|by intros [= <- <-]]. apply IH. by apply Hp.
Qed.

Lemma put_local_at p b m : lf_bytes <$> fs_of (put_local clock p b m) !! p = Some b.
Proof. cbn. by rewrite lookup_insert_eq. Qed.
Lemma copy_local_spec from to m r m' : copy_local clock from to m = (r, m') →
  match r with
  | Ok _ => lf_bytes <$> fs_of m' !! to = lf_bytes <$> fs_of m !! from ∧ is_Some (fs_of m !! from)
  | Err _ => fs_of m !! from = None
  end.
Proof.
  unfold copy_local. destruct (fs_of m !! from) as [f|] eqn:E; intros [= <- <-]; [|done]. split; [apply put_local_at|by exists f].
Qed.

Definition cannot_fetch (path : PathBuf) : Prop := ∃ w msg, (download path w).1 = Err msg.

Lemma stage_content_spec F disk_ok truncating landed fresh pending fo wp m :
  fs_of m !! wp = None →
  (∀ sp, pending = Some sp → lf_bytes <$> fs_of m !! sp = Some F) →
  (pending = None → landed = false → truncating = false → fo_size fo = blen F) →
  (∀ w b t w', download (fo_path fo) w = (Ok (b, t), w') → b = F) →
  (∀ lp, fresh = true → fo_local fo = Some lp → lf_bytes <$> fs_of m !! lp = Some F) →
  match stage_content clock download disk_ok truncating landed fresh pending fo wp m with
  | (Ok sg, m') =>
      default [] (lf_bytes <$> fs_of m' !! wp) = (if truncating then [] else F) ∧ (sg_seeded sg = false → truncating = true ∨ F = [])
  | (Err _, _) => disk_ok = false ∨ cannot_fetch (fo_path fo)
  end.
Proof.
  intros Hwp Hst Hsize Hdl Hlocal. unfold stage_content.
  destruct truncating; [destruct disk_ok; [|by left]; rewrite put_local_at; split; [done|by left]|].
  destruct pending as [sp|].
  { destruct disk_ok; [|by left]. destruct (copy_local _ _ _ _) as [r m'] eqn:Hc. apply copy_local_spec in Hc.
    specialize (Hst sp eq_refl). destruct r; [|by rewrite Hc in Hst]. cbn [map_ok]. destruct Hc as [-> _]. rewrite Hst. by split. }
  destruct (if fresh then fo_local fo else None) as [lp|] eqn:Hl.
  { destruct fresh; [|done]. specialize (Hlocal lp eq_refl Hl). destruct disk_ok; [|by left].
    set (m2 := match fo_local_etag fo with Some e => _ | None => _ end).
    assert (Hm2 : fs_of m2 = fs_of m) by (unfold m2; by case_match).
    destruct (copy_local _ _ _ _) as [r m'] eqn:Hc. apply copy_local_spec in Hc. rewrite Hm2 in Hc.
    destruct r; [|by rewrite Hc in Hlocal]. cbn [map_ok]. destruct Hc as [-> _]. rewrite Hlocal. by split. }
  destruct ((0 <? fo_size fo) || landed) eqn:Hsz; cbn [negb].
  - destruct disk_ok; cbn [negb]; [|by left]. destruct (download _ _) as [[[b got]|err] w] eqn:Hd.
    + apply Hdl in Hd as ->. assert (∀ x : Mount W, x = put_local clock wp F (log_world w m) → lf_bytes <$> fs_of x !! wp = Some F) as Hx.
      { intros x ->. apply put_local_at. }
      destruct got as [e|]; [rewrite (Hx _ eq_refl : lf_bytes <$> fs_of (serve_version _ _ _) !! wp = Some F)|rewrite Hx by done]; by split.
    + right. exists (m_world m), err. by rewrite Hd.
  - apply orb_false_iff in Hsz as [Hsz ->]. rewrite Hwp. cbn [fmap option_fmap option_map default]. rewrite Hsize in Hsz by done.
    assert (HF : F = []); [|by rewrite HF; split; [|right]]. apply Z.ltb_ge in Hsz. destruct F; [done|]. unfold blen in Hsz. cbn [length] in Hsz. lia.
Qed.

(** While the staging file is prepared the file is [F], whatever [polls] do. *)
Record held_still (F : bytes) (fresh : bool) (polls : list (Mount W → Mount W)) (fo : Found) (wp : PathBuf) m : Prop := {
  hs_here : stands_for F (fo_path fo) wp m;
  hs_polls : Forall (λ poll, ∀ m, stands_for F (fo_path fo) wp m → stands_for F (fo_path fo) wp (poll m)) polls;
  hs_size : pending_upload (fo_path fo) (m_journal m) = None → fo_size fo = blen F;
  hs_server : ∀ w b t w', download (fo_path fo) w = (Ok (b, t), w') → b = F;
  hs_local : ∀ lp, fresh = true → fo_local fo = Some lp → lf_bytes <$> fs_of m !! lp = Some F;
  hs_fresh : fresh = true → pending_upload (fo_path fo) (m_journal m) = None;
}.

Lemma stage_spec F disk_ok truncating fresh polls fo wp m : held_still F fresh polls fo wp m →
  match stage disk_ok truncating fresh polls fo wp m with
  | (Ok sg, m') =>
      default [] (lf_bytes <$> fs_of m' !! wp) = (if truncating then [] else F) ∧ (sg_seeded sg = false → truncating = true ∨ F = [])
  | (Err e, m') => fs_of m' !! wp = None ∧
      ((e = EBUSY ∧ truncating = false ∧ is_tail (pending_upload (fo_path fo) (m_journal m)) = true) ∨
       (e = EIO ∧ (disk_ok = false ∨ cannot_fetch (fo_path fo))))
  end.
Proof.
  intros [Hs Hps Hsize Hdl Hlocal Hfresh]. unfold Open.stage.
  set (waits := negb truncating && is_tail (pending_upload (fo_path fo) (m_journal m))).
  destruct (if waits then _ else _) as [p m1] eqn:Hw.
  assert (stands_for F (fo_path fo) wp m1 ∧ p = pending_upload (fo_path fo) (m_journal m1)) as [Hs1 ->].
  { destruct waits; [eapply wait_stands; eauto|by injection Hw as <- <-]. }
  assert (Hm1 : waits = false → m1 = m) by (destruct waits; [done|congruence]).
  destruct (waits && is_tail (pending_upload (fo_path fo) (m_journal m1))) eqn:Hb.
  { apply andb_true_iff in Hb as [Hb _]. unfold waits in Hb. apply andb_true_iff in Hb as [Ht Hb]. apply negb_true_iff in Ht.
    cbn. rewrite lookup_delete_eq. split; [done|]. left. by rewrite Ht, Hb. }
  set (pd := match pending_upload _ (m_journal m1) with Some (Staged sp) => Some sp | _ => None end).
  pose proof (stage_content_spec F disk_ok truncating waits fresh pd fo wp m1) as Hc. destruct Hs1 as [Hwp1 Hst1].
  assert (Hpd : ∀ sp, pd = Some sp → lf_bytes <$> fs_of m1 !! sp = Some F).
  { intros sp Hp. apply Hst1. unfold pd in Hp. destruct (pending_upload _ (m_journal m1)) as [[]|]; congruence. }
  assert (Hsz : pd = None → waits = false → truncating = false → fo_size fo = blen F).
  { intros Hp Hwt Ht. apply Hsize. unfold pd in Hp. rewrite (Hm1 Hwt) in Hp. unfold waits in Hwt. rewrite Ht in Hwt.
    by destruct (pending_upload _ (m_journal m)) as [[]|]. }
  assert (Hlc : ∀ lp, fresh = true → fo_local fo = Some lp → lf_bytes <$> fs_of m1 !! lp = Some F).
  { intros lp Hf. rewrite Hm1; [by apply Hlocal|]. unfold waits. rewrite Hfresh by done. apply andb_false_r. }
  specialize (Hc Hwp1 Hpd Hsz Hdl Hlc). destruct (stage_content _ _ _ _ _ _ _ _ _ _) as [[sg|err] m2]; [done|].
  cbn. rewrite lookup_delete_eq. split; [done|by right].
Qed.

Local Abbreviation open_handle_on := (open_handle_on clock streams_on download).
Local Abbreviation open_ := (open_ clock honor_locks streams_on download).

Lemma io_grant_frame writable mime fresh backing ino fo capable m g c m' :
  io_grant writable mime fresh backing ino fo capable m = (g, c, m') → fs_of m' = fs_of m ∧ m_files m' = m_files m.
Proof. unfold io_grant. destruct mime; [by intros [= _ _ <-]|]. destruct (IoMode.acquire _ _ _) as [[g0 err] io]. by intros [= _ _ <-]. Qed.

(** A handle opened for writing whose staging file holds [F], or nothing when it truncates. *)
Definition starts_from (F : bytes) (truncating : bool) (path wp : PathBuf) (fh : nat) m : Prop :=
  ∃ o, m_files m !! fh = Some o ∧ remote_path o = path ∧ write_path o = Some wp ∧
    default [] (lf_bytes <$> fs_of m !! wp) = (if truncating then [] else F) ∧
    (Mount.stream_eligible o = true → default [] (lf_bytes <$> fs_of m !! wp) = []) ∧
    Mount.dirty o = truncating ∧ Mount.total_written o = 0 ∧ Mount.chunk_upload o = None ∧ Mount.upload_failed o = false.

Definition fresh_copy (path : PathBuf) m : bool :=
  file_cache_matches_remote (m_cache m) path && bool_decide (pending_upload path (m_journal m) = None).

Lemma open_handle_current F disk_ok polls backing ino flags who fo (s : Opens) :
  let m := rd_mount (op_reader s) in let fh := m_next_fh m in let wp := staging_path m fh in
  writable_flags flags = true →
  held_still F (fresh_copy (fo_path fo) m) polls fo wp m →
  match open_handle_on disk_ok polls backing ino flags who fo s with
  | (Opened fh' g, s') => fh' = fh ∧ starts_from F (truncating_flags flags) (fo_path fo) wp fh (rd_mount (op_reader s'))
  | (OpenError e, s') => fs_of (rd_mount (op_reader s')) !! wp = None ∧
      ((e = EBUSY ∧ truncating_flags flags = false ∧ is_tail (pending_upload (fo_path fo) (m_journal m)) = true) ∨
       (e = EIO ∧ (disk_ok = false ∨ cannot_fetch (fo_path fo))))
  end.
Proof.
  intros m fh wp Hw Hs. unfold Open.open_handle_on. fold m fh. rewrite Hw.
  pose proof (stage_spec F disk_ok (truncating_flags flags) (fresh_copy (fo_path fo) m) polls fo wp (with_fh (S fh) (m_io m) m)) as Hst.
  specialize (Hst ltac:(destruct Hs; by constructor)).
  change (staging_path (with_fh (S fh) (m_io m) m) fh) with wp.
  change (file_cache_matches_remote (m_cache (with_fh (S fh) (m_io m) m)) (fo_path fo) &&
    bool_decide (pending_upload (fo_path fo) (m_journal (with_fh (S fh) (m_io m) m)) = None)) with (fresh_copy (fo_path fo) m).
  destruct (Open.stage _ _ _ _ _ _ _ _ _) as [[sg|e] m1]; [|exact Hst]. destruct Hst as [Hc Hsd].
  unfold mime_probe. cbn [negb andb]. replace (match op_probe who with Some _ => (None, m1) | None => (None, m1) end)
    with (@None (string * Z), m1) by (by destruct (op_probe who)).
  destruct (io_grant _ _ _ _ _ _ _ m1) as [[grant capable] m2] eqn:Hg. apply io_grant_frame in Hg as [Hg _].
  destruct (opened_file _ _ _ _ _ _ _ _ _ _ _) as [o side] eqn:Ho. injection Ho as Ho _. split; [done|].
  exists o. cbn [op_reader rd_mount with_sides on_rd_mount]. split; [apply lookup_insert_eq|]. rewrite <- Ho.
  match goal with |- context [fs_of ?x !! wp] => assert (Hf : fs_of x = fs_of m1) by (rewrite <- Hg; by destruct (pin_etag _)) end.
  rewrite Hf, Hc. split_and!; try done. cbn. intros Hst. destruct (truncating_flags flags); [done|].
  destruct (sg_seeded sg); [by rewrite andb_false_r in Hst|]. by destruct Hsd.
Qed.


(** *** Who may open what *)

Definition listed m (path : PathBuf) : option RemoteEntry :=
  dc ← dir_cache (m_cache m) !! parent_or_root path; find (has_path path) (d_files dc).

Lemma find_file_entry path m fo m1 : find_file path m = (fo, m1) →
  listed m1 path = listed m path ∧ m_locks m1 = m_locks m ∧
  fo_permissions fo = listed m path ≫= (λ e, permissions (e_ext e)) ∧
  fo_locked fo = bool_decide (is_Some (listed m path ≫= (λ e, locked_by (e_ext e)))) && honor_locks && negb (holds (m_locks m) path).
Proof.
  unfold Open.find_file, listed, get_cached_dir_readonly.
  destruct (dir_cache (m_cache m) !! parent_or_root path) as [d|] eqn:E; cbn; intros [= <- <-]; cbn; [|by rewrite E].
  by rewrite lookup_insert_eq.
Qed.

Lemma find_unlock path l : find (has_path path) (unlock_first path l) = unlock_entry path <$> find (has_path path) l.
Proof.
  induction l as [|e l IH]; cbn; [done|]. destruct (has_path path e) eqn:E; cbn; [|by rewrite E].
  assert (has_path path (unlock_entry path e) = true) as ->; [|done]. unfold unlock_entry. by rewrite E.
Qed.

Lemma still_locked_spec fo m lk m' : still_locked fo m = (lk, m') →
  m_locks m' = m_locks m ∧
  if lk then fo_locked fo = true ∧ listed m' (fo_path fo) = listed m (fo_path fo)
  else fo_locked fo = false ∧ m' = m ∨ listed m' (fo_path fo) = unlock_entry (fo_path fo) <$> listed m (fo_path fo).
Proof.
  unfold still_locked. destruct (fo_locked fo); cbn [negb]; [|intros [= <- <-]; split; [done|by left]].
  destruct (m_offline m); [by intros [= <- <-]|].
  destruct (list_dir _ _) as [[[[l [e|]] t]|err] w]; try by intros [= <- <-].
  destruct (bool_decide _); intros [= <- <-]; [done|]. split; [done|]. right.
  unfold listed, upd_cache, log_world, upd_core, m_cache. cbn. unfold upd_listing.
  destruct (dir_cache (r_cache (m_core m)) !! parent_or_root (fo_path fo)) as [d|] eqn:E; cbn; [|by rewrite E].
  rewrite lookup_insert_eq. apply find_unlock.
Qed.

(** What getattr reports of the file as listed. *)
Definition reported_writable m (ino : nat) (path : PathBuf) : Prop :=
  ∀ e, listed m path = Some e → e_is_dir e = false → writable (make_file_attr honor_locks (m_locks m) ino e) = true.

Lemma writable_listed m ino path e : listed m path = Some e → e_is_dir e = false →
  writable (make_file_attr honor_locks (m_locks m) ino e) =
  negb (Z.land (perms_to_mode (permissions (e_ext e)) false) 128 =? 0) &&
  negb (bool_decide (is_Some (locked_by (e_ext e))) && honor_locks && negb (holds (m_locks m) path)).
Proof.
  intros Hl Hd. unfold listed in Hl. apply bind_Some in Hl as (d & _ & Hl). apply find_some in Hl as [_ Hl]. apply bool_decide_eq_true in Hl. subst path.
  unfold writable, make_file_attr. rewrite Hd. cbn [at_perm negb andb].
  destruct (bool_decide _ && honor_locks && negb _); rewrite ?andb_true_r, ?andb_false_r; unfold perms_to_mode;
    repeat case_match; done.
Qed.

Lemma unlock_entry_bits path e : e_is_dir (unlock_entry path e) = e_is_dir e ∧ permissions (e_ext (unlock_entry path e)) = permissions (e_ext e) ∧
  (has_path path e = true → locked_by (e_ext (unlock_entry path e)) = None).
Proof. unfold unlock_entry. by destruct (has_path path e). Qed.

Lemma read_only_bits fo : read_only_file fo = (Z.land (perms_to_mode (fo_permissions fo) false) 128 =? 0).
Proof. unfold read_only_file. destruct (fo_permissions fo); [apply andb_true_r|done]. Qed.

Lemma refused_listed path m fo m1 ino : find_file path m = (fo, m1) → read_only_file fo = true ∨ fo_locked fo = true →
  ∃ e, listed m path = Some e ∧ (e_is_dir e = false → ¬ reported_writable m ino path).
Proof.
  intros Hf Hw. apply find_file_entry in Hf as (_ & _ & Hperm & Hlock). rewrite read_only_bits, Hperm, Hlock in Hw.
  destruct (listed m path) as [e|] eqn:He; [|by destruct Hw]. exists e. split; [done|]. intros Hd Hrep. specialize (Hrep e He Hd).
  rewrite (writable_listed _ _ _ _ He Hd) in Hrep. cbn in Hw. apply andb_true_iff in Hrep as [H1 H2]. apply negb_true_iff in H1, H2.
  rewrite H1, H2 in Hw. by destruct Hw.
Qed.

Lemma accepted_writable path m fo m1 m2 ino : find_file path m = (fo, m1) → read_only_file fo = false →
  still_locked fo m1 = (false, m2) → reported_writable m2 ino path.
Proof.
  intros Hf Hro Hs e He Hd. rewrite (writable_listed _ _ _ _ He Hd). pose proof (find_file_frame _ _ _ _ Hf) as [Hp _].
  apply find_file_entry in Hf as (Hl & Hk & Hperm & Hlock). apply still_locked_spec in Hs as (Hk' & Hs). rewrite Hp in Hs.
  rewrite read_only_bits, Hperm in Hro. apply andb_true_iff. rewrite !negb_true_iff. destruct Hs as [[Hfl ->]|Hs].
  - rewrite Hl in He. rewrite He in Hro, Hlock. cbn in Hro, Hlock. by rewrite Hk, <- Hlock.
  - rewrite He, Hl in Hs. destruct (listed m path) as [e0|] eqn:He0; [|done]. injection Hs as ->. cbn in Hro.
    destruct (unlock_entry_bits path e0) as (_ & Hpe & Hn). rewrite Hpe, Hn; [done|].
    unfold listed in He0. apply bind_Some in He0 as (d & _ & He0). by apply find_some in He0 as [_ ?].
Qed.

(** C27: Who may open a file for writing is what getattr tells: an open for writing goes on only
    when the file, as it is then listed, is reported writable (its grants allow it and nobody
    else's lock on it is honoured; a lock the server says is gone is out of the listing too),
    and it is refused, with EACCES, only when the file was reported read-only, is the
    synthetic ignore file, or a thumbnailer asks for a file that is not here.  A refusal
    leaves the handles, the files, the journal and the cached copies alone. *)
Theorem open_permission flags who path m fo m1 r m2 ino :
  find_file path m = (fo, m1) → refusal flags who fo m1 = (r, m2) →
  match r with
  | None => writable_flags flags = true → path ≠ trackerignore_path ∧ reported_writable m2 ino path
  | Some err => err = EACCES ∧ m_files m2 = m_files m ∧ m_journal m2 = m_journal m ∧ m_next_fh m2 = m_next_fh m ∧
      ((writable_flags flags = true ∧
        (path = trackerignore_path ∨ ∃ e, listed m path = Some e ∧ (e_is_dir e = false → ¬ reported_writable m ino path))) ∨
       (writable_flags flags = false ∧ op_thumbnailer who = true ∧ fo_local fo = None))
  end.
Proof.
  intros Hf Hr. pose proof (find_file_frame _ _ _ _ Hf) as (Hp & _ & Hj & Hfs & Hn & _).
  pose proof (refusal_frame _ _ _ _ _ _ Hr) as (Rj & Rfs & Rn & _).
  pose proof (refused_listed path m fo m1 ino Hf) as Hbad. pose proof (accepted_writable path m fo m1 m2 ino Hf) as Hok.
  unfold refusal in Hr. rewrite Hp in Hr. destruct (writable_flags flags); cbn [andb negb] in Hr.
  - case_bool_decide as Hign; [injection Hr as <- <-; split_and!; try congruence; by left; split; [|left]|].
    destruct (read_only_file fo) eqn:Hro; [injection Hr as <- <-; split_and!; try congruence; left; split; [done|right; by apply Hbad; left]|].
    destruct (still_locked fo m1) as [[] m'] eqn:Hlk; injection Hr as <- <-; [|by auto].
    apply still_locked_spec in Hlk as (_ & Hfl & _). split_and!; try congruence. left. split; [done|right; by apply Hbad; right].
  - destruct (bool_decide (fo_local fo = None) && op_thumbnailer who) eqn:Hth; injection Hr as <- <-; [|done]. bool_prop.
    split_and!; try congruence. by right.
Qed.
End current.

(** ** Concrete runs *)

Definition od_mount : Mount Srv := demo_lookup ["d"; "f"]%string (demo_mount false).
Definition od_get (p : PathBuf) : call Srv (result (bytes * option Etag) string) :=
  λ w, (Ok ([Byte.x41], Some "0"%string), w).
Definition od_start (m : Mount Srv) : Opens (W := Srv) :=
  {| op_reader := {| rd_mount := m; rd_sides := ∅; rd_streams := λ _, Window.new_stream [] [] 0; rd_mem := Build_Memory 0 []; rd_sweep := 0;
                     rd_ahead := 0 |};
     op_capable := false |}.
Definition od_user : Opener := {| op_thumbnailer := false; op_probe := None |}.
Definition od_found : Found * Mount Srv := find_file false ["d"; "f"]%string od_mount.
Definition od_open (flags : Z) (m : Mount Srv) : OpenReply * Opens (W := Srv) :=
  open_ no_clock false true od_get true [] None 2 flags od_user (od_start m).
Definition od_staged (s : Opens (W := Srv)) (fh : nat) : option bytes :=
  lf_bytes <$> fs_of (rd_mount (op_reader s)) !! ["cache"; ("write_" +:+ pretty.pretty fh)%string]%string.


Lemma open_permission_witness :
  reported_writable false (refusal O_RDWR od_user od_found.1 od_found.2).2 2 ["d"; "f"]%string.
Proof.
  assert (E : refusal O_RDWR od_user od_found.1 od_found.2 = (None, (refusal O_RDWR od_user od_found.1 od_found.2).2)) by (by vm_compute).
  exact (proj2 (open_permission false O_RDWR od_user ["d"; "f"]%string od_mount od_found.1 od_found.2 None _ 2
    (surjective_pairing od_found) E eq_refl)).
Defined.

(** A file whose folder's listing is not cached (evicted since the lookup) is taken to be
    empty: the open starts from nothing, with no version to match. *)
Lemma unlisted_open_empty :
  let m := upd_cache (λ c, with_dirs c ∅) od_mount in
  let s := (od_open O_RDWR m).2 in
  (od_open O_RDWR m).1 = Opened 1 GCached ∧ od_staged s 1 = None ∧
  (λ o, (write_path o, original_etag o)) <$> m_files (rd_mount (op_reader s)) !! 1%nat = Some (Some ["cache"; "write_1"]%string, None).
Proof. by vm_compute. Qed.

(** Handle numbers start over with the process while queued uploads keep their staging files:
    the first truncating open (or create) after a restart empties a queued upload of another
    file. *)
Definition od_restarted : Mount Srv :=
  upd_j (λ _, load_or_create 0 ["cache"]%string
    (Build_Disk (Some [Build_JournalEntry 1 (Put ["g"]%string ["cache"; "write_1"]%string None) 0 0 None false false false])
       None {[ ["cache"; "write_1"]%string := Build_LocalFile [Byte.x42] 0 ]} true)) od_mount.
Lemma restart_reuses_staging :
  let s := (od_open (Z.lor O_WRONLY O_TRUNC) od_restarted).2 in
  pending_upload ["g"]%string (m_journal od_restarted) = Some (Staged ["cache"; "write_1"]%string) ∧
  lf_bytes <$> fs_of od_restarted !! ["cache"; "write_1"]%string = Some [Byte.x42] ∧
  pending_upload ["g"]%string (m_journal (rd_mount (op_reader s))) = Some (Staged ["cache"; "write_1"]%string) ∧
  od_staged s 1 = Some [].
Proof. by vm_compute. Qed.
