(* ===== verification/Passthrough.v ===== *)
(** [ncrs_passthrough], the privileged helper: its wire format, the server that validates and
    keeps the books, the daemon's end, and the two of them talking.

    [big] is the host's byte order ([to_ne_bytes]); both ends run on one host.  The kernel's
    answers ([fstat], [fcntl], [fstatfs], the two ioctls) are parameters: what the helper may
    do with any answers is what is shown.  Error numbers are Linux's. *)
From S2P Require Import Prelude.
Local Open Scope Z_scope.

Definition EPERM : Z := 1.
Definition ENOENT : Z := 2.
Definition EACCES : Z := 13.
Definition ENODEV : Z := 19.
Definition EINVAL : Z := 22.
Definition ELOOP : Z := 40.
Definition EPROTO : Z := 71.
Definition EOPNOTSUPP : Z := 95.
Definition ENOTCONN : Z := 107.
Definition EALREADY : Z := 114.

(** ** The wire format *)

(* ncrs_passthrough/src/proto.rs:13-13 MAGIC *)
Definition MAGIC : Z := 0x4e435054.
(* ncrs_passthrough/src/proto.rs:14-14 REQ_LEN *)
Definition REQ_LEN : nat := 16.
(* ncrs_passthrough/src/proto.rs:15-15 REPLY_LEN *)
Definition REPLY_LEN : nat := 8.

(* ncrs_passthrough/src/proto.rs:32-37 Request *)
Inductive Request := Setup | Adopt (id : Z) | Open | Close (id : Z).
#[export] Instance Request_eq_dec : EqDecision Request.
Proof. solve_decision. Defined.

(* ncrs_passthrough/src/proto.rs:40-47 op_id *)
Definition op_id (r : Request) : Z * Z :=
  match r with Setup => (1, 0) | Adopt id => (2, id) | Open => (3, 0) | Close id => (4, id) end.
(* ncrs_passthrough/src/proto.rs:50-52 carries_fd *)
Definition carries_fd (r : Request) : bool := match r with Setup | Open => true | _ => false end.

Section proto.
Context (big : bool).

(** [u32::to_ne_bytes]. *)
Definition to_ne_bytes (v : Z) : list Z :=
  let le := [v mod 256; v / 256 mod 256; v / 65536 mod 256; v / 16777216 mod 256] in
  if big then reverse le else le.
Definition le_word (b0 b1 b2 b3 : Z) : Z := b0 + 256 * b1 + 65536 * b2 + 16777216 * b3.
(* ncrs_passthrough/src/proto.rs:64-66 u32_at *)
Definition u32_at (b : list Z) (at' : nat) : Z :=
  let '(b0, b1, b2, b3) := (b !!! at', b !!! (at' + 1), b !!! (at' + 2), b !!! (at' + 3))%nat in
  if big then le_word b3 b2 b1 b0 else le_word b0 b1 b2 b3.

(* ncrs_passthrough/src/proto.rs:54-61 encode *)
Definition encode (r : Request) : list Z :=
  let '(op, id) := op_id r in to_ne_bytes MAGIC ++ to_ne_bytes op ++ to_ne_bytes id ++ replicate 4 0.

(* ncrs_passthrough/src/proto.rs:71-99 parse_request *)
Definition parse_request (buf : list Z) (nfds : nat) (truncated : bool) : result Request Z :=
  if truncated || negb (length buf =? REQ_LEN)%nat then Err EINVAL
  else if negb (u32_at buf 0 =? MAGIC) then Err EPROTO
  else if negb (u32_at buf 12 =? 0) then Err EINVAL
  else
    let id := u32_at buf 8 in
    match (match u32_at buf 4 with
           | 1 => Some Setup | 2 => Some (Adopt id) | 3 => Some Open | 4 => Some (Close id) | _ => None
           end) with
    | None => Err EOPNOTSUPP
    | Some req =>
        let id_ok := match req with Adopt id | Close id => negb (id =? 0) | Setup | Open => id =? 0 end in
        let fds_ok := (nfds =? if carries_fd req then 1 else 0)%nat in
        if negb id_ok || negb fds_ok then Err EINVAL else Ok req
    end.

(* ncrs_passthrough/src/proto.rs:101-110 encode_reply *)
Definition encode_reply (r : result Z Z) : list Z :=
  let '(err, val) := match r with Ok v => (0, v) | Err e => (Z.max e 1, 0) end in
  to_ne_bytes err ++ to_ne_bytes val.
(** [u32 as i32]. *)
Definition as_i32 (v : Z) : Z := if v <? 2 ^ 31 then v else v - 2 ^ 32.
(* ncrs_passthrough/src/proto.rs:113-120 decode_reply *)
Definition decode_reply (buf : list Z) : option (result Z Z) :=
  if negb (length buf =? REPLY_LEN)%nat then None
  else let err := u32_at buf 0 in
       let val := u32_at buf 4 in
       Some (if err =? 0 then Ok val else Err (as_i32 err)).
End proto.

(** ** The helper *)

(** What [fstat] tells of a descriptor; the device number in its two parts. *)
Record Stat := { st_mode : Z; st_uid : Z; st_rdev : Z * Z }.
Definition S_IFMT : Z := 0xF000.
Definition S_IFCHR : Z := 0x2000.
Definition S_IFREG : Z := 0x8000.
Definition O_PATH : Z := 0x800000.
Definition O_ACCMODE : Z := 3.
Definition O_RDONLY : Z := 0.
(* ncrs_passthrough/src/server.rs:18-18 FUSE_SUPER_MAGIC *)
Definition FUSE_SUPER_MAGIC : Z := 0x65735546.

(** The system calls on descriptors [F], and the ioctls, over a kernel's state [K]. *)
Class Sys (F : Type) := {
  fstat : F → result Stat Z;
  f_getfl : F → result Z Z;
  fstatfs : F → result Z Z;
}.
(* ncrs_passthrough/src/server.rs:29-33 Kernel *)
Class Kernel (F K : Type) := {
  backing_open : F → F → K → result Z Z * K;
  backing_close : F → Z → K → result unit Z * K;
}.

Section server.
Context {F K : Type} `{Sys F} `{Kernel F K}.

(* ncrs_passthrough/src/server.rs:77-81 is_fuse_dev *)
Definition is_fuse_dev (fd : F) : bool :=
  match fstat fd with
  | Ok st => (Z.land (st_mode st) S_IFMT =? S_IFCHR) && ((st_rdev st).1 =? 10) && ((st_rdev st).2 =? 229)
  | Err _ => false
  end.

(* ncrs_passthrough/src/server.rs:89-117 validate_backing_fd *)
Definition validate_backing_fd (fd : F) (uid : Z) : result unit Z :=
  match fstat fd with
  | Err e => Err e
  | Ok st =>
      if negb (Z.land (st_mode st) S_IFMT =? S_IFREG) then Err EINVAL
      else if negb (st_uid st =? uid) then Err EPERM
      else match f_getfl fd with
           | Err e => Err e
           | Ok fl =>
               if negb (Z.land fl O_PATH =? 0) then Err EINVAL
               else if negb (Z.land fl O_ACCMODE =? O_RDONLY) then Err EACCES
               else match fstatfs fd with
                    | Err e => Err e
                    | Ok f_type => if f_type =? FUSE_SUPER_MAGIC then Err ELOOP else Ok tt
                    end
           end
  end.

(* ncrs_passthrough/src/server.rs:119-127 Server *)
Record Server := { uid : Z; capable : bool; fuse : option F; ids : gset Z; opened_any : bool }.
(* ncrs_passthrough/src/server.rs:133-135 Server::new *)
Definition new (uid : Z) (capable : bool) : Server :=
  {| uid := uid; capable := capable; fuse := None; ids := ∅; opened_any := false |}.
Definition with_fuse (fd : F) (s : Server) : Server :=
  {| uid := uid s; capable := capable s; fuse := Some fd; ids := ids s; opened_any := opened_any s |}.
Definition with_ids (g : gset Z) (s : Server) : Server :=
  {| uid := uid s; capable := capable s; fuse := fuse s; ids := g; opened_any := opened_any s |}.
Definition with_opened (s : Server) : Server :=
  {| uid := uid s; capable := capable s; fuse := fuse s; ids := ids s; opened_any := true |}.

(* ncrs_passthrough/src/server.rs:140-181 handle *)
Definition handle (req : Request) (fd : option F) (s : Server) (k : K) : result Z Z * Server * K :=
  match req with
  | Setup =>
      match fd with
      | None => (Err EINVAL, s, k)
      | Some fd =>
          if bool_decide (is_Some (fuse s)) then (Err EALREADY, s, k)
          else if negb (is_fuse_dev fd) then (Err ENODEV, s, k)
          else (Ok (if capable s then 1 else 0), with_fuse fd s, k)
      end
  | Adopt id =>
      match fuse s with
      | None => (Err ENOTCONN, s, k)
      | Some _ => if opened_any s then (Err EPERM, s, k) else (Ok 0, with_ids ({[id]} ∪ ids s) s, k)
      end
  | Open =>
      match fd, fuse s with
      | None, _ => (Err EINVAL, s, k)
      | Some _, None => (Err ENOTCONN, s, k)
      | Some file, Some fuse =>
          match validate_backing_fd file (uid s) with
          | Err e => (Err e, s, k)
          | Ok _ =>
              let s := with_opened s in
              let '(r, k) := backing_open fuse file k in
              match r with
              | Err e => (Err e, s, k)
              | Ok id => (Ok id, with_ids ({[id]} ∪ ids s) s, k)
              end
          end
      end
  | Close id =>
      match fuse s with
      | None => (Err ENOTCONN, s, k)
      | Some fuse =>
          if bool_decide (id ∉ ids s) then (Err ENOENT, s, k)
          else let s := with_ids (ids s ∖ {[id]}) s in
               let '(r, k) := backing_close fuse id k in
               (match r with Ok _ => Ok 0 | Err e => Err e end, s, k)
      end
  end.

(** One message as [recvmsg] delivers it: what fits the buffer, the descriptors the control
    data held, and whether something was cut. *)
(* ncrs_passthrough/src/server.rs:186-191 Received *)
Record Received := { payload : list Z; fds : list F; truncated : bool }.

(** [None]: the daemon closed its end. *)
(* ncrs_passthrough/src/server.rs:220-240 recv_one *)
Definition recv_one (payload : list Z) (fds : list F) (truncated : bool) : option Received :=
  match payload, fds, truncated with
  | [], [], false => None
  | _, _, _ => Some {| payload := payload; fds := fds; truncated := truncated |}
  end.

(** One turn of [serve]; [big] as above. *)
(* ncrs_passthrough/src/server.rs:255-267 serve *)
Definition serve_one (big : bool) (m : Received) (s : Server) (k : K) : list Z * Server * K :=
  let nfds := match fds m with [] => 0%nat | [_] => 1%nat | _ => 2%nat end in
  match parse_request big (payload m) nfds (truncated m) with
  | Err e => (encode_reply big (Err e), s, k)
  | Ok req => let '(r, s, k) := handle req (head (fds m)) s k in (encode_reply big r, s, k)
  end.
End server.
Arguments Server F : clear implicits.
Arguments Received F : clear implicits.

(** ** The daemon's end *)

(* ncrs_passthrough/src/client.rs:140-149 Unavailable *)
Inductive Unavailable := Protocol | Refused (e : Z) | NoCapability.

(** [call]: a request's answer, [None] when the transport fails. *)
Section spawn.
Context {St : Type} (call : Request → St → option (result Z Z) * St).

Fixpoint adopt_all (adopt : list Z) (st : St) : result unit Unavailable * St :=
  match adopt with
  | [] => (Ok tt, st)
  | id :: adopt =>
      match call (Adopt id) st with
      | (None, st) => (Err Protocol, st)
      | (Some (Err e), st) => (Err (Refused e), st)
      | (Some (Ok _), st) => adopt_all adopt st
      end
  end.
(* ncrs_passthrough/src/client.rs:176-196 spawn *)
Definition spawn (adopt : list Z) (st : St) : result unit Unavailable * St :=
  match call Setup st with
  | (None, st) => (Err Protocol, st)
  | (Some (Ok v), st) => if v =? 1 then adopt_all adopt st else (Err NoCapability, st)
  | (Some (Err e), st) => (Err (Refused e), st)
  end.
End spawn.

(** The socket pair: what is under way in each direction, the call the daemon's end is in (its
    mutex lets one in), and what each end did, for the theorems: the calls with their answers
    ([None]: an error) and the helper's replies. *)
Record Link (F K : Type) := {
  to_helper : list (list Z * list F);
  to_daemon : list (list Z);
  in_call : option (Request * option F);
  srv : Server F;
  kern : K;
  called : list (Request * option F * option (result Z Z));
  replied : list (list Z * list F * list Z);
}.
Arguments Build_Link {F K}.
Arguments to_helper {F K}.
Arguments to_daemon {F K}.
Arguments in_call {F K}.
Arguments srv {F K}.
Arguments kern {F K}.
Arguments called {F K}.
Arguments replied {F K}.

Section link.
Context {F K : Type} `{Sys F} `{Kernel F K} (big : bool).
Implicit Types l : Link F K.

(** The first half of [Channel::call_raw_fds]: the request is on its way. *)
(* ncrs_passthrough/src/client.rs:80-81 call_raw_fds *)
Definition send (r : Request) (fd : option F) l : option (Link F K) :=
  match in_call l with
  | Some _ => None
  | None => Some (Build_Link (to_helper l ++ [(encode big r, option_list fd)]) (to_daemon l) (Some (r, fd)) (srv l) (kern l)
                    (called l) (replied l))
  end.
(** The second: the oldest message of the helper is the answer. *)
(* ncrs_passthrough/src/client.rs:82-99 call_raw_fds *)
Definition receive l : option (Link F K) :=
  match in_call l, to_daemon l with
  | Some (r, fd), m :: q =>
      Some (Build_Link (to_helper l) q None (srv l) (kern l) (called l ++ [(r, fd, decode_reply big m)]) (replied l))
  | _, _ => None
  end.
(** [recv] gives up after [REPLY_TIMEOUT]. *)
(* ncrs_passthrough/src/client.rs:83-93 call_raw_fds *)
Definition time_out l : option (Link F K) :=
  match in_call l with
  | Some (r, fd) => Some (Build_Link (to_helper l) (to_daemon l) None (srv l) (kern l) (called l ++ [(r, fd, None)]) (replied l))
  | None => None
  end.
Definition answer l : option (Link F K) :=
  match to_helper l with
  | (m, fds) :: q =>
      let '(reply, s, k) := serve_one big {| payload := m; fds := fds; truncated := false |} (srv l) (kern l) in
      Some (Build_Link q (to_daemon l ++ [reply]) (in_call l) s k (called l) (replied l ++ [(m, fds, reply)]))
  | [] => None
  end.

(** [timely]: no call gives up. *)
Inductive linkstep (timely : Prop) l : Link F K → Prop :=
| link_send r fd l' : (fd = None ↔ carries_fd r = false) → send r fd l = Some l' → linkstep timely l l'
| link_receive l' : receive l = Some l' → linkstep timely l l'
| link_answer l' : answer l = Some l' → linkstep timely l l'
| link_time_out l' : ¬ timely → time_out l = Some l' → linkstep timely l l'.
Definition fresh_link (uid : Z) (capable : bool) (k : K) : Link F K := Build_Link [] [] None (new uid capable) k [] [].
End link.

(** ** The codec *)

Definition byte (b : Z) : Prop := 0 <= b < 256.
Definition u32 (v : Z) : Prop := 0 <= v < 2 ^ 32.

Section codec.
Context (big : bool).

Lemma le_word_digits v : u32 v → le_word (v mod 256) (v / 256 mod 256) (v / 65536 mod 256) (v / 16777216 mod 256) = v.
Proof. unfold u32, le_word. intros. Z.to_euclidean_division_equations. lia. Qed.
Lemma digits_le_word b0 b1 b2 b3 : byte b0 → byte b1 → byte b2 → byte b3 →
  let v := le_word b0 b1 b2 b3 in v mod 256 = b0 ∧ v / 256 mod 256 = b1 ∧ v / 65536 mod 256 = b2 ∧ v / 16777216 mod 256 = b3.
Proof. unfold byte, le_word. intros. Z.to_euclidean_division_equations. lia. Qed.

Lemma length_ne v : length (to_ne_bytes big v) = 4%nat.
Proof. unfold to_ne_bytes. by destruct big. Qed.
Lemma ne_bytes_byte v : Forall byte (to_ne_bytes big v).
Proof.
  assert (Forall byte [v mod 256; v / 256 mod 256; v / 65536 mod 256; v / 16777216 mod 256]).
  { repeat constructor; apply Z.mod_pos_bound; lia. }
  unfold to_ne_bytes. destruct big; [by apply Forall_reverse|done].
Qed.

Lemma at_offset (l m : list Z) j : (l ++ m) !!! (length l + j)%nat = m !!! j.
Proof. rewrite lookup_total_app_r by lia. f_equal. lia. Qed.
Lemma at_start (l m : list Z) : (l ++ m) !!! length l = m !!! 0%nat.
Proof. rewrite <- (at_offset l m 0). f_equal. lia. Qed.

(** A word read where one was written, and the other way around. *)
Lemma u32_at_app l v l' i : u32 v → i = length l → u32_at big (l ++ to_ne_bytes big v ++ l') i = v.
Proof.
  intros Hv ->. unfold u32_at. rewrite !at_offset, at_start.
  unfold to_ne_bytes. destruct big; by apply le_word_digits.
Qed.
Lemma u32_at_bytes b0 b1 b2 b3 l l' i : byte b0 → byte b1 → byte b2 → byte b3 → i = length l →
  to_ne_bytes big (u32_at big (l ++ [b0; b1; b2; b3] ++ l') i) = [b0; b1; b2; b3].
Proof.
  intros H0 H1 H2 H3 ->. unfold u32_at. rewrite !at_offset, at_start.
  cbn -[le_word]. unfold to_ne_bytes.
  destruct big; [destruct (digits_le_word b3 b2 b1 b0) as (-> & -> & -> & ->)|destruct (digits_le_word b0 b1 b2 b3) as (-> & -> & -> & ->)]; done.
Qed.
Lemma u32_at_u32 l i : Forall byte l → (i + 3 < length l)%nat → u32 (u32_at big l i).
Proof.
  intros Hl Hi.
  assert (∀ j, (j < length l)%nat → byte (l !!! j)) as Hb.
  { intros j Hj. apply (Forall_lookup_total_1 _ _ _ Hl Hj). }
  pose proof (Hb i ltac:(lia)). pose proof (Hb (i + 1)%nat ltac:(lia)).
  pose proof (Hb (i + 2)%nat ltac:(lia)). pose proof (Hb (i + 3)%nat ltac:(lia)).
  unfold u32_at, u32, le_word, byte in *. destruct big; lia.
Qed.

(** Sixteen bytes are four words. *)
Lemma four_words l : Forall byte l → length l = REQ_LEN →
  l = to_ne_bytes big (u32_at big l 0) ++ to_ne_bytes big (u32_at big l 4) ++ to_ne_bytes big (u32_at big l 8)
      ++ to_ne_bytes big (u32_at big l 12).
Proof.
  intros Hl Hn.
  destruct l as [|b0 [|b1 [|b2 [|b3 [|b4 [|b5 [|b6 [|b7 [|b8 [|b9 [|b10 [|b11 [|b12 [|b13 [|b14 [|b15 [|]]]]]]]]]]]]]]]]]; try done.
  rewrite !Forall_cons in Hl. destruct_and! Hl.
  pose proof (u32_at_bytes b0 b1 b2 b3 [] [b4;b5;b6;b7;b8;b9;b10;b11;b12;b13;b14;b15] 0) as E0.
  pose proof (u32_at_bytes b4 b5 b6 b7 [b0;b1;b2;b3] [b8;b9;b10;b11;b12;b13;b14;b15] 4) as E1.
  pose proof (u32_at_bytes b8 b9 b10 b11 [b0;b1;b2;b3;b4;b5;b6;b7] [b12;b13;b14;b15] 8) as E2.
  pose proof (u32_at_bytes b12 b13 b14 b15 [b0;b1;b2;b3;b4;b5;b6;b7;b8;b9;b10;b11] [] 12) as E3.
  cbn [app] in *. by rewrite E0, E1, E2, E3.
Qed.

(** An id the kernel can have given out. *)
Definition valid_request (r : Request) : Prop := match r with Adopt id | Close id => 0 < id < 2 ^ 32 | _ => True end.
Definition fds_of (r : Request) : nat := if carries_fd r then 1 else 0.

Lemma zero_word : to_ne_bytes big 0 = replicate 4 0.
Proof. unfold to_ne_bytes. by destruct big. Qed.
Lemma op_id_u32 r : valid_request r → u32 (op_id r).1 ∧ u32 (op_id r).2.
Proof. unfold u32. destruct r; cbn; lia. Qed.

Lemma encode_fields r : valid_request r → let b := encode big r in
  length b = REQ_LEN ∧ Forall byte b ∧ u32_at big b 0 = MAGIC ∧ u32_at big b 4 = (op_id r).1 ∧ u32_at big b 8 = (op_id r).2 ∧
  u32_at big b 12 = 0.
Proof.
  intros Hr. destruct (op_id_u32 r Hr) as [Ho Hi]. cbv zeta. unfold encode. destruct (op_id r) as [op id]. cbn [fst snd] in *.
  rewrite <- zero_word. split_and!.
  - rewrite !length_app, !length_ne. done.
  - repeat (apply Forall_app; split); apply ne_bytes_byte.
  - by apply (u32_at_app []).
  - apply (u32_at_app (to_ne_bytes big MAGIC)); [done|by rewrite length_ne].
  - rewrite app_assoc. apply u32_at_app; [done|by rewrite length_app, !length_ne].
  - rewrite <- (app_nil_r (to_ne_bytes big 0)), !app_assoc, <- app_assoc.
    apply u32_at_app; [done|by rewrite !length_app, !length_ne].
Qed.

Lemma parse_fields buf n t req : parse_request big buf n t = Ok req →
  t = false ∧ length buf = REQ_LEN ∧ u32_at big buf 0 = MAGIC ∧ u32_at big buf 12 = 0 ∧
  op_id req = (u32_at big buf 4, u32_at big buf 8) ∧ n = fds_of req ∧
  match req with Adopt id | Close id => id ≠ 0 | _ => True end.
Proof.
  unfold parse_request, fds_of. intros H.
  destruct (t || _) eqn:E0; [done|]. destruct (negb (_ =? MAGIC)) eqn:E1; [done|]. destruct (negb (u32_at big buf 12 =? 0)) eqn:E2; [done|].
  bool_prop. cbv zeta in H.
  assert (∀ r, (if negb match r with Adopt id | Close id => negb (id =? 0) | Setup | Open => u32_at big buf 8 =? 0 end ||
      negb (n =? if carries_fd r then 1 else 0)%nat then Err EINVAL else Ok r) = Ok req →
    req = r ∧ n = (if carries_fd r then 1 else 0)%nat ∧
    match r with Adopt id | Close id => id ≠ 0 | _ => u32_at big buf 8 = 0 end) as Hr.
  { intros r E. destruct (negb _ || _) eqn:E3; [done|]. injection E as <-. bool_prop. split_and!; [done|done|]. destruct r; by bool_prop. }
  split_and!; try done;
    (destruct (u32_at big buf 4) as [|[[p|p|]|[p|[p|p|]|]|]|p] eqn:E4; try done;
       (apply (Hr Open) in H as (-> & ? & ?) || apply (Hr Setup) in H as (-> & ? & ?) || apply (Hr (Adopt _)) in H as (-> & ? & ?) ||
        apply (Hr (Close _)) in H as (-> & ? & ?))); cbn in *; try done; congruence.
Qed.

(** The helper's wire format is a bijection: the helper accepts a message exactly when it
    is the encoding of a request, whole, with as many descriptors as the request carries, and
    then reads that request; every other byte string is refused.  It holds for either byte
    order. *)
Theorem request_codec buf n t req :
  Forall byte buf →
  parse_request big buf n t = Ok req ↔ t = false ∧ buf = encode big req ∧ n = fds_of req ∧ valid_request req.
Proof.
  intros Hb. split.
  - intros (-> & Hl & Hm & Hz & Ho & -> & Hi)%parse_fields. split; [done|]. split_and!; [|done|].
    + rewrite (four_words buf Hb Hl), Hm, Hz, zero_word. unfold encode. by rewrite Ho.
    + pose proof (u32_at_u32 buf 8 Hb ltac:(rewrite Hl; unfold REQ_LEN; lia)) as Hu. unfold u32 in Hu.
      unfold valid_request. destruct req; try done; injection Ho as _ ->; lia.
  - intros (-> & -> & -> & Hv). destruct (encode_fields req Hv) as (Hl & _ & Hm & Ho & Hi & Hz).
    unfold parse_request. rewrite Hl, Hm, Ho, Hi, Hz. unfold fds_of.
    destruct req; cbn in *; try done; (destruct (Z.eqb_spec id 0); [lia|done]).
Qed.

(** A reply is read as it was written: the value, or the error number (anything below 1
    is sent as 1). *)
Theorem reply_codec r :
  match r with Ok v => u32 v | Err e => - 2 ^ 31 <= e < 2 ^ 31 end →
  decode_reply big (encode_reply big r) = Some (match r with Ok v => Ok v | Err e => Err (Z.max e 1) end).
Proof.
  intros Hr. unfold encode_reply, decode_reply.
  assert (∀ a b, u32 a → u32 b → let l := to_ne_bytes big a ++ to_ne_bytes big b in
    length l = REPLY_LEN ∧ u32_at big l 0 = a ∧ u32_at big l 4 = b) as Hw.
  { intros a b Ha Hb. cbv zeta. split_and!.
    - by rewrite length_app, !length_ne.
    - by apply (u32_at_app []).
    - rewrite <- (app_nil_r (to_ne_bytes big b)). apply u32_at_app; [done|by rewrite length_ne]. }
  destruct r as [v|e]; cbv beta iota zeta.
  - destruct (Hw 0 v) as (-> & -> & ->); [done|done|done].
  - destruct (Hw (Z.max e 1) 0) as (-> & -> & ->); [unfold u32; lia|done|]. cbn.
    destruct (Z.eqb_spec (Z.max e 1) 0); [lia|]. do 2 f_equal. unfold as_i32. destruct (Z.ltb_spec (Z.max e 1) (2 ^ 31)); lia.
Qed.
End codec.

(** ** What the helper can be made to do *)

(** A kernel that keeps a record: its answers may depend on all it was asked before.
    [EAdopt] is recorded when the helper accepts an id of a predecessor. *)
Inductive Ev (F : Type) := EOpen (fuse file : F) (r : result Z Z) | EAdopt (id : Z) | EClose (fuse : F) (id : Z) (r : result unit Z).
Arguments EOpen {F}.
Arguments EAdopt {F}.
Arguments EClose {F}.

Lemma split_snoc {A} (k k1 k2 : list A) x e : k ++ [x] = k1 ++ e :: k2 → (k2 = [] ∧ k1 = k ∧ e = x) ∨ ∃ k3, k2 = k3 ++ [x] ∧ k = k1 ++ e :: k3.
Proof.
  destruct k2 as [|y k3 _] using rev_ind; intros Hk.
  - apply app_inj_tail in Hk as [-> ->]. by left.
  - right. exists k3. rewrite app_comm_cons, app_assoc in Hk. by apply app_inj_tail in Hk as [-> ->].
Qed.

Section confined.
Context {F : Type} `{Sys F} (on_open : list (Ev F) → F → F → result Z Z) (on_close : list (Ev F) → F → Z → result unit Z) (big : bool).
Implicit Types (s : Server F) (k : list (Ev F)).

Local Instance recorded : Kernel F (list (Ev F)) := {
  backing_open fuse file k := let r := on_open k fuse file in (r, k ++ [EOpen fuse file r]);
  backing_close fuse id k := let r := on_close k fuse id in (r, k ++ [EClose fuse id r]);
}.

(** The helper over a sequence of messages, whoever sent them. *)
Definition accepted_adopt (m : Received F) s k : list (Ev F) :=
  match parse_request big (payload m) (match fds m with [] => 0 | [_] => 1 | _ => 2 end)%nat (truncated m) with
  | Ok req => match req, (handle req (head (fds m)) s k).1.1 with Adopt id, Ok _ => [EAdopt id] | _, _ => [] end
  | Err _ => []
  end.
Definition serve_recorded (q : Server F * list (Ev F)) (m : Received F) : Server F * list (Ev F) :=
  let '(_, s, k) := serve_one big m q.1 q.2 in (s, k ++ accepted_adopt m q.1 q.2).
Definition serve_all (ms : list (Received F)) (uid : Z) (capable : bool) : Server F * list (Ev F) :=
  foldl serve_recorded (new uid capable, []) ms.

(** How often an id was given to the helper, and how often the helper closed it. *)
Definition grants (id : Z) k : nat :=
  length (List.filter (λ e, match e with EOpen _ _ (Ok i) | EAdopt i => i =? id | _ => false end) k).
Definition closes (id : Z) k : nat := length (List.filter (λ e, match e with EClose _ i _ => i =? id | _ => false end) k).

(** A file fit to back an open: the user's own, regular, open for reading only, and not on a
    FUSE file system. *)
Definition backing_file (uid : Z) (file : F) : Prop :=
  ∃ st fl ty, fstat file = Ok st ∧ f_getfl file = Ok fl ∧ fstatfs file = Ok ty ∧
    Z.land (st_mode st) S_IFMT = S_IFREG ∧ st_uid st = uid ∧ Z.land fl O_PATH = 0 ∧ Z.land fl O_ACCMODE = O_RDONLY ∧
    ty ≠ FUSE_SUPER_MAGIC.
Definition allowed (uid : Z) k1 (e : Ev F) : Prop :=
  match e with
  | EOpen fuse file _ => is_fuse_dev fuse = true ∧ backing_file uid file
  | EClose fuse id _ => is_fuse_dev fuse = true ∧ (closes id k1 < grants id k1)%nat
  | EAdopt id => ∀ fuse file r, EOpen fuse file r ∉ k1
  end.
Definition on_fuse (e : Ev F) : option F := match e with EOpen f _ _ | EClose f _ _ => Some f | _ => None end.

Lemma validate_ok file uid u : validate_backing_fd file uid = Ok u → backing_file uid file.
Proof.
  unfold validate_backing_fd, backing_file. destruct (fstat file) as [st|]; [|done]. destruct (negb _) eqn:E1; [done|].
  destruct (negb _) eqn:E2 in |- *; [done|]. destruct (f_getfl file) as [fl|]; [|done]. destruct (negb _) eqn:E3 in |- *; [done|].
  destruct (negb _) eqn:E4 in |- *; [done|]. destruct (fstatfs file) as [ty|]; [|done]. destruct (ty =? _) eqn:E5; [done|].
  bool_prop. intros _. by exists st, fl, ty.
Qed.

Record confined (uid0 : Z) (q : Server F * list (Ev F)) : Prop := {
  cf_uid : uid q.1 = uid0;
  cf_dev : ∀ f, fuse q.1 = Some f → is_fuse_dev f = true;
  cf_on : ∀ e f, e ∈ q.2 → on_fuse e = Some f → fuse q.1 = Some f;
  cf_opened : ∀ fuse file r, EOpen fuse file r ∈ q.2 → opened_any q.1 = true;
  cf_ids : ∀ id, ((if decide (id ∈ ids q.1) then 1 else 0) + closes id q.2 ≤ grants id q.2)%nat;
  cf_all : ∀ k1 e k2, q.2 = k1 ++ e :: k2 → allowed uid0 k1 e;
}.

Lemma counts_snoc id k e : grants id (k ++ [e]) = (grants id k + grants id [e])%nat ∧ closes id (k ++ [e]) = (closes id k + closes id [e])%nat.
Proof. unfold grants, closes. by rewrite !List.filter_app, !length_app. Qed.

(** One more event, with the server after it. *)
Lemma confined_snoc uid0 s k s' e :
  confined uid0 (s, k) → uid s' = uid0 → (∀ f, fuse s' = Some f → is_fuse_dev f = true) →
  (∀ f, fuse s = Some f → fuse s' = Some f) → (∀ f, on_fuse e = Some f → fuse s' = Some f) →
  (opened_any s = true ∨ (∃ a b c, e = EOpen a b c) → opened_any s' = true) → allowed uid0 k e →
  (∀ id, (if decide (id ∈ ids s') then 1 else 0) + closes id [e] ≤ (if decide (id ∈ ids s) then 1 else 0) + grants id [e])%nat →
  confined uid0 (s', k ++ [e]).
Proof.
  intros [Hu Hd Ho Hop Hi Ha] Hu' Hd' Hf Hof Hop' He Hc. cbn [fst snd] in *. split; cbn [fst snd]; [done|done|..].
  - intros e' f [?| ->%list_elem_of_singleton]%elem_of_app; eauto.
  - intros a b c [Hin|Hin%list_elem_of_singleton]%elem_of_app; apply Hop'; [left; eauto|right; eauto].
  - intros id. destruct (counts_snoc id k e) as [-> ->]. specialize (Hi id). specialize (Hc id). lia.
  - intros k1 e' k2 [(-> & -> & ->)|(k3 & -> & ->)]%split_snoc; [done|]. by eapply Ha.
Qed.
Lemma confined_state uid0 s k s' :
  confined uid0 (s, k) → uid s' = uid0 → (∀ f, fuse s' = Some f → is_fuse_dev f = true) →
  (∀ f, fuse s = Some f → fuse s' = Some f) → (opened_any s = true → opened_any s' = true) → ids s' = ids s → confined uid0 (s', k).
Proof. intros [Hu Hd Ho Hop Hi Ha] ? ? ? ? E. cbn [fst snd] in *. split; cbn [fst snd]; try done; [eauto|eauto|]. intros id. rewrite E. apply Hi. Qed.

Local Ltac count_event :=
  let j := fresh "j" in
  intros j; unfold grants, closes; cbn;
  try match goal with |- context [Z.eqb ?i j] => destruct (Z.eqb_spec i j); subst end;
  repeat match goal with |- context [decide ?P] => destruct (decide P) end; cbn; try lia; set_solver.

Lemma confined_handle uid0 s k req fd : confined uid0 (s, k) →
  let '(r, s', k') := handle req fd s k in
  confined uid0 (s', k' ++ match req, r with Adopt id, Ok _ => [EAdopt id] | _, _ => [] end).
Proof.
  intros Hc. pose proof Hc as [Hu Hd Ho Hop Hi Ha]. cbn [fst snd] in *. destruct req as [|id| |id]; cbn.
  - destruct fd as [fd|]; [|by rewrite app_nil_r]. case_bool_decide; [by rewrite app_nil_r|].
    destruct (is_fuse_dev fd) eqn:Ed; cbn; [|by rewrite app_nil_r]. rewrite app_nil_r.
    apply (confined_state _ _ _ _ Hc); cbn; try done; [by intros ? [= <-]|]. intros f Hf. by destruct H0.
  - destruct (fuse s) as [f|] eqn:Ef; [|by rewrite app_nil_r]. destruct (opened_any s) eqn:Eo; [by rewrite app_nil_r|].
    apply (confined_snoc _ s).
    1-5: by cbn; rewrite ?Ef.
    + by intros [?|(? & ? & ? & ?)]; [congruence|].
    + intros a b c Hin. by apply Hop in Hin.
    + count_event.
  - destruct fd as [file|]; [|by rewrite app_nil_r]. destruct (fuse s) as [f|] eqn:Ef; [|by rewrite app_nil_r].
    destruct (validate_backing_fd file (uid s)) as [u|e] eqn:Ev; [|by rewrite app_nil_r].
    apply validate_ok in Ev.
    assert (Hal : allowed uid0 k (EOpen f file (on_open k f file))) by (split; [by apply Hd|by rewrite <- Hu]).
    destruct (on_open k f file) as [i|e] eqn:Er; rewrite app_nil_r;
      (apply (confined_snoc _ s); [done|done|by cbn; rewrite Ef|by cbn; rewrite Ef|cbn; rewrite Ef; by intros ? [= <-]|done|done|]);
      count_event.
  - destruct (fuse s) as [f|] eqn:Ef; [|by rewrite app_nil_r]. case_bool_decide as Hin; [by rewrite app_nil_r|].
    rewrite app_nil_r. apply (confined_snoc _ s).
    1-4: by cbn; rewrite ?Ef.
    + cbn. rewrite Ef. by intros ? [= <-].
    + by intros [?|(? & ? & ? & ?)].
    + split; [by apply Hd|]. specialize (Hi id). rewrite decide_True in Hi by done. lia.
    + count_event.
Qed.

Lemma confined_all ms uid0 capable : confined uid0 (serve_all ms uid0 capable).
Proof.
  unfold serve_all. assert (Hn : confined uid0 (new uid0 capable, [])).
  { split; cbn.
    - done.
    - done.
    - by intros ? ? ?%elem_of_nil.
    - by intros ? ? ? ?%elem_of_nil.
    - intros id. rewrite decide_False by set_solver. unfold grants, closes. done.
    - by intros [|] ? ?. }
  revert Hn. generalize (new (F := F) uid0 capable, @nil (Ev F)). induction ms as [|m ms IH]; intros q Hq; [done|]. cbn. apply IH.
  destruct q as [s k]. unfold serve_recorded, serve_one, accepted_adopt. cbn [fst snd].
  destruct (parse_request _ _ _ _) as [req|e]; [|by rewrite app_nil_r].
  pose proof (confined_handle uid0 s k req (head (fds m)) Hq) as Hh.
  destruct (handle req (head (fds m)) s k) as [[r s'] k'] eqn:E. destruct req; try done. by rewrite E.
Qed.

End confined.

(** ** The daemon and its helper *)

Section paired.
Context {F K : Type} `{Sys F} `{Kernel F K} (big : bool).
Implicit Types l : Link F K.

(** A finished call got the helper's reply to the very message it sent. *)
Definition own_reply (c : Request * option F * option (result Z Z)) (p : list Z * list F * list Z) : Prop :=
  let '(r, fd, ans) := c in p.1 = (encode big r, option_list fd) ∧ ans = decode_reply big p.2.
Definition in_step l : Prop :=
  match in_call l with
  | None => to_helper l = [] ∧ to_daemon l = [] ∧ Forall2 own_reply (called l) (replied l)
  | Some (r, fd) =>
      (to_helper l = [(encode big r, option_list fd)] ∧ to_daemon l = [] ∧ Forall2 own_reply (called l) (replied l)) ∨
      (∃ reply done, to_helper l = [] ∧ to_daemon l = [reply] ∧ replied l = done ++ [((encode big r, option_list fd), reply)] ∧
         Forall2 own_reply (called l) done)
  end.

Lemma in_step_ok timely l l' : timely → in_step l → linkstep big timely l l' → in_step l'.
Proof.
  intros Ht Hi Hs. destruct Hs as [r fd l' Hfd H1|l' H1|l' H1|l' Hn _]; [..|by destruct Hn]; unfold in_step in Hi.
  - unfold send in H1. destruct (in_call l) as [|] eqn:Ec; [done|]. injection H1 as <-. destruct Hi as (-> & -> & Hi). by left.
  - unfold receive in H1. destruct (in_call l) as [[r fd]|] eqn:Ec; [|done]. destruct Hi as [(_ & Hd & _)|(reply & done & Hh & Hd & Hr & Hi)].
    { by rewrite Hd in H1. }
    rewrite Hd in H1. injection H1 as <-. unfold in_step. cbn. rewrite Hh, Hr. split_and!; [done|done|]. apply Forall2_app; [done|].
    by constructor.
  - unfold answer in H1. destruct (to_helper l) as [|[m fds] q] eqn:Eh; [done|].
    destruct (serve_one _ _ _ _) as [[reply s] k]. injection H1 as <-. destruct (in_call l) as [[r fd]|] eqn:Ec.
    + destruct Hi as [(Hh & Hd & Hi)|(? & ? & ? & _)]; [|done]. injection Hh as -> -> ->. unfold in_step. cbn. right.
      exists reply, (replied l). by rewrite Hd.
    + by destruct Hi.
Qed.

Lemma in_step_rtc l l' : rtc (linkstep big True) l l' → in_step l → in_step l'.
Proof. induction 1 as [|x y z Hs _ IH]; intros Hi; [done|]. apply IH. by apply (in_step_ok True x y). Qed.

(** Replies carry no request id, and none is needed while every call waits for its reply:
    the i-th finished call has the helper's reply to the i-th message the helper served, and
    that message is the call's own request with its descriptor. *)
Theorem answers_match uid0 capable k l :
  rtc (linkstep big True) (fresh_link uid0 capable k) l →
  ∀ i r fd ans, called l !! i = Some (r, fd, ans) →
    ∃ reply, replied l !! i = Some (encode big r, option_list fd, reply) ∧ ans = decode_reply big reply.
Proof.
  intros Hr i r fd ans Hi.
  assert (Hs : in_step l).
  { apply (in_step_rtc _ _ Hr). by split_and!. }
  assert (Ht : ∃ rest, ∃ done, replied l = done ++ rest ∧ Forall2 own_reply (called l) done).
  { unfold in_step in Hs. destruct (in_call l) as [[r' fd']|]; [destruct Hs as [(_ & _ & Hs)|(reply & d & _ & _ & -> & Hs)]|destruct Hs as (_ & _ & Hs)].
    - exists [], (replied l). by rewrite app_nil_r.
    - by exists [(encode big r', option_list fd', reply)], d.
    - exists [], (replied l). by rewrite app_nil_r. }
  destruct Ht as (rest & done & -> & Hf). destruct (Forall2_lookup_l _ _ _ _ _ Hf Hi) as ([[m fds] reply] & Hd & [E ->]).
  cbn in E. injection E as -> ->. exists reply. split; [|done]. by apply lookup_app_l_Some.
Qed.
End paired.

(** ** On concrete files *)

Definition ex_stat (dev : bool) : Stat :=
  if dev then {| st_mode := 0x2190; st_uid := 0; st_rdev := (10, 229) |} else {| st_mode := 0x81a4; st_uid := 1000; st_rdev := (0, 0) |}.
(** Descriptor 0 is /dev/fuse, the others are cache files. *)
#[local] Instance ex_sys : Sys nat := { fstat fd := Ok (ex_stat (fd =? 0)%nat); f_getfl _ := Ok 0x8000; fstatfs _ := Ok 0xEF53 }.
(** A kernel that counts ids from 1. *)
#[local] Instance ex_kernel : Kernel nat Z := { backing_open _ _ n := (Ok (n + 1), n + 1); backing_close _ _ n := (Ok tt, n) }.

Inductive LinkAct := ASend (r : Request) (fd : option nat) | AReceive | AAnswer | ATimeOut.
Definition link_act (l : Link nat Z) (a : LinkAct) : Link nat Z :=
  default l (match a with ASend r fd => send false r fd l | AReceive => receive false l | AAnswer => answer false l | ATimeOut => time_out l end).
Definition link_acts : Link nat Z → list LinkAct → Link nat Z := foldl link_act.

Definition patient (a : LinkAct) : bool :=
  match a with ASend r fd => Bool.eqb (bool_decide (is_Some fd)) (carries_fd r) | ATimeOut => false | _ => true end.
Lemma link_acts_rtc l acts : forallb patient acts = true → rtc (linkstep false True) l (link_acts l acts).
Proof.
  revert l. induction acts as [|a acts IH]; intros l H; [done|]. cbn in H. apply andb_true_iff in H as [Ha H].
  etrans; [|by apply IH]. unfold link_act.
  assert (∀ o, (∀ l', o = Some l' → linkstep false True l l') → rtc (linkstep false True) l (default l o)) as Ho.
  { intros [l'|] Hl; [by apply rtc_once, Hl|done]. }
  apply Ho. intros l'. destruct a as [r fd| | |]; intros E; [|by apply link_receive|by apply link_answer|done].
  apply (link_send _ _ _ r fd); [|done]. cbn in Ha. apply eqb_prop in Ha. rewrite <- Ha.
  destruct fd; case_bool_decide as Hb; split; try done; by destruct Hb.
Qed.

(** A call that gave up leaves its reply in the socket, and the next call takes it for its
    own: the file opened as descriptor 8 is given the id under which the kernel knows the
    file opened as descriptor 7, and is read from that one. *)
Lemma late_reply_misread :
  let l := link_acts (fresh_link 1000 true 0)
    [ASend Setup (Some 0%nat); AAnswer; AReceive;
     ASend Open (Some 7%nat); ATimeOut; AAnswer;
     ASend Open (Some 8%nat); AReceive; AAnswer] in
  called l = [(Setup, Some 0%nat, Some (Ok 1)); (Open, Some 7%nat, None); (Open, Some 8%nat, Some (Ok 1))] ∧
  decode_reply false <$> (snd <$> replied l) = [Some (Ok 1); Some (Ok 1); Some (Ok 2)].
Proof. by vm_compute. Qed.

Lemma request_codec_witness :
  Forall byte (encode false (Close 7)) ∧ parse_request false (encode false (Close 7)) 0 false = Ok (Close 7) ∧
  (parse_request false (encode false (Close 7)) 0 false = Ok (Close 7) ↔
   false = false ∧ encode false (Close 7) = encode false (Close 7) ∧ 0%nat = fds_of (Close 7) ∧ valid_request (Close 7)).
Proof.
  assert (Hb : Forall byte (encode false (Close 7))) by (repeat constructor; done).
  split; [exact Hb|]. split; [by vm_compute|]. exact (request_codec false _ 0 false (Close 7) Hb).
Defined.

Lemma reply_codec_witness : decode_reply true (encode_reply true (Err ENOENT)) = Some (Err ENOENT).
Proof. exact (reply_codec true (Err ENOENT) ltac:(cbn; unfold ENOENT; lia)). Defined.

Lemma answers_match_witness :
  let l := link_acts (fresh_link 1000 true 0) [ASend Setup (Some 0%nat); AAnswer; AReceive; ASend Open (Some 7%nat); AAnswer; AReceive] in
  called l !! 1%nat = Some (Open, Some 7%nat, Some (Ok 1)) ∧
  ∃ reply, replied l !! 1%nat = Some (encode false Open, [7%nat], reply) ∧ Some (Ok 1) = decode_reply false reply.
Proof.
  cbv zeta. split; [by vm_compute|].
  refine (answers_match false 1000 true 0 _ _ 1%nat Open (Some 7%nat) (Some (Ok 1)) _); [|by vm_compute].
  by apply link_acts_rtc.
Defined.

(** What [spawn] leaves: a helper with the connection attached, every adopted id in its
    books, and no registration yet. *)
Section attached.
Context {F K : Type} `{Sys F} `{Kernel F K} (dev : F).
Definition direct (r : Request) (q : Server F * K) : option (result Z Z) * (Server F * K) :=
  let '(a, s, k) := handle r (if carries_fd r then Some dev else None) q.1 q.2 in (Some a, (s, k)).

Lemma adopt_all_ok adopt (s : Server F) (k : K) f : fuse s = Some f → opened_any s = false →
  adopt_all direct adopt (s, k) = (Ok tt, (with_ids (list_to_set adopt ∪ ids s) s, k)).
Proof.
  revert s. induction adopt as [|id adopt IH]; intros s Hf Ho; cbn.
  - do 2 f_equal. destruct s; unfold with_ids; cbn. do 2 f_equal. set_solver.
  - unfold direct at 1. cbn. rewrite Hf, Ho, IH by done. unfold with_ids. cbn.
    by rewrite (assoc_L (∪)), (comm_L (∪) (list_to_set adopt)).
Qed.

(** Attaching: the helper is used exactly when it holds the capability and the descriptor
    is /dev/fuse; it then owns just the ids its predecessor left, ready to close them. *)
Theorem spawn_outcome uid0 capable (k : K) adopt :
  let '(r, (s, k')) := spawn direct adopt (new uid0 capable, k) in
  k' = k ∧
  (r = Ok tt ↔ capable = true ∧ is_fuse_dev dev = true) ∧
  (r = Ok tt → fuse s = Some dev ∧ ids s = list_to_set adopt ∧ opened_any s = false) ∧
  (r = Err NoCapability ↔ capable = false ∧ is_fuse_dev dev = true) ∧ (r = Err (Refused ENODEV) ↔ is_fuse_dev dev = false).
Proof.
  unfold spawn, direct at 1. cbn. destruct (is_fuse_dev dev) eqn:Ed; cbn; [|naive_solver].
  destruct capable; cbn; [|naive_solver].
  rewrite (adopt_all_ok adopt _ k dev) by done. cbn. split_and!; try naive_solver. intros _. split_and!; [done|set_solver|done].
Qed.
End attached.
