(* ===== verification/Restart.v ===== *)
(** [state_snapshot.rs], the log a daemon leaves for its successor: node ids, open handles and
    streamed uploads, as records appended to [handoff.log], and what a successor on the same
    kernel connection reads back out of it.

    A line is a record, or [None] when it does not parse; that serde writes and reads a record
    back (every path is UTF-8), the [size] of its line, and that a removed file is gone are
    taken for granted.  A write either succeeds or fails whole ([ok]).  Numbers are unbounded:
    the saturating additions of [u64] counters do not saturate. *)
From Stdlib Require Import Ascii String.
From S2P Require Import Prelude Paths Backend FsCache Journal Replay ChunkUpload Versions AppLocks Attr IoMode Mount Throttle ReadAhead Read.
From S2P Require Import Namespace.
Local Open Scope nat_scope.

(* handoff.rs:72-75 ConnDev *)
Record ConnDev := { major : Z; minor : Z }.
#[export] Instance ConnDev_eq_dec : EqDecision ConnDev.
Proof. solve_decision. Defined.

(* state_snapshot.rs:57-57 LOG_FILE *)
Definition LOG_FILE : string := "handoff.log".
(* state_snapshot.rs:61-61 COMPACT_BYTES *)
Definition COMPACT_BYTES : Z := (64 * 1024 * 1024)%Z.
(* state_snapshot.rs:63-63 BUF_MAX *)
Definition BUF_MAX : Z := (64 * 1024)%Z.
(* state_snapshot.rs:66-66 RESERVE_BLOCK *)
Definition RESERVE_BLOCK : nat := Z.to_nat 4096.
(* state_snapshot.rs:70-70 FH_GAP *)
Definition FH_GAP : nat := Z.to_nat (2 ^ 20).

(* state_snapshot.rs:105-110 StagingId *)
Record StagingId := { st_ino : Z; st_size : Z; st_ctime : Z; st_ctime_nsec : Z }.
#[export] Instance StagingId_eq_dec : EqDecision StagingId.
Proof. solve_decision. Defined.

(* state_snapshot.rs:122-149 OpenRecord *)
Record OpenRecord := {
  or_fh : nat; or_ino : nat; or_path : PathBuf; or_write_path : option PathBuf; or_staging : option StagingId;
  or_dirty : bool; or_created : bool; or_staged_whole : bool; or_unlinked : bool; or_etag : option Etag;
  or_eligible : bool; or_kind : IoKind; or_backing : option Z; or_mime : option (string * Z);
}.
Definition rec_unlinked (r : OpenRecord) : OpenRecord :=
  Build_OpenRecord (or_fh r) (or_ino r) (or_path r) (or_write_path r) (or_staging r) (or_dirty r) (or_created r) (or_staged_whole r)
    true (or_etag r) (or_eligible r) (or_kind r) (or_backing r) (or_mime r).
Definition rec_path (p : PathBuf) (r : OpenRecord) : OpenRecord :=
  Build_OpenRecord (or_fh r) (or_ino r) p (or_write_path r) (or_staging r) (or_dirty r) (or_created r) (or_staged_whole r)
    (or_unlinked r) (or_etag r) (or_eligible r) (or_kind r) (or_backing r) (or_mime r).

(* state_snapshot.rs:153-165 Record *)
Inductive Rec :=
| Base (d : ConnDev) (mount_point : PathBuf)
| Ino (s ino : nat) (path : PathBuf)
| Reserve (s upto : nat)
| Mv (s ino : nat) (path : PathBuf) (dropped : option nat)
| Fh (s next : nat)
| ROpen (s : nat) (r : OpenRecord)
| RClose (s fh : nat)
| Unlinked (s fh : nat)
| Retarget (s fh : nat) (path : PathBuf)
| RStream (s : nat) (write_path : PathBuf) (uploads_base : string).

(** ** The writer *)

(* state_snapshot.rs:208-230 Writer *)
Record Writer := {
  w_buf : list Rec;
  w_buf_len : Z;
  w_seq : nat;
  w_bytes : Z;
  w_compacted : Z;
  w_dev : ConnDev;
  w_mount : PathBuf;
  w_reserved : nat;
  w_opens : gmap nat (nat * OpenRecord);
  w_streams : gmap PathBuf (nat * string);
  w_fh_mark : nat;
  w_tail : option (list Rec);
  w_failed : bool;
}.

(** The writer and the file it appends to, [None] once it is removed. *)
Record LogState := { writer : Writer; file : option (list Rec) }.
Definition upd_w (f : Writer → Writer) (l : LogState) : LogState := {| writer := f (writer l); file := file l |}.

Definition set_seq (n : nat) (w : Writer) : Writer :=
  Build_Writer (w_buf w) (w_buf_len w) n (w_bytes w) (w_compacted w) (w_dev w) (w_mount w) (w_reserved w) (w_opens w) (w_streams w)
    (w_fh_mark w) (w_tail w) (w_failed w).
Definition set_buf (b : list Rec) (n bytes : Z) (tail : option (list Rec)) (failed : bool) (w : Writer) : Writer :=
  Build_Writer b n (w_seq w) bytes (w_compacted w) (w_dev w) (w_mount w) (w_reserved w) (w_opens w) (w_streams w) (w_fh_mark w)
    tail failed.
Definition set_reserved (n : nat) (w : Writer) : Writer :=
  Build_Writer (w_buf w) (w_buf_len w) (w_seq w) (w_bytes w) (w_compacted w) (w_dev w) (w_mount w) n (w_opens w) (w_streams w)
    (w_fh_mark w) (w_tail w) (w_failed w).
Definition set_opens (o : gmap nat (nat * OpenRecord)) (w : Writer) : Writer :=
  Build_Writer (w_buf w) (w_buf_len w) (w_seq w) (w_bytes w) (w_compacted w) (w_dev w) (w_mount w) (w_reserved w) o (w_streams w)
    (w_fh_mark w) (w_tail w) (w_failed w).
Definition set_streams (s : gmap PathBuf (nat * string)) (w : Writer) : Writer :=
  Build_Writer (w_buf w) (w_buf_len w) (w_seq w) (w_bytes w) (w_compacted w) (w_dev w) (w_mount w) (w_reserved w) (w_opens w) s
    (w_fh_mark w) (w_tail w) (w_failed w).
Definition set_mark (n : nat) (w : Writer) : Writer :=
  Build_Writer (w_buf w) (w_buf_len w) (w_seq w) (w_bytes w) (w_compacted w) (w_dev w) (w_mount w) (w_reserved w) (w_opens w)
    (w_streams w) n (w_tail w) (w_failed w).
Definition set_compacted (bytes compacted : Z) (tail : option (list Rec)) (w : Writer) : Writer :=
  Build_Writer (w_buf w) (w_buf_len w) (w_seq w) bytes compacted (w_dev w) (w_mount w) (w_reserved w) (w_opens w)
    (w_streams w) (w_fh_mark w) tail (w_failed w).

Section log.
Context (size : Rec → Z).

(* state_snapshot.rs:256-273 Writer::flush *)
Definition flush (ok : bool) (l : LogState) : LogState :=
  let w := writer l in
  if w_failed w || bool_decide (w_buf w = []) then l
  else if ok then
    {| writer := set_buf [] 0 (w_bytes w + w_buf_len w)%Z ((λ t, t ++ w_buf w) <$> w_tail w) false w;
       file := (λ f, f ++ w_buf w) <$> file l |}
  else {| writer := set_buf (w_buf w) (w_buf_len w) (w_bytes w) (w_tail w) true w; file := None |}.

(* state_snapshot.rs:242-254 Writer::append *)
Definition append (ok : bool) (r : Rec) (sync : bool) (l : LogState) : LogState :=
  let w := writer l in
  if w_failed w then l
  else
    let l := upd_w (set_buf (w_buf w ++ [r]) (w_buf_len w + size r)%Z (w_bytes w) (w_tail w) false) l in
    if sync || (BUF_MAX <=? w_buf_len (writer l))%Z then flush ok l else l.

(** The next sequence number goes into the record. *)
Definition append_next (ok : bool) (r : nat → Rec) (sync : bool) (l : LogState) : LogState :=
  let s := S (w_seq (writer l)) in append ok (r s) sync (upd_w (set_seq s) l).

(* state_snapshot.rs:378-380 reservation_after *)
Definition reservation_after (ino : nat) : nat := ((ino / RESERVE_BLOCK + 1) * RESERVE_BLOCK)%nat.

(** [oks]: do the writes of the reservation and of the record succeed. *)
(* state_snapshot.rs:366-375 log_inode *)
Definition log_inode (oks : bool * bool) (ino : nat) (path : PathBuf) (l : LogState) : LogState :=
  let l := if (w_reserved (writer l) <=? ino)%nat
           then append_next oks.1 (λ s, Reserve s (reservation_after ino)) true (upd_w (set_reserved (reservation_after ino)) l)
           else l in
  append_next oks.2 (λ s, Ino s ino path) false l.

(* state_snapshot.rs:383-388 inode_moved *)
Definition inode_moved (ok : bool) (ino : nat) (to : PathBuf) (dropped : option nat) (l : LogState) : LogState :=
  append_next ok (λ s, Mv s ino to dropped) true l.

(** What open() and create() log of a handle; [mime] and [whole] are on its read side. *)
(* state_snapshot.rs:394-409 handle_opened *)
Definition record_of (fh : nat) (o : OpenFile) (mime : option (string * Z)) (whole : bool) (stat : PathBuf → option StagingId)
    (backing : option Z) : OpenRecord :=
  {| or_fh := fh; or_ino := of_ino o; or_path := remote_path o; or_write_path := write_path o; or_staging := write_path o ≫= stat;
     or_dirty := dirty o; or_created := created o; or_staged_whole := whole; or_unlinked := unlinked o; or_etag := original_etag o;
     or_eligible := Mount.stream_eligible o; or_kind := io_kind o; or_backing := backing; or_mime := mime |}.
(* state_snapshot.rs:392-414 handle_opened *)
Definition handle_opened (ok : bool) (fh : nat) (r : OpenRecord) (l : LogState) : LogState :=
  let l := append_next ok (λ s, ROpen s r) true l in
  upd_w (λ w, set_opens (<[fh := (w_seq w, r)]> (w_opens w)) w) l.

(** The log's part of [handle_released]. *)
(* state_snapshot.rs:419-431 handle_released *)
Definition handle_released (ok : bool) (fh : nat) (l : LogState) : LogState :=
  match w_opens (writer l) !! fh with
  | Some (_, r) =>
      let l := upd_w (λ w, set_opens (delete fh (w_opens w)) w) l in
      let l := match or_write_path r with Some wp => upd_w (λ w, set_streams (delete wp (w_streams w)) w) l | None => l end in
      append_next ok (λ s, RClose s fh) true l
  | None => l
  end.

(* state_snapshot.rs:434-442 handle_unlinked *)
Definition handle_unlinked (ok : bool) (fh : nat) (l : LogState) : LogState :=
  match w_opens (writer l) !! fh with
  | Some (s, r) => append_next ok (λ s, Unlinked s fh) true (upd_w (λ w, set_opens (<[fh := (s, rec_unlinked r)]> (w_opens w)) w) l)
  | None => l
  end.
(* state_snapshot.rs:445-453 handle_retargeted *)
Definition handle_retargeted (ok : bool) (fh : nat) (p : PathBuf) (l : LogState) : LogState :=
  match w_opens (writer l) !! fh with
  | Some (s, r) => append_next ok (λ s, Retarget s fh p) true (upd_w (λ w, set_opens (<[fh := (s, rec_path p r)]> (w_opens w)) w) l)
  | None => l
  end.
(* state_snapshot.rs:457-463 stream_started *)
Definition stream_started (ok : bool) (wp : PathBuf) (base : string) (l : LogState) : LogState :=
  let l := append_next ok (λ s, RStream s wp base) true l in
  upd_w (λ w, set_streams (<[wp := (w_seq w, base)]> (w_streams w)) w) l.

(** One turn of the ticker; [true]: the log is to be compacted. *)
(* state_snapshot.rs:304-306 needs_compaction *)
Definition needs_compaction (bytes compacted : Z) : bool := (Z.max COMPACT_BYTES (Z.min (compacted * 2) u64_max) <? bytes)%Z.
(* state_snapshot.rs:630-640 spawn_ticker *)
Definition tick (ok1 ok2 : bool) (next_fh : nat) (l : LogState) : LogState * bool :=
  let l := if negb (next_fh =? w_fh_mark (writer l))%nat
           then upd_w (set_mark next_fh) (append_next ok1 (λ s, Fh s next_fh) false l) else l in
  let l := flush ok2 l in
  let w := writer l in
  (l, negb (w_failed w) && bool_decide (w_tail w = None) && needs_compaction (w_bytes w) (w_compacted w)).

(** *** Compaction *)

(* state_snapshot.rs:310-319 LogImage *)
Record LogImage := {
  i_dev : ConnDev; i_mount : PathBuf; i_s : nat; i_fh_mark : nat; i_reserved : nat; i_inodes : list (nat * PathBuf);
  i_opens : list (nat * OpenRecord); i_streams : list (PathBuf * nat * string);
}.
(** Every node id but the root's; the code sorts them by id. *)
Definition known_inodes (c : FsCache) : list (nat * PathBuf) := map_to_list (delete 1 (inodes c)).
(* state_snapshot.rs:279-293 Writer::image *)
Definition image (c : FsCache) (w : Writer) : LogImage * Writer :=
  let w := set_reserved (Nat.max (w_reserved w) (next_inode c)) w in
  let w := set_seq (S (w_seq w)) w in
  ({| i_dev := w_dev w; i_mount := w_mount w; i_s := w_seq w; i_fh_mark := w_fh_mark w; i_reserved := w_reserved w;
      i_inodes := known_inodes c; i_opens := (map_to_list (w_opens w)).*2;
      i_streams := (λ q, (q.1, q.2.1, q.2.2)) <$> map_to_list (w_streams w) |}, w).
(* state_snapshot.rs:324-344 LogImage::write *)
Definition image_records (i : LogImage) : list Rec :=
  [Base (i_dev i) (i_mount i); Fh (i_s i) (i_fh_mark i); Reserve (i_s i) (i_reserved i)] ++
  ((λ q, Ino (i_s i) q.1 q.2) <$> i_inodes i) ++ ((λ q, ROpen q.1 q.2) <$> i_opens i) ++
  ((λ q, RStream q.1.2 q.1.1 q.2) <$> i_streams i).
Definition size_of (rs : list Rec) : Z := foldr (λ r n, (size r + n)%Z) 0%Z rs.

(** The state is copied under the locks; what is logged until the new file is there is kept
    in [w_tail]. *)
(* state_snapshot.rs:650-661 compact *)
Definition compact_start (ok : bool) (c : FsCache) (l : LogState) : option LogImage * LogState :=
  let l := flush ok l in
  if w_failed (writer l) then (None, l)
  else let '(i, w) := image c (set_compacted (w_bytes (writer l)) (w_compacted (writer l)) (Some []) (writer l)) in
       (Some i, {| writer := w; file := file l |}).
(** [written]: the new file could be written and renamed into place; opening it again is
    taken to succeed. *)
(* state_snapshot.rs:662-697 compact *)
Definition compact_end (ok written : bool) (i : LogImage) (l : LogState) : LogState :=
  let l := flush ok l in
  let w := writer l in
  let f := image_records i ++ default [] (w_tail w) in
  if written && negb (w_failed w) then {| writer := set_compacted (size_of f) (size_of f) None w; file := Some f |}
  else upd_w (λ w, set_compacted (w_bytes w) (w_bytes w) None w) l.

(** A new log, on a fresh mount. *)
(* state_snapshot.rs:528-572 start_fresh *)
Definition start_fresh (dev : ConnDev) (mount_point : PathBuf) (c : FsCache) : LogState :=
  let i := {| i_dev := dev; i_mount := mount_point; i_s := 1; i_fh_mark := 0; i_reserved := next_inode c;
              i_inodes := known_inodes c; i_opens := []; i_streams := [] |} in
  let f := image_records i in
  {| writer := {| w_buf := []; w_buf_len := 0; w_seq := 1; w_bytes := size_of f; w_compacted := size_of f; w_dev := dev;
                  w_mount := mount_point; w_reserved := next_inode c; w_opens := ∅; w_streams := ∅; w_fh_mark := 0; w_tail := None;
                  w_failed := false |};
     file := Some f |}.
End log.

(** ** Reading it back *)

(* state_snapshot.rs:185-195 ChunkRec *)
Record ChunkRec := { ck_base : string; ck_next : Z; ck_confirmed : Z; ck_head : Z; ck_whole : bool }.
(* state_snapshot.rs:169-182 HandleState *)
Record HandleState := {
  hs_fh : nat; hs_path : PathBuf; hs_dirty : bool; hs_total : Z; hs_eligible : bool; hs_chunk : option ChunkRec;
  hs_failed : bool; hs_unlinked : bool; hs_created : bool; hs_etag : option Etag;
}.
(* state_snapshot.rs:198-204 HandlesSnapshot *)
Record HandlesSnapshot := { sn_dev : ConnDev; sn_mount : PathBuf; sn_s : nat; sn_handles : list HandleState }.

(* state_snapshot.rs:763-767 RestoredHandle *)
Record RestoredHandle := { rh_seq : nat; rh_rec : OpenRecord; rh_exact : option HandleState }.

(* state_snapshot.rs:797-808 Replayer *)
Record Replayer := {
  p_inodes : gmap nat PathBuf; p_paths : gmap PathBuf nat; p_handles : gmap nat RestoredHandle; p_streams : gmap PathBuf (nat * string);
  p_max_seq : nat; p_max_ino : nat; p_reserved : nat; p_max_fh : nat; p_fh_mark : nat; p_based : bool;
}.
Definition new_replayer : Replayer := Build_Replayer ∅ ∅ ∅ ∅ 0 0 0 0 0 false.

Definition with_names (i : gmap nat PathBuf) (q : gmap PathBuf nat) (p : Replayer) : Replayer :=
  Build_Replayer i q (p_handles p) (p_streams p) (p_max_seq p) (p_max_ino p) (p_reserved p) (p_max_fh p) (p_fh_mark p) (p_based p).
Definition with_handles (h : gmap nat RestoredHandle) (p : Replayer) : Replayer :=
  Build_Replayer (p_inodes p) (p_paths p) h (p_streams p) (p_max_seq p) (p_max_ino p) (p_reserved p) (p_max_fh p) (p_fh_mark p) (p_based p).
Definition with_stream (t : gmap PathBuf (nat * string)) (p : Replayer) : Replayer :=
  Build_Replayer (p_inodes p) (p_paths p) (p_handles p) t (p_max_seq p) (p_max_ino p) (p_reserved p) (p_max_fh p) (p_fh_mark p) (p_based p).
Definition count_up (s ino reserved fh mark : nat) (p : Replayer) : Replayer :=
  Build_Replayer (p_inodes p) (p_paths p) (p_handles p) (p_streams p) (Nat.max (p_max_seq p) s) (Nat.max (p_max_ino p) ino)
    (Nat.max (p_reserved p) reserved) (Nat.max (p_max_fh p) fh) (Nat.max (p_fh_mark p) mark) (p_based p).
Definition with_based (p : Replayer) : Replayer :=
  Build_Replayer (p_inodes p) (p_paths p) (p_handles p) (p_streams p) (p_max_seq p) (p_max_ino p) (p_reserved p) (p_max_fh p)
    (p_fh_mark p) true.

(* state_snapshot.rs:811-824 Replayer::set *)
Definition set_name (ino : nat) (path : PathBuf) (p : Replayer) : Replayer :=
  let paths := match p_inodes p !! ino with
               | Some prev => if bool_decide (prev ≠ path) && bool_decide (p_paths p !! prev = Some ino) then delete prev (p_paths p)
                              else p_paths p
               | None => p_paths p
               end in
  let inodes := <[ino := path]> (p_inodes p) in
  let inodes := match paths !! path with
                | Some other => if bool_decide (other = ino) then inodes else delete other inodes
                | None => inodes
                end in
  with_names inodes (<[path := ino]> paths) p.

(** [Mv]'s second half: what the move displaced. *)
(* state_snapshot.rs:851-857 Replayer::apply *)
Definition drop_name (d : nat) (p : Replayer) : Replayer :=
  match p_inodes p !! d with
  | Some q => with_names (delete d (p_inodes p)) (if bool_decide (p_paths p !! q = Some d) then delete q (p_paths p) else p_paths p) p
  | None => p
  end.
Definition edit_handle (fh : nat) (f : OpenRecord → OpenRecord) (p : Replayer) : Replayer :=
  with_handles (alter (λ h, {| rh_seq := rh_seq h; rh_rec := f (rh_rec h); rh_exact := rh_exact h |}) fh (p_handles p)) p.

(** A record behind the first. *)
(* state_snapshot.rs:840-892 Replayer::apply *)
Definition take_record (p : Replayer) (r : Rec) : Replayer :=
  match r with
  | Base _ _ => p
  | Ino s ino path => set_name ino path (count_up s ino 0 0 0 p)
  | Mv s ino path dropped =>
      let p := set_name ino path (count_up s ino 0 0 0 p) in
      match dropped with Some d => if d =? ino then p else drop_name d p | None => p end
  | Reserve s upto => count_up s 0 upto 0 0 p
  | Fh s next => count_up s 0 0 0 next p
  | ROpen s r =>
      let p := count_up s 0 0 (or_fh r) 0 p in
      with_handles (<[or_fh r := {| rh_seq := s; rh_rec := r; rh_exact := None |}]> (p_handles p)) p
  | RClose s fh => let p := count_up s 0 0 0 0 p in with_handles (delete fh (p_handles p)) p
  | Unlinked s fh => edit_handle fh rec_unlinked (count_up s 0 0 0 0 p)
  | Retarget s fh path => edit_handle fh (rec_path path) (count_up s 0 0 0 0 p)
  | RStream s wp base => let p := count_up s 0 0 0 0 p in with_stream (<[wp := (s, base)]> (p_streams p)) p
  end.
(* state_snapshot.rs:826-894 Replayer::apply *)
Definition apply (dev : ConnDev) (mount_point : PathBuf) (p : Replayer) (r : Rec) : result Replayer string :=
  match p_based p, r with
  | false, Base d m => if bool_decide (d = dev) && bool_decide (m = mount_point) then Ok (with_based p)
                       else Err "log is for another connection"%string
  | false, _ => Err "log does not start with its connection"%string
  | true, Base _ _ => Err "second Base record"%string
  | true, _ => Ok (take_record p r)
  end.

(* state_snapshot.rs:898-909 Replayer::overlay *)
Definition overlay (dev : ConnDev) (mount_point : PathBuf) (sn : HandlesSnapshot) (p : Replayer) : Replayer :=
  if bool_decide (sn_dev sn = dev) && bool_decide (sn_mount sn = mount_point) then
    with_handles (foldl (λ hs x,
      alter (λ h, if (rh_seq h <=? sn_s sn)%nat then {| rh_seq := rh_seq h; rh_rec := rh_rec h; rh_exact := Some x |} else h) (hs_fh x) hs)
      (p_handles p) (sn_handles sn)) p
  else p.

(* state_snapshot.rs:770-779 Restored *)
Record Restored := {
  r_inodes : gmap nat PathBuf; r_handles : gmap nat RestoredHandle; r_streams : gmap PathBuf (nat * string);
  r_max_seq : nat; r_max_ino : nat; r_reserved : nat; r_max_fh : nat; r_fh_mark : nat;
}.
(* state_snapshot.rs:785-787 Restored::next_inode *)
Definition restored_next_inode (r : Restored) : nat := Nat.max (Nat.max (S (r_max_ino r)) (r_reserved r)) 2.

Definition open_staging (hs : gmap nat RestoredHandle) : list PathBuf := omap (λ q, or_write_path (rh_rec q.2)) (map_to_list hs).
(* state_snapshot.rs:911-924 Replayer::finish *)
Definition finish (p : Replayer) : Restored :=
  {| r_inodes := p_inodes p; r_handles := p_handles p;
     r_streams := filter (λ q, q.1 ∈ open_staging (p_handles p)) (p_streams p);
     r_max_seq := p_max_seq p; r_max_ino := p_max_ino p; r_reserved := p_reserved p; r_max_fh := p_max_fh p; r_fh_mark := p_fh_mark p |}.

(** The lines in order; [torn]: the last one read did not parse. *)
(* state_snapshot.rs:933-949 load *)
Fixpoint load_lines (dev : ConnDev) (mount_point : PathBuf) (torn : bool) (p : Replayer) (lines : list (option Rec)) : result Replayer string :=
  match lines with
  | [] => Ok p
  | None :: lines => load_lines dev mount_point true p lines
  | Some r :: lines =>
      if torn then Err "corrupt record in the middle of the log"%string
      else match apply dev mount_point p r with
           | Ok p => load_lines dev mount_point false p lines
           | Err e => Err e
           end
  end.
(** [lines]: the log, [None] when there is none; [snap]: the handles file, when it reads. *)
(* state_snapshot.rs:929-964 load *)
Definition load (dev : ConnDev) (mount_point : PathBuf) (lines : option (list (option Rec))) (snap : option HandlesSnapshot) : result Restored string :=
  match lines with
  | None => Err "no log"%string
  | Some lines =>
      match load_lines dev mount_point false new_replayer lines with
      | Err e => Err e
      | Ok p =>
          if negb (p_based p) then Err "empty log"%string
          else Ok (finish (match snap with Some sn => overlay dev mount_point sn p | None => p end))
      end
  end.

(** The node ids, put into the successor's cache. *)
(* state_snapshot.rs:1180-1192 apply *)
Definition install_names (r : Restored) (c : FsCache) : FsCache :=
  let inodes := <[1 := []]> (r_inodes r) in
  with_inodes c inodes (list_to_map ((λ q, (q.2, q.1)) <$> map_to_list inodes)) (Nat.max (next_inode c) (restored_next_inode r)).

(** ** The live daemon *)

(** What the log follows: the node ids, the handles with their read sides, the handle counter,
    the staging files' identities, the log, and a compaction under way. *)
Record Live := {
  lv_cache : FsCache; lv_files : gmap nat OpenFile; lv_sides : gmap nat ReadSide; lv_next_fh : nat; lv_stat : PathBuf → option StagingId;
  lv_log : LogState; lv_image : option LogImage;
}.

Section live.
Context (size : Rec → Z) (cache_dir : PathBuf).
Local Abbreviation append_next := (append_next size).

Definition staging_name (fh : nat) : PathBuf := join cache_dir [("write_" +:+ pretty.pretty fh)%string].

(* lib.rs:3165-3176 FsCache::allocate_inode *)
Definition allocate_logged (oks : bool * bool) (path : PathBuf) (cl : FsCache * LogState) : nat * (FsCache * LogState) :=
  let '(ino, c) := allocate_inode cl.1 path in
  (ino, (c, match paths cl.1 !! path with Some _ => cl.2 | None => log_inode size oks ino path cl.2 end)).

Definition moved_to (from to old : PathBuf) : PathBuf :=
  match strip_prefix old from with Some (x :: rel) => join to (x :: rel) | _ => to end.
(** One turn of the loop of [move_path]. *)
(* lib.rs:3146-3161 FsCache::move_path *)
Definition move_logged (ok : bool) (from to : PathBuf) (cl : FsCache * LogState) (mv : PathBuf * nat) : FsCache * LogState :=
  let '(old, ino) := mv in
  let new := moved_to from to old in
  let dropped := match delete old (paths cl.1) !! new with
                 | Some d => if decide (d = ino) then None else Some d
                 | None => None
                 end in
  (move_one from to cl.1 mv, inode_moved size ok ino new dropped cl.2).

Definition live_with (c : FsCache) (f : gmap nat OpenFile) (l : LogState) (v : Live) : Live :=
  {| lv_cache := c; lv_files := f; lv_sides := lv_sides v; lv_next_fh := lv_next_fh v; lv_stat := lv_stat v; lv_log := l;
     lv_image := lv_image v |}.
Definition read_mime (r : ReadSide) : option (string * Z) := (λ ct, (ct, rs_mime_max r)) <$> rs_mime_ct r.

(** What a request keeps of a handle, renames and deletes of its file apart. *)
Definition same_handle (o o' : OpenFile) : Prop :=
  remote_path o' = remote_path o ∧ unlinked o' = unlinked o ∧ of_ino o' = of_ino o ∧ io_kind o' = io_kind o ∧ write_path o' = write_path o.
Definition frees_sent (o : OpenFile) : bool :=
  match Mount.chunk_upload o with Some st => punching (pump (cs st)) | None => false end.

Inductive lstep (v : Live) : Live → Prop :=
| l_allocate oks path ino c l : path ≠ [] → allocate_logged oks path (lv_cache v, lv_log v) = (ino, (c, l)) →
    lstep v (live_with c (lv_files v) l v)
| l_move ok from to old ino c l : paths (lv_cache v) !! old = Some ino → starts_with old from = true → from ≠ [] → to ≠ [] →
    move_logged ok from to (lv_cache v, lv_log v) (old, ino) = (c, l) → lstep v (live_with c (lv_files v) l v)
| l_open ok o side backing stat fh : fh = lv_next_fh v → write_path o = None ∨ write_path o = Some (staging_name fh) →
    frees_sent o = false → (∀ wp, wp ≠ staging_name fh → stat wp = lv_stat v wp) →
    lstep v {| lv_cache := lv_cache v; lv_files := <[fh := o]> (lv_files v); lv_sides := <[fh := side]> (lv_sides v);
               lv_next_fh := S fh; lv_stat := stat; lv_image := lv_image v;
               lv_log := handle_opened size ok fh (record_of fh o (read_mime side) (rs_staged_whole side) stat backing) (lv_log v) |}
| l_disk stat : (∀ fh o wp, lv_files v !! fh = Some o → write_path o = Some wp → stat wp = lv_stat v wp) →
    lstep v {| lv_cache := lv_cache v; lv_files := lv_files v; lv_sides := lv_sides v; lv_next_fh := lv_next_fh v;
               lv_stat := stat; lv_image := lv_image v; lv_log := lv_log v |}
| l_opendir :
    lstep v {| lv_cache := lv_cache v; lv_files := lv_files v; lv_sides := lv_sides v; lv_next_fh := S (lv_next_fh v);
               lv_stat := lv_stat v; lv_image := lv_image v; lv_log := lv_log v |}
| l_release ok fh : lstep v (live_with (lv_cache v) (delete fh (lv_files v)) (handle_released size ok fh (lv_log v)) v)
| l_unlink ok fh o o' : lv_files v !! fh = Some o → remote_path o' = remote_path o → unlinked o' = true → of_ino o' = of_ino o →
    io_kind o' = io_kind o → write_path o' = write_path o → dirty o' = dirty o → Mount.chunk_upload o' = Mount.chunk_upload o →
    lstep v (live_with (lv_cache v) (<[fh := o']> (lv_files v)) (handle_unlinked size ok fh (lv_log v)) v)
| l_retarget ok fh o p : lv_files v !! fh = Some o →
    lstep v (live_with (lv_cache v) (<[fh := set_path o p]> (lv_files v)) (handle_retargeted size ok fh p (lv_log v)) v)
| l_stream ok fh base : fh < lv_next_fh v →
    lstep v (live_with (lv_cache v) (lv_files v) (stream_started size ok (staging_name fh) base (lv_log v)) v)
| l_work fh o o' stat : lv_files v !! fh = Some o → same_handle o o' →
    (∀ wp, write_path o ≠ Some wp → stat wp = lv_stat v wp) →
    (∀ wp, write_path o = Some wp → stat wp = lv_stat v wp ∨
       ∀ s r, w_opens (writer (lv_log v)) !! fh = Some (s, r) → stat wp ≠ or_staging r) →
    (dirty o' = true → dirty o = true ∨ ∃ wp, write_path o = Some wp ∧ stat wp ≠ lv_stat v wp) →
    (frees_sent o' = true → frees_sent o = true ∨ ∃ wp, write_path o = Some wp ∧ is_Some (w_streams (writer (lv_log v)) !! wp)) →
    lstep v {| lv_cache := lv_cache v; lv_files := <[fh := o']> (lv_files v); lv_sides := lv_sides v; lv_next_fh := lv_next_fh v;
               lv_stat := stat; lv_image := lv_image v; lv_log := lv_log v |}
| l_tick ok1 ok2 :
    lstep v (live_with (lv_cache v) (lv_files v) (tick size ok1 ok2 (lv_next_fh v) (lv_log v)).1 v)
| l_compact ok i l : lv_image v = None → compact_start ok (lv_cache v) (lv_log v) = (i, l) →
    lstep v {| lv_cache := lv_cache v; lv_files := lv_files v; lv_sides := lv_sides v; lv_next_fh := lv_next_fh v;
               lv_stat := lv_stat v; lv_image := i; lv_log := l |}
| l_compacted ok written i : lv_image v = Some i →
    lstep v {| lv_cache := lv_cache v; lv_files := lv_files v; lv_sides := lv_sides v; lv_next_fh := lv_next_fh v;
               lv_stat := lv_stat v; lv_image := None; lv_log := compact_end size ok written i (lv_log v) |}.
End live.

(** ** The log tells the live state *)

Definition replayed (rs : list Rec) : Replayer := foldl take_record (with_based new_replayer) rs.
Definition not_base (r : Rec) : Prop := match r with Base _ _ => False | _ => True end.
Definition opened (q : nat * OpenRecord) : RestoredHandle := {| rh_seq := q.1; rh_rec := q.2; rh_exact := None |}.
Definition next_id (p : Replayer) : nat := Nat.max (Nat.max (S (p_max_ino p)) (p_reserved p)) 2.

(** Queued records only add names to what [p] knows. *)
Fixpoint only_adds (p : Replayer) (rs : list Rec) : Prop :=
  match rs with
  | [] => True
  | Ino s ino path :: rs => p_inodes p !! ino = None ∧ p_paths p !! path = None ∧ only_adds (take_record p (Ino s ino path)) rs
  | _ => False
  end.

(** [named]: the names staging files had so far. *)
Section named.
Context (named : PathBuf → Prop).

Record tells (p : Replayer) (c : FsCache) (w : Writer) : Prop := {
  t_inodes : p_inodes p = delete 1 (inodes c);
  t_paths : p_paths p = delete [] (paths c);
  t_handles : p_handles p = opened <$> w_opens w;
  t_streams : ∀ fh s r wp, w_opens w !! fh = Some (s, r) → or_write_path r = Some wp → p_streams p !! wp = w_streams w !! wp;
  t_named : ∀ wp, is_Some (p_streams p !! wp) → named wp;
  t_seq : p_max_seq p ≤ w_seq w;
  t_fh : ∀ fh s r, w_opens w !! fh = Some (s, r) → or_fh r = fh ∧ fh ≤ p_max_fh p ∧ s ≤ p_max_seq p;
}.
(** The records on disk, before the queued ones. *)
Record durable (p : Replayer) (c : FsCache) (w : Writer) : Prop := {
  d_next : next_inode c ≤ w_reserved w;
  d_reserved : w_reserved w ≤ next_id p;
  d_mark : w_fh_mark w ≤ p_fh_mark p;
  d_based : p_based p = true;
}.
Record tracks (rs : list Rec) (c : FsCache) (w : Writer) : Prop := {
  k_base : Forall not_base (rs ++ w_buf w);
  k_tells : tells (replayed (rs ++ w_buf w)) c w;
  k_durable : durable (replayed rs) c w;
  k_adds : only_adds (replayed rs) (w_buf w);
}.

Definition cache_ok (c : FsCache) : Prop := inode_wf c ∧ inodes c !! 1 = Some [].

(** The file [f ++ rs] and, while a compaction runs, the file to come. *)
Definition followed (c : FsCache) (l : LogState) (im : option LogImage) : Prop :=
  let w := writer l in
  if w_failed w then file l = None
  else (∃ rs, file l = Some (Base (w_dev w) (w_mount w) :: rs) ∧ tracks rs c w) ∧
       match im with
       | Some i => ∃ t rs, w_tail w = Some t ∧ image_records i = Base (w_dev w) (w_mount w) :: rs ∧ tracks (rs ++ t) c w
       | None => w_tail w = None
       end.

Lemma replayed_app rs rs' : replayed (rs ++ rs') = foldl take_record (replayed rs) rs'.
Proof. apply foldl_app. Qed.
Lemma replayed_snoc rs r : replayed (rs ++ [r]) = take_record (replayed rs) r.
Proof. by rewrite replayed_app. Qed.

Lemma next_id_mono p r : next_id p ≤ next_id (take_record p r) ∧ p_fh_mark p ≤ p_fh_mark (take_record p r) ∧
  p_based (take_record p r) = p_based p.
Proof.
  unfold next_id. destruct r as [| | |s ino path dropped| | | | | |]; try (cbn; split_and!; lia || done).
  assert (E : p_max_ino (take_record p (Mv s ino path dropped)) = Nat.max (p_max_ino p) ino ∧
    p_reserved (take_record p (Mv s ino path dropped)) = p_reserved p `max` 0 ∧
    p_fh_mark (take_record p (Mv s ino path dropped)) = p_fh_mark p `max` 0 ∧
    p_based (take_record p (Mv s ino path dropped)) = p_based p).
  { cbn. destruct dropped as [d|]; [|done]. destruct (d =? ino); [done|]. unfold drop_name. by case_match. }
  destruct E as (-> & -> & -> & ->). split_and!; lia || done.
Qed.
Lemma replayed_mono rs rs' : next_id (replayed rs) ≤ next_id (replayed (rs ++ rs')) ∧
  p_fh_mark (replayed rs) ≤ p_fh_mark (replayed (rs ++ rs')) ∧ p_based (replayed (rs ++ rs')) = p_based (replayed rs).
Proof.
  induction rs' as [|r rs' IH] using rev_ind; [by rewrite app_nil_r|]. rewrite app_assoc, replayed_snoc.
  pose proof (next_id_mono (replayed (rs ++ rs')) r) as (? & ? & ->). destruct IH as (? & ? & ->). split_and!; lia || done.
Qed.

Lemma only_adds_app p rs rs' : only_adds p (rs ++ rs') ↔ only_adds p rs ∧ only_adds (foldl take_record p rs) rs'.
Proof.
  clear named. revert p. induction rs as [|r rs IH]; intros p; cbn [app only_adds foldl]; [naive_solver|].
  destruct r; cbn [only_adds]; rewrite ?IH; naive_solver.
Qed.

Lemma set_name_new ino path p : p_inodes p !! ino = None → p_paths p !! path = None →
  set_name ino path p = with_names (<[ino := path]> (p_inodes p)) (<[path := ino]> (p_paths p)) p.
Proof. intros Hi Hp. unfold set_name. by rewrite Hi, Hp. Qed.

(** What is still queued when the daemon dies takes nothing away. *)
Lemma adds_grow p rs : only_adds p rs →
  p_inodes p ⊆ p_inodes (foldl take_record p rs) ∧ p_handles (foldl take_record p rs) = p_handles p ∧
  p_streams (foldl take_record p rs) = p_streams p ∧ p_max_fh (foldl take_record p rs) = p_max_fh p.
Proof.
  revert p. induction rs as [|r rs IH]; intros p; cbn [foldl only_adds]; [done|]. destruct r; try done.
  intros (Hi & Hp & Ha). set (q := take_record p (Ino s ino path)) in *.
  assert (Hq : p_inodes q = <[ino := path]> (p_inodes p) ∧ p_handles q = p_handles p ∧ p_streams q = p_streams p ∧ p_max_fh q = p_max_fh p).
  { unfold q, take_record. rewrite set_name_new by done. cbn. split_and!; try done. lia. }
  destruct Hq as (Q1 & Q2 & Q3 & Q4). apply IH in Ha as (H1 & H2 & H3 & H4). rewrite Q1 in H1. split_and!; try congruence.
  etrans; [|exact H1]. by apply insert_subseteq.
Qed.

(** What one [append] does to the queue, the file and the file to come. *)
Definition appended (r : Rec) (sync : bool) (l l' : LogState) : Prop :=
  let w := writer l in let w' := writer l' in
  (w_failed w' = true ∧ file l' = None) ∨
  (w_failed w' = false ∧ ∃ d, file l' = (λ f, f ++ d) <$> file l ∧ w_tail w' = (λ t, t ++ d) <$> w_tail w ∧
     d ++ w_buf w' = w_buf w ++ [r] ∧ (w_buf w' = [] ∨ sync = false ∧ d = [])).
(** The fields only the hooks set. *)
Definition same_view (w w' : Writer) : Prop :=
  w_dev w' = w_dev w ∧ w_mount w' = w_mount w ∧ w_reserved w' = w_reserved w ∧ w_opens w' = w_opens w ∧ w_streams w' = w_streams w ∧
  w_fh_mark w' = w_fh_mark w.

Lemma option_app_nil {A} (o : option (list A)) : (λ f, f ++ []) <$> o = o.
Proof. destruct o; [|done]. cbn. by rewrite app_nil_r. Qed.

Lemma flush_spec ok l : w_failed (writer l) = false → let w := writer l in let l' := flush ok l in let w' := writer l' in
  same_view w w' ∧ w_seq w' = w_seq w ∧
  ((w_failed w' = true ∧ file l' = None) ∨
   (w_failed w' = false ∧ w_buf w' = [] ∧ file l' = (λ f, f ++ w_buf w) <$> file l ∧ w_tail w' = (λ t, t ++ w_buf w) <$> w_tail w)).
Proof.
  intros Hf. unfold flush. rewrite Hf. cbn [orb]. case_bool_decide as Hb; cbv zeta.
  - split; [done|]. split; [done|]. right. rewrite Hb, !option_app_nil. by split_and!.
  - destruct ok; cbn; (split; [done|]; split; [done|]); [right|left]; by split_and!.
Qed.

Lemma append_spec size ok r sync l : w_failed (writer l) = false →
  appended r sync l (append size ok r sync l) ∧ same_view (writer l) (writer (append size ok r sync l)) ∧
  w_seq (writer (append size ok r sync l)) = w_seq (writer l).
Proof.
  intros Hf. unfold append. rewrite Hf. set (l1 := upd_w _ l). destruct (sync || _) eqn:Es.
  - pose proof (flush_spec ok l1 eq_refl) as (Hv & Hs & Hc). split_and!; [|exact Hv|exact Hs].
    destruct Hc as [Hc|(H1 & H2 & H3 & H4)]; [by left|]. right. split; [done|]. exists (w_buf (writer l1)). split_and!; try done.
    + by rewrite H2, app_nil_r.
    + by left.
  - apply orb_false_iff in Es as [-> _]. split; [|by split]. right. split; [done|]. exists []. rewrite !option_app_nil. split_and!; try done.
    by right.
Qed.

Lemma append_next_spec size ok r sync l : w_failed (writer l) = false → let s := S (w_seq (writer l)) in
  let l' := append_next size ok r sync l in
  appended (r s) sync l l' ∧ same_view (writer l) (writer l') ∧ w_seq (writer l') = s.
Proof. intros Hf s l'. exact (append_spec size ok (r s) sync (upd_w (set_seq s) l) Hf). Qed.
Lemma append_failed size ok r sync l : w_failed (writer l) = true →
  let l' := append_next size ok r sync l in w_failed (writer l') = true ∧ file l' = file l.
Proof. intros Hf. unfold append_next, append. cbn. rewrite Hf. by split. Qed.

Lemma tracks_sync rs c w r d c' w' :
  tracks rs c w → not_base r → d ++ w_buf w' = w_buf w ++ [r] → w_buf w' = [] →
  tells (take_record (replayed (rs ++ w_buf w)) r) c' w' → next_inode c' ≤ w_reserved w' →
  w_reserved w' ≤ next_id (take_record (replayed (rs ++ w_buf w)) r) → w_fh_mark w' ≤ p_fh_mark (take_record (replayed (rs ++ w_buf w)) r) →
  tracks (rs ++ d) c' w'.
Proof.
  intros [Hb _ Hd _] Hr Hdd Hnil Ht H1 H2 H3. rewrite Hnil, app_nil_r in Hdd. subst d.
  assert (E : replayed (rs ++ w_buf w ++ [r]) = take_record (replayed (rs ++ w_buf w)) r) by (by rewrite app_assoc, replayed_snoc).
  split; rewrite ?Hnil, ?app_nil_r, ?E; try done.
  - rewrite app_assoc. apply Forall_app. split; [done|]. by constructor.
  - split; try done. rewrite <- E. destruct Hd. by rewrite (proj2 (proj2 (replayed_mono rs (w_buf w ++ [r])))).
Qed.

Lemma tracks_queued rs c w s ino path d c' w' :
  tracks rs c w → d ++ w_buf w' = w_buf w ++ [Ino s ino path] → w_buf w' = [] ∨ d = [] →
  tells (take_record (replayed (rs ++ w_buf w)) (Ino s ino path)) c' w' → next_inode c' ≤ w_reserved w' →
  w_reserved w' = w_reserved w → w_fh_mark w' = w_fh_mark w →
  p_inodes (replayed (rs ++ w_buf w)) !! ino = None → p_paths (replayed (rs ++ w_buf w)) !! path = None →
  tracks (rs ++ d) c' w'.
Proof.
  intros Hk Hdd Hc Ht H1 H2 H3 Hi Hp. pose proof Hk as [Hb _ [D1 D2 D3 D4] Ha]. destruct Hc as [Hnil| ->].
  - eapply tracks_sync; try done; rewrite ?H2, ?H3.
    + done.
    + etrans; [exact D2|]. etrans; [apply (replayed_mono rs (w_buf w))|apply next_id_mono].
    + etrans; [exact D3|]. etrans; [apply (replayed_mono rs (w_buf w))|apply next_id_mono].
  - rewrite app_nil_l in Hdd. rewrite app_nil_r. split; rewrite ?Hdd, ?app_assoc.
    + apply Forall_app. split; [done|]. by constructor.
    + by rewrite replayed_snoc.
    + split; rewrite ?H2, ?H3; try done. by rewrite <- H2.
    + rewrite only_adds_app. split; [done|]. cbn [only_adds]. rewrite replayed_app in Hi, Hp. by split_and!.
Qed.

Section told.
Implicit Types (p : Replayer) (c : FsCache) (w : Writer).

Lemma tells_count s r c w w' p :
  tells p c w → w_opens w' = w_opens w → w_streams w' = w_streams w → w_seq w ≤ s → w_seq w' = s →
  (∃ a b, r = Reserve s a ∨ r = Fh s b) → tells (take_record p r) c w'.
Proof.
  intros [T1 T2 T3 T4 T7 T5 T6] Ho Hs Hle Hq (a & b & [-> | ->]); (split; cbn; rewrite ?Ho, ?Hs, ?Hq; try done; [lia|]);
    intros fh s0 r0 Hr; destruct (T6 fh s0 r0 Hr) as (? & ? & ?); split_and!; lia || done.
Qed.

Lemma tells_ino c w w' p path s : cache_ok c → tells p c w → paths c !! path = None → path ≠ [] →
  w_opens w' = w_opens w → w_streams w' = w_streams w → w_seq w ≤ s → w_seq w' = s → let ino := next_inode c in
  p_inodes p !! ino = None ∧ p_paths p !! path = None ∧ tells (take_record p (Ino s ino path)) (allocate_inode c path).2 w'.
Proof.
  intros [[Hb Hn] H1] [T1 T2 T3 T4 T7 T5 T6] Hp Hne Ho Hs Hle Hq ino.
  assert (Hfresh : inodes c !! ino = None).
  { destruct (inodes c !! ino) as [q|] eqn:E; [|done]. apply Hn in E. unfold ino in E. lia. }
  assert (Hone : ino ≠ 1) by congruence.
  assert (Hpi : p_inodes p !! ino = None) by (by rewrite T1, lookup_delete_ne).
  assert (Hpp : p_paths p !! path = None) by (by rewrite T2, lookup_delete_ne).
  split_and!; [done|done|]. unfold allocate_inode. rewrite Hp. cbn [snd]. unfold take_record. rewrite set_name_new by done. split; cbn.
  - rewrite T1. by rewrite delete_insert_ne.
  - rewrite T2. by rewrite delete_insert_ne.
  - by rewrite Ho.
  - by rewrite Ho, Hs.
  - done.
  - lia.
  - rewrite Ho. intros fh s0 r0 Hr. destruct (T6 fh s0 r0 Hr) as (? & ? & ?). split_and!; lia || done.
Qed.
End told.

Section told_moves.
Implicit Types (p : Replayer) (c : FsCache) (w : Writer).

Definition displaced_at (from to : PathBuf) c (old : PathBuf) (ino : nat) : option nat :=
  match delete old (paths c) !! moved_to from to old with Some d => if decide (d = ino) then None else Some d | None => None end.

Lemma moved_to_spec from to old : starts_with old from = true → ∃ rel, old = from ++ rel ∧ moved_to from to old = to ++ rel.
Proof. apply move_target. Qed.

Lemma set_name_move p c old new ino : cache_ok c → p_inodes p = delete 1 (inodes c) → p_paths p = delete [] (paths c) →
  paths c !! old = Some ino → old ≠ [] → new ≠ [] →
  let q := set_name ino new p in
  p_paths q = delete [] (<[new := ino]> (delete old (paths c))) ∧
  p_inodes q = delete 1 (match delete old (paths c) !! new with
                         | Some d => if decide (d = ino) then <[ino := new]> (inodes c) else delete d (<[ino := new]> (inodes c))
                         | None => <[ino := new]> (inodes c)
                         end).
Proof.
  intros [[Hb _] H1] T1 T2 Hold Ho Hn q.
  assert (Hino : inodes c !! ino = Some old) by by apply Hb.
  assert (Hone : ino ≠ 1) by (intros ->; congruence).
  assert (Hd : ∀ d, paths c !! new = Some d → d ≠ 1) by (intros d Hp ->; apply Hb in Hp; congruence).
  unfold q, set_name. rewrite T1, T2, lookup_delete_ne, Hino by done. rewrite lookup_delete_ne, Hold by done.
  destruct (decide (old = new)) as [<-|Hne].
  - rewrite bool_decide_false by naive_solver. cbn [andb]. rewrite lookup_delete_ne, Hold, lookup_delete_eq by done.
    rewrite bool_decide_true by done. cbn. split.
    + rewrite insert_delete_eq. by rewrite delete_insert_ne.
    + by rewrite delete_insert_ne.
  - rewrite !bool_decide_true by done. cbn [andb]. rewrite lookup_delete_ne by done. rewrite lookup_delete_ne by done.
    rewrite lookup_delete_ne by done.
    destruct (paths c !! new) as [d|] eqn:Hp; cbn; (split; [by rewrite delete_insert_ne, delete_delete|]).
    + case_bool_decide as Hdi.
      * rewrite decide_True by done. by rewrite delete_insert_ne.
      * rewrite decide_False by done. rewrite delete_delete. f_equal. symmetry. by apply delete_insert_ne.
    + by rewrite delete_insert_ne.
Qed.
End told_moves.

Section told_handles.
Implicit Types (p : Replayer) (c : FsCache) (w : Writer).

Lemma tells_move p c w w' from to old ino s : cache_ok c → tells p c w → paths c !! old = Some ino → starts_with old from = true →
  from ≠ [] → to ≠ [] → w_opens w' = w_opens w → w_streams w' = w_streams w → w_seq w ≤ s → w_seq w' = s →
  tells (take_record p (Mv s ino (moved_to from to old) (displaced_at from to c old ino))) (move_one from to c (old, ino)) w'.
Proof.
  intros Hc [T1 T2 T3 T4 T7 T5 T6] Hold Hs Hf Ht Ho Hst Hle Hq.
  destruct (moved_to_spec from to old Hs) as (rel & Er & En). assert (old ≠ []) as Hne by (subst; by destruct from).
  assert (moved_to from to old ≠ []) as Hnn by (rewrite En; by destruct to).
  set (p1 := count_up s ino 0 0 0 p).
  pose proof (set_name_move p1 c old (moved_to from to old) ino Hc T1 T2 Hold Hne Hnn) as [N2 N1]. set (q := set_name _ _ p1) in *.
  assert (E : take_record p (Mv s ino (moved_to from to old) (displaced_at from to c old ino)) = q).
  { cbn [take_record]. fold p1. fold q. unfold displaced_at. destruct (delete old (paths c) !! _) as [d|] eqn:Hd; [|done].
    case_decide as Hdi; [done|]. destruct (d =? ino); [done|]. unfold drop_name. rewrite N1.
    by rewrite delete_delete, lookup_delete_eq. }
  rewrite E. split.
  - rewrite N1. done.
  - rewrite N2. done.
  - by rewrite Ho.
  - rewrite Ho, Hst. done.
  - done.
  - cbn. lia.
  - rewrite Ho. intros fh s0 r0 Hr. destruct (T6 fh s0 r0 Hr) as (? & ? & ?). cbn. split_and!; lia || done.
Qed.

(** A handle's own staging name. *)
Definition own_names (dir : PathBuf) w : Prop :=
  ∀ fh s r wp, w_opens w !! fh = Some (s, r) → or_write_path r = Some wp → wp = staging_name dir fh.
Lemma staging_name_inj dir a b : staging_name dir a = staging_name dir b → a = b.
Proof.
  unfold staging_name, join. intros [= E]%app_inv_head. by apply (pretty.pretty_nat_inj a b) in E.
Qed.

Lemma tells_open p c w w' s r dir : tells p c w → own_names dir w → (∀ wp, or_write_path r = Some wp → wp = staging_name dir (or_fh r)) →
  w_opens w !! or_fh r = None → (∀ wp, or_write_path r = Some wp → p_streams p !! wp = w_streams w !! wp) →
  w_opens w' = <[or_fh r := (s, r)]> (w_opens w) → w_streams w' = w_streams w → w_seq w ≤ s → w_seq w' = s →
  tells (take_record p (ROpen s r)) c w'.
Proof.
  intros [T1 T2 T3 T4 T7 T5 T6] Hown Hr Hn Hstr Ho Hst Hle Hq. split; cbn; rewrite ?Ho, ?Hst; try done.
  - by rewrite T3, fmap_insert.
  - intros fh s0 r0 wp Hl Hw. apply lookup_insert_Some in Hl as [[<- [= <- <-]]|[_ Hl]]; [by apply Hstr|by eapply T4].
  - lia.
  - intros fh s0 r0 Hl. apply lookup_insert_Some in Hl as [[<- [= <- <-]]|[_ Hl]]; [split_and!; lia || done|].
    destruct (T6 fh s0 r0 Hl) as (? & ? & ?). split_and!; lia || done.
Qed.

Lemma tells_close p c w w' s fh dir : tells p c w → own_names dir w →
  w_opens w' = delete fh (w_opens w) →
  (∀ fh' wp, fh' ≠ fh → wp = staging_name dir fh' → w_streams w' !! wp = w_streams w !! wp) → w_seq w ≤ s → w_seq w' = s →
  tells (take_record p (RClose s fh)) c w'.
Proof.
  intros [T1 T2 T3 T4 T7 T5 T6] Hown Ho Hst Hle Hq. split; cbn; rewrite ?Ho; try done.
  - by rewrite T3, fmap_delete.
  - intros fh' s0 r0 wp [Hne Hl]%lookup_delete_Some Hw. rewrite (Hst fh'); [by eapply T4|done|by eapply Hown].
  - lia.
  - intros fh' s0 r0 [Hne Hl]%lookup_delete_Some. destruct (T6 fh' s0 r0 Hl) as (? & ? & ?). split_and!; lia || done.
Qed.

Lemma tells_edit p c w w' s fh s0 r0 f rc : tells p c w → w_opens w !! fh = Some (s0, r0) →
  (rc = Unlinked s fh ∧ f = rec_unlinked ∨ ∃ path, rc = Retarget s fh path ∧ f = rec_path path) →
  w_opens w' = <[fh := (s0, f r0)]> (w_opens w) → w_streams w' = w_streams w → w_seq w ≤ s → w_seq w' = s →
  tells (take_record p rc) c w'.
Proof.
  intros [T1 T2 T3 T4 T7 T5 T6] Hfh Hrc Ho Hst Hle Hq.
  assert (E : take_record p rc = edit_handle fh f (count_up s 0 0 0 0 p)) by (destruct Hrc as [[-> ->]|(path & -> & ->)]; done).
  assert (Hf : ∀ r, or_fh (f r) = or_fh r ∧ or_write_path (f r) = or_write_path r) by (destruct Hrc as [[_ ->]|(path & _ & ->)]; done).
  rewrite E. split; cbn; rewrite ?Ho, ?Hst; try done.
  - rewrite T3, fmap_insert. apply map_eq. intros k. destruct (decide (k = fh)) as [->|].
    + by rewrite lookup_alter_eq, lookup_insert_eq, lookup_fmap, Hfh.
    + by rewrite lookup_alter_ne, lookup_insert_ne.
  - intros fh' s1 r1 wp Hl Hw. apply lookup_insert_Some in Hl as [[<- [= <- <-]]|[_ Hl]]; [|by eapply T4].
    rewrite (proj2 (Hf r0)) in Hw. by eapply T4.
  - lia.
  - intros fh' s1 r1 Hl. apply lookup_insert_Some in Hl as [[<- [= <- <-]]|[_ Hl]].
    + destruct (T6 fh s0 r0 Hfh) as (? & ? & ?). rewrite (proj1 (Hf r0)). split_and!; lia || done.
    + destruct (T6 fh' s1 r1 Hl) as (? & ? & ?). split_and!; lia || done.
Qed.

Lemma tells_stream p c w w' s wp base : tells p c w → named wp → w_opens w' = w_opens w →
  w_streams w' = <[wp := (s, base)]> (w_streams w) → w_seq w ≤ s → w_seq w' = s → tells (take_record p (RStream s wp base)) c w'.
Proof.
  intros [T1 T2 T3 T4 T7 T5 T6] Hnm Ho Hst Hle Hq. split; cbn; rewrite ?Ho, ?Hst; try done.
  - intros fh s0 r0 wp' Hl Hw. destruct (decide (wp' = wp)) as [->|]; [by rewrite !lookup_insert_eq|].
    rewrite !lookup_insert_ne by done. by eapply T4.
  - intros wp' Hs. destruct (decide (wp' = wp)) as [->|]; [done|]. rewrite lookup_insert_ne in Hs by done. by apply T7.
  - lia.
  - intros fh s0 r0 Hl. destruct (T6 fh s0 r0 Hl) as (? & ? & ?). split_and!; lia || done.
Qed.
End told_handles.

(** *** The image tells the state *)

Section told_image.
Implicit Types (p : Replayer) (c : FsCache) (w : Writer).

Lemma replay_inos s l p : NoDup l.*1 → NoDup l.*2 → (∀ i q, (i, q) ∈ l → p_inodes p !! i = None ∧ p_paths p !! q = None) →
  let p' := foldl take_record p ((λ q, Ino s q.1 q.2) <$> l) in
  (∀ i q, p_inodes p' !! i = Some q ↔ p_inodes p !! i = Some q ∨ (i, q) ∈ l) ∧
  (∀ i q, p_paths p' !! q = Some i ↔ p_paths p !! q = Some i ∨ (i, q) ∈ l) ∧
  p_handles p' = p_handles p ∧ p_streams p' = p_streams p ∧ p_max_seq p' ≤ Nat.max (p_max_seq p) s ∧ p_max_fh p' = p_max_fh p.
Proof.
  revert p. induction l as [|[i q] l IH]; intros p Hn1 Hn2 Hnew; cbn [fmap list_fmap foldl fst snd].
  { split_and!; try done; [set_solver|set_solver|lia]. }
  apply NoDup_cons in Hn1 as [Hi Hn1]. apply NoDup_cons in Hn2 as [Hq Hn2]. destruct (Hnew i q ltac:(left)) as [Hpi Hpp].
  set (p1 := take_record p (Ino s i q)).
  assert (E : p_inodes p1 = <[i := q]> (p_inodes p) ∧ p_paths p1 = <[q := i]> (p_paths p) ∧ p_handles p1 = p_handles p ∧
    p_streams p1 = p_streams p ∧ p_max_seq p1 = Nat.max (p_max_seq p) s ∧ p_max_fh p1 = p_max_fh p).
  { unfold p1, take_record. rewrite set_name_new by done. cbn. split_and!; try done. lia. }
  destruct E as (E1 & E2 & E3 & E4 & E5 & E6). destruct (IH p1 Hn1 Hn2) as (I1 & I2 & I3 & I4 & I5 & I6).
  { intros i' q' Hin. destruct (Hnew i' q' ltac:(by right)) as [H1 H2]. rewrite E1, E2. split.
    - rewrite lookup_insert_ne; [done|]. intros ->. apply Hi. apply list_elem_of_fmap. by exists (i', q').
    - rewrite lookup_insert_ne; [done|]. intros ->. apply Hq. apply list_elem_of_fmap. by exists (i', q'). }
  split_and!; try congruence.
  - intros i' q'. rewrite I1, E1, lookup_insert_Some, elem_of_cons. naive_solver.
  - intros i' q'. rewrite I2, E2, lookup_insert_Some, elem_of_cons. naive_solver.
  - lia.
Qed.

Lemma replay_opens l p : NoDup ((λ q, or_fh q.2) <$> l) → (∀ q, q ∈ l → p_handles p !! or_fh q.2 = None) →
  let p' := foldl take_record p ((λ q, ROpen q.1 q.2) <$> l) in
  (∀ fh h, p_handles p' !! fh = Some h ↔ p_handles p !! fh = Some h ∨ ∃ q, q ∈ l ∧ or_fh q.2 = fh ∧ h = opened q) ∧
  p_inodes p' = p_inodes p ∧ p_paths p' = p_paths p ∧ p_streams p' = p_streams p ∧
  (∀ q, q ∈ l → or_fh q.2 ≤ p_max_fh p' ∧ q.1 ≤ p_max_seq p') ∧ p_max_fh p ≤ p_max_fh p' ∧ p_max_seq p ≤ p_max_seq p' ∧
  (∀ n, p_max_seq p ≤ n → (∀ q, q ∈ l → q.1 ≤ n) → p_max_seq p' ≤ n).
Proof.
  revert p. induction l as [|[s r] l IH]; intros p Hn Hnew; cbn [fmap list_fmap foldl fst snd].
  { split_and!; try done; set_solver. }
  apply NoDup_cons in Hn as [Hr Hn]. set (p1 := take_record p (ROpen s r)).
  assert (F1 : p_max_fh p1 = Nat.max (p_max_fh p) (or_fh r)) by done. assert (F2 : p_max_seq p1 = Nat.max (p_max_seq p) s) by done. destruct (IH p1 Hn) as (I1 & I2 & I3 & I4 & I5 & I6 & I7 & I8).
  { intros q Hq. cbn. rewrite lookup_insert_ne; [by apply Hnew; right|]. intros E. apply Hr. apply list_elem_of_fmap. by exists q. }
  split_and!; try done.
  - intros fh h. rewrite I1. cbn. rewrite lookup_insert_Some. pose proof (Hnew (s, r) ltac:(left)) as Hnone. cbn in Hnone. split.
    + intros [[[<- <-]|[Hne Hp]]|(q & Hq & Hf & ->)]; [|by left|].
      * right. exists (s, r). split_and!; [left|done|done].
      * right. exists q. split_and!; [by right|done|done].
    + intros [Hp|(q & [->|Hq]%elem_of_cons & Hf & ->)].
      * left. right. split; [|done]. congruence.
      * left. by left.
      * right. by exists q.
  - intros q [->|Hq]%elem_of_cons; [|by apply I5]. cbn [fst snd]. lia.
  - lia.
  - lia.
  - intros n Hle Hall. apply I8; [|intros q Hq; apply Hall; by right]. pose proof (Hall (s, r) ltac:(left)) as Hs. cbn in Hs. lia.
Qed.

Lemma replay_streams l p : NoDup ((λ q : PathBuf * nat * string, q.1.1) <$> l) →
  let p' := foldl take_record p ((λ q, RStream q.1.2 q.1.1 q.2) <$> l) in
  (∀ q, q ∈ l → p_streams p' !! q.1.1 = Some (q.1.2, q.2)) ∧
  (∀ wp, wp ∉ (λ q : PathBuf * nat * string, q.1.1) <$> l → p_streams p' !! wp = p_streams p !! wp) ∧
  p_inodes p' = p_inodes p ∧ p_paths p' = p_paths p ∧ p_handles p' = p_handles p ∧ p_max_fh p' = p_max_fh p ∧
  p_max_seq p ≤ p_max_seq p' ∧ (∀ n, p_max_seq p ≤ n → (∀ q, q ∈ l → q.1.2 ≤ n) → p_max_seq p' ≤ n).
Proof.
  revert p. induction l as [|[[wp s] b] l IH]; intros p Hn; cbn [fmap list_fmap foldl fst snd].
  { split_and!; try done; set_solver. }
  apply NoDup_cons in Hn as [Hr Hn]. set (p1 := take_record p (RStream s wp b)).
  assert (F1 : p_max_fh p1 = Nat.max (p_max_fh p) 0) by done. assert (F2 : p_max_seq p1 = Nat.max (p_max_seq p) s) by done. destruct (IH p1 Hn) as (I1 & I2 & I3 & I4 & I5 & I6 & I7 & I8).
  split_and!; try done.
  - intros q [->|Hq]%elem_of_cons; [|by apply I1]. rewrite I2 by done. cbn. apply lookup_insert_eq.
  - intros wp' Hwp. apply not_elem_of_cons in Hwp as [Hne Hwp]. rewrite I2 by done. cbn. by rewrite lookup_insert_ne.
  - lia.
  - lia.
  - intros n Hle Hall. apply I8; [|intros q Hq; apply Hall; by right]. pose proof (Hall (wp, s, b) ltac:(left)) as Hs. cbn in Hs. lia.
Qed.
End told_image.

Record writer_ok (dir : PathBuf) (w : Writer) : Prop := {
  wo_names : own_names dir w;
  wo_opens : ∀ fh s r, w_opens w !! fh = Some (s, r) → or_fh r = fh ∧ s ≤ w_seq w;
  wo_streams : ∀ wp s b, w_streams w !! wp = Some (s, b) → named wp ∧ s ≤ w_seq w;
}.

Lemma known_spec c : cache_ok c → NoDup (known_inodes c).*1 ∧ NoDup (known_inodes c).*2 ∧
  (∀ i q, (i, q) ∈ known_inodes c ↔ delete 1 (inodes c) !! i = Some q) ∧ (∀ i q, (i, q) ∈ known_inodes c ↔ delete [] (paths c) !! q = Some i).
Proof.
  intros [[Hb _] H1]. unfold known_inodes. split_and!.
  - apply NoDup_fst_map_to_list.
  - apply NoDup_fmap_2_strong; [|apply NoDup_map_to_list]. intros [i q] [j q'] Hi Hj E. cbn in E. subst q'.
    apply elem_of_map_to_list, lookup_delete_Some in Hi as [_ Hi], Hj as [_ Hj]. apply Hb in Hi, Hj. congruence.
  - intros i q. apply elem_of_map_to_list.
  - intros i q. rewrite elem_of_map_to_list, !lookup_delete_Some, Hb. pose proof (proj1 (Hb 1 []) H1) as Hroot.
    split; intros [Hne Hp]; (split; [|done]); intros <-; [congruence|]. apply Hb in Hp. congruence.
Qed.

Lemma image_tracks dir c w : cache_ok c → writer_ok dir w → w_buf w = [] → let '(i, w') := image c w in
  ∃ rs, image_records i = Base (w_dev w) (w_mount w) :: rs ∧ tracks rs c w'.
Proof.
  intros Hc [W1 W2 W3] Hbuf. unfold image. cbn [fst snd].
  set (n := S (w_seq w)). set (u := Nat.max (w_reserved w) (next_inode c)).
  set (os := (map_to_list (w_opens w)).*2).
  set (ts := (λ q : PathBuf * (nat * string), (q.1, q.2.1, q.2.2)) <$> map_to_list (w_streams w)).
  set (first := [Fh n (w_fh_mark w); Reserve n u]). set (inos := (λ q, Ino n q.1 q.2) <$> known_inodes c).
  set (ops := (λ q : nat * OpenRecord, ROpen q.1 q.2) <$> os). set (sts := (λ q : PathBuf * nat * string, RStream q.1.2 q.1.1 q.2) <$> ts).
  exists (first ++ inos ++ ops ++ sts). split; [done|].
  destruct (known_spec c Hc) as (K1 & K2 & K3 & K4). set (p0 := replayed first).
  destruct (replay_inos n (known_inodes c) p0 K1 K2) as (I1 & I2 & I3 & I4 & I5 & I6); [by split; apply lookup_empty|].
  fold inos in I1, I2, I3, I4, I5, I6. set (p1 := foldl take_record p0 inos) in *.
  assert (Hos : ∀ q, q ∈ os ↔ w_opens w !! or_fh q.2 = Some q).
  { intros q. split.
    - intros ([fh [s r]] & -> & Hq%elem_of_map_to_list)%list_elem_of_fmap. cbn [fst snd] in *. by destruct (W2 fh s r Hq) as [-> _].
    - intros Hq. apply list_elem_of_fmap. exists (or_fh q.2, q). split; [done|]. by apply elem_of_map_to_list. }
  assert (Hnd : NoDup ((λ q : nat * OpenRecord, or_fh q.2) <$> os)).
  { unfold os. rewrite <- list_fmap_compose.
    rewrite (list_fmap_ext _ fst (map_to_list (w_opens w))); [apply NoDup_fst_map_to_list|].
    intros i [fh [s r]] Hl. apply list_elem_of_lookup_2, elem_of_map_to_list in Hl. cbn. by apply W2 in Hl as [-> _]. }
  destruct (replay_opens os p1 Hnd) as (O1 & O2 & O3 & O4 & O5 & O6 & O7 & O8); [by intros q _; rewrite I3; apply lookup_empty|].
  fold ops in O1, O2, O3, O4, O5, O6, O7, O8. set (p2 := foldl take_record p1 ops) in *.
  assert (Hts : ∀ q, q ∈ ts ↔ w_streams w !! q.1.1 = Some (q.1.2, q.2)).
  { intros [[wp s] b]. unfold ts. rewrite list_elem_of_fmap. cbn. split.
    - by intros ([wp' [s' b']] & [= -> -> ->] & Hq%elem_of_map_to_list).
    - intros Hq. exists (wp, (s, b)). split; [done|]. by apply elem_of_map_to_list. }
  destruct (replay_streams ts p2) as (S1 & S2 & S3 & S4 & S5 & S6 & S7 & S8).
  { unfold ts. rewrite <- list_fmap_compose. apply NoDup_fst_map_to_list. }
  fold sts in S1, S2, S3, S4, S5, S6, S7, S8. set (p3 := foldl take_record p2 sts) in *.
  assert (E : replayed (first ++ inos ++ ops ++ sts) = p3) by (by rewrite replayed_app, !foldl_app).
  pose proof (replayed_mono first (inos ++ ops ++ sts)) as (M1 & M2 & M3). rewrite E in M1, M2, M3. fold p0 in M1, M2, M3.
  split; cbn [w_buf w_seq set_seq set_reserved]; rewrite ?Hbuf, ?app_nil_r.
  - rewrite !Forall_app. split_and!; [by repeat constructor| | |]; apply Forall_fmap, Forall_true; done.
  - rewrite E. split; cbn.
    + rewrite S3, O2. apply map_eq. intros i. apply option_eq. intros q. rewrite I1, <- K3. cbn. rewrite lookup_empty. naive_solver.
    + rewrite S4, O3. apply map_eq. intros q. apply option_eq. intros i. rewrite I2, <- K4. cbn. rewrite lookup_empty. naive_solver.
    + rewrite S5. apply map_eq. intros fh. apply option_eq. intros h. rewrite O1, I3, lookup_fmap, fmap_Some. cbn. rewrite lookup_empty.
      split.
      * intros [?|(q & Hq%Hos & <- & ->)]; [done|]. by exists q.
      * intros (q & Hq & ->). right. destruct q as [s r]. destruct (W2 fh s r Hq) as [<- _]. exists (s, r). split; [by apply Hos|done].
    + intros fh s r wp Hl Hw. destruct (w_streams w !! wp) as [[s' b]|] eqn:Hst.
      * by apply (S1 (wp, s', b)), Hts.
      * rewrite S2, O4, I4; [apply lookup_empty|]. intros ([[wp' s'] b] & -> & Hq%Hts)%list_elem_of_fmap. cbn in *. congruence.
    + intros wp Hs. destruct (w_streams w !! wp) as [[s' b]|] eqn:Hst; [by eapply W3|].
      rewrite S2, O4, I4 in Hs; [by apply is_Some_None in Hs|].
      intros ([[wp' s'] b] & -> & Hq%Hts)%list_elem_of_fmap. cbn in *. congruence.
    + apply S8; [|intros q Hq%Hts; apply W3 in Hq as [_ Hq]; lia].
      apply O8; [|intros [s r] Hq%Hos; cbn in *; apply W2 in Hq as [_ Hq]; lia]. unfold p0 in I5. cbn in I5. lia.
    + intros fh s r Hl. destruct (W2 fh s r Hl) as [Hfh Hs]. rewrite S6.
      assert (Hin : (s, r) ∈ os) by (apply Hos; cbn; by rewrite Hfh). apply O5 in Hin. cbn in Hin. split_and!; lia.
  - rewrite E. split; cbn.
    + unfold u. lia.
    + etrans; [|exact M1]. unfold next_id. change (p_reserved p0) with u. lia.
    + etrans; [|exact M2]. change (p_fh_mark p0) with (Nat.max (w_fh_mark w) 0). lia.
    + by rewrite M3.
  - done.
Qed.

(** *** Every hook keeps the log true *)

Definition log_same (l l' : LogState) : Prop :=
  file l' = file l ∧ w_buf (writer l') = w_buf (writer l) ∧ w_tail (writer l') = w_tail (writer l) ∧
  w_failed (writer l') = w_failed (writer l) ∧ w_dev (writer l') = w_dev (writer l) ∧ w_mount (writer l') = w_mount (writer l).

Lemma followed_dead c l im c' l' im' : followed c l im → w_failed (writer l) = true → w_failed (writer l') = true → file l' = file l →
  followed c' l' im'.
Proof. unfold followed. intros H Hn -> ->. by rewrite Hn in H. Qed.

Lemma followed_append r sync c l im l1 c' l' : followed c l im → w_failed (writer l) = false →
  appended r sync l l1 → w_dev (writer l1) = w_dev (writer l) → w_mount (writer l1) = w_mount (writer l) → log_same l1 l' →
  (∀ rs d, tracks rs c (writer l) → d ++ w_buf (writer l') = w_buf (writer l) ++ [r] → w_buf (writer l') = [] ∨ sync = false ∧ d = [] →
     tracks (rs ++ d) c' (writer l')) →
  followed c' l' im.
Proof.
  intros Hf Hn Ha V1 V2 (L1 & L2 & L3 & L4 & L5 & L6) Hk. unfold followed in *. rewrite Hn in Hf. rewrite L4.
  destruct Ha as [[-> Ha]|(-> & d & A1 & A2 & A3 & A4)]; [by rewrite L1|]. rewrite L5, L6, V1, V2, L1, L3, A1, A2. rewrite <- L2 in A3, A4.
  destruct Hf as [(rs & Hf & Ht) Him]. split.
  - exists (rs ++ d). rewrite Hf. split; [done|]. by apply Hk.
  - destruct im as [i|]; [|by rewrite Him]. destruct Him as (t & rs' & -> & Hi & Ht'). exists (t ++ d), rs'. split; [done|]. split; [done|].
    rewrite app_assoc. by apply Hk.
Qed.

Lemma append_view size ok r sync l : let l' := append_next size ok r sync l in
  same_view (writer l) (writer l') ∧ w_seq (writer l') = S (w_seq (writer l)).
Proof.
  destruct (w_failed (writer l)) eqn:Hn; [|apply append_next_spec; done].
  unfold append_next, append. cbn. by rewrite Hn.
Qed.
Lemma log_same_refl l : log_same l l.
Proof. by split_and!. Qed.

(** A hook that writes its record through and leaves the numbering alone; it sets fields
    before ([l0]) and after. *)
Lemma followed_hook size ok r c l l0 im c' l' : let l1 := append_next size ok r true l0 in let s := S (w_seq (writer l)) in
  followed c l im → log_same l l0 → log_same l1 l' → w_seq (writer l0) = w_seq (writer l) → not_base (r s) →
  next_inode c' = next_inode c → w_reserved (writer l') = w_reserved (writer l) → w_fh_mark (writer l') = w_fh_mark (writer l) →
  (∀ p, tells p c (writer l) → tells (take_record p (r s)) c' (writer l')) → followed c' l' im.
Proof.
  intros l1 s Hf (P1 & P2 & P3 & P4 & P5 & P6) Hs Hq Hr Hc Hres Hm Ht. destruct (w_failed (writer l)) eqn:Hn.
  - destruct (append_failed size ok r true l0) as [H1 H2]; [done|]. fold l1 in H1, H2. destruct Hs as (S1 & _ & _ & S4 & _).
    eapply followed_dead; try done; congruence.
  - destruct (append_next_spec size ok r true l0) as (Ha & (V1 & V2 & _) & _); [done|]. rewrite Hq in Ha. fold s l1 in Ha, V1, V2.
    assert (Ha' : appended (r s) true l l1).
    { unfold appended in *. by rewrite P1, P2, P3 in Ha. }
    eapply followed_append; try done; [congruence|congruence|].
    intros rs d Hk Hd Hb. assert (Hnil : w_buf (writer l') = []) by (destruct Hb as [|[? _]]; done).
    pose proof Hk as [_ K2 [K3 K4 K5 K6] _]. eapply tracks_sync; try done; rewrite ?Hc, ?Hres, ?Hm; try done.
    + by apply Ht.
    + etrans; [exact K4|]. etrans; [apply (replayed_mono rs (w_buf (writer l)))|apply next_id_mono].
    + etrans; [exact K5|]. etrans; [apply (replayed_mono rs (w_buf (writer l)))|apply next_id_mono].
Qed.

Section hooks.
Context (size : Rec → Z) (dir : PathBuf).
Implicit Types (c : FsCache) (l : LogState).

Lemma followed_opened ok fh r c l im : followed c l im → own_names dir (writer l) → or_fh r = fh → w_opens (writer l) !! fh = None →
  (∀ wp, or_write_path r = Some wp → wp = staging_name dir fh) →
  (∀ p, tells p c (writer l) → ∀ wp, or_write_path r = Some wp → p_streams p !! wp = w_streams (writer l) !! wp) →
  followed c (handle_opened size ok fh r l) im.
Proof.
  intros Hf Hown <- Hn Hw Hst. unfold handle_opened. set (l1 := append_next _ _ _ _ _).
  destruct (append_view size ok (λ s, ROpen s r) true l) as ((V1 & V2 & V3 & V4 & V5 & V6) & Hq). fold l1 in V1, V2, V3, V4, V5, V6, Hq.
  eapply (followed_hook size ok (λ s, ROpen s r) c l l); try done; fold l1; cbn; rewrite ?V3, ?V4, ?V5, ?V6; try done.
  intros p Ht. eapply tells_open; try done; cbn; rewrite ?Hq, ?V4; try done; [by apply Hst|lia].
Qed.

Lemma followed_released ok fh c l im : followed c l im → own_names dir (writer l) → followed c (handle_released size ok fh l) im.
Proof.
  intros Hf Hown. unfold handle_released. destruct (w_opens (writer l) !! fh) as [[s r]|] eqn:Hr; [|done].
  set (l0 := match or_write_path r with Some wp => _ | None => _ end).
  assert (H0 : log_same l l0 ∧ w_seq (writer l0) = w_seq (writer l) ∧ w_opens (writer l0) = delete fh (w_opens (writer l)) ∧
    w_reserved (writer l0) = w_reserved (writer l) ∧ w_fh_mark (writer l0) = w_fh_mark (writer l) ∧
    ∀ fh' wp, fh' ≠ fh → wp = staging_name dir fh' → w_streams (writer l0) !! wp = w_streams (writer l) !! wp).
  { unfold l0. destruct (or_write_path r) as [wp|] eqn:Hwp; cbn; split_and!; try done.
    intros fh' wp' Hne ->. rewrite lookup_delete_ne; [done|]. rewrite (Hown fh s r wp Hr Hwp). intros E. by apply staging_name_inj in E. }
  destruct H0 as (H1 & H2 & H3 & H4 & H5 & H6).
  destruct (append_view size ok (λ s, RClose s fh) true l0) as ((V1 & V2 & V3 & V4 & V5 & V6) & Hq).
  eapply (followed_hook size ok (λ s, RClose s fh) c l l0); try done; rewrite ?V3, ?V6; try done.
  intros p Ht. eapply tells_close; try done; rewrite ?V4, ?V5, ?Hq, ?H2; try done. lia.
Qed.

Lemma followed_edited ok fh f rc c l im s r : followed c l im → w_opens (writer l) !! fh = Some (s, r) →
  (∀ s, rc s = Unlinked s fh) ∧ f = rec_unlinked ∨ (∃ path, (∀ s, rc s = Retarget s fh path) ∧ f = rec_path path) →
  followed c (append_next size ok rc true (upd_w (λ w, set_opens (<[fh := (s, f r)]> (w_opens w)) w) l)) im.
Proof.
  intros Hf Hr Hrc. set (l0 := upd_w _ l).
  destruct (append_view size ok rc true l0) as ((V1 & V2 & V3 & V4 & V5 & V6) & Hq).
  eapply (followed_hook size ok rc c l l0); try done; rewrite ?V3, ?V6; try done.
  - destruct Hrc as [[H _]|(path & H & _)]; by rewrite H.
  - intros p Ht. eapply (tells_edit p c (writer l) _ (S (w_seq (writer l))) fh s r f); try done; rewrite ?V4, ?V5, ?Hq; try done; cbn; try lia.
    destruct Hrc as [[H ->]|(path & H & ->)]; rewrite H; [by left|right; by exists path].
Qed.

Lemma followed_stream ok wp base c l im : followed c l im → named wp → followed c (stream_started size ok wp base l) im.
Proof.
  intros Hf Hnm. unfold stream_started. set (l1 := append_next _ _ _ _ _).
  destruct (append_view size ok (λ s, RStream s wp base) true l) as ((V1 & V2 & V3 & V4 & V5 & V6) & Hq). fold l1 in V1, V2, V3, V4, V5, V6, Hq.
  eapply (followed_hook size ok (λ s, RStream s wp base) c l l); try done; fold l1; cbn; rewrite ?V3, ?V4, ?V5, ?V6; try done.
  intros p Ht. eapply tells_stream; try done; cbn; rewrite ?Hq, ?V5; try done. lia.
Qed.

Lemma followed_moved ok from to old ino c l im c' l' : followed c l im → cache_ok c → paths c !! old = Some ino →
  starts_with old from = true → from ≠ [] → to ≠ [] → move_logged size ok from to (c, l) (old, ino) = (c', l') → followed c' l' im.
Proof.
  intros Hf Hc Hp Hs Hfr Hto Heq. unfold move_logged in Heq. cbv zeta in Heq. cbn [fst snd] in Heq. apply pair_eq in Heq as [<- <-].
  fold (displaced_at from to c old ino). unfold inode_moved. set (d := displaced_at from to c old ino).
  destruct (append_view size ok (λ s, Mv s ino (moved_to from to old) d) true l) as ((V1 & V2 & V3 & V4 & V5 & V6) & Hq).
  eapply (followed_hook size ok (λ s, Mv s ino (moved_to from to old) d) c l l); try done.
  intros p Ht. eapply tells_move; try done; rewrite ?V4, ?V5, ?Hq; try done. lia.
Qed.

Lemma reservation_covers ino : ino < reservation_after ino.
Proof.
  unfold reservation_after. pose proof (Nat.div_mod_eq ino RESERVE_BLOCK). pose proof (Nat.mod_upper_bound ino RESERVE_BLOCK).
  assert (RESERVE_BLOCK ≠ 0) by (unfold RESERVE_BLOCK; lia). lia.
Qed.

Lemma followed_reserved ok c l im : followed c l im → let u := reservation_after (next_inode c) in
  followed c (append_next size ok (λ s, Reserve s u) true (upd_w (set_reserved u) l)) im.
Proof.
  intros Hf u. set (l0 := upd_w (set_reserved u) l). set (l1 := append_next _ _ _ _ _). destruct (w_failed (writer l)) eqn:Hn.
  - destruct (append_failed size ok (λ s, Reserve s u) true l0 Hn) as [H1 H2]. by eapply followed_dead.
  - destruct (append_next_spec size ok (λ s, Reserve s u) true l0 Hn) as (Ha & (V1 & V2 & V3 & V4 & V5 & V6) & Hq).
    fold l1 in Ha, V1, V2, V3, V4, V5, V6, Hq. eapply (followed_append _ true c l im l1); try done.
    intros rs d Hk Hd Hb. assert (Hnil : w_buf (writer l1) = []) by (destruct Hb as [|[? _]]; done).
    pose proof Hk as [_ K2 [K3 K4 K5 K6] _]. pose proof (reservation_covers (next_inode c)) as Hu. fold u in Hu.
    apply (tracks_sync rs c (writer l) (Reserve (S (w_seq (writer l))) u)); [exact Hk|done|exact Hd|exact Hnil| | | |]; rewrite ?V3, ?V6.
    + apply (tells_count (S (w_seq (writer l))) _ c (writer l)); try done; [lia|]. exists u, 0. by left.
    + cbn. lia.
    + unfold next_id. cbn. lia.
    + cbn. rewrite Nat.max_0_r. etrans; [exact K5|]. apply (replayed_mono rs (w_buf (writer l))).
Qed.

Lemma followed_allocated oks path ino c l im c' l' : followed c l im → cache_ok c → path ≠ [] →
  allocate_logged size oks path (c, l) = (ino, (c', l')) → followed c' l' im.
Proof.
  intros Hf Hc Hne Heq. unfold allocate_logged in Heq. cbn [fst snd] in Heq.
  destruct (paths c !! path) as [i|] eqn:Hp.
  { unfold allocate_inode in Heq. rewrite Hp in Heq. apply pair_eq in Heq as [_ Heq]. by apply pair_eq in Heq as [<- <-]. }
  assert (E : ino = next_inode c ∧ c' = (allocate_inode c path).2 ∧ l' = log_inode size oks (next_inode c) path l).
  { unfold allocate_inode in *. rewrite Hp in Heq |- *. apply pair_eq in Heq as [<- Heq]. by apply pair_eq in Heq as [<- <-]. }
  destruct E as (-> & -> & ->). unfold log_inode.
  set (l1 := if w_reserved (writer l) <=? next_inode c then _ else l).
  assert (H1 : followed c l1 im ∧ next_inode c < w_reserved (writer l1)).
  { unfold l1. destruct (Nat.leb_spec (w_reserved (writer l)) (next_inode c)) as [Hle|Hlt]; [|done].
    split; [by apply followed_reserved|]. destruct (append_view size oks.1 (λ s, Reserve s (reservation_after (next_inode c))) true
      (upd_w (set_reserved (reservation_after (next_inode c))) l)) as ((_ & _ & -> & _) & _). apply reservation_covers. }
  destruct H1 as [Hf1 Hres]. set (l2 := append_next _ _ _ _ _).
  destruct (w_failed (writer l1)) eqn:Hn.
  - destruct (append_failed size oks.2 (λ s, Ino s (next_inode c) path) false l1 Hn) as [H1 H2]. by eapply followed_dead.
  - destruct (append_next_spec size oks.2 (λ s, Ino s (next_inode c) path) false l1 Hn) as (Ha & (V1 & V2 & V3 & V4 & V5 & V6) & Hq).
    fold l2 in Ha, V1, V2, V3, V4, V5, V6, Hq. eapply (followed_append _ false c l1 im l2); try done.
    intros rs d Hk Hd Hb. pose proof Hk as [_ K2 _ _].
    destruct (tells_ino c (writer l1) (writer l2) _ path (S (w_seq (writer l1))) Hc K2 Hp Hne) as (T1 & T2 & T3); try done; [lia|].
    eapply tracks_queued; try done.
    + destruct Hb as [?|[_ ?]]; [by left|by right].
    + rewrite V3. unfold allocate_inode. rewrite Hp. cbn. lia.
Qed.

Lemma followed_flush ok c l im : followed c l im → followed c (flush ok l) im.
Proof.
  intros Hf. destruct (w_failed (writer l)) eqn:Hn; [unfold flush; by rewrite Hn|].
  destruct (flush_spec ok l Hn) as ((V1 & V2 & V3 & V4 & V5 & V6) & Hq & Hc). set (l1 := flush ok l) in *.
  unfold followed in *. rewrite Hn in Hf. destruct Hc as [[-> Hc]|(-> & Hb & H1 & H2)]; [done|]. rewrite V1, V2, H1, H2.
  assert (Hk : ∀ rs, tracks rs c (writer l) → tracks (rs ++ w_buf (writer l)) c (writer l1)).
  { intros rs [K1 [] [K3 K4 K5 K6] K7]. destruct (replayed_mono rs (w_buf (writer l))) as (M1 & M2 & M3).
    split; rewrite ?Hb, ?app_nil_r; try done.
    - split; rewrite ?V4, ?V5, ?Hq; done.
    - split; rewrite ?V3, ?V6, ?M3; try done; lia. }
  destruct Hf as [(rs & -> & Hrs) Him]. split; [exists (rs ++ w_buf (writer l)); split; [done|by apply Hk]|].
  destruct im as [i|]; [|by rewrite Him]. destruct Him as (t & rs' & -> & Hi & Hrs'). exists (t ++ w_buf (writer l)), rs'.
  split; [done|]. split; [done|]. rewrite app_assoc. by apply Hk.
Qed.

Lemma append_flush ok1 ok2 r f l : w_failed (writer l) = false → (∀ l, log_same l (upd_w f l)) →
  let l2 := flush ok2 (upd_w f (append_next size ok1 r false l)) in
  appended (r (S (w_seq (writer l)))) true l l2 ∧ same_view (f (writer (append_next size ok1 r false l))) (writer l2) ∧
  w_seq (writer l2) = w_seq (f (writer (append_next size ok1 r false l))).
Proof.
  intros Hn Hfs l2. destruct (append_next_spec size ok1 r false l Hn) as (Ha & _ & _). set (l1 := append_next _ _ _ _ l) in *.
  destruct (Hfs l1) as (F1 & F2 & F3 & F4 & _). unfold appended. destruct Ha as [[Hd1 Hd2]|(H1 & d & H2 & H3 & H4 & _)].
  - assert (E : l2 = upd_w f l1) by (unfold l2, flush; by rewrite F4, Hd1). rewrite E. split; [|done]. left. rewrite F4, F1. done.
  - destruct (flush_spec ok2 (upd_w f l1)) as (Hv & Hq & Hc); [by rewrite F4|]. split; [|done].
    destruct Hc as [?|(C1 & C2 & C3 & C4)]; [by left|]. right. split; [done|]. exists (d ++ w_buf (writer l1)).
    rewrite F2 in C3, C4. rewrite F1 in C3. rewrite F3 in C4. unfold l2. rewrite C2, C3, C4, H2, H3, app_nil_r. split_and!; [| |done|by left].
    + destruct (file l); [|done]. cbn. by rewrite app_assoc.
    + destruct (w_tail (writer l)); [|done]. cbn. by rewrite app_assoc.
Qed.

Lemma followed_tick ok1 ok2 next c l im : followed c l im → followed c (tick size ok1 ok2 next l).1 im.
Proof.
  intros Hf. unfold tick. cbn [fst]. destruct (negb _); [|by apply followed_flush].
  destruct (w_failed (writer l)) eqn:Hn.
  - destruct (append_failed size ok1 (λ s, Fh s next) false l Hn) as [H1 H2]. set (l1 := append_next _ _ _ _ _) in *.
    assert (E : flush ok2 (upd_w (set_mark next) l1) = upd_w (set_mark next) l1) by (unfold flush; cbn; by rewrite H1).
    rewrite E. by eapply followed_dead.
  - destruct (append_flush ok1 ok2 (λ s, Fh s next) (set_mark next) l Hn) as (Ha & (V1 & V2 & V3 & V4 & V5 & V6) & Hq); [done|].
    destruct (append_view size ok1 (λ s, Fh s next) false l) as ((U1 & U2 & U3 & U4 & U5 & U6) & Uq).
    set (l1 := append_next _ _ _ _ _) in *. set (l2 := flush _ _) in *. cbn in V1, V2, V3, V4, V5, V6, Hq.
    eapply (followed_append _ true c l im l2); try done; [congruence|congruence|].
    intros rs d Hk Hd Hb. assert (Hnil : w_buf (writer l2) = []) by (destruct Hb as [|[? _]]; done).
    pose proof Hk as [_ K2 [K3 K4 K5 K6] _].
    apply (tracks_sync rs c (writer l) (Fh (S (w_seq (writer l))) next)); [exact Hk|done|exact Hd|exact Hnil| | | |]; rewrite ?V3, ?V6, ?U3.
    + apply (tells_count (S (w_seq (writer l))) _ c (writer l)); try congruence; [lia|]. exists 0, next. by right.
    + done.
    + etrans; [exact K4|]. etrans; [apply (replayed_mono rs (w_buf (writer l)))|apply next_id_mono].
    + cbn. lia.
Qed.

Lemma followed_compact_start ok c l i l' : followed c l None → cache_ok c → writer_ok dir (writer l) →
  compact_start ok c l = (i, l') → followed c l' i.
Proof.
  intros Hf Hc Hw. unfold compact_start. pose proof (followed_flush ok c l None Hf) as Hf1.
  assert (Hw1 : writer_ok dir (writer (flush ok l)) ∧ (w_failed (writer (flush ok l)) = false → w_buf (writer (flush ok l)) = [])).
  { destruct (w_failed (writer l)) eqn:Hn; [unfold flush; rewrite Hn; cbn; split; [done|congruence]|].
    destruct (flush_spec ok l Hn) as ((V1 & V2 & V3 & V4 & V5 & V6) & Hq & Hcase). split.
    - destruct Hw as [W1 W2 W3]. split; unfold own_names; rewrite ?V4, ?V5, ?Hq; done.
    - intros Hn1. destruct Hcase as [[? _]|(_ & ? & _)]; [congruence|done]. }
  destruct Hw1 as [Hw1 Hbuf]. set (l1 := flush ok l) in *. destruct (w_failed (writer l1)) eqn:Hn1.
  { intros [= <- <-]. unfold followed in *. by rewrite Hn1 in Hf1 |- *. }
  specialize (Hbuf eq_refl). set (w1 := set_compacted _ _ _ _).
  pose proof (image_tracks dir c w1 Hc) as Hi. destruct (image c w1) as [im w'] eqn:Him.
  destruct Hi as (rs & Hrs & Ht); [by destruct Hw1|done|]. intros Heq. apply pair_eq in Heq as [<- <-].
  assert (Hw' : w' = set_seq (S (w_seq w1)) (set_reserved (Nat.max (w_reserved w1) (next_inode c)) w1)) by (change (w' = (image c w1).2); by rewrite Him).
  unfold followed in *. rewrite Hn1 in Hf1. destruct Hf1 as [(rs0 & Hf0 & Ht0) _]. subst w'. cbn. rewrite Hn1. split.
  - exists rs0. split; [done|]. destruct Ht0 as [B1 [T1 T2 T3 T4 T7 T5 T6] [D1 D2 D3 D4] A]. split; cbn; try done.
    + split; cbn; try done. lia.
    + split; cbn; try done; lia.
  - exists [], rs. rewrite app_nil_r. by split_and!.
Qed.

Lemma followed_compact_end ok written c l i : followed c l (Some i) → followed c (compact_end size ok written i l) None.
Proof.
  intros Hf. unfold compact_end. apply (followed_flush ok) in Hf. set (l1 := flush ok l) in *. unfold followed in *.
  destruct (w_failed (writer l1)) eqn:Hn; [rewrite andb_false_r; cbn; by rewrite Hn|]. destruct Hf as [(rs & Hf & Ht) (t & rs' & Htl & Hi & Ht')].
  rewrite andb_true_r, Htl, Hi. destruct written; cbn [upd_w writer file set_compacted w_failed w_dev w_mount default w_tail]; rewrite Hn;
    (split; [|done]).
  - exists (rs' ++ t). split; [done|]. by destruct Ht' as [B1 [] [] A]; split; try split.
  - exists rs. split; [done|]. by destruct Ht as [B1 [] [] A]; split; try split.
Qed.

Lemma followed_fresh dev mount_point c : cache_ok c → followed c (start_fresh size dev mount_point c) None.
Proof.
  intros Hc. set (w0 := {| w_buf := []; w_buf_len := 0; w_seq := 0; w_bytes := 0; w_compacted := 0; w_dev := dev; w_mount := mount_point;
    w_reserved := next_inode c; w_opens := ∅; w_streams := ∅; w_fh_mark := 0; w_tail := None; w_failed := false |}).
  pose proof (image_tracks dir c w0 Hc) as Hi. destruct (image c w0) as [im w'] eqn:E. unfold image in E. cbn in E.
  rewrite Nat.max_id, !map_to_list_empty in E. injection E as <- <-. destruct Hi as (rs & Hrs & Ht); [|done|].
  { split; unfold own_names; cbn; intros *; by rewrite lookup_empty. }
  unfold followed. cbn. split; [|done]. exists rs. split; [cbn in Hrs; by rewrite <- Hrs|].
  by destruct Ht as [B1 [] [] A]; split; try split.
Qed.
End hooks.
End named.

(** ** Runs *)

Section runs.
Context (size : Rec → Z) (dir : PathBuf).
Implicit Types (v : Live) (c : FsCache) (l : LogState).

Definition named_below (n : nat) (wp : PathBuf) : Prop := ∃ k, k < n ∧ wp = staging_name dir k.

(** A record of an open handle: what changes only through a hook, and whether it has changed
    the staging file. *)
Definition recorded (stat : PathBuf → option StagingId) (side : ReadSide) (r : OpenRecord) (o : OpenFile) : Prop :=
  or_path r = remote_path o ∧ or_unlinked r = unlinked o ∧ or_ino r = of_ino o ∧ or_kind r = io_kind o ∧
  or_write_path r = write_path o ∧ or_mime r = read_mime side ∧ or_staged_whole r = rs_staged_whole side ∧
  (dirty o = true → or_dirty r = true ∨ ∃ wp, write_path o = Some wp ∧ stat wp ≠ or_staging r).

Record live_ok v : Prop := {
  lo_cache : cache_ok (lv_cache v);
  lo_log : followed (named_below (lv_next_fh v)) (lv_cache v) (lv_log v) (lv_image v);
  lo_writer : writer_ok (named_below (lv_next_fh v)) dir (writer (lv_log v));
  lo_files : ∀ fh o, lv_files v !! fh = Some o →
    fh < lv_next_fh v ∧ (write_path o = None ∨ write_path o = Some (staging_name dir fh)) ∧
    ∃ s r side, w_opens (writer (lv_log v)) !! fh = Some (s, r) ∧ lv_sides v !! fh = Some side ∧ recorded (lv_stat v) side r o;
  lo_closed : ∀ fh, lv_files v !! fh = None → w_opens (writer (lv_log v)) !! fh = None;
  lo_streams : ∀ fh o, lv_files v !! fh = Some o → frees_sent o = true →
    ∃ wp, write_path o = Some wp ∧ is_Some (w_streams (writer (lv_log v)) !! wp);
}.

Lemma followed_mono (P Q : PathBuf → Prop) c l im : (∀ wp, P wp → Q wp) → followed P c l im → followed Q c l im.
Proof.
  intros HPQ. assert (Hk : ∀ rs w, tracks P rs c w → tracks Q rs c w).
  { intros rs w [B [T1 T2 T3 T4 T7 T5 T6] D A]. split; try done. split; try done. intros wp Hs. by apply HPQ, T7. }
  unfold followed. destruct (w_failed _); [done|]. intros [(rs & Hf & Ht) Him]. split; [exists rs; by auto|].
  destruct im as [i|]; [|done]. destruct Him as (t & rs' & ? & ? & ?). exists t, rs'. by auto.
Qed.
Lemma named_mono n m wp : n ≤ m → named_below n wp → named_below m wp.
Proof. intros Hle (k & ? & ->). exists k. split; [lia|done]. Qed.
Lemma writer_mono (P Q : PathBuf → Prop) w : (∀ wp, P wp → Q wp) → writer_ok P dir w → writer_ok Q dir w.
Proof. intros HPQ [W1 W2 W3]. split; try done. intros wp s b Hs. apply W3 in Hs as [? ?]. by auto. Qed.

Definition quiet_hook l l' : Prop := w_opens (writer l') = w_opens (writer l) ∧ w_streams (writer l') = w_streams (writer l) ∧
  w_seq (writer l) ≤ w_seq (writer l').
Lemma quiet_trans l1 l2 l3 : quiet_hook l1 l2 → quiet_hook l2 l3 → quiet_hook l1 l3.
Proof. intros (? & ? & ?) (? & ? & ?). split_and!; congruence || lia. Qed.
Lemma quiet_append ok r sync l : quiet_hook l (append_next size ok r sync l).
Proof. destruct (append_view size ok r sync l) as ((_ & _ & _ & ? & ? & _) & ?). split_and!; congruence || lia. Qed.
Lemma quiet_flush ok l : quiet_hook l (flush ok l).
Proof.
  destruct (w_failed (writer l)) eqn:Hn; [unfold flush; by rewrite Hn|].
  destruct (flush_spec ok l Hn) as ((_ & _ & _ & ? & ? & _) & ? & _). split_and!; congruence || lia.
Qed.

Lemma live_quiet v c l im : live_ok v → cache_ok c → followed (named_below (lv_next_fh v)) c l im → quiet_hook (lv_log v) l →
  live_ok {| lv_cache := c; lv_files := lv_files v; lv_sides := lv_sides v; lv_next_fh := lv_next_fh v; lv_stat := lv_stat v;
             lv_log := l; lv_image := im |}.
Proof.
  intros [L1 L2 [W1 W2 W3] L4 L5 L6] Hc Hf (Q1 & Q2 & Q3). split; cbn; rewrite ?Q1, ?Q2; try done.
  split; unfold own_names; rewrite ?Q1, ?Q2; try done.
  - intros fh s r Hr. apply W2 in Hr as [? ?]. split; [done|lia].
  - intros wp s b Hs. apply W3 in Hs as [? ?]. split; [done|lia].
Qed.

Lemma cache_allocated c path : cache_ok c → cache_ok (allocate_inode c path).2.
Proof.
  intros [Hwf H1]. split; [by apply allocate_inode_wf|]. unfold allocate_inode. destruct (paths c !! path); [done|]. cbn.
  rewrite lookup_insert_ne; [done|]. intros E. apply Hwf in H1. lia.
Qed.
Lemma cache_moved c from to old ino : cache_ok c → paths c !! old = Some ino → starts_with old from = true → from ≠ [] → to ≠ [] →
  cache_ok (move_one from to c (old, ino)).
Proof.
  intros [Hwf H1] Hp Hs Hf Ht. split; [by apply move_one_wf|]. pose proof Hwf as [Hb _].
  destruct (moved_to_spec from to old Hs) as (rel & Er & En). unfold move_one. fold (moved_to from to old). cbn.
  assert (Hne : old ≠ []) by (subst; by destruct from).
  assert (ino ≠ 1) by (intros ->; apply Hb in Hp; congruence).
  destruct (delete old (paths c) !! moved_to from to old) as [d|] eqn:Hd; [case_decide|]; rewrite ?lookup_insert_ne by done; try done.
  rewrite lookup_delete_ne; [by rewrite lookup_insert_ne|]. intros ->. apply lookup_delete_Some in Hd as [_ Hd]. apply Hb in Hd.
  rewrite En in Hd. destruct to; [done|]. cbn in Hd. congruence.
Qed.

Lemma log_inode_quiet oks ino path l : quiet_hook l (log_inode size oks ino path l).
Proof.
  unfold log_inode. destruct (_ <=? _); [|apply quiet_append]. eapply quiet_trans; [|apply quiet_append].
  eapply (quiet_trans _ (upd_w (set_reserved (reservation_after ino)) l)); [by split_and!|apply quiet_append].
Qed.
Lemma tick_quiet ok1 ok2 n l : quiet_hook l (tick size ok1 ok2 n l).1.
Proof.
  unfold tick. cbn [fst]. destruct (negb _); [|apply quiet_flush]. eapply quiet_trans; [|apply quiet_flush].
  eapply quiet_trans; [apply (quiet_append ok1 (λ s, Fh s n) false)|by split_and!].
Qed.
Lemma compact_start_quiet ok c l i l' : compact_start ok c l = (i, l') → quiet_hook l l'.
Proof.
  unfold compact_start. pose proof (quiet_flush ok l) as Hq. destruct (w_failed _); [by intros [= <- <-]|].
  unfold image. intros Heq. apply pair_eq in Heq as [_ <-]. eapply quiet_trans; [exact Hq|]. split_and!; try done. cbn. lia.
Qed.
Lemma compact_end_quiet ok written i l : quiet_hook l (compact_end size ok written i l).
Proof.
  unfold compact_end. eapply quiet_trans; [apply (quiet_flush ok)|]. destruct (written && _); by split_and!.
Qed.

(** The hooks of a handle, as the writer sees them. *)
Lemma opened_view ok fh r l : let l' := handle_opened size ok fh r l in let s := S (w_seq (writer l)) in
  w_opens (writer l') = <[fh := (s, r)]> (w_opens (writer l)) ∧ w_streams (writer l') = w_streams (writer l) ∧ w_seq (writer l') = s.
Proof.
  unfold handle_opened. destruct (append_view size ok (λ s, ROpen s r) true l) as ((_ & _ & _ & V4 & V5 & _) & Hq). cbn.
  by rewrite V4, V5, Hq.
Qed.
Lemma released_view ok fh l : let l' := handle_released size ok fh l in
  w_opens (writer l') = delete fh (w_opens (writer l)) ∧ w_seq (writer l) ≤ w_seq (writer l') ∧
  ∀ wp, w_streams (writer l') !! wp = w_streams (writer l) !! wp ∨
        w_streams (writer l') !! wp = None ∧ ∃ s r, w_opens (writer l) !! fh = Some (s, r) ∧ or_write_path r = Some wp.
Proof.
  unfold handle_released. destruct (w_opens (writer l) !! fh) as [[s r]|] eqn:Hr; cbv zeta.
  - set (l0 := match or_write_path r with Some wp => _ | None => _ end).
    destruct (append_view size ok (λ s, RClose s fh) true l0) as ((_ & _ & _ & V4 & V5 & _) & Hq). rewrite V4, V5, Hq. unfold l0.
    destruct (or_write_path r) as [wp|] eqn:Hwp; cbn; split_and!; try done; try lia; intros wp'; [|by left].
    destruct (decide (wp' = wp)) as [->|]; [|by left; rewrite lookup_delete_ne]. right. rewrite lookup_delete_eq. split; [done|].
    by exists s, r.
  - split_and!; [by rewrite delete_id|done|by left].
Qed.
Lemma edited_view ok fh (f : OpenRecord → OpenRecord) rc l s r : let l' := append_next size ok rc true (upd_w (λ w, set_opens (<[fh := (s, f r)]> (w_opens w)) w) l) in
  w_opens (writer l') = <[fh := (s, f r)]> (w_opens (writer l)) ∧ w_streams (writer l') = w_streams (writer l) ∧
  w_seq (writer l) ≤ w_seq (writer l').
Proof.
  destruct (append_view size ok rc true (upd_w (λ w, set_opens (<[fh := (s, f r)]> (w_opens w)) w) l)) as ((_ & _ & _ & V4 & V5 & _) & Hq).
  cbv zeta. rewrite V4, V5, Hq. split_and!; try done. cbn. lia.
Qed.
Lemma stream_view ok wp b l : let l' := stream_started size ok wp b l in let s := S (w_seq (writer l)) in
  w_opens (writer l') = w_opens (writer l) ∧ w_streams (writer l') = <[wp := (s, b)]> (w_streams (writer l)) ∧ w_seq (writer l') = s.
Proof.
  unfold stream_started. destruct (append_view size ok (λ s, RStream s wp b) true l) as ((_ & _ & _ & V4 & V5 & _) & Hq). cbn.
  by rewrite V4, V5, Hq.
Qed.

Lemma live_opened v ok o side backing stat : live_ok v → let fh := lv_next_fh v in
  write_path o = None ∨ write_path o = Some (staging_name dir fh) → frees_sent o = false →
  (∀ wp, wp ≠ staging_name dir fh → stat wp = lv_stat v wp) →
  live_ok {| lv_cache := lv_cache v; lv_files := <[fh := o]> (lv_files v); lv_sides := <[fh := side]> (lv_sides v);
             lv_next_fh := S fh; lv_stat := stat; lv_image := lv_image v;
             lv_log := handle_opened size ok fh (record_of fh o (read_mime side) (rs_staged_whole side) stat backing) (lv_log v) |}.
Proof.
  intros [L1 L2 [W1 W2 W3] L4 L5 L6] fh Hwp Hfr Hst. set (r := record_of _ _ _ _ _ _).
  assert (Hnone : lv_files v !! fh = None).
  { destruct (lv_files v !! fh) as [o'|] eqn:E; [|done]. apply L4 in E as [? _]. unfold fh in *. lia. }
  assert (Hname : ∀ wp, or_write_path r = Some wp → wp = staging_name dir fh) by (cbn; intros wp Hw; destruct Hwp; congruence).
  assert (Hnew : ∀ wp, named_below fh wp → wp ≠ staging_name dir fh).
  { intros wp (k & ? & ->) E. apply staging_name_inj in E. lia. }
  destruct (opened_view ok fh r (lv_log v)) as (V1 & V2 & V3).
  split; cbn [lv_cache lv_files lv_sides lv_next_fh lv_stat lv_log lv_image live_with]; rewrite ?V1, ?V2; try done.
  - apply (followed_mono (named_below fh)); [intros wp; apply named_mono; lia|]. apply (followed_opened _ size dir); try done; [by apply L5|].
    intros p Ht wp Hw. apply Hname in Hw as ->. destruct (p_streams p !! _) eqn:E1.
    + exfalso. by apply (Hnew (staging_name dir fh)); [eapply (t_named _ _ _ _ Ht)|].
    + destruct (w_streams (writer (lv_log v)) !! _) as [[s b]|] eqn:E2; [|done]. exfalso.
      apply W3 in E2 as [E2 _]. by apply (Hnew _ E2).
  - split; unfold own_names; rewrite ?V1, ?V2, ?V3.
    + intros fh' s0 r0 wp Hl Hw. apply lookup_insert_Some in Hl as [[<- [= <- <-]]|[_ Hl]]; [by apply Hname|by eapply W1].
    + intros fh' s0 r0 Hl. apply lookup_insert_Some in Hl as [[<- [= <- <-]]|[_ Hl]]; [done|]. apply W2 in Hl as [? ?]. split; [done|lia].
    + intros wp s0 b Hl. apply W3 in Hl as [? ?]. split; [eapply named_mono; [|done]; lia|lia].
  - intros k o' Hk. apply lookup_insert_Some in Hk as [[<- <-]|[Hne Hk]].
    + split_and!; [lia|done|]. exists (S (w_seq (writer (lv_log v)))), r, side. rewrite !lookup_insert_eq.
      split_and!; try done. split_and!; try done. by left.
    + destruct (L4 k o' Hk) as (Hlt & Hw & s0 & r0 & side0 & Ho & Hs & Hrec). split_and!; [lia|done|]. exists s0, r0, side0.
      rewrite !lookup_insert_ne by done. split_and!; try done. destruct Hrec as (R1 & R2 & R3 & R4 & R5 & R6 & R7 & R8).
      split_and!; try done. intros Hd. destruct (R8 Hd) as [?|(wp & Hwp' & Hne')]; [by left|]. right. exists wp. split; [done|].
      rewrite Hst; [done|]. destruct Hw as [Hw|Hw]; [congruence|]. rewrite Hwp' in Hw. injection Hw as ->.
      intros E. by apply staging_name_inj in E.
  - intros k [? Hk]%lookup_insert_None. rewrite lookup_insert_ne by done. by apply L5.
  - intros k o' Hk Hf. apply lookup_insert_Some in Hk as [[<- <-]|[Hne Hk]]; [congruence|]. by eapply L6.
Qed.

Lemma live_released v ok fh : live_ok v → live_ok (live_with (lv_cache v) (delete fh (lv_files v)) (handle_released size ok fh (lv_log v)) v).
Proof.
  intros [L1 L2 [W1 W2 W3] L4 L5 L6]. destruct (released_view ok fh (lv_log v)) as (V1 & V2 & V3).
  split; cbn [lv_cache lv_files lv_sides lv_next_fh lv_stat lv_log lv_image live_with]; rewrite ?V1; try done.
  - by apply followed_released with (dir := dir).
  - split; unfold own_names; rewrite ?V1.
    + intros k s r wp [_ Hl]%lookup_delete_Some. by eapply W1.
    + intros k s r [_ Hl]%lookup_delete_Some. apply W2 in Hl as [? ?]. split; [done|lia].
    + intros wp s b Hl. destruct (V3 wp) as [E|[E _]]; rewrite E in Hl; [|done]. apply W3 in Hl as [? ?]. split; [done|lia].
  - intros k o [Hne Hk]%lookup_delete_Some. rewrite lookup_delete_ne by done. by apply L4.
  - intros k Hk. apply lookup_delete_None. apply lookup_delete_None in Hk as [->|Hk]; [by left|right; by apply L5].
  - intros k o [Hne Hk]%lookup_delete_Some Hf. destruct (L6 k o Hk Hf) as (wp & Hw & Hs). exists wp. split; [done|].
    destruct (V3 wp) as [->|(_ & s & r & Hr & Hwr)]; [done|]. exfalso. pose proof (W1 fh s r wp Hr Hwr) as E1.
    destruct (L4 k o Hk) as (_ & Hown & _). destruct Hown as [?|Hown]; [congruence|]. rewrite Hw in Hown. injection Hown as E2.
    apply Hne. apply (staging_name_inj dir). congruence.
Qed.

(** A hook that edits the record of an open handle. *)
Lemma live_edited v ok fh o o' s r f rc : live_ok v → lv_files v !! fh = Some o → w_opens (writer (lv_log v)) !! fh = Some (s, r) →
  (∀ s, rc s = Unlinked s fh) ∧ f = rec_unlinked ∨ (∃ path, (∀ s, rc s = Retarget s fh path) ∧ f = rec_path path) →
  write_path o' = write_path o → Mount.chunk_upload o' = Mount.chunk_upload o →
  (∀ side, recorded (lv_stat v) side r o → recorded (lv_stat v) side (f r) o') →
  live_ok (live_with (lv_cache v) (<[fh := o']> (lv_files v))
    (append_next size ok rc true (upd_w (λ w, set_opens (<[fh := (s, f r)]> (w_opens w)) w) (lv_log v))) v).
Proof.
  intros [L1 L2 [W1 W2 W3] L4 L5 L6] Ho Hr Hrc Hwp Hch Hrec.
  destruct (edited_view ok fh f rc (lv_log v) s r) as (V1 & V2 & V3).
  assert (Hf : or_fh (f r) = or_fh r ∧ or_write_path (f r) = or_write_path r) by (destruct Hrc as [[_ ->]|(path & _ & ->)]; done).
  split; cbn [lv_cache lv_files lv_sides lv_next_fh lv_stat lv_log lv_image live_with]; rewrite ?V1, ?V2; try done.
  - by apply followed_edited.
  - split; unfold own_names; rewrite ?V1, ?V2.
    + intros k s0 r0 wp Hl Hw. apply lookup_insert_Some in Hl as [[<- [= <- <-]]|[_ Hl]]; [|by eapply W1].
      rewrite (proj2 Hf) in Hw. by eapply W1.
    + intros k s0 r0 Hl. apply lookup_insert_Some in Hl as [[<- [= <- <-]]|[_ Hl]]; [rewrite (proj1 Hf); apply W2 in Hr as [? ?]|apply W2 in Hl as [? ?]];
        (split; [done|lia]).
    + intros wp s0 b Hl. apply W3 in Hl as [? ?]. split; [done|lia].
  - intros k o1 Hk. apply lookup_insert_Some in Hk as [[<- <-]|[Hne Hk]].
    + destruct (L4 fh o Ho) as (Hlt & Hw & s0 & r0 & side & Hr0 & Hs & Hrc0). assert ((s0, r0) = (s, r)) as [= -> ->] by congruence.
      split; [done|]. split; [by rewrite Hwp|]. exists s, (f r), side. rewrite lookup_insert_eq. split_and!; auto.
    + rewrite lookup_insert_ne by done. by apply L4.
  - intros k [? Hk]%lookup_insert_None. rewrite lookup_insert_ne by done. by apply L5.
  - intros k o1 Hk Hfr. apply lookup_insert_Some in Hk as [[<- <-]|[Hne Hk]]; [|by eapply L6].
    rewrite Hwp. apply (L6 fh o Ho). unfold frees_sent in *. by rewrite Hch in Hfr.
Qed.

Lemma live_stream v ok fh base : live_ok v → fh < lv_next_fh v →
  live_ok (live_with (lv_cache v) (lv_files v) (stream_started size ok (staging_name dir fh) base (lv_log v)) v).
Proof.
  intros [L1 L2 [W1 W2 W3] L4 L5 L6] Hlt. destruct (stream_view ok (staging_name dir fh) base (lv_log v)) as (V1 & V2 & V3).
  assert (Hnm : named_below (lv_next_fh v) (staging_name dir fh)) by (by exists fh).
  split; cbn [lv_cache lv_files lv_sides lv_next_fh lv_stat lv_log lv_image live_with]; rewrite ?V1, ?V2; try done.
  - by apply followed_stream.
  - split; unfold own_names; rewrite ?V1, ?V2, ?V3; try done.
    + intros k s r Hr. apply W2 in Hr as [? ?]. split; [done|lia].
    + intros wp s b [[<- [= <- <-]]|[_ Hl]]%lookup_insert_Some; [done|]. apply W3 in Hl as [? ?]. split; [done|lia].
  - intros k o Hk Hf. destruct (L6 k o Hk Hf) as (wp & Hw & Hs). exists wp. split; [done|].
    destruct (decide (wp = staging_name dir fh)) as [->|]; [rewrite lookup_insert_eq; by eexists|by rewrite lookup_insert_ne].
Qed.

Lemma live_work v fh o o' stat : live_ok v → lv_files v !! fh = Some o → same_handle o o' →
  (∀ wp, write_path o ≠ Some wp → stat wp = lv_stat v wp) →
  (∀ wp, write_path o = Some wp → stat wp = lv_stat v wp ∨
     ∀ s r, w_opens (writer (lv_log v)) !! fh = Some (s, r) → stat wp ≠ or_staging r) →
  (dirty o' = true → dirty o = true ∨ ∃ wp, write_path o = Some wp ∧ stat wp ≠ lv_stat v wp) →
  (frees_sent o' = true → frees_sent o = true ∨ ∃ wp, write_path o = Some wp ∧ is_Some (w_streams (writer (lv_log v)) !! wp)) →
  live_ok {| lv_cache := lv_cache v; lv_files := <[fh := o']> (lv_files v); lv_sides := lv_sides v; lv_next_fh := lv_next_fh v;
             lv_stat := stat; lv_image := lv_image v; lv_log := lv_log v |}.
Proof.
  intros [L1 L2 L3 L4 L5 L6] Ho (H1 & H2 & H3 & H4 & H5) Hst Hnew Hd Hf. split; cbn; try done.
  - intros k o1 [[<- <-]|[Hne Hk]]%lookup_insert_Some.
    + destruct (L4 fh o Ho) as (Hlt & Hw & s & r & side & Hr & Hs & R1 & R2 & R3 & R4 & R5 & R6 & R7 & R8).
      split; [done|]. split; [by rewrite H5|]. exists s, r, side. split_and!; [done|done|]. split_and!; try congruence.
      intros Hdirty. rewrite H5. destruct (Hd Hdirty) as [Hd1|(wp & Hw1 & Hne1)].
      * destruct (R8 Hd1) as [?|(wp & Hw1 & Hne1)]; [by left|]. right. exists wp. split; [done|].
        destruct (Hnew wp Hw1) as [->|Hn]; [done|by apply (Hn s)].
      * right. exists wp. split; [done|]. destruct (Hnew wp Hw1) as [?|Hn]; [done|by apply (Hn s)].
    + destruct (L4 k o1 Hk) as (Hlt & Hw & s & r & side & Hr & Hs & R1 & R2 & R3 & R4 & R5 & R6 & R7 & R8).
      split_and!; [done|done|]. exists s, r, side. split_and!; try done. split_and!; try done. intros Hdirty.
      destruct (R8 Hdirty) as [?|(wp & Hw1 & Hne1)]; [by left|]. right. exists wp. split; [done|]. rewrite Hst; [done|]. intros Hw2.
      destruct Hw as [?|Hw]; [congruence|]. destruct (L4 fh o Ho) as (_ & [Hw3|Hw3] & _); [congruence|].
      rewrite Hw1 in Hw. injection Hw as ->. rewrite Hw2 in Hw3. injection Hw3 as E. by apply staging_name_inj in E.
  - intros k [? Hk]%lookup_insert_None. by apply L5.
  - intros k o1 [[<- <-]|[Hne Hk]]%lookup_insert_Some Hfr; [|by eapply L6]. rewrite H5.
    destruct (Hf Hfr) as [Hf1|?]; [by apply (L6 fh)|done].
Qed.

Lemma live_step v v' : lstep size dir v v' → live_ok v → live_ok v'.
Proof.
  intros Hstep Hok. pose proof Hok as [L1 L2 L3 L4 L5 L6]. destruct Hstep as [oks path ino c l Hne Heq|ok from to old ino c l Hp Hs Hf Ht Heq|
    ok o side backing stat fh -> Hw Hfr Hst|stat Hst| |ok fh|ok fh o o' Ho H1 H2 H3 H4 H5 H6 H7|ok fh o p Ho|ok fh base Hlt|
    fh o o' stat Ho Hs Hst Hn Hd Hf|ok1 ok2|ok i l Him Heq|ok written i Him].
  - pose proof (followed_allocated _ size oks path ino _ _ _ c l L2 L1 Hne Heq) as Hf. apply (live_quiet v); try done;
      unfold allocate_logged in Heq; cbn [fst snd] in Heq; destruct (allocate_inode (lv_cache v) path) as [i c1] eqn:E;
      apply pair_eq in Heq as [_ Heq]; apply pair_eq in Heq as [<- <-].
    + pose proof (cache_allocated (lv_cache v) path L1) as Hc. by rewrite E in Hc.
    + destruct (paths _ !! path); [by split_and!|apply log_inode_quiet].
  - pose proof (followed_moved _ size ok from to old ino _ _ _ c l L2 L1 Hp Hs Hf Ht Heq) as Hfo. apply (live_quiet v); try done;
      unfold move_logged in Heq; cbv zeta in Heq; cbn [fst snd] in Heq; apply pair_eq in Heq as [<- <-].
    + by apply cache_moved.
    + apply quiet_append.
  - by apply live_opened.
  - split; try done. intros fh o Ho. destruct (L4 fh o Ho) as (Hlt & Hw & s & r & side & Hr & Hs & R1 & R2 & R3 & R4 & R5 & R6 & R7 & R8).
    split_and!; try done. exists s, r, side. split_and!; try done. split_and!; try done. intros Hd.
    destruct (R8 Hd) as [?|(wp & Hw1 & Hne)]; [by left|]. right. exists wp. split; [done|]. cbn. by rewrite (Hst fh o).
  - split; cbn; try done.
    + eapply followed_mono; [|exact L2]. intros wp. apply named_mono. lia.
    + eapply writer_mono; [|exact L3]. intros wp. apply named_mono. lia.
    + intros fh o Ho. destruct (L4 fh o Ho) as (Hlt & ? & ?). split_and!; [lia|done|done].
  - by apply live_released.
  - destruct (L4 fh o Ho) as (_ & _ & s & r & side & Hr & _). unfold handle_unlinked. rewrite Hr.
    eapply live_edited; try done; [by left|]. intros sd (R1 & R2 & R3 & R4 & R5 & R6 & R7 & R8). split_and!; cbn; try congruence.
    by rewrite H5, H6.
  - destruct (L4 fh o Ho) as (_ & _ & s & r & side & Hr & _). unfold handle_retargeted. rewrite Hr.
    eapply live_edited; try done; [right; by exists p|]. intros sd (R1 & R2 & R3 & R4 & R5 & R6 & R7 & R8). by split_and!.
  - by apply live_stream.
  - by apply live_work with (o := o).
  - apply (live_quiet v); try done; [by apply followed_tick|apply tick_quiet].
  - apply (live_quiet v (lv_cache v) l i); try done; [|by eapply compact_start_quiet].
    rewrite Him in L2. by eapply followed_compact_start.
  - apply (live_quiet v (lv_cache v) _ None); try done; [|apply compact_end_quiet].
    rewrite Him in L2. by apply followed_compact_end.
Qed.

(** A fresh mount, before it serves requests. *)
Definition mounted (dev : ConnDev) (mount_point : PathBuf) c (next_fh : nat) (stat : PathBuf → option StagingId) : Live :=
  {| lv_cache := c; lv_files := ∅; lv_sides := ∅; lv_next_fh := next_fh; lv_stat := stat; lv_log := start_fresh size dev mount_point c;
     lv_image := None |}.
Lemma live_mounted dev mount_point c n stat : cache_ok c → live_ok (mounted dev mount_point c n stat).
Proof.
  intros Hc. split; cbn; try done. by apply (followed_fresh _ size dir).
Qed.
Lemma live_run v v' : rtc (lstep size dir) v v' → live_ok v → live_ok v'.
Proof. induction 1; [done|]. intros. apply IHrtc. by eapply live_step. Qed.
End runs.

(** *** What a successor finds *)

(** The log a daemon that dies leaves: some of what is queued may have been written, and the
    last line may be cut. *)
Definition left_behind (k : nat) (torn : bool) (l : LogState) : option (list (option Rec)) :=
  (λ f, (Some <$> (f ++ firstn k (w_buf (writer l)))) ++ (if torn then [None] else [])) <$> file l.

Lemma load_lines_ok dev mp p rs torn : p_based p = true → Forall not_base rs →
  load_lines dev mp false p ((Some <$> rs) ++ (if torn : bool then [None] else [])) = Ok (foldl take_record p rs).
Proof.
  intros Hp Hb. revert p Hp. induction Hb as [|r rs Hr Hb IH]; intros p Hp; cbn; [by destruct torn|].
  unfold apply. rewrite Hp. destruct r; try done; apply IH; by rewrite <- Hp; apply (next_id_mono p).
Qed.

Lemma load_log dev mp rs torn sn : Forall not_base rs →
  load dev mp (Some ((Some <$> (Base dev mp :: rs)) ++ (if torn : bool then [None] else []))) sn =
  Ok (finish (match sn with Some x => overlay dev mp x (replayed rs) | None => replayed rs end)).
Proof.
  intros Hb. unfold load. cbn [fmap list_fmap app load_lines apply p_based new_replayer]. rewrite !bool_decide_true by done. cbn [andb].
  rewrite load_lines_ok by done. change (foldl take_record (with_based new_replayer) rs) with (replayed rs).
  assert (E : p_based (replayed rs) = true) by (rewrite <- (app_nil_l rs); by rewrite (proj2 (proj2 (replayed_mono [] rs)))).
  by rewrite E.
Qed.

(** The records a live log has lost at most a tail of new names. *)
Lemma left_tells P v k torn sn : followed P (lv_cache v) (lv_log v) (lv_image v) →
  let w := writer (lv_log v) in
  (w_failed w = true ∧ load (w_dev w) (w_mount w) (left_behind k torn (lv_log v)) sn = Err "no log"%string) ∨
  (w_failed w = false ∧ ∃ rs, tracks P rs (lv_cache v) w ∧
     let p := replayed (rs ++ firstn k (w_buf w)) in
     load (w_dev w) (w_mount w) (left_behind k torn (lv_log v)) sn =
       Ok (finish (match sn with Some x => overlay (w_dev w) (w_mount w) x p | None => p end))).
Proof.
  unfold followed, left_behind. intros Hf. destruct (w_failed _); [left; by rewrite Hf|]. right. split; [done|].
  destruct Hf as [(rs & -> & Ht) _]. exists rs. split; [done|]. cbn [fmap option_fmap option_map]. rewrite <- app_comm_cons. apply load_log.
  destruct Ht as [Hb _ _ _]. apply Forall_app in Hb as [Hb1 Hb2]. apply Forall_app. split; [done|]. by apply Forall_take.
Qed.

Lemma tracks_left P rs c w k : tracks P rs c w → let p := replayed (rs ++ firstn k (w_buf w)) in
  p_inodes p ⊆ delete 1 (inodes c) ∧ p_handles p = opened <$> w_opens w ∧ next_inode c ≤ next_id p ∧
  w_fh_mark w ≤ p_fh_mark p ∧ (w_buf w = [] → p_inodes p = delete 1 (inodes c)) ∧
  (∀ fh s r, w_opens w !! fh = Some (s, r) → fh ≤ p_max_fh p) ∧
  (∀ fh s r wp, w_opens w !! fh = Some (s, r) → or_write_path r = Some wp → p_streams p !! wp = w_streams w !! wp).
Proof.
  intros [Hb [T1 T2 T3 T4 T7 T5 T6] [D1 D2 D3 D4] Ha]. set (p := replayed (rs ++ firstn k (w_buf w))). cbv zeta.
  assert (E : replayed (rs ++ w_buf w) = foldl take_record p (skipn k (w_buf w))).
  { unfold p. rewrite <- replayed_app, <- app_assoc. by rewrite firstn_skipn. }
  assert (Hs : only_adds p (skipn k (w_buf w))).
  { pose proof (proj1 (only_adds_app (replayed rs) (firstn k (w_buf w)) (skipn k (w_buf w)))) as Hx. rewrite firstn_skipn in Hx.
    destruct (Hx Ha) as [_ Hs]. unfold p. by rewrite replayed_app. }
  apply adds_grow in Hs as (G1 & G2 & G3 & G4). rewrite <- E in G1, G2, G3, G4.
  destruct (replayed_mono rs (firstn k (w_buf w))) as (M1 & M2 & _). fold p in M1, M2. rewrite <- T1, <- T3. split_and!; try done; try lia.
  - intros Hnil. unfold p. by rewrite Hnil, firstn_nil.
  - intros fh s r Hr. destruct (T6 fh s r Hr) as (_ & ? & _). lia.
  - intros fh s r wp Hr Hw. rewrite <- G3. by eapply T4.
Qed.

Lemma installed_names r c c0 : cache_ok c → r_inodes r ⊆ delete 1 (inodes c) → next_inode c ≤ restored_next_inode r →
  let c' := install_names r c0 in
  cache_ok c' ∧ (∀ ino p, get_path c' ino = Some p → get_path c ino = Some p) ∧ next_inode c ≤ next_inode c'.
Proof.
  intros [[Hb Hn] H1] Hr Hle c'. set (i' := <[1 := []]> (r_inodes r) : gmap nat PathBuf).
  assert (Hsub : ∀ ino p, i' !! ino = Some p → inodes c !! ino = Some p).
  { intros ino p [[<- <-]|[Hne Hi]]%lookup_insert_Some; [done|]. eapply lookup_weaken in Hi; [|exact Hr].
    by apply lookup_delete_Some in Hi as [_ Hi]. }
  assert (Hpaths : ∀ ino p, paths c' !! p = Some ino ↔ i' !! ino = Some p).
  { intros ino p. cbn [c' install_names with_inodes paths]. fold i'. rewrite <- elem_of_list_to_map.
    - rewrite list_elem_of_fmap. split.
      + by intros ([ino' p'] & [= -> ->] & Hin%elem_of_map_to_list).
      + intros Hi. exists (ino, p). split; [done|]. by apply elem_of_map_to_list.
    - rewrite <- list_fmap_compose. apply NoDup_fmap_2_strong; [|apply NoDup_map_to_list].
      intros [j q] [j' q'] Hj%elem_of_map_to_list Hj'%elem_of_map_to_list E. cbn in E. subst q'.
      apply Hsub, Hb in Hj, Hj'. congruence. }
  split_and!; [split; [split|]| |].
  - intros ino p. by rewrite Hpaths.
  - intros ino p Hi. apply Hsub in Hi. apply Hn in Hi. cbn. lia.
  - cbn. apply lookup_insert_eq.
  - done.
  - cbn. lia.
Qed.

(** C11: A restart never gives a node id to another file.  However the daemon ran since it
    mounted (lookups, renames of files and folders one entry at a time, handles, compactions
    of the log at any point) and whenever it dies, with any part of the queued records
    written and the last one cut: the log reads back unless it had failed and removed itself;
    every node id the successor knows names the file it named before; and the successor's
    numbering starts past every id handed out, so an id whose record was lost is unknown, never
    another file.  When nothing was queued (a planned hand-over) every id is restored. *)
Theorem restart_names size dir dev mount_point c0 n stat v k torn cn :
  cache_ok c0 → rtc (lstep size dir) (mounted size dev mount_point c0 n stat) v →
  let w := writer (lv_log v) in
  match load (w_dev w) (w_mount w) (left_behind k torn (lv_log v)) None with
  | Err _ => w_failed w = true
  | Ok r =>
      let c' := install_names r cn in
      inode_wf c' ∧ (∀ ino p, get_path c' ino = Some p → get_path (lv_cache v) ino = Some p) ∧
      next_inode (lv_cache v) ≤ next_inode c' ∧
      (w_buf w = [] → ∀ ino, get_path c' ino = get_path (lv_cache v) ino)
  end.
Proof.
  intros Hc Hrun w. pose proof (live_run size dir _ _ Hrun (live_mounted size dir dev mount_point c0 n stat Hc)) as [L1 L2 _ _ _ _].
  pose proof (left_tells _ v k torn None L2) as Hl. fold w in Hl. destruct Hl as [[Hf ->]|(Hf & rs & Ht & ->)]; [done|].
  apply (tracks_left _ _ _ _ k) in Ht as (T1 & _ & T3 & _ & T5 & _). set (p := replayed _) in *. cbv zeta.
  destruct (installed_names (finish p) (lv_cache v) cn L1 T1 T3) as ([Hwf _] & Hs & Hn). split_and!; try done.
  intros Hnil ino. unfold get_path. cbn. rewrite (T5 Hnil). destruct (decide (ino = 1)) as [->|Hne].
  - rewrite lookup_insert_eq. by destruct L1 as [_ ->].
  - by rewrite lookup_insert_ne, lookup_delete_ne.
Qed.
