(* ===== verification/Restore.v ===== *)
(** [state_snapshot.rs], from the log to a mount again: the exact state a planned hand-over
    records, how an open handle comes back, and [apply], which puts names, handles, I/O modes
    and passthrough backings into a freshly built file system.

    [stat] is what the staging files' metadata is as the successor starts.  Handles come back
    in the order of their numbers in the code; here in that of the map. *)
From Stdlib Require Import Ascii String.
From S2P Require Import Prelude Paths Backend FsCache Journal Replay ChunkUpload Versions AppLocks Attr IoMode Mount Throttle ReadAhead Read.
From S2P Require Import Namespace Restart.
Local Open Scope nat_scope.

(** ** The snapshot of a planned hand-over *)

Definition with_chunk (c : option Stream) (o : OpenFile) : OpenFile :=
  {| remote_path := remote_path o; write_path := write_path o; Mount.dirty := Mount.dirty o; original_etag := original_etag o;
     Mount.total_written := Mount.total_written o; Mount.stream_eligible := Mount.stream_eligible o; Mount.chunk_upload := c;
     of_ino := of_ino o; io_kind := io_kind o; Mount.upload_failed := Mount.upload_failed o; Mount.created := Mount.created o;
     unlinked := unlinked o; opened_gen := opened_gen o; pin := pin o |}.
Definition on_pump (f : PumpState → PumpState) (o : OpenFile) : OpenFile :=
  with_chunk ((λ st, {| uploads_base := uploads_base st; cs := set_pump (cs st) (f (pump (cs st))) |}) <$> Mount.chunk_upload o) o.

(** A session that frees what it sent is frozen, its progress recorded as it then stands. *)
(* state_snapshot.rs:737-739 write_handles_snapshot *)
Definition freeze_freeing (p : PumpState) : PumpState := if punching p then ChunkUpload.freeze p else p.
Definition chunk_record (st : Stream) : ChunkRec :=
  let p := freeze_freeing (pump (cs st)) in
  {| ck_base := uploads_base st; ck_next := next_index p; ck_confirmed := bytes_confirmed p; ck_head := head (cs st);
     ck_whole := negb (punching p) |}.
(* state_snapshot.rs:730-752 write_handles_snapshot *)
Definition handle_state (fh : nat) (o : OpenFile) : HandleState :=
  {| hs_fh := fh; hs_path := remote_path o; hs_dirty := Mount.dirty o; hs_total := Mount.total_written o;
     hs_eligible := Mount.stream_eligible o; hs_chunk := chunk_record <$> Mount.chunk_upload o; hs_failed := Mount.upload_failed o;
     hs_unlinked := unlinked o; hs_created := Mount.created o; hs_etag := original_etag o |}.
(** The handles, frozen or thawed, the log and the file's new content ([None]: there is none). *)
(* state_snapshot.rs:703-759 write_handles_snapshot *)
Definition write_handles_snapshot (ok drained : bool) (files : gmap nat OpenFile) (l : LogState) :
    gmap nat OpenFile * LogState * result (option HandlesSnapshot) string :=
  if negb drained then (on_pump ChunkUpload.thaw <$> files, l, Ok None)
  else if w_failed (writer l) then (files, l, Err "handoff log unavailable"%string)
  else
    let l := flush ok l in
    let w := writer l in
    (on_pump freeze_freeing <$> files, l,
     Ok (Some {| sn_dev := w_dev w; sn_mount := w_mount w; sn_s := w_seq w;
                 sn_handles := (λ q, handle_state q.1 q.2) <$> map_to_list files |})).

(** ** A handle comes back *)

(* state_snapshot.rs:991-1001 WriteState *)
Record WriteState := {
  ws_dirty : bool; ws_total : Z; ws_eligible : bool; ws_chunk : option ChunkRec; ws_failed : bool; ws_unlinked : bool;
  ws_created : bool; ws_path : PathBuf; ws_etag : option Etag;
}.
Definition is_whole (c : option ChunkRec) : bool := match c with Some c => ck_whole c | None => false end.

(* state_snapshot.rs:1003-1050 write_state *)
Definition write_state (h : RestoredHandle) (staging_now : option StagingId) (stream : option string) : result WriteState string :=
  let r := rh_rec h in
  match staging_now with
  | None => Err "its staging file is gone"%string
  | Some now =>
      match rh_exact h with
      | Some x =>
          let early := is_whole (hs_chunk x) in
          Ok {| ws_dirty := hs_dirty x; ws_total := hs_total x; ws_eligible := hs_eligible x && negb early;
                ws_chunk := if early then None else hs_chunk x; ws_failed := hs_failed x; ws_unlinked := hs_unlinked x;
                ws_created := hs_created x; ws_path := hs_path x; ws_etag := hs_etag x |}
      | None =>
          let base d t c f := {| ws_dirty := d; ws_total := t; ws_eligible := false; ws_chunk := c; ws_failed := f;
            ws_unlinked := or_unlinked r; ws_created := or_created r; ws_path := or_path r; ws_etag := or_etag r |} in
          match stream with
          | Some b => Ok (base true 0%Z (Some {| ck_base := b; ck_next := 0; ck_confirmed := 0; ck_head := 0; ck_whole := false |}) true)
          | None => Ok (base (or_dirty r || bool_decide (or_staging r ≠ Some now)) (st_size now) None false)
          end
      end
  end.

Definition resumed_stream (c : ChunkRec) : Stream :=
  {| uploads_base := ck_base c; cs := ChunkUpload.resumed (ck_next c) (ck_confirmed c) (ck_head c) true |}.
Definition side_of (r : OpenRecord) : ReadSide :=
  Build_ReadSide None false (fst <$> or_mime r) (default 0%Z (snd <$> or_mime r)) 0
    (Build_Windows READ_AHEAD_INITIAL None None None 0 false) (or_staged_whole r).
(* state_snapshot.rs:1052-1107 rebuild *)
Definition rebuild (h : RestoredHandle) (stream : option string) (g : Z) (stat : PathBuf → option StagingId) :
    result (OpenFile * ReadSide) string :=
  let r := rh_rec h in
  let frozen := {| pin_etag := None; pin_frozen := or_unlinked r |} in
  match or_write_path r with
  | None =>
      Ok ({| remote_path := or_path r; write_path := None; Mount.dirty := or_dirty r; original_etag := or_etag r; Mount.total_written := 0;
             Mount.stream_eligible := false; Mount.chunk_upload := None; of_ino := or_ino r; io_kind := or_kind r;
             Mount.upload_failed := false; Mount.created := or_created r; unlinked := or_unlinked r; opened_gen := g; pin := frozen |},
          side_of r)
  | Some wp =>
      match write_state h (stat wp) stream with
      | Err e => Err e
      | Ok ws =>
          Ok ({| remote_path := ws_path ws; write_path := Some wp; Mount.dirty := ws_dirty ws; original_etag := ws_etag ws;
                 Mount.total_written := ws_total ws; Mount.stream_eligible := ws_eligible ws;
                 Mount.chunk_upload := resumed_stream <$> ws_chunk ws; of_ino := or_ino r; io_kind := or_kind r;
                 Mount.upload_failed := ws_failed ws; Mount.created := ws_created ws; unlinked := ws_unlinked ws; opened_gen := g;
                 pin := frozen |}, side_of r)
      end
  end.

(** ** Passthrough backings of the previous daemon *)

(* state_snapshot.rs:493-496 RestoredBacking *)
Record RestoredBacking := { by_fh : gmap nat Z; users : gmap Z nat }.
Definition no_backing : RestoredBacking := {| by_fh := ∅; users := ∅ |}.
(* state_snapshot.rs:1140-1143 apply *)
Definition add_backing (fh : nat) (id : Z) (b : RestoredBacking) : RestoredBacking :=
  {| by_fh := <[fh := id]> (by_fh b); users := <[id := S (default 0 (users b !! id))]> (users b) |}.
(** The id to close, when this handle was its last user. *)
(* state_snapshot.rs:506-521 release_restored_backing *)
Definition release_restored_backing (fh : nat) (b : RestoredBacking) : option Z * RestoredBacking :=
  match by_fh b !! fh with
  | None => (None, b)
  | Some id =>
      let n := default 1 (users b !! id) - 1 in
      if n =? 0 then (Some id, {| by_fh := delete fh (by_fh b); users := delete id (users b) |})
      else (None, {| by_fh := delete fh (by_fh b); users := <[id := n]> (users b) |})
  end.

(** ** Apply *)

(* state_snapshot.rs:469-473 LostHandle *)
Record LostHandle := { lh_ino : nat; lh_kind : IoKind; lh_uploading : option PathBuf }.

(** What [apply] fills: the handles, the I/O modes, the handles it could not rebuild, the
    backings, the names shielded from refreshes, the sessions to abort. *)
Record Restoring := {
  rg_files : gmap nat OpenFile; rg_sides : gmap nat ReadSide; rg_modes : gmap nat (IoMode.Mode (B := nat)); rg_lost : gmap nat LostHandle;
  rg_backing : RestoredBacking; rg_uploading : gset PathBuf;
}.

(* state_snapshot.rs:1133-1170 apply *)
Definition restore_handle (r : Restored) (g : Z) (stat : PathBuf → option StagingId) (s : Restoring) (q : nat * RestoredHandle) : Restoring :=
  let '(fh, h) := q in
  let rc := rh_rec h in
  let stream := or_write_path rc ≫= λ wp, snd <$> r_streams r !! wp in
  let modes := IoMode.adopt (rg_modes s) (or_ino rc) (or_kind rc) in
  let backing := match or_kind rc, or_backing rc with
                 | KPassthrough, Some id => add_backing fh id (rg_backing s)
                 | _, _ => rg_backing s
                 end in
  let guard := if or_created rc && negb (or_unlinked rc) && bool_decide (is_Some (or_write_path rc)) then Some (or_path rc) else None in
  let uploading := match guard with Some p => {[p]} ∪ rg_uploading s | None => rg_uploading s end in
  match rebuild h stream g stat with
  | Ok (o, side) =>
      {| rg_files := <[fh := o]> (rg_files s); rg_sides := <[fh := side]> (rg_sides s); rg_modes := modes; rg_lost := rg_lost s;
         rg_backing := backing; rg_uploading := uploading |}
  | Err _ =>
      {| rg_files := rg_files s; rg_sides := rg_sides s; rg_modes := modes;
         rg_lost := <[fh := {| lh_ino := or_ino rc; lh_kind := or_kind rc; lh_uploading := guard |}]> (rg_lost s);
         rg_backing := backing; rg_uploading := uploading |}
  end.

(** Early uploads are dropped; their sessions go. *)
(* state_snapshot.rs:1119-1128 apply *)
Definition early_sessions (r : Restored) : list string :=
  omap (λ q, c ← (x ← rh_exact q.2; hs_chunk x); if ck_whole c then Some (ck_base c) else None) (map_to_list (r_handles r)).

(** The log goes on where the previous daemon left it; [bytes] is its size, [None] when it
    cannot be opened. *)
(* state_snapshot.rs:577-605 start_resumed *)
Definition start_resumed (dev : ConnDev) (mount_point : PathBuf) (r : Restored) (next_inode : nat) (bytes : option Z) : option Writer :=
  (λ n, {| w_buf := []; w_buf_len := 0; w_seq := r_max_seq r; w_bytes := n; w_compacted := 0; w_dev := dev; w_mount := mount_point;
           w_reserved := next_inode; w_opens := (λ h, (rh_seq h, rh_rec h)) <$> r_handles r; w_streams := r_streams r;
           w_fh_mark := r_fh_mark r; w_tail := None; w_failed := false |}) <$> bytes.

(** The successor: what [apply] changes of it. *)
Record Successor := {
  su_cache : FsCache; su_files : gmap nat OpenFile; su_sides : gmap nat ReadSide; su_modes : gmap nat (IoMode.Mode (B := nat));
  su_next_fh : nat; su_lost : gmap nat LostHandle; su_backing : RestoredBacking; su_log : option Writer; su_aborts : list string;
}.
(* state_snapshot.rs:1176-1179 apply *)
Definition restored_next_fh (r : Restored) (n : nat) : nat := Nat.max (Nat.max n (S (r_max_fh r))) (r_fh_mark r + FH_GAP).
(* state_snapshot.rs:1113-1197 apply *)
Definition apply (dev : ConnDev) (mount_point : PathBuf) (r : Restored) (g : Z) (stat : PathBuf → option StagingId) (bytes : option Z)
    (s : Successor) : Successor :=
  let rg := foldl (restore_handle r g stat)
    {| rg_files := su_files s; rg_sides := su_sides s; rg_modes := su_modes s; rg_lost := ∅; rg_backing := no_backing; rg_uploading := ∅ |}
    (map_to_list (r_handles r)) in
  let c := install_names r (su_cache s) in
  let c := with_guards c (uploading c ∪ rg_uploading rg) (deleting c) in
  {| su_cache := c; su_files := rg_files rg; su_sides := rg_sides rg; su_modes := rg_modes rg; su_next_fh := restored_next_fh r (su_next_fh s);
     su_lost := rg_lost rg; su_backing := rg_backing rg; su_log := start_resumed dev mount_point r (next_inode c) bytes;
     su_aborts := su_aborts s ++ early_sessions r |}.
(** A successor before [apply]: no handle of its own yet. *)
Definition new_daemon (c : FsCache) : Successor :=
  {| su_cache := c; su_files := ∅; su_sides := ∅; su_modes := ∅; su_next_fh := 1; su_lost := ∅; su_backing := no_backing; su_log := None;
     su_aborts := [] |}.

(** ** Theorems *)

(** Each handle comes back from its own record. *)
Definition comes_back (r : Restored) (g : Z) (stat : PathBuf → option StagingId) (h : RestoredHandle) : result (OpenFile * ReadSide) string :=
  rebuild h (or_write_path (rh_rec h) ≫= λ wp, snd <$> r_streams r !! wp) g stat.

Lemma restore_one r g stat s fh h : let s' := restore_handle r g stat s (fh, h) in
  (∀ k, k ≠ fh → rg_files s' !! k = rg_files s !! k ∧ rg_sides s' !! k = rg_sides s !! k ∧ rg_lost s' !! k = rg_lost s !! k) ∧
  match comes_back r g stat h with
  | Ok (o, side) => rg_files s' !! fh = Some o ∧ rg_sides s' !! fh = Some side
  | Err _ => is_Some (rg_lost s' !! fh) ∧ rg_files s' !! fh = rg_files s !! fh
  end.
Proof.
  unfold restore_handle, comes_back. destruct (rebuild _ _ _ _) as [[o side]|e]; cbn; (split; [intros k Hne; by rewrite !lookup_insert_ne|]);
    rewrite !lookup_insert_eq; [done|]. split; [by eexists|done].
Qed.

Lemma restore_all r g stat l s : NoDup l.*1 → let s' := foldl (restore_handle r g stat) s l in
  (∀ k, k ∉ l.*1 → rg_files s' !! k = rg_files s !! k ∧ rg_sides s' !! k = rg_sides s !! k ∧ rg_lost s' !! k = rg_lost s !! k) ∧
  ∀ fh h, (fh, h) ∈ l → rg_files s !! fh = None →
    match comes_back r g stat h with
    | Ok (o, side) => rg_files s' !! fh = Some o ∧ rg_sides s' !! fh = Some side
    | Err _ => is_Some (rg_lost s' !! fh) ∧ rg_files s' !! fh = None
    end.
Proof.
  revert s. induction l as [|[fh h] l IH]; intros s Hn; cbn [foldl]; [split; [done|by intros fh h ?%elem_of_nil]|].
  apply NoDup_cons in Hn as [Hni Hn]. destruct (restore_one r g stat s fh h) as [Hk Hc]. cbv zeta in Hk, Hc.
  set (s1 := restore_handle r g stat s (fh, h)) in *. destruct (IH s1 Hn) as [I1 I2]. split.
  - intros k Hk'. cbn in Hk'. apply not_elem_of_cons in Hk' as [Hne Hk']. destruct (I1 k Hk') as (-> & -> & ->). by apply Hk.
  - intros k h' [[= -> ->]|Hin]%elem_of_cons Hnone.
    + destruct (I1 fh Hni) as (E1 & E2 & E3). destruct (comes_back r g stat h) as [[o side]|e]; rewrite E1, ?E2, ?E3; [done|].
      destruct Hc as [? ->]. done.
    + apply I2; [done|]. destruct (decide (k = fh)) as [->|Hne].
      * exfalso. apply Hni. apply list_elem_of_fmap. by exists (fh, h').
      * by rewrite (proj1 (Hk k Hne)).
Qed.

Lemma apply_handles dev mp r g stat bytes c : let s := apply dev mp r g stat bytes (new_daemon c) in
  (∀ fh h, r_handles r !! fh = Some h →
     match comes_back r g stat h with
     | Ok (o, side) => su_files s !! fh = Some o ∧ su_sides s !! fh = Some side
     | Err _ => is_Some (su_lost s !! fh) ∧ su_files s !! fh = None
     end) ∧
  (∀ fh, r_handles r !! fh = None → su_files s !! fh = None ∧ su_lost s !! fh = None).
Proof.
  intros s. set (s0 := {| rg_files := ∅; rg_sides := ∅; rg_modes := ∅; rg_lost := ∅; rg_backing := no_backing; rg_uploading := ∅ |}).
  destruct (restore_all r g stat (map_to_list (r_handles r)) s0 (NoDup_fst_map_to_list _)) as [H1 H2]. split.
  - intros fh h Hh. by apply H2; [apply elem_of_map_to_list|].
  - intros fh Hh. destruct (H1 fh) as (E1 & _ & E3); [|split; [exact E1|exact E3]].
    intros ([k h] & -> & Hin%elem_of_map_to_list)%list_elem_of_fmap. cbn in Hh. congruence.
Qed.

Section crash.
Context (size : Rec → Z) (dir : PathBuf).
Implicit Types (v : Live).

(** A handle that comes back after a crash. *)
Definition survives (stat : PathBuf → option StagingId) (o o' : OpenFile) : Prop :=
  same_handle o o' ∧
  ∀ wp, write_path o = Some wp →
    (frees_sent o = true → Mount.upload_failed o' = true) ∧ (Mount.dirty o = true → Mount.dirty o' = true) ∧
    (Mount.upload_failed o' = false →
       Mount.chunk_upload o' = None ∧ Mount.stream_eligible o' = false ∧ ∃ now, stat wp = Some now ∧ Mount.total_written o' = st_size now).

Lemma rebuilt_survives stat side r o h stream g o' side' : recorded stat side r o → h = {| rh_seq := rh_seq h; rh_rec := r; rh_exact := None |} →
  (∀ wp, write_path o = Some wp → frees_sent o = true → is_Some stream) →
  rebuild h stream g stat = Ok (o', side') → survives stat o o'.
Proof.
  intros (R1 & R2 & R3 & R4 & R5 & R6 & R7 & R8) -> Hst Hr. unfold rebuild in Hr. cbn [rh_rec] in Hr. rewrite R5 in Hr.
  destruct (write_path o) as [wp|] eqn:Hw.
  - unfold write_state in Hr. cbn [rh_rec rh_exact] in Hr. destruct (stat wp) as [now|] eqn:Hn; [|done].
    assert (Hdirty : Mount.dirty o = true → or_dirty r || bool_decide (or_staging r ≠ Some now) = true).
    { intros Hd. destruct (R8 Hd) as [->|(wp' & Hw' & Hne)]; [done|]. assert (wp' = wp) as -> by congruence.
      rewrite bool_decide_true; [apply orb_true_r|]. congruence. }
    destruct stream as [b|]; injection Hr as <- _; (split; [by split_and!|]); intros wp' Hw'; assert (wp' = wp) as -> by congruence; cbn.
    + done.
    + split_and!; [|done|].
      * intros Hf. apply (Hst wp) in Hf as [? ?]; done.
      * intros _. split_and!; try done. by exists now.
  - injection Hr as <- _. split; [split_and!; cbn; congruence|]. intros wp Hw'. congruence.
Qed.

Lemma rebuilt_lost stat side r o h stream g e : recorded stat side r o → h = {| rh_seq := rh_seq h; rh_rec := r; rh_exact := None |} →
  rebuild h stream g stat = Err e → ∃ wp, write_path o = Some wp ∧ stat wp = None.
Proof.
  intros (R1 & R2 & R3 & R4 & R5 & R6 & R7 & R8) -> Hr. unfold rebuild in Hr. cbn [rh_rec] in Hr. rewrite R5 in Hr.
  destruct (write_path o) as [wp|]; [|done]. unfold write_state in Hr. cbn [rh_rec rh_exact] in Hr. exists wp.
  by destruct (stat wp), stream.
Qed.

Lemma kept_stream p fh h wp x : p_handles p !! fh = Some h → or_write_path (rh_rec h) = Some wp → p_streams p !! wp = Some x →
  r_streams (finish p) !! wp = Some x.
Proof.
  intros Hh Hw Hs. cbn. apply map_lookup_filter_Some. split; [done|]. unfold open_staging. apply list_elem_of_omap.
  exists (fh, h). split; [by apply elem_of_map_to_list|done].
Qed.

End crash.

(** ** A planned hand-over is exact *)

Definition same_session (st st' : Stream) : Prop :=
  uploads_base st' = uploads_base st ∧ head (cs st') = head (cs st) ∧ next_index (pump (cs st')) = next_index (pump (cs st)) ∧
  bytes_confirmed (pump (cs st')) = bytes_confirmed (pump (cs st)) ∧ punching (pump (cs st')) = true ∧
  claimed (pump (cs st')) = bytes_confirmed (pump (cs st)) ∧ closed (pump (cs st')) = false ∧ failed (pump (cs st')) = false.
(** The handle as it was: an upload that freed what it sent is resumed from its progress, one
    whose staging file is whole becomes a plain staged write. *)
Definition resumes (o o' : OpenFile) : Prop :=
  same_handle o o' ∧ Mount.dirty o' = Mount.dirty o ∧ Mount.total_written o' = Mount.total_written o ∧
  Mount.upload_failed o' = Mount.upload_failed o ∧ Mount.created o' = Mount.created o ∧ original_etag o' = original_etag o ∧
  match Mount.chunk_upload o with
  | Some st => if punching (pump (cs st))
               then (∃ st', Mount.chunk_upload o' = Some st' ∧ same_session st st') ∧ Mount.stream_eligible o' = Mount.stream_eligible o
               else Mount.chunk_upload o' = None ∧ Mount.stream_eligible o' = false
  | None => Mount.chunk_upload o' = None ∧ Mount.stream_eligible o' = Mount.stream_eligible o
  end.

Lemma overlaid (hs : gmap nat RestoredHandle) n l : NoDup (hs_fh <$> l) → let f := λ (hs : gmap nat RestoredHandle) x,
    alter (λ h, if rh_seq h <=? n then {| rh_seq := rh_seq h; rh_rec := rh_rec h; rh_exact := Some x |} else h) (hs_fh x) hs in
  (∀ k, k ∉ hs_fh <$> l → foldl f hs l !! k = hs !! k) ∧
  ∀ x, x ∈ l → foldl f hs l !! hs_fh x =
    (λ h, if rh_seq h <=? n then {| rh_seq := rh_seq h; rh_rec := rh_rec h; rh_exact := Some x |} else h) <$> hs !! hs_fh x.
Proof.
  intros Hn f. revert hs Hn. induction l as [|x l IH]; intros hs Hn; cbn [foldl]; [split; [done|by intros x ?%elem_of_nil]|].
  apply NoDup_cons in Hn as [Hx Hn]. destruct (IH (f hs x) Hn) as [I1 I2]. split.
  - intros k Hk. apply not_elem_of_cons in Hk as [Hne Hk]. rewrite I1 by done. unfold f. by rewrite lookup_alter_ne.
  - intros y [->|Hy]%elem_of_cons.
    + rewrite I1 by done. unfold f. by rewrite lookup_alter_eq.
    + rewrite I2 by done. unfold f at 1. rewrite lookup_alter_ne; [done|]. intros E. apply Hx. rewrite E. by apply list_elem_of_fmap_2.
Qed.

Lemma rebuilt_resumes stat side r o q fh stream g wp now : recorded stat side r o → write_path o = Some wp → stat wp = Some now →
  ∃ o', rebuild {| rh_seq := q; rh_rec := r; rh_exact := Some (handle_state fh o) |} stream g stat = Ok (o', side_of r) ∧ resumes o o'.
Proof.
  intros (R1 & R2 & R3 & R4 & R5 & R6 & R7 & R8) Hw Hn. unfold rebuild. cbn [rh_rec]. rewrite R5, Hw. unfold write_state.
  cbn [rh_rec rh_exact]. rewrite Hn. eexists. split; [reflexivity|]. split; [by split_and!|]. split_and!; try done.
  cbn. destruct (Mount.chunk_upload o) as [[b [hd p]]|]; cbn; [|by rewrite andb_true_r].
  unfold freeze_freeing. destruct (punching p) eqn:Hp; cbn; rewrite ?Hp; cbn; rewrite ?andb_true_r, ?andb_false_r; [|done].
  split; [|done]. eexists. split; [done|]. unfold resumed_stream, chunk_record, freeze_freeing. cbn. rewrite Hp. by split_and!.
Qed.

Lemma overlay_exact dev mp p n files fh o q r : p_handles p !! fh = Some (opened (q, r)) → q ≤ n → files !! fh = Some o →
  p_handles (overlay dev mp {| sn_dev := dev; sn_mount := mp; sn_s := n;
    sn_handles := (λ q, handle_state q.1 q.2) <$> map_to_list files |} p) !! fh =
  Some {| rh_seq := q; rh_rec := r; rh_exact := Some (handle_state fh o) |}.
Proof.
  intros Hp Hle Ho. unfold overlay. cbn [sn_dev sn_mount sn_s sn_handles]. rewrite !bool_decide_true by done. cbn [andb with_handles p_handles].
  set (l := (λ q, handle_state q.1 q.2) <$> map_to_list files).
  destruct (overlaid (p_handles p) n l) as [_ H].
  { unfold l. rewrite <- list_fmap_compose. apply NoDup_fst_map_to_list. }
  assert (Hin : handle_state fh o ∈ l) by (apply list_elem_of_fmap; exists (fh, o); split; [done|by apply elem_of_map_to_list]).
  specialize (H _ Hin). cbn [hs_fh handle_state] in H. rewrite H, Hp. cbn. apply Nat.leb_le in Hle. by rewrite Hle.
Qed.

(** C13: A planned hand-over is exact.  However the daemon ran, when it hands over with its
    requests drained, the successor resolves every node id as before, and every handle open
    for writing comes back as it was: path, staging file, dirty flag, bytes written, version,
    and an upload that had freed its sent bytes goes on from the progress it was frozen at,
    while one that had freed nothing is dropped for a plain staged write. *)
Theorem handover_exact size dir dev mount_point c0 n stat0 v ok files' l' sn g bytes cn :
  cache_ok c0 → rtc (lstep size dir) (mounted size dev mount_point c0 n stat0) v →
  write_handles_snapshot ok true (lv_files v) (lv_log v) = (files', l', Ok (Some sn)) →
  let w := writer l' in
  match load (w_dev w) (w_mount w) (left_behind 0 false l') (Some sn) with
  | Err _ => w_failed w = true
  | Ok r =>
      let s := apply (w_dev w) (w_mount w) r g (lv_stat v) bytes (new_daemon cn) in
      (∀ ino, get_path (su_cache s) ino = get_path (lv_cache v) ino) ∧
      ∀ fh o wp, lv_files v !! fh = Some o → write_path o = Some wp → is_Some (lv_stat v wp) →
        ∃ o', su_files s !! fh = Some o' ∧ resumes o o'
  end.
Proof.
  intros Hc Hrun Hsn w. pose proof (live_run size dir _ _ Hrun (live_mounted size dir dev mount_point c0 n stat0 Hc)) as [L1 L2 L3 L4 L5 L6].
  unfold write_handles_snapshot in Hsn. cbn [negb] in Hsn. destruct (w_failed (writer (lv_log v))) eqn:Hnf; [done|].
  injection Hsn as _ <- <-. destruct (flush_spec ok (lv_log v) Hnf) as ((_ & _ & _ & V4 & _) & Vq & Hcase).
  apply (followed_flush _ ok) in L2. set (l' := flush ok (lv_log v)) in *. set (sn := {| sn_dev := _ |}).
  pose proof (left_tells _ (live_with (lv_cache v) (lv_files v) l' v) 0 false (Some sn) L2) as Hl. cbn [lv_log live_with] in Hl. fold w in Hl.
  destruct Hl as [[Hf ->]|(Hf & rs & Ht & ->)]; [done|]. cbn [lv_cache] in Ht.
  fold w in Hcase, V4, Vq. assert (Hbuf : w_buf w = []) by (destruct Hcase as [[? _]|(_ & ? & _)]; [congruence|done]).
  pose proof (k_tells _ _ _ _ Ht) as [_ _ _ _ _ Hseq Hfh]. rewrite Hbuf, firstn_nil, app_nil_r in *.
  set (p := replayed rs) in *. cbv zeta.
  assert (Hov : overlay (w_dev w) (w_mount w) sn p = with_handles (p_handles (overlay (w_dev w) (w_mount w) sn p)) p).
  { unfold overlay. by rewrite !bool_decide_true. }
  destruct (tracks_left _ _ _ _ 0 Ht) as (_ & T2 & T3 & _ & T5 & _ & T7). rewrite firstn_O, app_nil_r in T2, T3, T5, T7. fold p in T2, T3, T5, T7.
  split.
  - intros ino. unfold get_path. cbn. rewrite Hov. cbn. rewrite (T5 Hbuf). destruct (decide (ino = 1)) as [->|Hne].
    + rewrite lookup_insert_eq. by destruct L1 as [_ ->].
    + by rewrite lookup_insert_ne, lookup_delete_ne.
  - intros fh o wp Ho Hw [now Hnow]. destruct (L4 fh o Ho) as (_ & _ & q & r & side & Hq & _ & Hrec).
    pose proof Hq as Hq'. rewrite <- V4 in Hq'. destruct (Hfh fh q r Hq') as (_ & _ & Hle).
    assert (Hx : r_handles (finish (overlay (w_dev w) (w_mount w) sn p)) !! fh =
      Some {| rh_seq := q; rh_rec := r; rh_exact := Some (handle_state fh o) |}).
    { cbn [r_handles finish]. apply overlay_exact; [by rewrite T2, lookup_fmap, Hq'|fold w; lia|done]. }
    destruct (apply_handles (w_dev w) (w_mount w) (finish (overlay (w_dev w) (w_mount w) sn p)) g (lv_stat v) bytes cn) as [A1 _].
    specialize (A1 fh _ Hx). unfold comes_back in A1. cbn [rh_rec] in A1.
    destruct (rebuilt_resumes _ side r o q fh (or_write_path r ≫= λ wp, snd <$> r_streams (finish (overlay (w_dev w) (w_mount w) sn p)) !! wp)
      g wp now Hrec Hw Hnow) as (o' & E & Hres). rewrite E in A1. exists o'. by destruct A1.
Qed.

(** ** Backings are closed with their last handle *)

Definition users_of (id : Z) (b : RestoredBacking) : nat := size (filter (λ q, q.2 = id) (by_fh b)).
Definition backing_ok (b : RestoredBacking) : Prop :=
  ∀ id, users b !! id = if users_of id b =? 0 then None else Some (users_of id b).

Lemma users_insert fh id id' b : by_fh b !! fh = None →
  users_of id' (add_backing fh id b) = (if decide (id = id') then 1 else 0) + users_of id' b.
Proof.
  intros Hn. unfold users_of. cbn [by_fh add_backing]. destruct (decide (id = id')) as [->|Hne].
  - rewrite map_filter_insert_True by done. rewrite map_size_insert_None; [done|]. apply map_lookup_filter_None. by left.
  - rewrite map_filter_insert_False by done. by rewrite delete_id.
Qed.
Lemma users_delete fh id id' (m : gmap nat Z) : m !! fh = Some id →
  size (filter (λ q, q.2 = id') m) = (if decide (id = id') then 1 else 0) + size (filter (λ q, q.2 = id') (delete fh m)).
Proof.
  intros Hm. rewrite map_filter_delete. destruct (decide (id = id')) as [->|Hne].
  - rewrite map_size_delete_Some.
    + assert (size (filter (λ q, q.2 = id') m) ≠ 0); [|lia]. rewrite map_size_ne_0_lookup. exists fh, id'. by apply map_lookup_filter_Some.
    + exists id'. by apply map_lookup_filter_Some.
  - rewrite map_size_delete_None; [done|]. apply map_lookup_filter_None. right. intros x Hx. rewrite Hm in Hx. by injection Hx as <-.
Qed.

Lemma add_backing_ok fh id b : backing_ok b → by_fh b !! fh = None → backing_ok (add_backing fh id b).
Proof.
  intros Hb Hn id'. rewrite users_insert by done. cbn [users add_backing]. destruct (decide (id = id')) as [->|Hne].
  - rewrite lookup_insert_eq, Hb. destruct (Nat.eqb_spec (users_of id' b) 0) as [->|]; done.
  - rewrite lookup_insert_ne by done. apply Hb.
Qed.

(** A restored backing is closed exactly when the last handle that uses it is released. *)
Theorem backing_closed_last fh b : backing_ok b → let '(closed, b') := release_restored_backing fh b in
  backing_ok b' ∧
  ∀ id, closed = Some id ↔ by_fh b !! fh = Some id ∧ ∀ k, k ≠ fh → by_fh b !! k ≠ Some id.
Proof.
  intros Hb. unfold release_restored_backing. destruct (by_fh b !! fh) as [id|] eqn:Hf; [|split; [done|naive_solver]].
  assert (Hu : ∀ id', users_of id' b = (if decide (id = id') then 1 else 0) + size (filter (λ q, q.2 = id') (delete fh (by_fh b))))
    by (intros id'; by apply users_delete).
  pose proof (Hu id) as Hid. rewrite decide_True in Hid by done. rewrite (Hb id), Hid.
  set (n := size (filter (λ q, q.2 = id) (delete fh (by_fh b)))) in *.
  replace (default 1 (if 1 + n =? 0 then None else Some (1 + n)) - 1) with n by (unfold default, Datatypes.id; cbn; lia).
  assert (Hlast : n = 0 ↔ ∀ k, k ≠ fh → by_fh b !! k ≠ Some id).
  { unfold n. rewrite map_size_empty_iff, map_empty. setoid_rewrite map_lookup_filter_None. split.
    - intros H k Hne Hk. destruct (H k) as [Hx|Hx]; [|by apply (Hx id); [rewrite lookup_delete_ne|]].
      rewrite lookup_delete_ne in Hx by done. congruence.
    - intros H k. right. intros x Hx Hq. cbn in Hq. subst x. apply lookup_delete_Some in Hx as [Hne Hx]. by apply (H k). }
  destruct (Nat.eqb_spec n 0) as [H0|H0]; cbn.
  - split.
    + intros id'. unfold users_of. cbn [users by_fh]. destruct (decide (id' = id)) as [->|Hne].
      * rewrite lookup_delete_eq. fold n. by rewrite H0.
      * rewrite lookup_delete_ne, Hb, Hu, decide_False by done. done.
    + intros id'. split; [intros [= <-]; split; [done|by apply Hlast]|]. by intros [[= <-] _].
  - split.
    + intros id'. unfold users_of. cbn [users by_fh]. destruct (decide (id' = id)) as [->|Hne].
      * rewrite lookup_insert_eq. fold n. by destruct n.
      * rewrite lookup_insert_ne, Hb, Hu, decide_False by done. done.
    + intros id'. split; [done|]. intros [[= <-] Hx]. apply Hlast in Hx. done.
Qed.

(** ** Concrete runs, and what a restart misses *)

Definition rs_dev : ConnDev := {| major := 0; minor := 42 |}.
Definition rs_size (_ : Rec) : Z := 64.
Definition rs_dir : PathBuf := ["cache"%string].
Definition rs_id (n : Z) : StagingId := {| st_ino := 7; st_size := n; st_ctime := n; st_ctime_nsec := 0 |}.
(** The staging file of handle 1 has the identity [rs_id n]. *)
Definition rs_stat (n : Z) (p : PathBuf) : option StagingId := if bool_decide (p = staging_name rs_dir 1) then Some (rs_id n) else None.
Definition rs_start : Live := mounted rs_size rs_dev ["mnt"%string] demo_cache 1 (rs_stat 1).
Definition rs_found : nat * (FsCache * LogState) := allocate_logged rs_size (true, true) ["d"%string] (lv_cache rs_start, lv_log rs_start).
Definition rs_named : Live := live_with rs_found.2.1 (lv_files rs_start) rs_found.2.2 rs_start.
Definition rs_side : ReadSide := Build_ReadSide None false None 0 0 (Build_Windows READ_AHEAD_INITIAL None None None 0 false) false.
Definition rs_handle (dirty : bool) : OpenFile :=
  {| remote_path := ["d"; "f"]%string; write_path := Some (staging_name rs_dir 1); Mount.dirty := dirty; original_etag := Some "0"%string;
     Mount.total_written := 3; Mount.stream_eligible := false; Mount.chunk_upload := None; of_ino := 2; io_kind := KCached;
     Mount.upload_failed := false; Mount.created := false; unlinked := false; opened_gen := 0;
     pin := {| pin_etag := None; pin_frozen := false |} |}.
Definition rs_opened : Live :=
  {| lv_cache := lv_cache rs_named; lv_files := <[1 := rs_handle false]> (lv_files rs_named); lv_sides := <[1 := rs_side]> (lv_sides rs_named);
     lv_next_fh := 2; lv_stat := rs_stat 1; lv_image := None;
     lv_log := handle_opened rs_size true 1 (record_of 1 (rs_handle false) None false (rs_stat 1) None) (lv_log rs_named) |}.
Definition rs_written : Live :=
  {| lv_cache := lv_cache rs_opened; lv_files := <[1 := rs_handle true]> (lv_files rs_opened); lv_sides := lv_sides rs_opened;
     lv_next_fh := 2; lv_stat := rs_stat 2; lv_image := None; lv_log := lv_log rs_opened |}.

Lemma demo_cache_ok : cache_ok demo_cache.
Proof. split; [apply demo_cache_wf|]. by vm_compute. Qed.
Lemma rs_run_named : rtc (lstep rs_size rs_dir) rs_start rs_named.
Proof.
  eapply rtc_l; [|apply rtc_refl]. eapply (l_allocate _ _ _ (true, true) ["d"%string] rs_found.1 rs_found.2.1 rs_found.2.2); [done|].
  change (rs_found = (rs_found.1, (rs_found.2.1, rs_found.2.2))). by destruct rs_found as [? [? ?]].
Qed.
Lemma rs_run_written : rtc (lstep rs_size rs_dir) rs_start rs_written.
Proof.
  etrans; [apply rs_run_named|]. eapply (rtc_l _ _ rs_opened).
  - apply (l_open rs_size rs_dir rs_named true (rs_handle false) rs_side None (rs_stat 1) 1); try done. by right.
  - eapply rtc_l; [|apply rtc_refl]. apply (l_work rs_size rs_dir rs_opened 1 (rs_handle false) (rs_handle true) (rs_stat 2)).
    + cbn. apply lookup_insert_eq.
    + done.
    + intros wp Hwp. cbn. unfold rs_stat. by rewrite !bool_decide_false by (intros ->; done).
    + intros wp [= <-]. right. intros s r Hr. vm_compute in Hr. injection Hr as _ <-. unfold rs_stat. by rewrite bool_decide_true.
    + intros _. right. exists (staging_name rs_dir 1). split; [done|]. cbn. unfold rs_stat. by rewrite !bool_decide_true.
    + done.
Qed.

(** The name looked up just before the crash is only queued: it is unknown afterwards. *)
Lemma restart_names_witness :
  ∃ r, load rs_dev ["mnt"%string] (left_behind 0 true (lv_log rs_named)) None = Ok r ∧
    get_path (install_names r demo_cache) 2 = None ∧ next_inode (lv_cache rs_named) ≤ next_inode (install_names r demo_cache).
Proof.
  pose proof (restart_names rs_size rs_dir rs_dev ["mnt"%string] demo_cache 1 (rs_stat 1) rs_named 0 true demo_cache demo_cache_ok rs_run_named) as H.
  cbv zeta in H. change (w_dev (writer (lv_log rs_named))) with rs_dev in H. change (w_mount (writer (lv_log rs_named))) with ["mnt"%string] in H.
  destruct (load _ _ _ _) as [r|e] eqn:E; [|by vm_compute in E]. exists r. destruct H as (_ & _ & H & _). split_and!; [done| |done].
  vm_compute in E. injection E as <-. by vm_compute.
Defined.


Definition rs_snapshot : gmap nat OpenFile * LogState * result (option HandlesSnapshot) string :=
  write_handles_snapshot true true (lv_files rs_written) (lv_log rs_written).
Lemma handover_exact_witness :
  ∃ sn r o', rs_snapshot.2 = Ok (Some sn) ∧ load rs_dev ["mnt"%string] (left_behind 0 false rs_snapshot.1.2) (Some sn) = Ok r ∧
    su_files (apply rs_dev ["mnt"%string] r 0 (rs_stat 2) None (new_daemon demo_cache)) !! 1 = Some o' ∧ resumes (rs_handle true) o'.
Proof.
  assert (Hd : w_dev (writer rs_snapshot.1.2) = rs_dev ∧ w_mount (writer rs_snapshot.1.2) = ["mnt"%string] ∧
    w_failed (writer rs_snapshot.1.2) = false) by (by vm_compute).
  destruct rs_snapshot as [[f l] rs] eqn:E. cbn [fst snd] in *. destruct rs as [[sn|]|e]; [|by vm_compute in E|by vm_compute in E].
  pose proof (handover_exact rs_size rs_dir rs_dev ["mnt"%string] demo_cache 1 (rs_stat 1) rs_written true f l sn 0 None demo_cache
    demo_cache_ok rs_run_written E) as H.
  cbv zeta in H. destruct Hd as (H1 & H2 & H3). rewrite H1, H2, H3 in H. destruct (load _ _ _ _) as [r|e] eqn:El; [|done]. destruct H as [_ H].
  destruct (H 1 (rs_handle true) (staging_name rs_dir 1)) as (o' & Ho & Hr); [apply lookup_insert_eq|done|by eexists|].
  exists sn, r, o'. split; [done|]. split; [done|]. by split.
Defined.

(** A second crash before the ticker's first turn: the log still has the watermark the first
    restart started from, so the third daemon's numbering starts where the second's did, and a
    directory handle of the second may be given out again. *)
Lemma second_restart_reuses dev mp r g stat bytes c :
  let s := apply dev mp r g stat bytes (new_daemon c) in
  ∀ w, su_log s = Some w → w_fh_mark w = r_fh_mark r ∧ w_buf w = [] ∧ restored_next_fh r 1 = su_next_fh s.
Proof. intros s w Hw. cbn in Hw. destruct bytes; [|done]. by injection Hw as <-. Qed.

(** A handle made by create() whose file a rename replaced is no longer [created], so that its
    release leaves the new file's guard alone; only its deletion is logged, and after a crash
    it is again. *)
Lemma displaced_created_again :
  let o := {| remote_path := ["x"%string]; write_path := Some (staging_name rs_dir 1); Mount.dirty := false; original_etag := None;
              Mount.total_written := 0; Mount.stream_eligible := true; Mount.chunk_upload := None; of_ino := 2; io_kind := KCached;
              Mount.upload_failed := false; Mount.created := true; unlinked := false; opened_gen := 0;
              pin := {| pin_etag := None; pin_frozen := false |} |} in
  let r := rec_unlinked (record_of 1 o None false (rs_stat 1) None) in
  Mount.created (displace o) = false ∧
  match rebuild {| rh_seq := 1; rh_rec := r; rh_exact := None |} None 0 (rs_stat 1) with
  | Ok (o', _) => Mount.created o' = true ∧ unlinked o' = true
  | Err _ => False
  end.
Proof. by vm_compute. Qed.
