(* ===== verification/Leftovers.v ===== *)
(** [lib.rs], files found in the mount point at a start: a program that had a file open while
    the daemon was down may have saved it straight into the directory the mount covers.

    [prepare_mount_point] looks the directory through, moves every file of it into the cache
    directory and clears what is left; once the journal is loaded [adopt_orphaned_files]
    queues each for upload.  The directory is a [Tree] while it is read and a map of relative
    paths while it is cleared; which system calls fail is a parameter.  Log lines are left
    out, error texts are their fixed part. *)
From Stdlib Require Import Ascii String.
From S2P Require Import Prelude Paths Naming Backend Server Errors FsCache Journal Replay Listing.
Local Open Scope nat_scope.

(** ** The directory *)

(** What reading a folder gives, entry by entry; [TBroken]: reading it fails here. *)
Inductive Tree :=
| TNil
| TFile (name : string) (f : LocalFile) (rest : Tree)
| TDir (name : string) (sub rest : Tree)
| TOther (name : string) (rest : Tree)
| TBroken.

Inductive Ent := EFile (f : LocalFile) | EDir | EOther.

(** The same as a map from relative paths. *)
Fixpoint flat (rel : PathBuf) (t : Tree) : list (PathBuf * Ent) :=
  match t with
  | TNil | TBroken => []
  | TFile n f rest => (rel ++ [n], EFile f) :: flat rel rest
  | TDir n sub rest => (rel ++ [n], EDir) :: flat (rel ++ [n]) sub ++ flat rel rest
  | TOther n rest => (rel ++ [n], EOther) :: flat rel rest
  end.

(* lib.rs:11688-11690 is_lock_junk *)
Definition is_lock_junk (name : string) : bool :=
  (String.prefix ".~lock." name && bool_decide (String.get (String.length name - 1) name = Some "#"%char)) ||
  String.prefix ".goutputstream-" name.

(* lib.rs:11602-11602 ADOPT_MAX_FILES *)
Definition ADOPT_MAX_FILES : nat := 200.
(* lib.rs:11603-11603 ADOPT_MAX_BYTES *)
Definition ADOPT_MAX_BYTES : Z := (500 * 1024 * 1024)%Z.

(* lib.rs:11698-11702 LeftoverEntry *)
Inductive LeftoverEntry := LDir (rel : PathBuf) | LFile (rel : PathBuf) | LJunk (rel : PathBuf).
(* lib.rs:11693-11696 AdoptedFile *)
Record AdoptedFile := { a_remote : PathBuf; a_staging : PathBuf }.

(** ** Looking it through *)

Abbreviation Found := (list LeftoverEntry * Z)%type.
Definition too_much (acc : Found) : bool := (ADOPT_MAX_FILES <? length acc.1) || (ADOPT_MAX_BYTES <? acc.2)%Z.

(* lib.rs:11715-11756 scan_leftovers_rec *)
Fixpoint scan_leftovers_rec (rel : PathBuf) (t : Tree) (acc : Found) : result Found string :=
  let found r rest (k : Found → result Found string) :=
    match r with
    | Ok acc => if too_much acc then Err "too much leftover content"%string else k acc
    | Err e => Err e
    end in
  let push x n := (acc.1 ++ [x], (acc.2 + n)%Z) in
  match t with
  | TNil => Ok acc
  | TBroken => Err "cannot read"%string
  | TFile n f rest =>
      found (Ok (if is_lock_junk n then push (LJunk (rel ++ [n])) 0%Z else push (LFile (rel ++ [n])) (blen (lf_bytes f)))) rest
        (scan_leftovers_rec rel rest)
  | TDir n sub rest =>
      found (if is_lock_junk n then Ok (push (LJunk (rel ++ [n])) 0%Z)
             else scan_leftovers_rec (rel ++ [n]) sub (push (LDir (rel ++ [n])) 0%Z)) rest
        (scan_leftovers_rec rel rest)
  | TOther n rest =>
      found (if is_lock_junk n then Ok (push (LJunk (rel ++ [n])) 0%Z) else Err "unexpected entry"%string) rest
        (scan_leftovers_rec rel rest)
  end.
(* lib.rs:11708-11713 scan_leftovers *)
Definition scan_leftovers (t : Tree) : result (list LeftoverEntry) string :=
  match scan_leftovers_rec [] t ([], 0%Z) with Ok acc => Ok acc.1 | Err e => Err e end.

(** ** Clearing it *)

(** The mount point below, the cache directory's files, and what was moved so far. *)
Record Moving := { mv_mnt : gmap PathBuf Ent; mv_files : Files; mv_adopted : list AdoptedFile; mv_next : nat }.
Definition clear_at (rel : PathBuf) (m : Moving) : Moving :=
  {| mv_mnt := delete rel (mv_mnt m); mv_files := mv_files m; mv_adopted := mv_adopted m; mv_next := mv_next m |}.

Section relocate.
Context (cache_dir : PathBuf) (pid : nat) (sys : LeftoverEntry → bool).

Definition adopted_name (n : nat) : PathBuf :=
  join cache_dir [("adopted_" +:+ pretty.pretty pid +:+ "_" +:+ pretty.pretty n)%string].
(** Nothing is in it. *)
Definition empty_dir (rel : PathBuf) (mnt : gmap PathBuf Ent) : bool :=
  match mnt !! rel with Some EDir => true | _ => false end &&
  forallb (λ q, negb (starts_with q.1 rel) || bool_decide (q.1 = rel)) (map_to_list mnt).

(** [sys]: does the system call succeed where nothing else stands against it. *)
(* lib.rs:11773-11793 relocate_leftovers *)
Definition relocate_one (e : LeftoverEntry) (m : Moving) : result unit string * Moving :=
  match e with
  | LJunk rel =>
      (Ok tt, match mv_mnt m !! rel with
              | Some EDir | None => m
              | Some _ => if sys e then clear_at rel m else m
              end)
  | LFile rel =>
      let n := S (mv_next m) in
      let m := {| mv_mnt := mv_mnt m; mv_files := mv_files m; mv_adopted := mv_adopted m; mv_next := n |} in
      match mv_mnt m !! rel with
      | Some (EFile f) =>
          if sys e then
            (Ok tt, {| mv_mnt := delete rel (mv_mnt m); mv_files := <[adopted_name n := f]> (mv_files m);
                       mv_adopted := mv_adopted m ++ [{| a_remote := join root rel; a_staging := adopted_name n |}]; mv_next := n |})
          else (Err "failed to adopt"%string, m)
      | _ => (Err "failed to adopt"%string, m)
      end
  | LDir rel => if sys e && empty_dir rel (mv_mnt m) then (Ok tt, clear_at rel m) else (Err "failed to clear leftover directory"%string, m)
  end.
Fixpoint relocate_each (l : list LeftoverEntry) (m : Moving) : result (list AdoptedFile) string * Moving :=
  match l with
  | [] => (Ok (mv_adopted m), m)
  | e :: l => match relocate_one e m with (Ok _, m) => relocate_each l m | (Err x, m) => (Err x, m) end
  end.
(* lib.rs:11763-11796 relocate_leftovers *)
Definition relocate_leftovers (entries : list LeftoverEntry) (mnt : gmap PathBuf Ent) (files : Files) :
    result (list AdoptedFile) string * Moving :=
  relocate_each (rev entries) {| mv_mnt := mnt; mv_files := files; mv_adopted := []; mv_next := 0 |}.

(** [stale]: a dead process left its mount there, which is detached; [live]: another instance
    serves it; [made]: the directory is there or could be made; [owned]: the marker says that
    the last mount was here.  [t]: what the directory holds. *)
(* lib.rs:11499-11548 prepare_mount_point *)
Definition prepare_mount_point (stale live made owned : bool) (t : Tree) (files : Files) : result (list AdoptedFile) string * Moving :=
  let mnt := list_to_map (flat [] t) in
  let as_is := {| mv_mnt := mnt; mv_files := files; mv_adopted := []; mv_next := 0 |} in
  if negb stale && live then (Err "already mounted"%string, as_is)
  else if negb made then (Err "failed to create mount point"%string, as_is)
  else match t with
       | TBroken => (Err "cannot read mount point"%string, as_is)
       | TNil => (Ok [], as_is)
       | _ =>
           if negb owned then (Err "not empty"%string, as_is)
           else match scan_leftovers t with
                | Err e => (Err ("leftover content not auto-adopted: " +:+ e)%string, as_is)
                | Ok entries => relocate_leftovers entries mnt files
                end
       end.
End relocate.

(** ** Queueing what was moved *)

(** What the loop keeps: the folders looked after, those queued to be made, the listings read. *)
Record Adopting (W : Type) := {
  ad_ensured : gset PathBuf; ad_new : gset PathBuf; ad_lists : gmap PathBuf (list RemoteEntry); ad_state : RState W;
}.
Arguments ad_ensured {W}. Arguments ad_new {W}. Arguments ad_lists {W}. Arguments ad_state {W}. Arguments Build_Adopting {W}.

Section adopt.
Context {W : Type} `{CloudBackend W} (slot : call W bool) (clock : W → Z) (offline : bool).
Implicit Types (a : Adopting W).

(* lib.rs:11819-11833 adopt_orphaned_files *)
Definition list_cached (dir : PathBuf) a : list RemoteEntry * Adopting W :=
  match ad_lists a !! dir with
  | Some l => (l, a)
  | None =>
      let '(r, w) := list_dir_propfind slot dir (r_world (ad_state a)) in
      let s := set_world (ad_state a) w in
      match r with
      | Ok (_, _, l) => (l, Build_Adopting (ad_ensured a) (ad_new a) (<[dir := l]> (ad_lists a)) s)
      | Err _ => ([], Build_Adopting (ad_ensured a) (ad_new a) (ad_lists a) s)
      end
  end.
Definition enqueue_adopted (o : MutationOp) a : Adopting W :=
  let s := ad_state a in
  Build_Adopting (ad_ensured a) (ad_new a) (ad_lists a)
    (Replay.set_journal s (enqueue (clock (r_world s)) o (r_journal s)).2).

Definition is_folder (dir : PathBuf) (e : RemoteEntry) : bool := e_is_dir e && bool_decide (e_path e = dir).
(* lib.rs:11844-11860 adopt_orphaned_files *)
Definition ensure_dir a (dir : PathBuf) : Adopting W :=
  if bool_decide (dir ∈ ad_ensured a) then a
  else
    let parent := parent_or_root dir in
    let '(exists_, a) :=
      if bool_decide (parent ∈ ad_new a) then (false, a)
      else let '(l, a) := list_cached parent a in (existsb (is_folder dir) l, a) in
    let a := if (exists_ : bool) then a
             else let a := enqueue_adopted (MkDir dir) a in
                  Build_Adopting (ad_ensured a) ({[dir]} ∪ ad_new a) (ad_lists a) (ad_state a) in
    Build_Adopting ({[dir]} ∪ ad_ensured a) (ad_new a) (ad_lists a) (ad_state a).

(** The folders a path is in, from the root down, the root left out. *)
(* lib.rs:11836-11842 adopt_orphaned_files *)
Definition ancestors (p : PathBuf) : list PathBuf := (λ n, take n p) <$> List.seq 1 (length p - 1).

(** The version a listing shows of a file. *)
Definition file_version (path : PathBuf) (l : list RemoteEntry) : option Etag :=
  find (λ e, negb (e_is_dir e) && bool_decide (e_path e = path)) l ≫= e_change_token.
(* lib.rs:11835-11885 adopt_orphaned_files *)
Definition adopt_one a (f : AdoptedFile) : Adopting W :=
  let a := foldl ensure_dir a (ancestors (a_remote f)) in
  let parent := parent_or_root (a_remote f) in
  let '(etag, a) :=
    if bool_decide (parent ∈ ad_new a) then (None, a)
    else let '(l, a) := list_cached parent a in (file_version (a_remote f) l, a) in
  let a := enqueue_adopted (Put (a_remote f) (a_staging f) etag) a in
  Build_Adopting (ad_ensured a) (ad_new a) (ad_lists a)
    (mark_dirty [a_remote f] (set_status (a_remote f) (if offline then PendingSync else Uploading) (ad_state a))).
(* lib.rs:11805-11887 adopt_orphaned_files *)
Definition adopt_orphaned_files (adopted : list AdoptedFile) (s : RState W) : Adopting W :=
  foldl adopt_one (Build_Adopting ∅ ∅ ∅ s) adopted.
End adopt.

(** ** The directory's shape *)

(** The names of a folder, each once, and of the folders in it. *)
Fixpoint names (t : Tree) : list string :=
  match t with
  | TNil | TBroken => []
  | TFile n _ rest | TDir n _ rest | TOther n rest => n :: names rest
  end.
Fixpoint wf (t : Tree) : Prop :=
  match t with
  | TNil | TBroken => True
  | TFile n _ rest | TOther n rest => n ∉ names rest ∧ wf rest
  | TDir n sub rest => n ∉ names rest ∧ wf sub ∧ wf rest
  end.
(** What the scan finds in it. *)
Fixpoint listing (rel : PathBuf) (t : Tree) : list LeftoverEntry :=
  match t with
  | TNil | TBroken => []
  | TFile n _ rest => (if is_lock_junk n then LJunk (rel ++ [n]) else LFile (rel ++ [n])) :: listing rel rest
  | TDir n sub rest => (if is_lock_junk n then [LJunk (rel ++ [n])] else LDir (rel ++ [n]) :: listing (rel ++ [n]) sub) ++ listing rel rest
  | TOther n rest => LJunk (rel ++ [n]) :: listing rel rest
  end.
(** Only files and folders, lock files apart, and no folder with a lock file's name. *)
Fixpoint plain (t : Tree) : Prop :=
  match t with
  | TNil => True
  | TBroken => False
  | TFile n _ rest => plain rest
  | TOther n rest => is_lock_junk n = true ∧ plain rest
  | TDir n sub rest => is_lock_junk n = false ∧ plain sub ∧ plain rest
  end.
Definition is_junk (rel : PathBuf) : bool := match last rel with Some n => is_lock_junk n | None => false end.
(** Neither the file nor a folder above it has a lock file's name. *)
Definition wanted (rel : PathBuf) : bool := forallb (λ n, negb (is_lock_junk n)) rel.

Lemma scan_listing t rel acc acc' : scan_leftovers_rec rel t acc = Ok acc' → acc'.1 = acc.1 ++ listing rel t.
Proof.
  revert rel acc acc'. induction t as [|n f rest IH|n sub IHs rest IH|n rest IH|]; intros rel acc acc' Hs; cbn [scan_leftovers_rec listing] in *.
  - injection Hs as <-. by rewrite app_nil_r.
  - destruct (is_lock_junk n), (too_much _); try done; apply IH in Hs as ->; cbn; by rewrite <- app_assoc.
  - destruct (is_lock_junk n); [destruct (too_much _); [done|]; apply IH in Hs as ->; cbn; by rewrite <- app_assoc|].
    destruct (scan_leftovers_rec _ sub _) as [a|e] eqn:E; [|done]. destruct (too_much a); [done|].
    apply IH in Hs as ->. apply IHs in E as ->. cbn. by rewrite <- !app_assoc.
  - destruct (is_lock_junk n); [|done]. destruct (too_much _); [done|]. apply IH in Hs as ->. cbn. by rewrite <- app_assoc.
  - done.
Qed.

(** [k] is one of the folder's entries or below one. *)
Definition inside (rel : PathBuf) (t : Tree) (k : PathBuf) : Prop := ∃ n, n ∈ names t ∧ (rel ++ [n]) `prefix_of` k.

Lemma snoc_prefix_inj (rel : PathBuf) n n' k : (rel ++ [n]) `prefix_of` k → (rel ++ [n']) `prefix_of` k → n = n'.
Proof. intros [q ->] [q' E]. rewrite <- !app_assoc in E. apply app_inv_head in E. by injection E. Qed.
Lemma snoc_prefix (rel : PathBuf) n n' k : (rel ++ [n]) ++ [n'] `prefix_of` k → rel ++ [n] `prefix_of` k.
Proof. intros [q ->]. rewrite <- app_assoc. by eexists. Qed.

Lemma flat_inside t rel k e : (k, e) ∈ flat rel t → inside rel t k.
Proof.
  revert rel k e. induction t as [|n f rest IH|n sub IHs rest IH|n rest IH|]; intros rel k e Hin; cbn in Hin;
    try (by apply elem_of_nil in Hin); apply elem_of_cons in Hin as [[= -> ->]|Hin]; try (by exists n; split; [left|done]).
  - destruct (IH _ _ _ Hin) as (n' & ? & ?). exists n'. split; [by right|done].
  - apply elem_of_app in Hin as [Hin|Hin].
    + destruct (IHs _ _ _ Hin) as (n' & _ & Hp). exists n. split; [by left|by eapply snoc_prefix].
    + destruct (IH _ _ _ Hin) as (n' & ? & ?). exists n'. split; [by right|done].
  - destruct (IH _ _ _ Hin) as (n' & ? & ?). exists n'. split; [by right|done].
Qed.
(** Nothing else is at or below an entry. *)
Lemma not_rest rel n rest k : n ∉ names rest → rel ++ [n] `prefix_of` k → ¬ inside rel rest k.
Proof. intros Hn Hp (n' & Hin & Hp'). by rewrite (snoc_prefix_inj _ _ _ _ Hp Hp') in Hn. Qed.
Lemma not_itself rel n sub : ¬ inside (rel ++ [n]) sub (rel ++ [n]).
Proof. intros (n' & _ & Hp). apply prefix_length in Hp. rewrite !length_app in Hp. cbn in Hp. lia. Qed.

Lemma not_key rel t k : ¬ inside rel t k → k ∉ (flat rel t).*1.
Proof. intros Hn ([k' e] & -> & Hin)%list_elem_of_fmap. by apply flat_inside in Hin. Qed.
Lemma flat_nodup t rel : wf t → NoDup (flat rel t).*1.
Proof.
  revert rel. induction t as [|n f rest IH|n sub IHs rest IH|n rest IH|]; intros rel Hw; cbn; try apply NoDup_nil_2; apply NoDup_cons.
  - destruct Hw as [Hn Hw]. split; [apply not_key, (not_rest _ _ _ _ Hn); done|by apply IH].
  - destruct Hw as (Hn & Hs & Hw). rewrite fmap_app. split.
    + rewrite not_elem_of_app. split; [apply not_key, not_itself|apply not_key, (not_rest _ _ _ _ Hn); done].
    + apply NoDup_app. split; [by apply IHs|split; [|by apply IH]]. intros k ([k' e] & -> & Hin)%list_elem_of_fmap.
      apply not_key, (not_rest _ _ _ _ Hn). apply flat_inside in Hin as (n' & _ & Hp). by eapply snoc_prefix.
  - destruct Hw as [Hn Hw]. split; [apply not_key, (not_rest _ _ _ _ Hn); done|by apply IH].
Qed.

Lemma listing_wanted t rel k f : (k, EFile f) ∈ flat rel t → (∃ q, k = rel ++ q ∧ wanted q = true) → LFile k ∈ listing rel t.
Proof.
  revert rel. induction t as [|n g rest IH|n sub IHs rest IH|n rest IH|]; intros rel Hin Hq; cbn in *; try (by apply elem_of_nil in Hin);
    apply elem_of_cons in Hin as [Heq|Hin]; try done.
  - injection Heq as -> ->. destruct Hq as (q & <-%app_inv_head_iff & Hq). cbn in Hq. destruct (is_lock_junk n); [done|by left].
  - right. by apply IH.
  - apply elem_of_app in Hin as [Hin|Hin]; [|apply elem_of_app; right; by apply IH].
    destruct Hq as (q & -> & Hq). pose proof (flat_inside _ _ _ _ Hin) as (n' & _ & [q' E]).
    rewrite <- !app_assoc in E. apply app_inv_head in E as ->. cbn in Hq. apply andb_prop in Hq as [Hn Hq].
    destruct (is_lock_junk n); [done|]. apply elem_of_app. left. right.
    replace (rel ++ [n] ++ [n'] ++ q') with ((rel ++ [n]) ++ (n' :: q')) in * by (by rewrite <- app_assoc).
    apply IHs; [done|]. by exists (n' :: q').
  - right. by apply IH.
Qed.

(** ** Nothing is lost on the way *)

Section moved.
Context (cache_dir : PathBuf) (pid : nat) (sys : LeftoverEntry → bool).
Local Abbreviation adopted_name := (adopted_name cache_dir pid).
Local Abbreviation relocate_one := (relocate_one cache_dir pid sys).
Local Abbreviation relocate_each := (relocate_each cache_dir pid sys).
Implicit Types (m : Moving).

#[export] Instance adopted_name_inj : Inj (=) (=) adopted_name.
Proof.
  intros n n' E. unfold Leftovers.adopted_name, join in E. apply app_inv_head in E. injection E as E.
  apply (inj (String.append _)) in E. apply (inj (String.append _)) in E. by apply (inj (String.append _)), (inj pretty.pretty) in E.
Qed.

Record kept (mnt0 : gmap PathBuf Ent) (files0 : Files) m := {
  k_files : ∀ p, (∀ n, p ≠ adopted_name n) → mv_files m !! p = files0 !! p;
  k_bytes : ∀ rel f, mnt0 !! rel = Some (EFile f) → is_junk rel = false →
    mv_mnt m !! rel = Some (EFile f) ∨ ∃ a, a ∈ mv_adopted m ∧ a_remote a = rel;
  k_staged : ∀ a, a ∈ mv_adopted m → ∃ f n, mnt0 !! a_remote a = Some (EFile f) ∧ mv_files m !! a_staging a = Some f ∧
    a_staging a = adopted_name n ∧ n ≤ mv_next m;
  k_mnt : ∀ k x, mv_mnt m !! k = Some x → mnt0 !! k = Some x;
}.
Definition entry_ok (e : LeftoverEntry) : Prop := match e with LJunk rel => is_junk rel = true | _ => True end.

Lemma kept_clear mnt0 files0 rel m : kept mnt0 files0 m → is_junk rel = true ∨ mv_mnt m !! rel = Some EDir → kept mnt0 files0 (clear_at rel m).
Proof.
  intros [K1 K2 K3 K4] Hr. split; [done| |done|].
  - intros r f Hf Hj. destruct (K2 r f Hf Hj) as [H|H]; [|by right]. left. cbn. rewrite lookup_delete_ne; [done|].
    intros <-. destruct Hr as [Hr|Hr]; congruence.
  - intros k x. cbn. intros [_ Hk]%lookup_delete_Some. by apply K4.
Qed.

Lemma kept_one mnt0 files0 e m : kept mnt0 files0 m → entry_ok e → kept mnt0 files0 (relocate_one e m).2.
Proof.
  intros K He. destruct e as [rel|rel|rel]; cbn [Leftovers.relocate_one].
  - destruct (sys (LDir rel) && empty_dir rel (mv_mnt m)) eqn:E; [|done]. apply kept_clear; [done|]. right.
    apply andb_prop in E as [_ E]. unfold empty_dir in E. by destruct (mv_mnt m !! rel) as [[]|].
  - assert (Kn : ∀ n, mv_next m ≤ n → kept mnt0 files0 (Build_Moving (mv_mnt m) (mv_files m) (mv_adopted m) n)).
    { intros n Hn. destruct K as [K1 K2 K3 K4]. split; try done. intros a Ha. destruct (K3 a Ha) as (f & k & ? & ? & ? & ?).
      exists f, k. split_and!; try done. cbn. lia. }
    cbn. destruct (mv_mnt m !! rel) as [[f| |]|] eqn:Hf; try (apply Kn; lia). destruct (sys (LFile rel)); [|apply Kn; lia].
    destruct K as [K1 K2 K3 K4]. split; cbn [mv_mnt mv_files mv_adopted mv_next snd].
    + intros p Hp. rewrite lookup_insert_ne; [by apply K1|]. intros <-. by eapply Hp.
    + intros r g Hg Hj. destruct (decide (r = rel)) as [->|Hne].
      * right. eexists. split; [apply elem_of_app; right; by left|done].
      * rewrite lookup_delete_ne by done. destruct (K2 r g Hg Hj) as [?|(a & ? & ?)]; [by left|right]. exists a. split; [|done].
        apply elem_of_app. by left.
    + intros a [Ha|Ha]%elem_of_app.
      * destruct (K3 a Ha) as (g & k & ? & Hs & Hk & ?). exists g, k. split_and!; try done; [|lia].
        rewrite lookup_insert_ne; [done|]. rewrite Hk. intros ?%(inj adopted_name). lia.
      * apply list_elem_of_singleton in Ha as ->. exists f, (S (mv_next m)). cbn. split_and!; try done; [by apply K4|apply lookup_insert_eq].
    + intros k x [_ Hk]%lookup_delete_Some. by apply K4.
  - destruct (mv_mnt m !! rel) as [[f| |]|]; try done; (destruct (sys (LJunk rel)); [|done]); apply kept_clear; try done; by left.
Qed.

Lemma kept_each mnt0 files0 l m : kept mnt0 files0 m → Forall entry_ok l → kept mnt0 files0 (relocate_each l m).2.
Proof.
  revert m. induction l as [|e l IH]; intros m K Hl; cbn; [done|]. apply Forall_cons in Hl as [He Hl].
  pose proof (kept_one _ _ e m K He) as K1. destruct (relocate_one e m) as [[[]|x] m1]; [by apply IH|done].
Qed.

(** When it goes through, every file of the list was moved. *)
Lemma adopted_grow l m a : a ∈ mv_adopted m → a ∈ mv_adopted (relocate_each l m).2.
Proof.
  revert m. induction l as [|e l IH]; intros m Ha; cbn; [done|].
  assert (Hg : a ∈ mv_adopted (relocate_one e m).2).
  { destruct e as [rel|rel|rel]; cbn; repeat case_match; cbn; try done. apply elem_of_app. by left. }
  destruct (relocate_one e m) as [[[]|x] m1]; [by apply IH|done].
Qed.
Lemma each_adopted l m ad : (relocate_each l m).1 = Ok ad → ad = mv_adopted (relocate_each l m).2 ∧
  ∀ rel, LFile rel ∈ l → ∃ a, a ∈ ad ∧ a_remote a = rel.
Proof.
  revert m. induction l as [|e l IH]; intros m Hr; cbn in *; [injection Hr as <-; split; [done|by intros rel ?%elem_of_nil]|].
  destruct (relocate_one e m) as [[[]|x] m1] eqn:E1; [|done]. destruct (IH m1 Hr) as [-> H]. split; [done|].
  intros rel [<-|Hin]%elem_of_cons; [|by apply H]. cbn in E1.
  destruct (mv_mnt m !! rel) as [[f| |]|]; try done. destruct (sys (LFile rel)); [|done]. injection E1 as <-.
  eexists. split; [apply adopted_grow, elem_of_app; right; by left|done].
Qed.
End moved.

Lemma listing_ok t rel : (∀ acc acc', scan_leftovers_rec rel t acc = Ok acc' → Forall entry_ok (listing rel t)).
Proof.
  assert (Hj : ∀ (r : PathBuf) n, is_lock_junk n = true → is_junk (r ++ [n]) = true) by (intros r n Hn; unfold is_junk; by rewrite last_snoc).
  revert rel. induction t as [|n f rest IH|n sub IHs rest IH|n rest IH|]; intros rel acc acc' Hs; cbn [scan_leftovers_rec listing] in *;
    try apply Forall_nil_2.
  - destruct (is_lock_junk n) eqn:E, (too_much _); try done; apply Forall_cons; (split; [|by eapply IH]); cbn; try done. by apply Hj.
  - apply Forall_app. destruct (is_lock_junk n) eqn:E.
    + destruct (too_much _); [done|]. split; [|by eapply IH]. apply Forall_singleton. by apply Hj.
    + destruct (scan_leftovers_rec _ sub _) as [a|e] eqn:Es; [|done]. destruct (too_much a); [done|].
      split; [|by eapply IH]. apply Forall_cons. split; [done|by eapply IHs].
  - destruct (is_lock_junk n) eqn:E; [|done]. destruct (too_much _); [done|]. apply Forall_cons. split; [by apply Hj|by eapply IH].
Qed.

(** ** The directory ends up empty *)

Lemma plain_scanned t rel acc acc' : scan_leftovers_rec rel t acc = Ok acc' → (∀ k, (k, EDir) ∈ flat rel t → is_junk k = false) → plain t.
Proof.
  revert rel acc acc'. induction t as [|n f rest IH|n sub IHs rest IH|n rest IH|]; intros rel acc acc' Hs Hd;
    cbn [scan_leftovers_rec plain flat] in *; try done.
  - destruct (too_much _); [done|]. eapply IH; [done|]. intros k Hk. apply Hd. by right.
  - assert (Hn : is_lock_junk n = false).
    { specialize (Hd (rel ++ [n]) ltac:(by left)). unfold is_junk in Hd. by rewrite last_snoc in Hd. }
    rewrite Hn in Hs. destruct (scan_leftovers_rec _ sub _) as [a|e] eqn:Es; [|done]. destruct (too_much a); [done|]. split_and!; [done| |].
    + eapply IHs; [done|]. intros k Hk. apply Hd. right. apply elem_of_app. by left.
    + eapply IH; [done|]. intros k Hk. apply Hd. right. apply elem_of_app. by right.
  - destruct (is_lock_junk n); [|done]. destruct (too_much _); [done|]. split; [done|]. eapply IH; [done|].
    intros k Hk. apply Hd. by right.
Qed.

Section cleared.
Context (cache_dir : PathBuf) (pid : nat) (sys : LeftoverEntry → bool) (Hsys : ∀ e, sys e = true).
Local Abbreviation relocate_one := (relocate_one cache_dir pid sys).
Local Abbreviation relocate_each := (relocate_each cache_dir pid sys).
Implicit Types (m : Moving).

Lemma relocate_app l1 l2 m : relocate_each (l1 ++ l2) m =
  match relocate_each l1 m with (Ok _, m1) => relocate_each l2 m1 | (Err e, m1) => (Err e, m1) end.
Proof.
  revert m. induction l1 as [|e l IH]; intros m; cbn; [done|]. destruct (relocate_one e m) as [[[]|x] m1]; [apply IH|done].
Qed.

(** Running [l] takes out what is inside the folder, and nothing else. *)
Definition takes_out (rel : PathBuf) (t : Tree) (l : list LeftoverEntry) : Prop :=
  ∀ m, (∀ k, inside rel t k → mv_mnt m !! k = (list_to_map (flat rel t) : gmap PathBuf Ent) !! k) →
  ∃ ad m', relocate_each l m = (Ok ad, m') ∧ (∀ k, inside rel t k → mv_mnt m' !! k = None) ∧
    ∀ k, ¬ inside rel t k → mv_mnt m' !! k = mv_mnt m !! k.

(** One entry after the rest: [e] takes out the last key left. *)
Lemma takes_entry rel n (x : Ent) rest t l e :
  takes_out rel rest l → names t = n :: names rest → n ∉ names rest → flat rel t = (rel ++ [n], x) :: flat rel rest →
  (∀ m, mv_mnt m !! (rel ++ [n]) = Some x → ∃ m', relocate_one e m = (Ok tt, m') ∧ mv_mnt m' = delete (rel ++ [n]) (mv_mnt m)) →
  takes_out rel t (l ++ [e]).
Proof.
  intros Hl Hnm Hn Hf He m Hm.
  assert (Hin : ∀ k, inside rel t k ↔ rel ++ [n] `prefix_of` k ∨ inside rel rest k).
  { intros k. unfold inside. rewrite Hnm. setoid_rewrite elem_of_cons. naive_solver. }
  destruct (Hl m) as (ad & m1 & E1 & H1 & H2).
  { intros k Hk. rewrite Hm by (apply Hin; by right). rewrite Hf. cbn. apply lookup_insert_ne.
    intros <-. by apply (not_rest _ _ _ _ Hn) in Hk. }
  assert (Hx : mv_mnt m1 !! (rel ++ [n]) = Some x).
  { rewrite H2 by (by apply (not_rest _ _ _ _ Hn)). rewrite Hm by (apply Hin; by left). rewrite Hf. apply lookup_insert_eq. }
  destruct (He m1 Hx) as (m2 & E2 & Hd). rewrite relocate_app, E1. cbn. rewrite E2. cbn. eexists _, m2. split_and!; [done| |]; rewrite Hd.
  - intros k [Hp|Hk]%Hin; [|apply lookup_delete_None; right; by apply H1].
    destruct (decide (k = rel ++ [n])) as [->|Hne]; [apply lookup_delete_eq|]. apply lookup_delete_None. right.
    rewrite H2 by (by apply (not_rest _ _ _ _ Hn)). rewrite Hm by (apply Hin; by left). rewrite Hf. cbn.
    rewrite lookup_insert_ne by done. apply not_elem_of_list_to_map_1, not_key, (not_rest _ _ _ _ Hn Hp).
  - intros k Hk. rewrite Hin in Hk. rewrite lookup_delete_ne; [apply H2; tauto|]. intros <-. apply Hk. by left.
Qed.

Lemma nothing_below d mnt : mnt !! d = Some EDir → (∀ k, d `prefix_of` k → k ≠ d → mnt !! k = None) → empty_dir d mnt = true.
Proof.
  intros Hd Hb. unfold empty_dir. rewrite Hd. apply forallb_forall. intros [k x] Hk%list_elem_of_In%elem_of_map_to_list. cbn.
  destruct (starts_with k d) eqn:E; [|done]. apply starts_with_prefix in E. cbn. apply bool_decide_eq_true.
  destruct (decide (k = d)); [done|]. by rewrite Hb in Hk.
Qed.

Lemma takes_folder rel n sub rest ls lr : takes_out (rel ++ [n]) sub ls → takes_out rel rest lr → n ∉ names rest →
  takes_out rel (TDir n sub rest) (lr ++ ls ++ [LDir (rel ++ [n])]).
Proof.
  intros Hs Hr Hn m Hm. set (d := rel ++ [n]) in *.
  assert (Hin : ∀ k, inside rel (TDir n sub rest) k ↔ d `prefix_of` k ∨ inside rel rest k).
  { intros k. unfold inside. cbn [names]. setoid_rewrite elem_of_cons. naive_solver. }
  assert (Hfl : ∀ k, (list_to_map (flat rel (TDir n sub rest)) : gmap PathBuf Ent) !! k =
    if decide (k = d) then Some EDir else
    (list_to_map (flat d sub) : gmap PathBuf Ent) !! k ∪ (list_to_map (flat rel rest) : gmap PathBuf Ent) !! k).
  { intros k. cbn. rewrite list_to_map_app. fold d. case_decide as Hk; [subst; apply lookup_insert_eq|].
    by rewrite lookup_insert_ne, lookup_union by congruence. }
  assert (Hsub : ∀ k, inside d sub k → d `prefix_of` k) by (intros k (n' & _ & Hp); by eapply snoc_prefix).
  destruct (Hr m) as (ad & m1 & E1 & H1 & H2).
  { intros k Hk. assert (Hp : ¬ d `prefix_of` k) by (intros Hp; by apply (not_rest _ _ _ _ Hn) in Hk).
    rewrite Hm, Hfl by (apply Hin; by right). rewrite decide_False by (intros ->; by apply Hp).
    rewrite (not_elem_of_list_to_map_1 (flat d sub)); [apply (left_id _ _)|]. apply not_key. intros Hi. by apply Hp, Hsub. }
  assert (Hd : ∀ k, d `prefix_of` k → k ≠ d → mv_mnt m1 !! k = (list_to_map (flat d sub) : gmap PathBuf Ent) !! k).
  { intros k Hp Hne. rewrite H2 by (by apply (not_rest _ _ _ _ Hn)). rewrite Hm, Hfl by (apply Hin; by left). rewrite decide_False by done.
    rewrite (not_elem_of_list_to_map_1 (flat rel rest)); [apply (right_id _ _)|]. by apply not_key, (not_rest _ _ _ _ Hn). }
  destruct (Hs m1) as (ad2 & m2 & E2 & H3 & H4).
  { intros k Hk. apply Hd; [by apply Hsub|]. intros ->. by apply not_itself in Hk. }
  assert (Hdir : mv_mnt m2 !! d = Some EDir).
  { rewrite H4 by apply not_itself. rewrite H2 by (by apply (not_rest _ _ _ _ Hn)). rewrite Hm, Hfl by (apply Hin; by left).
    by rewrite decide_True. }
  assert (Hbelow : ∀ k, d `prefix_of` k → k ≠ d → mv_mnt m2 !! k = None).
  { intros k Hp Hne. destruct (mv_mnt m2 !! k) as [x|] eqn:Ek; [|done]. exfalso.
    assert (Hni : ¬ inside d sub k) by (intros Hk; rewrite H3 in Ek; done).
    rewrite H4, Hd in Ek by done. apply elem_of_list_to_map_2 in Ek. by apply flat_inside in Ek. }
  rewrite !relocate_app, E1, relocate_app, E2. cbn. rewrite Hsys, (nothing_below d _ Hdir Hbelow). eexists _, _. split; [reflexivity|]. cbn. split.
  - intros k [Hp|Hk]%Hin; apply lookup_delete_None; [destruct (decide (k = d)) as [->|Hne]; [by left|right; by apply Hbelow]|].
    right. assert (Hp : ¬ d `prefix_of` k) by (intros Hp; by apply (not_rest _ _ _ _ Hn) in Hk).
    rewrite H4 by (intros Hi; by apply Hp, Hsub). by apply H1.
  - intros k Hk. rewrite Hin in Hk. rewrite lookup_delete_ne by (intros <-; apply Hk; by left).
    rewrite H4 by (intros Hi; apply Hk; left; by apply Hsub). apply H2. tauto.
Qed.

Lemma takes_all t rel : wf t → plain t → takes_out rel t (rev (listing rel t)).
Proof.
  revert rel. induction t as [|n f rest IH|n sub IHs rest IH|n rest IH|]; intros rel Hw Hp; cbn [listing].
  - intros m Hm. exists (mv_adopted m), m. split_and!; [done|by intros k (? & ?%elem_of_nil & _)|done].
  - destruct Hw as [Hn Hw]. cbn [rev]. eapply takes_entry; [by apply IH|done|done|done|]. intros m Hm.
    destruct (is_lock_junk n); cbn; rewrite Hm, Hsys; by eexists.
  - destruct Hw as (Hn & Hws & Hw). destruct Hp as (Hj & Hps & Hp). rewrite Hj, rev_app_distr. cbn [rev]. apply takes_folder; [by apply IHs|by apply IH|done].
  - destruct Hw as [Hn Hw]. destruct Hp as [Hj Hp]. cbn [rev]. eapply takes_entry; [by apply IH|done|done|done|]. intros m Hm.
    cbn. rewrite Hm, Hsys. by eexists.
  - done.
Qed.
End cleared.

(** The file, byte for byte, moved and handed on. *)
Definition staged_for (m : Moving) (ad : list AdoptedFile) (rel : PathBuf) (f : LocalFile) : Prop :=
  ∃ a, a ∈ ad ∧ a_remote a = rel ∧ mv_files m !! a_staging a = Some f.

Lemma kept_flat cache_dir pid t files m : wf t → kept cache_dir pid (list_to_map (flat [] t)) files m →
  (∀ k, is_Some (mv_mnt m !! k) → is_Some ((list_to_map (flat [] t) : gmap PathBuf Ent) !! k)) ∧
  ∀ rel f, (rel, EFile f) ∈ flat [] t →
    (is_junk rel = false → mv_mnt m !! rel = Some (EFile f) ∨ staged_for m (mv_adopted m) rel f) ∧
    ((∃ a, a ∈ mv_adopted m ∧ a_remote a = rel) → staged_for m (mv_adopted m) rel f).
Proof.
  intros Hw [K1 K2 K3 K4]. split; [intros k [x Hx]; eexists; by apply K4|]. intros rel f Hf.
  apply (elem_of_list_to_map_1 _ _ _ (flat_nodup t [] Hw)) in Hf.
  assert (H : (∃ a, a ∈ mv_adopted m ∧ a_remote a = rel) → staged_for m (mv_adopted m) rel f).
  { intros (a & Ha & Hr). exists a. destruct (K3 a Ha) as (g & n & Hg & ? & _). split_and!; try done. congruence. }
  split; [|done]. intros Hj. destruct (K2 rel f Hf Hj) as [?|Ha]; [by left|right; by apply H].
Qed.

Lemma relocated cache_dir pid sys t files l : wf t → scan_leftovers t = Ok l →
  let '(r, m) := relocate_leftovers cache_dir pid sys l (list_to_map (flat [] t)) files in
  kept cache_dir pid (list_to_map (flat [] t)) files m ∧
  match r with
  | Ok ad => ad = mv_adopted m ∧ (∀ rel f, (rel, EFile f) ∈ flat [] t → wanted rel = true → staged_for m ad rel f) ∧
      ((∀ e, sys e = true) → (∀ k, (k, EDir) ∈ flat [] t → is_junk k = false) → ∀ k, mv_mnt m !! k = None)
  | Err _ => True
  end.
Proof.
  intros Hw Hl. unfold scan_leftovers in Hl. destruct (scan_leftovers_rec [] t ([], 0%Z)) as [acc|e] eqn:Es; [|done].
  injection Hl as <-. pose proof (scan_listing _ _ _ _ Es) as ->. cbn [app fst]. unfold relocate_leftovers.
  set (m0 := {| mv_mnt := list_to_map (flat [] t) |}).
  assert (K : kept cache_dir pid (list_to_map (flat [] t)) files (relocate_each cache_dir pid sys (rev (listing [] t)) m0).2).
  { apply kept_each; [split; [done|by left|by intros a ?%elem_of_nil|done]|]. by eapply Forall_rev, listing_ok. }
  pose proof (each_adopted cache_dir pid sys (rev (listing [] t)) m0) as Ha.
  destruct (relocate_each _ _ _ _ m0) as [[ad|x] m] eqn:E; cbn [fst snd] in *; (split; [done|]); [|done].
  destruct (Ha ad eq_refl) as [-> Hf]. split_and!; [done| |].
  - intros rel f Hin Hwt. apply (kept_flat _ _ _ _ _ Hw K); [done|]. apply Hf. apply list_elem_of_In, in_rev, list_elem_of_In.
    rewrite rev_involutive. apply (listing_wanted _ _ _ f); [done|]. by exists rel.
  - intros Hsys Hd k. destruct (takes_all cache_dir pid sys Hsys t [] Hw (plain_scanned _ _ _ _ Es Hd) m0) as (ad' & m' & E' & H1 & H2); [done|].
    rewrite E in E'. injection E' as _ <-. destruct (mv_mnt m !! k) as [x|] eqn:Ek; [|done]. exfalso.
    assert (Hi : ¬ inside [] t k) by (intros Hi; rewrite H1 in Ek; done).
    rewrite H2 in Ek by done. apply elem_of_list_to_map_2 in Ek. by apply flat_inside in Ek.
Qed.

(** C16: Files saved into an unmounted mount point are not lost, whichever system call fails.
    Whatever the directory holds and whatever [prepare_mount_point] answers, every file in it
    that is not a lock file is afterwards in its place or, byte for byte, in the cache
    directory under a name of its own; no file of the cache directory is touched but under
    such names, and nothing appears in the directory.  When it answers [Ok] over a directory
    that was not empty, every file, below folders that are not named like a lock file, was
    moved and is handed on for upload; and when no call fails and no folder has such a name,
    the directory is left empty for the mount. *)
Theorem leftovers_kept cache_dir pid sys stale live made owned t files : wf t →
  let '(r, m) := prepare_mount_point cache_dir pid sys stale live made owned t files in
  (∀ p, (∀ n, p ≠ adopted_name cache_dir pid n) → mv_files m !! p = files !! p) ∧
  (∀ k, is_Some (mv_mnt m !! k) → is_Some ((list_to_map (flat [] t) : gmap PathBuf Ent) !! k)) ∧
  (∀ rel f, (rel, EFile f) ∈ flat [] t → is_junk rel = false →
     mv_mnt m !! rel = Some (EFile f) ∨ staged_for m (mv_adopted m) rel f) ∧
  match r with
  | Ok ad =>
      (∀ rel f, (rel, EFile f) ∈ flat [] t → wanted rel = true → staged_for m ad rel f) ∧
      ((∀ e, sys e = true) → (∀ k, (k, EDir) ∈ flat [] t → is_junk k = false) → ∀ k, mv_mnt m !! k = None)
  | Err _ => True
  end.
Proof.
  intros Hw. pose proof (relocated cache_dir pid sys t files) as Hr. unfold prepare_mount_point.
  set (m0 := {| mv_mnt := list_to_map (flat [] t) |}).
  assert (K0 : kept cache_dir pid (list_to_map (flat [] t)) files m0) by (split; [done|by left|by intros a ?%elem_of_nil|done]).
  assert (H0 : ∀ m, kept cache_dir pid (list_to_map (flat [] t)) files m →
    (∀ p, (∀ n, p ≠ adopted_name cache_dir pid n) → mv_files m !! p = files !! p) ∧
    (∀ k, is_Some (mv_mnt m !! k) → is_Some ((list_to_map (flat [] t) : gmap PathBuf Ent) !! k)) ∧
    (∀ rel f, (rel, EFile f) ∈ flat [] t → is_junk rel = false → mv_mnt m !! rel = Some (EFile f) ∨ staged_for m (mv_adopted m) rel f)).
  { intros m K. destruct (kept_flat _ _ _ _ _ Hw K) as [H1 H2]. split_and!; [by apply K|done|]. intros rel f Hf. by apply H2. }
  assert (Herr : ∀ x : string, (∀ p, (∀ n, p ≠ adopted_name cache_dir pid n) → mv_files m0 !! p = files !! p) ∧ _) by (intros _; apply (H0 m0 K0)).
  specialize (Herr ""%string). destruct (negb stale && live); [tauto|]. destruct made; cbn [negb]; [|tauto].
  destruct t as [|n f rest|n sub rest|n rest|] eqn:Et.
  1: { split_and!; [apply H0; done|apply H0; done|apply H0; done| |done]. by intros rel f ?%elem_of_nil. }
  4: tauto.
  all: rewrite <- Et in *; (destruct owned; cbn [negb]; [|tauto]); (destruct (scan_leftovers t) as [l|e]; [|tauto]);
    specialize (Hr l Hw eq_refl); (destruct (relocate_leftovers _ _ _ _ _ _) as [[ad|x] m]); destruct Hr as [K Hr];
    destruct (H0 m K) as (? & ? & ?); (split_and!; try done); by apply Hr.
Qed.

(** ** What is queued *)

Section queued.
Context {W : Type} `{CloudBackend W} (slot : call W bool) (clock : W → Z) (offline : bool).
Implicit Types (a : Adopting W).
Local Abbreviation list_cached := (list_cached slot).
Local Abbreviation ensure_dir := (ensure_dir slot clock).
Local Abbreviation adopt_one := (adopt_one slot clock offline).
Local Abbreviation enqueue_adopted := (enqueue_adopted clock).

Definition queue a : list JournalEntry := entries (r_journal (ad_state a)).
(** The folder is queued to be made, or a listing read shows it. *)
Definition provided (l : list JournalEntry) (lists : gmap PathBuf (list RemoteEntry)) (dir : PathBuf) : Prop :=
  (∃ e, e ∈ l ∧ op e = MkDir dir) ∨ ∃ es, lists !! parent_or_root dir = Some es ∧ existsb (is_folder dir) es = true.

(** The server has answered with this listing. *)
Definition answered (d : PathBuf) (l : list RemoteEntry) : Prop :=
  ∃ w etag self w', list_dir_propfind slot d w = (Ok (etag, self, l), w').

(** What the loop's memory means. *)
Record remembers a : Prop := {
  rm_ensured : ∀ d, d ∈ ad_ensured a → provided (queue a) (ad_lists a) d;
  rm_new : ∀ d, d ∈ ad_new a → (∃ e, e ∈ queue a ∧ op e = MkDir d) ∧ d ∈ ad_ensured a ∧ d ≠ [];
  rm_lists : ∀ d l, ad_lists a !! d = Some l → (d = [] ∨ d ∈ ad_ensured a) ∧ d ∉ ad_new a;
  rm_read : ∀ d l, ad_lists a !! d = Some l → answered d l;
}.
(** The local files as they were, the journal on disk current if it was. *)
Definition same_disk a a' : Prop :=
  let j := r_journal (ad_state a) in let j' := r_journal (ad_state a') in files (disk j') = files (disk j) ∧ (saved j → saved j').

(** Nothing is forgotten, the queue grows at its end by entries the loop made. *)
Record grows (P : MutationOp → Prop) a a' : Prop := {
  gr_queue : ∃ l, queue a' = queue a ++ l ∧ Forall (λ e, P (op e)) l;
  gr_ensured : ad_ensured a ⊆ ad_ensured a';
  gr_lists : ad_lists a ⊆ ad_lists a';
  gr_disk : same_disk a a';
}.
Definition makes_dir (o : MutationOp) : Prop := ∃ d, o = MkDir d.

Lemma grows_refl P a : grows P a a.
Proof. split; try done. exists []. by rewrite app_nil_r. Qed.
Lemma grows_trans P a a1 a2 : grows P a a1 → grows P a1 a2 → grows P a a2.
Proof.
  intros [(l & E & Hl) H2 H3 [F1 F2]] [(l' & E' & Hl') H5 H6 [F3 F4]]. split; [|by etrans|by etrans|split; [by rewrite F3|tauto]].
  exists (l ++ l'). rewrite E', E, app_assoc. split; [done|by apply Forall_app].
Qed.
Lemma grows_weaken (P Q : MutationOp → Prop) a a' : (∀ o, P o → Q o) → grows P a a' → grows Q a a'.
Proof. intros HPQ [(l & E & Hl) H2 H3 H4]. split; try done. exists l. split; [done|]. eapply Forall_impl; [done|]. naive_solver. Qed.
Lemma provided_mono l l' m m' d : provided l m d → l ⊆ l' → m ⊆ m' → provided l' m' d.
Proof. intros [(e & ? & ?)|(es & Hl & ?)] Hs Hm; [left; exists e; set_solver|right; exists es; split; [by eapply lookup_weaken|done]]. Qed.

Lemma enqueue_adds o a : makes_dir o ∨ (∃ p sp m, o = Put p sp m) →
  (∃ e, op e = o ∧ queue (enqueue_adopted o a) = queue a ++ [e]) ∧ same_disk a (enqueue_adopted o a).
Proof.
  intros Ho. split; [|split; [destruct Ho as [[d ->]|(p & sp & m & ->)]; cbn; by destruct (writable _)|]; cbn; apply enqueue_ok].
  destruct Ho as [[d ->]|(p & sp & m & ->)]; (eexists; split; [|reflexivity]; done).
Qed.

(** Reading a listing that may be read. *)
Lemma list_cached_spec dir a : remembers a → (dir = [] ∨ dir ∈ ad_ensured a) → dir ∉ ad_new a →
  let '(l, a') := list_cached dir a in
  remembers a' ∧ queue a' = queue a ∧ ad_ensured a' = ad_ensured a ∧ ad_new a' = ad_new a ∧ ad_lists a ⊆ ad_lists a' ∧
  (ad_lists a' !! dir = Some l ∨ ad_lists a' !! dir = None ∧ l = []) ∧ same_disk a a'.
Proof.
  intros R Hd Hn. unfold Leftovers.list_cached. destruct (ad_lists a !! dir) as [l|] eqn:El; [split_and!; try done; by left|].
  destruct (list_dir_propfind slot dir _) as [[[[? ?] l]|e] w] eqn:Ea; cbn.
  - assert (Hsub : ad_lists a ⊆ <[dir:=l]> (ad_lists a)) by (by apply insert_subseteq).
    split_and!; try done; [|left; apply lookup_insert_eq]. destruct R as [R1 R2 R3 R4]. split; cbn.
    + intros d Hin. eapply provided_mono; [by apply R1|done|done].
    + done.
    + intros d l' [[<- <-]|[_ Hl]]%lookup_insert_Some; [done|by eapply R3].
    + intros d l' [[<- <-]|[_ Hl]]%lookup_insert_Some; [by eexists _, _, _, _|by eapply R4].
  - split_and!; try done; [|by right]. by destruct R.
Qed.

Lemma ensure_dir_spec dir a : remembers a → dir ≠ [] → (parent_or_root dir = [] ∨ parent_or_root dir ∈ ad_ensured a) →
  remembers (ensure_dir a dir) ∧ grows makes_dir a (ensure_dir a dir) ∧ dir ∈ ad_ensured (ensure_dir a dir).
Proof.
  intros R Hne Hp. unfold Leftovers.ensure_dir. case_bool_decide as Hd; [split_and!; [done|apply grows_refl|done]|].
  set (parent := parent_or_root dir) in *.
  assert (Hl : ∃ b a1, (if bool_decide (parent ∈ ad_new a) then (false, a) else let '(l, a) := list_cached parent a in (existsb (is_folder dir) l, a)) = (b, a1) ∧
    remembers a1 ∧ same_disk a a1 ∧ queue a1 = queue a ∧ ad_ensured a1 = ad_ensured a ∧ ad_lists a ⊆ ad_lists a1 ∧ (b = true → provided (queue a1) (ad_lists a1) dir)).
  { case_bool_decide as Hnew; [by exists false, a|]. pose proof (list_cached_spec parent a R Hp Hnew) as Hs.
    destruct (list_cached parent a) as [l a1]. destruct Hs as (? & ? & ? & ? & ? & Hc & ?). exists (existsb (is_folder dir) l), a1.
    split_and!; try done. intros Hb. right. destruct Hc as [Hc|[_ ->]]; [by exists l|done]. }
  destruct Hl as (b & a1 & -> & R1 & Hdk & Hq & He & Hls & Hb). destruct R1 as [Q1 Q2 Q3 Q4]. destruct b.
  - split_and!; [|split; cbn; [exists []; by rewrite app_nil_r|set_solver|done|done]|cbn; set_solver]. split; cbn.
    + intros d [->%elem_of_singleton|Hin]%elem_of_union; [by apply Hb|by apply Q1].
    + intros d Hin. destruct (Q2 d Hin) as (? & ? & ?). split_and!; try done. set_solver.
    + intros d l Hl. destruct (Q3 d l Hl) as [[?|?] ?]; (split; [|done]); set_solver.
    + done.
  - destruct (enqueue_adds (MkDir dir) a1) as ((e & Ho & Hqe) & F1 & F2); [left; by exists dir|]. destruct Hdk as [F3 F4].
    cbv zeta. set (a3 := Build_Adopting ({[dir]} ∪ _) _ _ _).
    assert (Hq3 : queue a3 = queue a1 ++ [e]) by exact Hqe. assert (He3 : ad_ensured a3 = {[dir]} ∪ ad_ensured a) by (by rewrite <- He).
    assert (Hd3 : same_disk a a3) by (split; [by rewrite <- F3, <- F1|tauto]). assert (Hn3 : ad_new a3 = {[dir]} ∪ ad_new a1) by done. assert (Hl3 : ad_lists a3 = ad_lists a1) by done. clearbody a3. clear Hqe Hb F1 F2.
    assert (Hsub : queue a1 ⊆ queue a3) by (intros x ?; rewrite Hq3; apply elem_of_app; by left).
    assert (Hine : e ∈ queue a3) by (rewrite Hq3; apply elem_of_app; right; by left).
    split_and!; [split|split|]; rewrite ?He3, ?Hn3, ?Hl3.
    + intros d [->%elem_of_singleton|Hd']%elem_of_union; [left; by exists e|].
      eapply provided_mono; [by apply Q1; rewrite He|done|done].
    + intros d [->%elem_of_singleton|Hd']%elem_of_union; [split_and!; [by exists e|by apply elem_of_union_l, elem_of_singleton|done]|].
      destruct (Q2 d Hd') as ((e' & He' & ?) & Hens & ?). rewrite He in Hens. split_and!; [exists e'; split; [by apply Hsub|done]|by apply elem_of_union_r|done].
    + intros d l Hl. destruct (Q3 d l Hl) as [H1 H2]. rewrite He in H1. split; [destruct H1; [by left|right; by apply elem_of_union_r]|].
      intros [->%elem_of_singleton|?]%elem_of_union; [|done]. by destruct H1.
    + exact Q4.
    + exists [e]. rewrite Hq3, Hq. split; [done|]. apply Forall_singleton. by exists dir.
    + by apply union_subseteq_r.
    + done.
    + done.
    + by apply elem_of_union_l, elem_of_singleton.
Qed.

Lemma parent_take (p : PathBuf) n : n < length p → parent_or_root (take (S n) p) = take n p.
Proof.
  unfold parent_or_root. intros Hn. rewrite (take_S_r _ _ (p !!! n)) by (by apply list_lookup_lookup_total_lt).
  by rewrite parent_snoc.
Qed.

Lemma ancestors_spec (p : PathBuf) k a : k < length p → remembers a →
  let a' := foldl ensure_dir a ((λ n, take n p) <$> List.seq 1 k) in
  remembers a' ∧ grows makes_dir a a' ∧ ∀ n, 1 ≤ n ≤ k → take n p ∈ ad_ensured a'.
Proof.
  intros Hk R. induction k as [|k IH]; [split_and!; [done|apply grows_refl|lia]|].
  destruct IH as (R1 & G1 & E1); [lia|]. rewrite List.seq_S, fmap_app, foldl_app. cbn [foldl fmap list_fmap]. set (a1 := foldl _ a _) in *.
  destruct (ensure_dir_spec (take (S k) p) a1 R1) as (R2 & G2 & E2).
  - destruct p; [cbn in Hk; lia|done].
  - rewrite parent_take by lia. destruct k; [left; by rewrite take_0|right; apply E1; lia].
  - split_and!; [done|by eapply grows_trans|]. intros n Hn. destruct (decide (n = S k)) as [->|]; [done|].
    eapply gr_ensured; [done|]. apply E1. lia.
Qed.

(** The folders above [p] that the entries before it provide for, and the condition of its upload. *)
Definition queued_put (f : AdoptedFile) (pre : list JournalEntry) (o : MutationOp) (lists : gmap PathBuf (list RemoteEntry)) : Prop :=
  (∀ n, 1 ≤ n < length (a_remote f) → provided pre lists (take n (a_remote f))) ∧
  o = Put (a_remote f) (a_staging f)
        (match lists !! parent_or_root (a_remote f) with Some l => file_version (a_remote f) l | None => None end).

Lemma adopt_one_spec f a : remembers a → a_remote f ≠ [] →
  let a' := adopt_one a f in
  remembers a' ∧ grows (λ o, makes_dir o ∨ ∃ m, o = Put (a_remote f) (a_staging f) m) a a' ∧
  ∃ pre e, queue a' = pre ++ [e] ∧ queue a `prefix_of` pre ∧ queued_put f pre (op e) (ad_lists a').
Proof.
  intros R Hne a'. destruct (ancestors_spec (a_remote f) (length (a_remote f) - 1) a) as (R1 & G1 & E1); [destruct (a_remote f); cbn; [done|lia]|done|].
  set (a1 := foldl _ a _) in *. subst a'. unfold Leftovers.adopt_one, ancestors. fold a1. set (parent := parent_or_root (a_remote f)).
  assert (Hp : parent = [] ∨ parent ∈ ad_ensured a1).
  { subst parent. rewrite <- (firstn_all (a_remote f)). destruct (length (a_remote f)) as [|n] eqn:El; [by left|].
    rewrite parent_take by lia. destruct n; [left; by rewrite take_0|right; apply E1; lia]. }
  assert (Hl : ∃ m a2, (if bool_decide (parent ∈ ad_new a1) then (None, a1) else let '(l, a) := list_cached parent a1 in (file_version (a_remote f) l, a)) = (m, a2) ∧
    remembers a2 ∧ same_disk a1 a2 ∧ queue a2 = queue a1 ∧ ad_ensured a2 = ad_ensured a1 ∧ ad_lists a1 ⊆ ad_lists a2 ∧
    m = match ad_lists a2 !! parent with Some l => file_version (a_remote f) l | None => None end).
  { case_bool_decide as Hnew.
    - exists None, a1. split_and!; try done. destruct (ad_lists a1 !! parent) as [l|] eqn:El; [|done]. by destruct R1 as [_ _ R1 _]; apply R1 in El as [_ ?].
    - pose proof (list_cached_spec parent a1 R1 Hp Hnew) as Hs. destruct (list_cached parent a1) as [l a2].
      destruct Hs as (? & ? & ? & ? & ? & Hc & ?). exists (file_version (a_remote f) l), a2. split_and!; try done.
      by destruct Hc as [->|[-> ->]]. }
  destruct Hl as (m & a2 & -> & R2 & Hdk & Hq & He & Hls & Hm).
  destruct (enqueue_adds (Put (a_remote f) (a_staging f) m) a2) as ((e & Ho & Hqe) & F1 & F2); [right; by eexists _, _, _|]. cbv zeta.
  set (a4 := Build_Adopting _ _ _ _). assert (Hq4 : queue a4 = queue a2 ++ [e]) by exact Hqe.
  assert (He4 : ad_ensured a4 = ad_ensured a2) by done. assert (Hn4 : ad_new a4 = ad_new a2) by done. assert (Hl4 : ad_lists a4 = ad_lists a2) by done.
  destruct G1 as [(l1 & Eq1 & Hl1) G2 G3 [F3 F4]]. destruct Hdk as [F5 F6].
  assert (Hd4 : same_disk a a4) by (split; [by rewrite <- F3, <- F5, <- F1|tauto]). clearbody a4. clear F1 F2. split_and!.
  - destruct R2 as [Q1 Q2 Q3 Q4]. split; rewrite ?He4, ?Hn4, ?Hl4, ?Hq4.
    + intros d Hd. eapply provided_mono; [by apply Q1| |done]. intros x ?. apply elem_of_app. by left.
    + intros d Hd. destruct (Q2 d Hd) as ((x & ? & ?) & ? & ?). split_and!; try done. exists x. split; [apply elem_of_app; by left|done].
    + exact Q3.
    + exact Q4.
  - split; rewrite ?He4, ?Hl4, ?He; [|done|by etrans|done]. exists (l1 ++ [e]). rewrite Hq4, Hq, Eq1, <- app_assoc. split; [done|].
    apply Forall_app. split; [eapply Forall_impl; [done|]; by left|apply Forall_singleton; right; by exists m].
  - exists (queue a1), e. rewrite Hq4, Hq, Eq1, Hl4. split_and!; [done|by exists l1|]. split; [|by rewrite Ho, Hm].
    intros n Hn. eapply provided_mono; [apply R1, E1; lia|by rewrite Eq1|done].
Qed.

Lemma adopt_all ad a : remembers a → Forall (λ f, a_remote f ≠ []) ad →
  let a' := foldl adopt_one a ad in
  remembers a' ∧ grows (λ o, makes_dir o ∨ ∃ f m, f ∈ ad ∧ o = Put (a_remote f) (a_staging f) m) a a' ∧
  ∀ f, f ∈ ad → ∃ pre e post lists, queue a' = pre ++ e :: post ∧ lists ⊆ ad_lists a' ∧ queued_put f pre (op e) lists.
Proof.
  revert a. induction ad as [|f ad IH]; intros a R Had; [split_and!; [done|apply grows_refl|by intros f ?%elem_of_nil]|].
  apply Forall_cons in Had as [Hf Had]. cbn [foldl]. destruct (adopt_one_spec f a R Hf) as (R1 & G1 & pre & e & Eq & _ & Hput).
  destruct (IH _ R1 Had) as (R2 & G2 & H2). cbv zeta in *. set (a' := foldl _ _ ad) in *. split_and!; [done| |].
  - eapply grows_trans; [eapply grows_weaken; [|exact G1]|eapply grows_weaken; [|exact G2]]; cbn.
    + intros o [?|[m ->]]; [by left|right]. exists f, m. split; [by left|done].
    + intros o [?|(g & m & ? & ->)]; [by left|right]. exists g, m. split; [by right|done].
  - intros g [->|Hg]%elem_of_cons; [|by apply H2]. destruct G2 as [(l & El & _) _ Hls _].
    exists pre, e, l, (ad_lists (adopt_one a f)). split_and!; [by rewrite El, Eq, <- app_assoc|done|done].
Qed.

End queued.

(** ** The runs behind the theorems *)

Definition lo_file (b : Byte.byte) : LocalFile := Build_LocalFile [b] 0.
Definition lo_tree : Tree :=
  TDir "sub" (TFile "orphan.ods" (lo_file Byte.x41) (TFile ".~lock.orphan.ods#" (lo_file Byte.x42) TNil)) (TFile "b" (lo_file Byte.x43) TNil).
Lemma lo_tree_wf : wf lo_tree.
Proof. unfold lo_tree. cbn [wf names]. rewrite !not_elem_of_cons. by split_and!; try apply not_elem_of_nil. Qed.
Definition lo_cache : PathBuf := ["cache"%string].

Lemma leftovers_kept_witness :
  let '(r, m) := prepare_mount_point lo_cache 7 (λ _, true) false false true true lo_tree ∅ in
  r = Ok (mv_adopted m) ∧ mv_mnt m = ∅ ∧ staged_for m (mv_adopted m) ["sub"; "orphan.ods"]%string (lo_file Byte.x41).
Proof.
  pose proof (leftovers_kept lo_cache 7 (λ _, true) false false true true lo_tree ∅) as H.
  destruct (prepare_mount_point _ _ _ _ _ _ _ lo_tree ∅) as [r m] eqn:E. destruct H as (_ & _ & _ & H).
  - exact lo_tree_wf.
  - vm_compute in E. injection E as <- <-. destruct H as [H1 H2]. split_and!; [done| |].
    + by vm_compute.
    + apply H1; [right; left|done].
Defined.

(** The second call fails: the start is refused, and what was moved before is in nobody's
    hands: the next start looks only into the mount point. *)
Lemma refused_after_moving :
  let '(r, m) := prepare_mount_point lo_cache 7 (λ e, match e with LFile ["sub"; _]%string => false | _ => true end)
                   false false true true lo_tree ∅ in
  r = Err "failed to adopt"%string ∧ mv_mnt m !! ["b"%string] = None ∧ mv_files m !! adopted_name lo_cache 7 1 = Some (lo_file Byte.x43).
Proof. by vm_compute. Qed.

(** Staging files are named after the process and a counter: a process with the same number
    takes the name of a file an earlier one left queued. *)
Lemma same_process_number :
  let queued : Files := {[adopted_name lo_cache 7 1 := lo_file Byte.x51]} in
  (prepare_mount_point lo_cache 7 (λ _, true) false false true true lo_tree queued).2.(mv_files) !! adopted_name lo_cache 7 1 = Some (lo_file Byte.x43).
Proof. by vm_compute. Qed.

Definition lo_server : Srv := Build_Srv {[ ["d"; "f"]%string := ([Byte.x01], 1) ]} {[ ["d"%string] ]} ∅ 2.
Definition lo_adopted : list AdoptedFile :=
  [{| a_remote := ["new"; "g"]%string; a_staging := adopted_name lo_cache 7 1 |};
   {| a_remote := ["d"; "f"]%string; a_staging := adopted_name lo_cache 7 2 |}].
Definition lo_files : Files := {[ adopted_name lo_cache 7 1 := lo_file Byte.x41; adopted_name lo_cache 7 2 := lo_file Byte.x43 ]}.
Definition lo_state : RState Srv :=
  Build_RState (load_or_create 0 lo_cache (Build_Disk (Some []) None lo_files true))
    (Build_FsCache ∅ ∅ 2 ∅ 100 ∅ ∅ ∅ ∅ ∅ false 0) ∅ ∅ [] lo_server.
(** With the server's answers, and without one (no request slot is free). *)
Definition lo_run (answers : bool) : Adopting Srv := adopt_orphaned_files (λ w, (answers, w)) (λ _, 0%Z) false lo_adopted lo_state.


(** Where no listing could be read the upload carries no condition, and replaying it replaces
    the version on the server, which nobody has looked at. *)
Lemma unlisted_overwrites :
  op <$> entries (r_journal (ad_state (lo_run false))) =
    [MkDir ["new"%string]; Put ["new"; "g"]%string (adopted_name lo_cache 7 1) None;
     MkDir ["d"%string]; Put ["d"; "f"]%string (adopted_name lo_cache 7 2) None] ∧
  content (r_world (execute_put (λ _, 0%Z) ["d"; "f"]%string (adopted_name lo_cache 7 2) None (ad_state (lo_run false))).2) ["d"; "f"]%string =
    Some [Byte.x43].
Proof. by vm_compute. Qed.
