(* ===== verification/Local.v ===== *)
(** [lib.rs], the files the daemon keeps on disk, and everything that takes them away again:
    the sweep of old staging files at a start, the periodic cleanup of cached copies,
    FREE UP SPACE on a file or folder, the purge of all copies; and the download that makes a
    copy.

    Kept copies are under [kept_dir], others under [auto_cache_dir], staging files are
    [write_<n>] in the cache directory itself.  [rm] says which files can be removed.
    Directories are not modelled: those left empty are dropped.  [accessed] is a file's last
    access as the walk read it. *)
From Stdlib Require Import Ascii String.
From S2P Require Import Prelude Paths Backend Server FsCache Journal Replay ChunkUpload Versions AppLocks Attr IoMode PathSeq Mount LiveUpload.
From S2P Require Import Namespace.
Local Open Scope Z_scope.

(** ** Staging files at a start *)

Definition is_staging (dir p : PathBuf) : bool :=
  match file_name p with Some n => bool_decide (Paths.parent p = Some dir) && String.prefix "write_" n | None => false end.
(** [protected]: the staging files restored handles still write to. *)
(* lib.rs:5057-5079 NextCloudFs::new *)
Definition sweep_staging (rm : PathBuf → bool) (protected : gset PathBuf) (j : MutationJournal) : MutationJournal :=
  let referenced : gset PathBuf := list_to_set (omap (λ e, op_staging (op e)) (entries j)) in
  set_files j (filter (λ q, (is_staging (cache_dir j) q.1 && bool_decide (q.1 ∉ referenced) && bool_decide (q.1 ∉ protected) && rm q.1) = false)
                 (files (disk j))).

(** ** The saved cache map *)

(** [file_cache.json]: version, kept, size. *)
Abbreviation FileJson := (gmap PathBuf (Etag * bool * Z)).
(* lib.rs:3840-3845 save_file_cache *)
Definition persisted_files (c : FsCache) : FileJson :=
  omap (λ e, (λ t, (t, fc_kept e, fc_size e)) <$> fc_etag e) (file_cache c).

Section local.
Context {W : Type} `{KeepConfig} (rm : PathBuf → bool).
Implicit Types (m : Mount W).

(** The mount and [file_cache.json]; writing it is taken to succeed. *)
Record Local := { lc_mount : Mount W; lc_json : FileJson }.
(* lib.rs:3837-3857 save_file_cache *)
Definition save_file_cache (l : Local) : Local := {| lc_mount := lc_mount l; lc_json := persisted_files (m_cache (lc_mount l)) |}.
Definition on_lc (f : Mount W → Mount W) (l : Local) : Local := {| lc_mount := f (lc_mount l); lc_json := lc_json l |}.

Definition m_disk m : Files := files (disk (m_journal m)).
Definition forget_copy (p : PathBuf) : Mount W → Mount W := upd_cache (λ c, with_file_cache c (delete p (file_cache c))).
Definition now_remote (p : PathBuf) (m : Mount W) : Mount W := upd_core (mark_dirty [p]) (put_status p Remote m).

(** ** The periodic cleanup *)

(* lib.rs:3934-3939 run_cache_cleanup *)
Record CachedFile := { cf_path : PathBuf; cf_remote : PathBuf; cf_size : Z; cf_accessed : SystemTime }.
Record Cleaning := { cl_mount : Mount W; cl_total : Z; cl_evicted : list CachedFile }.

(* lib.rs:3979-3988 run_cache_cleanup *)
Definition evict_copy (f : CachedFile) (c : Cleaning) : Cleaning :=
  if rm (cf_path f) then
    {| cl_mount := now_remote (cf_remote f) (forget_copy (cf_remote f) (drop_file (cf_path f) (cl_mount c)));
       cl_total := cl_total c - cf_size f; cl_evicted := cl_evicted c ++ [f] |}
  else c.

(** [Vec::swap_remove]: the last element takes the place. *)
Definition swap_remove {A} (i : nat) (l : list A) : list A :=
  match last (drop (S i) l) with
  | Some x => take i l ++ x :: take (length l - i - 2) (drop (S i) l)
  | None => take i l
  end.
(* lib.rs:3975-3992 run_cache_cleanup *)
Fixpoint purge_old (fuel : nat) (cutoff : SystemTime) (i : nat) (files : list CachedFile) (c : Cleaning) : list CachedFile * Cleaning :=
  match fuel, files !! i with
  | S fuel, Some f =>
      if cf_accessed f <? cutoff then purge_old fuel cutoff i (swap_remove i files) (evict_copy f c)
      else purge_old fuel cutoff (S i) files c
  | _, _ => (files, c)
  end.

Definition by_access (a b : CachedFile) : Prop := cf_accessed a ≤ cf_accessed b.
#[export] Instance by_access_dec : RelDecision by_access.
Proof. intros a b. apply Z_le_dec. Defined.
#[export] Instance by_access_total : Total by_access.
Proof. intros a b. unfold by_access. lia. Qed.
#[export] Instance by_access_trans : Transitive by_access.
Proof. intros a b c. unfold by_access. lia. Qed.
(* lib.rs:3997-4009 run_cache_cleanup *)
Fixpoint shrink (max_bytes : Z) (files : list CachedFile) (c : Cleaning) : Cleaning :=
  match files with
  | [] => c
  | f :: files => if cl_total c <=? max_bytes then c else shrink max_bytes files (evict_copy f c)
  end.

(** What the walk collects, in some order. *)
(* lib.rs:3944-3962 run_cache_cleanup *)
Definition walk_dir (accessed : PathBuf → SystemTime) (fs : Files) : list CachedFile :=
  omap (λ q, rel ← strip_prefix q.1 auto_cache_dir;
             Some {| cf_path := q.1; cf_remote := join root rel; cf_size := blen (lf_bytes q.2); cf_accessed := accessed q.1 |})
    (map_to_list fs).
Fixpoint total_of (l : list CachedFile) : Z := match l with [] => 0 | f :: l => cf_size f + total_of l end.

(* lib.rs:3964-4010 run_cache_cleanup *)
Definition clean (now : SystemTime) (max_bytes purge_days : Z) (files : list CachedFile) m : Cleaning :=
  let c := {| cl_mount := m; cl_total := total_of files; cl_evicted := [] |} in
  let '(files, c) := if 0 <? purge_days then purge_old (length files) (now - secs (purge_days * 86400)) 0 files c else (files, c) in
  if (0 <? max_bytes) && (max_bytes <? cl_total c) then shrink max_bytes (merge_sort by_access files) c else c.
(** [files]: what the walk gave, in its order. *)
(* lib.rs:3925-4016 run_cache_cleanup *)
Definition run_cache_cleanup (now : SystemTime) (max_bytes purge_days : Z) (files : list CachedFile) (l : Local) : Local :=
  let c := clean now max_bytes purge_days files (lc_mount l) in
  let l := {| lc_mount := cl_mount c; lc_json := lc_json l |} in
  if bool_decide (cl_evicted c = []) then l else save_file_cache l.

(** ** Free up space *)

(** The paths whose local bytes may be the only copy of an edit. *)
Definition unsynced m : gset PathBuf :=
  list_to_set (omap (λ e, (λ _, op_path (op e)) <$> op_staging (op e)) (entries (m_journal m))).
(** [during]: what runs between the look at the journal and the cache's lock. *)
(* lib.rs:5433-5492 evict_callback *)
Definition evict_callback (during : Local → Local) (remote_path : PathBuf) (l : Local) : Local :=
  let pending := unsynced (lc_mount l) in
  let l := during l in
  let under := List.filter (λ q, starts_with q.1 remote_path && bool_decide (q.1 ∉ pending)) (map_to_list (file_cache (m_cache (lc_mount l)))) in
  let l := on_lc (λ m, foldl (λ m q, forget_copy q.1 m) m under) l in
  let l := on_lc (λ m, foldl (λ m q, if rm (fc_local_path q.2) then drop_file (fc_local_path q.2) m else m) m under) l in
  let l := save_file_cache l in
  on_lc (λ m, let m := foldl (λ m q, now_remote q.1 m) m under in
              if bool_decide (remote_path ∈ pending) then m else put_status remote_path Remote m) l.

(** ** Purge *)

(* lib.rs:5512-5523 purge_callback *)
Definition purge_survey m : gset PathBuf * gset PathBuf :=
  (unsynced m, list_to_set (omap (λ e, op_staging (op e)) (entries (m_journal m)))).
(* lib.rs:5524-5545 purge_callback *)
Definition purge_copies (protected : gset PathBuf) m : Mount W :=
  let to_remove := List.filter (λ q, bool_decide (q.1 ∉ protected)) (map_to_list (file_cache (m_cache m))) in
  foldl (λ m q, if rm (fc_local_path q.2) || bool_decide (m_disk m !! fc_local_path q.2 = None)
                then now_remote q.1 (forget_copy q.1 (drop_file (fc_local_path q.2) m)) else m) m to_remove.

(** [<str as FromStr>::parse] of an unsigned number, the overflow of a u64 apart. *)
Fixpoint parse_digits (s : string) (n : nat) : option nat :=
  match s with
  | EmptyString => Some n
  | String c s =>
      let d := (Ascii.nat_of_ascii c - 48)%nat in
      if (Ascii.nat_of_ascii c <? 48)%nat || (9 <? d)%nat then None else parse_digits s (n * 10 + d)%nat
  end.
Definition parse_number (s : string) : option nat :=
  match s with EmptyString => None | String "+"%char EmptyString => None | String "+"%char s => parse_digits s 0 | s => parse_digits s 0 end.
(** The handle a staging file is named after. *)
Definition staging_fh (dir p : PathBuf) : option nat :=
  n ← file_name p; if is_staging dir p then parse_number (String.substring 6 (String.length n - 6) n) else None.
Definition purges (staged_ : gset PathBuf) (open_ : gmap nat OpenFile) (dir p : PathBuf) : bool :=
  match staging_fh dir p with
  | Some fh => bool_decide (p ∉ staged_) && bool_decide (open_ !! fh = None) && rm p
  | None => false
  end.
(* lib.rs:5553-5577 purge_callback *)
Definition purge_staging (staged_ : gset PathBuf) m : Mount W :=
  upd_j (λ j, set_files j (filter (λ q, purges staged_ (m_files m) (cache_dir j) q.1 = false) (files (disk j)))) m.

(* notify_push.rs:233-251 invalidate_all_dirs *)
Definition invalidate_all_dirs m : Mount W :=
  let all := (map_to_list (dir_cache (m_cache m))).*1 in
  upd_core (mark_dirty all) (upd_cache (λ c, with_dirs c ((λ d,
    Build_DirCacheEntry (d_files d) (d_self_entry d) (d_etag d) (d_at d) (d_fetched_at d) false true (d_hard_expired d)
      (d_expiry_retry_after d) (d_last_access d)) <$> dir_cache c)) m).

(** [during]: what runs while the copies are removed, after the journal was looked at. *)
(* lib.rs:5502-5588 purge_callback *)
Definition purge_callback (during : Local → Local) (l : Local) : Local :=
  let '(protected, staged_) := purge_survey (lc_mount l) in
  let l := save_file_cache (on_lc (purge_copies protected) l) in
  let l := during l in
  on_lc (λ m, invalidate_all_dirs (purge_staging staged_ m)) l.

(** ** The cleanup keeps within its limit *)

Lemma swap_remove_spec {A} (l : list A) i x : l !! i = Some x →
  l ≡ₚ x :: swap_remove i l ∧ take i (swap_remove i l) = take i l ∧ length l = S (length (swap_remove i l)).
Proof.
  intros Hx. pose proof (lookup_lt_Some _ _ _ Hx) as Hi. rewrite <- (take_drop_middle l i x Hx) at 1.
  unfold swap_remove. set (t := drop (S i) l). assert (Ht : length t = (length l - i - 1)%nat) by (unfold t; rewrite length_drop; lia).
  assert (Hti : length (take i l) = i) by (rewrite length_take; lia).
  destruct (last t) as [y|] eqn:El.
  - apply last_Some in El as [t' Et]. assert (E : take (length l - i - 2) t = t').
    { rewrite Et, take_app_le, firstn_all2; [done| |]; apply (f_equal length) in Et; rewrite length_app in Et; cbn in Et; lia. }
    assert (Hl : length t = S (length t')) by (rewrite Et, length_app; cbn; lia).
    rewrite E. split_and!; [|by rewrite take_app_length'|rewrite length_app; cbn; lia]. rewrite Et.
    rewrite <- Permutation_middle. apply Permutation_skip, Permutation_app_head. by rewrite Permutation_app_comm.
  - apply last_None in El. rewrite El. split_and!; [by rewrite <- Permutation_middle, app_nil_r|by rewrite take_idemp|].
    rewrite El in Ht. cbn in Ht. lia.
Qed.

Lemma total_perm l l' : l ≡ₚ l' → total_of l = total_of l'.
Proof. induction 1; cbn; lia. Qed.
Lemma total_of_app l l' : total_of (l ++ l') = total_of l + total_of l'.
Proof. induction l; cbn; [done|]. rewrite IHl. lia. Qed.

(** What has been evicted is gone, and nothing else has changed. *)
Record evicted m (c : Cleaning) : Prop := {
  ev_disk : m_disk (cl_mount c) = filter (λ q, q.1 ∉ cf_path <$> cl_evicted c) (m_disk m);
  ev_gone : ∀ f, f ∈ cl_evicted c → file_cache (m_cache (cl_mount c)) !! cf_remote f = None ∧ r_status (m_core (cl_mount c)) !! cf_remote f = Some Remote;
  ev_cache : ∀ p, p ∉ cf_remote <$> cl_evicted c → file_cache (m_cache (cl_mount c)) !! p = file_cache (m_cache m) !! p;
  ev_rest : cache_dir (m_journal (cl_mount c)) = cache_dir (m_journal m) ∧ entries (m_journal (cl_mount c)) = entries (m_journal m) ∧ m_files (cl_mount c) = m_files m;
}.
(** [left] is what is not evicted yet, and the count is of it. *)
Record counted m (files left : list CachedFile) (c : Cleaning) : Prop := {
  ct_files : files ≡ₚ cl_evicted c ++ left;
  ct_total : cl_total c = total_of left;
  ct_rm : Forall (λ f, rm (cf_path f) = true) (cl_evicted c);
  ct_evicted : evicted m c;
}.

Lemma evict_counted m files left left' f c : counted m files left c → left ≡ₚ f :: left' → rm (cf_path f) = true →
  counted m files left' (evict_copy f c) ∧ cl_evicted (evict_copy f c) = cl_evicted c ++ [f].
Proof.
  intros [C1 C2 C3 [E1 E2 E3 (E6 & E4 & E5)]] Hl Hrm. unfold evict_copy. rewrite Hrm. split; [|done]. split; cbn [cl_evicted cl_total cl_mount].
  - by rewrite C1, Hl, <- app_assoc.
  - rewrite C2, (total_perm _ _ Hl). cbn. lia.
  - apply Forall_app. split; [done|by apply Forall_singleton].
  - split; cbn [cl_mount cl_evicted].
    + change (delete (cf_path f) (m_disk (cl_mount c)) = filter (λ q, q.1 ∉ cf_path <$> cl_evicted c ++ [f]) (m_disk m)).
      rewrite E1. apply map_eq. intros p. apply option_eq. intros x.
      rewrite lookup_delete_Some, !map_lookup_filter_Some, fmap_app, not_elem_of_app. cbn. rewrite list_elem_of_singleton. naive_solver.
    + intros g [Hg|<-%list_elem_of_singleton]%elem_of_app.
      * destruct (E2 g Hg) as [G1 G2]. split; [apply lookup_delete_None; by right|].
        change (<[cf_remote f := Remote]> (r_status (m_core (cl_mount c))) !! cf_remote g = Some Remote).
        destruct (decide (cf_remote f = cf_remote g)) as [->|?]; [apply lookup_insert_eq|by rewrite lookup_insert_ne].
      * split; [apply lookup_delete_eq|apply (lookup_insert_eq (r_status (m_core (cl_mount c))))].
    + intros p Hp. rewrite fmap_app, not_elem_of_app in Hp. destruct Hp as [Hp Hf]. cbn in Hf. rewrite list_elem_of_singleton in Hf.
      rewrite <- E3 by done. apply (lookup_delete_ne (file_cache (m_cache (cl_mount c)))). congruence.
    + by rewrite <- E4, <- E5, <- E6.
Qed.

(** One file: evicted, or it cannot be removed. *)
Lemma evict_case m files left left' f c : counted m files left c → left ≡ₚ f :: left' →
  (rm (cf_path f) = true ∧ counted m files left' (evict_copy f c) ∧ cl_evicted (evict_copy f c) = cl_evicted c ++ [f]) ∨
  (rm (cf_path f) = false ∧ evict_copy f c = c).
Proof.
  intros Hc Hl. destruct (rm (cf_path f)) eqn:Hrm; [left|right; unfold evict_copy; by rewrite Hrm].
  split; [done|]. by eapply evict_counted.
Qed.

Definition old (cutoff : SystemTime) (f : CachedFile) : Prop := cf_accessed f < cutoff.
Lemma purge_old_spec m files cutoff fuel i fs skipped c : (length fs - i ≤ fuel)%nat → Forall (λ f, ¬ old cutoff f) (take i fs) →
  Forall (λ f, old cutoff f ∧ rm (cf_path f) = false) skipped → Forall (old cutoff) (cl_evicted c) → counted m files (fs ++ skipped) c →
  let '(fs', c') := purge_old fuel cutoff i fs c in
  ∃ skipped', counted m files (fs' ++ skipped') c' ∧ Forall (λ f, ¬ old cutoff f) fs' ∧
    Forall (λ f, old cutoff f ∧ rm (cf_path f) = false) skipped' ∧ Forall (old cutoff) (cl_evicted c').
Proof.
  revert i fs skipped c. induction fuel as [|fuel IH]; intros i fs skipped c Hf Hi Hs He Hc; cbn [purge_old].
  { exists skipped. split_and!; try done. by rewrite take_ge in Hi by lia. }
  destruct (fs !! i) as [f|] eqn:Hx; [|exists skipped; split_and!; try done; apply lookup_ge_None in Hx; by rewrite take_ge in Hi].
  pose proof (lookup_lt_Some _ _ _ Hx) as Hlt. destruct (cf_accessed f <? cutoff) eqn:Ho.
  - apply Z.ltb_lt in Ho. destruct (swap_remove_spec fs i f Hx) as (Hp & Htk & Hlen).
    assert (Hl : fs ++ skipped ≡ₚ f :: swap_remove i fs ++ skipped) by (by rewrite Hp at 1).
    destruct (evict_case _ _ _ _ _ _ Hc Hl) as [(Hr & Hc' & He')|(Hr & ->)].
    + apply (IH i (swap_remove i fs) skipped); [lia|by rewrite Htk|done|rewrite He'; apply Forall_app; split; [done|by apply Forall_singleton]|done].
    + apply (IH i (swap_remove i fs) (f :: skipped)); [lia|by rewrite Htk|by apply Forall_cons|done|].
      destruct Hc as [C1 C2 C3 C4]. split; [by rewrite C1, Hl, Permutation_middle| |done|done].
      rewrite C2. apply total_perm. by rewrite Hl, Permutation_middle.
  - apply (IH (S i) fs skipped); [lia| |done|done|done]. rewrite (take_S_r _ _ f) by done. apply Forall_app. split; [done|].
    apply Forall_singleton. apply Z.ltb_ge in Ho. unfold old. lia.
Qed.

Lemma shrink_spec m files max_bytes fs skipped c : StronglySorted by_access fs → counted m files (fs ++ skipped) c →
  let c' := shrink max_bytes fs c in
  ∃ new left, cl_evicted c' = cl_evicted c ++ new ∧ counted m files (left ++ skipped) c' ∧ left ⊆ fs ∧
    (cl_total c' ≤ max_bytes ∨ Forall (λ f, rm (cf_path f) = false) left) ∧
    (∀ f g, f ∈ new → g ∈ left → rm (cf_path g) = true → cf_accessed f ≤ cf_accessed g) ∧
    (∀ pre f post, new = pre ++ f :: post → max_bytes < cl_total c - total_of pre).
Proof.
  revert skipped c. induction fs as [|f fs IH]; intros skipped c Hs Hc; cbn [shrink].
  { exists [], []. split_and!; try done; [by rewrite app_nil_r|by right|by intros ? ? ?%elem_of_nil|by intros [] ? ?]. }
  destruct (cl_total c <=? max_bytes) eqn:Ht.
  { exists [], (f :: fs). apply Z.leb_le in Ht. split_and!; try done; [by rewrite app_nil_r|by left|by intros ? ? ?%elem_of_nil|by intros [] ? ?]. }
  apply Z.leb_gt in Ht. apply StronglySorted_inv in Hs as [Hs Hle].
  destruct (evict_case _ _ _ (fs ++ skipped) f _ Hc) as [(Hr & Hc' & He)|(Hr & ->)]; [done| |].
  - destruct (IH skipped (evict_copy f c) Hs Hc') as (new & left & E1 & E2 & E3 & E4 & E5 & E6).
    exists (f :: new), left. cbv zeta in *. split_and!; [by rewrite E1, He, <- app_assoc|done|set_solver|done| |].
    + intros g h [->|Hg]%elem_of_cons Hh Hrh; [|by apply E5]. rewrite Forall_forall in Hle. apply Hle. by apply E3.
    + intros [|g pre] h post [= -> ->]; cbn; [lia|]. pose proof (E6 pre h post eq_refl) as H6.
      unfold evict_copy in H6. rewrite Hr in H6. cbn in H6. lia.
  - destruct (IH (f :: skipped) c Hs) as (new & left & E1 & E2 & E3 & E4 & E5 & E6).
    { destruct Hc as [C1 C2 C3 C4]. split; [by rewrite C1; cbn; rewrite Permutation_middle| |done|done].
      rewrite C2. apply total_perm. cbn. by rewrite Permutation_middle. }
    exists new, (f :: left). split_and!; [done| |set_solver| | |done].
    + destruct E2 as [C1 C2 C3 C4]. split; [by rewrite C1; cbn; rewrite Permutation_middle| |done|done].
      rewrite C2. apply total_perm. cbn. by rewrite Permutation_middle.
    + destruct E4; [by left|right; by apply Forall_cons].
    + intros g h Hg [->|Hh]%elem_of_cons Hrh; [congruence|by apply E5].
Qed.

(** What the walk finds: one record per file of the cache, determined by its path. *)
Lemma walk_elem accessed fs f : f ∈ walk_dir accessed fs ↔
  ∃ lf rel, fs !! cf_path f = Some lf ∧ strip_prefix (cf_path f) auto_cache_dir = Some rel ∧
    f = {| cf_path := cf_path f; cf_remote := join root rel; cf_size := blen (lf_bytes lf); cf_accessed := accessed (cf_path f) |}.
Proof.
  unfold walk_dir. rewrite list_elem_of_omap. split.
  - intros ([p lf] & Hin%elem_of_map_to_list & Hf). cbn in Hf. destruct (strip_prefix p auto_cache_dir) as [rel|] eqn:E; [|done].
    injection Hf as <-. by exists lf, rel.
  - intros (lf & rel & Hl & E & ->). exists (cf_path f, lf). rewrite elem_of_map_to_list. split; [done|]. cbn. by rewrite E.
Qed.
Lemma walk_nodup accessed fs : NoDup (cf_path <$> walk_dir accessed fs).
Proof.
  unfold walk_dir. pose proof (NoDup_fst_map_to_list fs) as Hn. induction (map_to_list fs) as [|[p lf] l IH]; cbn; [constructor|].
  apply NoDup_cons in Hn as [Hp Hn]. destruct (strip_prefix p auto_cache_dir) as [rel|]; cbn; [|by apply IH]. apply NoDup_cons.
  split; [|by apply IH]. intros (f & Ef & Hf)%list_elem_of_fmap. apply list_elem_of_omap in Hf as ([p' lf'] & Hin & Hf). cbn in Hf.
  destruct (strip_prefix p' _); [|done]. injection Hf as <-. cbn in Ef. subst. apply Hp, list_elem_of_fmap. by exists (p', lf').
Qed.

Lemma walk_after accessed m files left c : files ≡ₚ walk_dir accessed (m_disk m) → counted m files left c →
  left ≡ₚ walk_dir accessed (m_disk (cl_mount c)).
Proof.
  intros Hw [C1 _ _ [E1 _ _ _]]. pose proof (walk_nodup accessed (m_disk m)) as Hn. rewrite <- Hw, C1, fmap_app in Hn.
  apply NoDup_app in Hn as (_ & Hd & Hl). apply NoDup_Permutation.
  - by apply NoDup_fmap_1 in Hl.
  - eapply NoDup_fmap_1, walk_nodup.
  - intros f. rewrite walk_elem, E1. setoid_rewrite map_lookup_filter_Some. cbn.
    assert (Hf : f ∈ walk_dir accessed (m_disk m) ↔ f ∈ cl_evicted c ∨ f ∈ left) by (by rewrite <- Hw, C1, elem_of_app).
    rewrite walk_elem in Hf. split.
    + intros Hin. destruct (proj2 Hf (or_intror Hin)) as (lf & rel & ? & ? & ?). exists lf, rel. split_and!; try done.
      intros He. apply (Hd _ He). by apply list_elem_of_fmap_2.
    + intros (lf & rel & [? Hne] & ? & ?). destruct (proj1 Hf) as [He|]; [by exists lf, rel| |done].
      exfalso. by apply Hne, list_elem_of_fmap_2.
Qed.

Section cleaned.
Context (now max_bytes purge_days : Z) (files : list CachedFile) m.
Definition aged (f : CachedFile) : Prop := 0 < purge_days ∧ cf_accessed f < now - secs (purge_days * 86400).
Local Abbreviation c0 := {| cl_mount := m; cl_total := total_of files; cl_evicted := [] |}.

Lemma purge_phase : ∃ fs sk c1,
  (if 0 <? purge_days then purge_old (length files) (now - secs (purge_days * 86400)) 0 files c0 else (files, c0)) = (fs, c1) ∧
  counted m files (fs ++ sk) c1 ∧ Forall (λ f, ¬ aged f) fs ∧ Forall (λ f, rm (cf_path f) = false) sk ∧ Forall aged (cl_evicted c1).
Proof.
  assert (H0 : counted m files (files ++ []) c0).
  { split; [by rewrite app_nil_r|by rewrite app_nil_r|constructor|]. split; [|by intros f ?%elem_of_nil|done|done].
    symmetry. apply map_filter_id. intros p x _. by apply not_elem_of_nil. }
  destruct (0 <? purge_days) eqn:Hd.
  - pose proof (purge_old_spec m files (now - secs (purge_days * 86400)) (length files) 0 files [] c0) as Hs.
    destruct (purge_old _ _ _ _ _) as [fs c1]. apply Z.ltb_lt in Hd.
    destruct Hs as (sk & S1 & S2 & S3 & S4); [lia|constructor|constructor|constructor|done|]. exists fs, sk, c1. split_and!; [done|done| | |].
    + eapply Forall_impl; [done|]. intros f Hf [_ Ha]. by apply Hf.
    + eapply Forall_impl; [done|]. by intros f [_ ?].
    + eapply Forall_impl; [done|]. intros f ?. by split.
  - apply Z.ltb_ge in Hd. exists files, [], c0. split_and!; [done|done| |constructor|constructor].
    apply Forall_true. intros f [Ha _]. lia.
Qed.

Lemma counted_perm fs fs' sk c : fs ≡ₚ fs' → counted m files (fs ++ sk) c → counted m files (fs' ++ sk) c.
Proof. intros Hp [C1 C2 C3 C4]. split; try done; [by rewrite <- Hp|]. rewrite C2. apply total_perm. by rewrite Hp. Qed.

Lemma size_phase fs sk c1 : counted m files (fs ++ sk) c1 →
  let c := if (0 <? max_bytes) && (max_bytes <? cl_total c1) then shrink max_bytes (merge_sort by_access fs) c1 else c1 in
  ∃ rest new, counted m files (rest ++ sk) c ∧ cl_evicted c = cl_evicted c1 ++ new ∧ rest ⊆ fs ∧
    (0 < max_bytes → cl_total c ≤ max_bytes ∨ Forall (λ f, rm (cf_path f) = false) rest) ∧
    (∀ f g, f ∈ new → g ∈ rest → rm (cf_path g) = true → cf_accessed f ≤ cf_accessed g) ∧
    (∀ pre f post, new = pre ++ f :: post → 0 < max_bytes ∧ max_bytes < total_of files - total_of (cl_evicted c1 ++ pre)).
Proof.
  intros Hc1. destruct ((0 <? max_bytes) && (max_bytes <? cl_total c1)) eqn:Hb; cbv zeta.
  - bool_prop. pose proof (merge_sort_Permutation by_access fs) as Hp.
    destruct (shrink_spec m files max_bytes (merge_sort by_access fs) sk c1) as (new & rest & R1 & R2 & R3 & R4 & R5 & R6).
    + apply StronglySorted_merge_sort; apply _.
    + by apply (counted_perm fs).
    + exists rest, new. split_and!; try done; [intros f Hf; rewrite <- Hp; by apply R3|]. intros pre f post Hn. split; [done|].
      pose proof (R6 pre f post Hn) as H6. destruct Hc1 as [D1 D2 _ _]. rewrite (total_perm _ _ D1), !(total_of_app (cl_evicted c1)). lia.
  - exists fs, []. split_and!; [done|by rewrite app_nil_r|done| |by intros ? ? ?%elem_of_nil|by intros [] ? ?].
    intros Hm. left. destruct (0 <? max_bytes) eqn:Hm'; [by apply Z.ltb_ge in Hb|apply Z.ltb_ge in Hm'; lia].
Qed.
End cleaned.

(** C15: The periodic cleanup keeps the cache within its limits and takes no more than it must.
    Whatever the walk's order and whichever files cannot be removed: what was found is what
    was evicted and what is still there, nothing else on disk or in the journal changes, and
    of an evicted file no copy is listed and its status is Remote.  Afterwards no removable
    copy is older than the age limit, and the copies fit the size limit or none of them can
    be removed; a file within the age limit was evicted only while the copies did not fit,
    and no removable copy that stays was used less recently. *)
Theorem cleanup_within now max_bytes purge_days accessed files m : files ≡ₚ walk_dir accessed (m_disk m) →
  let c := clean now max_bytes purge_days files m in
  let left := walk_dir accessed (m_disk (cl_mount c)) in
  files ≡ₚ cl_evicted c ++ left ∧
  m_disk (cl_mount c) = filter (λ q, q.1 ∉ cf_path <$> cl_evicted c) (m_disk m) ∧
  entries (m_journal (cl_mount c)) = entries (m_journal m) ∧
  (∀ f, f ∈ cl_evicted c → file_cache (m_cache (cl_mount c)) !! cf_remote f = None ∧
     r_status (m_core (cl_mount c)) !! cf_remote f = Some Remote) ∧
  (∀ f, f ∈ left → aged now purge_days f → rm (cf_path f) = false) ∧
  (0 < max_bytes → total_of left ≤ max_bytes ∨ ∀ f, f ∈ left → rm (cf_path f) = false) ∧
  (∀ pre f post, cl_evicted c = pre ++ f :: post → aged now purge_days f ∨ (0 < max_bytes ∧ max_bytes < total_of files - total_of pre ∧
     ∀ g, g ∈ left → rm (cf_path g) = true → cf_accessed f ≤ cf_accessed g)).
Proof.
  intros Hw c left. destruct (purge_phase now purge_days files m) as (fs & sk & c1 & E & Hc1 & Hfs & Hsk & Hev).
  destruct (size_phase max_bytes files m fs sk c1 Hc1) as (rest & new & Hc & Hn & Hrest & Hfit & Hlru & Hmin). cbv zeta in *.
  assert (Ec : c = if (0 <? max_bytes) && (max_bytes <? cl_total c1) then shrink max_bytes (merge_sort by_access fs) c1 else c1)
    by (unfold c, clean; by rewrite E).
  rewrite <- Ec in *. clearbody c. pose proof (walk_after accessed m files _ c Hw Hc) as Hwa. fold left in Hwa.
  destruct Hc as [C1 C2 _ [E1 E2 _ (_ & E4 & _)]]. rewrite Forall_forall in Hfs, Hsk, Hev.
  split_and!; [by rewrite <- Hwa|done|done|done| | |].
  - intros f. rewrite <- Hwa. intros [Hf|Hf]%elem_of_app Ha; [by destruct (Hfs f (Hrest f Hf) Ha)|by apply Hsk].
  - intros Hm. rewrite <- (total_perm _ _ Hwa), <- C2. destruct (Hfit Hm) as [?|Hr]; [by left|right]. intros f. rewrite <- Hwa, elem_of_app.
    rewrite Forall_forall in Hr. intros [?|?]; auto.
  - intros pre f post He. rewrite Hn in He. assert (Hf : f ∈ cl_evicted c1 ∨ ∃ k, pre = cl_evicted c1 ++ k ∧ new = k ++ f :: post).
    { apply app_eq_inv in He as [(k & E3 & E5)|(k & -> & E5)]; [|right; by exists k].
      destruct k as [|g k]; [right; exists []; rewrite app_nil_r in *; by split|left; injection E5 as <- E5]. rewrite E3. set_solver. }
    destruct Hf as [Hf|(k & -> & Hk)]; [left; by apply Hev|right]. destruct (Hmin k f post Hk) as [M1 M2]. split_and!; [done|done|].
    intros g. rewrite <- Hwa. intros [Hg|Hg]%elem_of_app Hr; [|by rewrite Hsk in Hr]. apply Hlru; [rewrite Hk; set_solver|done|done].
Qed.

(** ** Nothing unsynced is taken *)

Lemma parse_go x s : parse_digits (pretty.pretty_N_go x s) 0 = parse_digits s (N.to_nat x).
Proof.
  revert s. induction (N.lt_wf_0 x) as [x _ IH]; intros s. assert (x = 0 ∨ 0 < x)%N as [->|Hx] by lia; [done|].
  rewrite pretty.pretty_N_go_step, IH by (done || by apply N.div_lt). cbn [parse_digits].
  pose proof (N.mod_lt x 10 ltac:(done)) as Hd. pose proof (N.div_mod x 10 ltac:(done)) as Hm.
  generalize dependent (x `mod` 10)%N. generalize (x `div` 10)%N. intros q d Hd Hm.
  assert (Hc : Ascii.nat_of_ascii (pretty.pretty_N_char d) = (48 + N.to_nat d)%nat).
  { clear Hm. assert (d = 0 ∨ d = 1 ∨ d = 2 ∨ d = 3 ∨ d = 4 ∨ d = 5 ∨ d = 6 ∨ d = 7 ∨ d = 8 ∨ d = 9)%N as Hn by lia.
    by repeat destruct Hn as [->|Hn]; subst. }
  rewrite Hc. replace (48 + N.to_nat d - 48)%nat with (N.to_nat d) by lia.
  rewrite (proj2 (Nat.ltb_ge _ _)), (proj2 (Nat.ltb_ge _ _)) by lia. cbn [orb]. f_equal. lia.
Qed.
Lemma parse_number_pretty (n : nat) : parse_number (pretty.pretty n) = Some n.
Proof.
  assert (H0 : parse_digits (pretty.pretty n) 0 = Some n ∧ pretty.pretty n ≠ ""%string).
  { unfold pretty.pretty, pretty.pretty_nat, pretty.pretty, pretty.pretty_N. case_decide as Hn; [assert (n = 0%nat) as -> by lia; done|].
    rewrite parse_go. cbn [parse_digits]. split; [f_equal; lia|]. rewrite pretty.pretty_N_go_step by lia. intros E. pose proof (parse_go (N.of_nat n) "") as Hp.
    rewrite pretty.pretty_N_go_step, E in Hp by lia. cbn in Hp. injection Hp. lia. }
  destruct H0 as [H0 Hne]. destruct (pretty.pretty n) as [|c s]; [done|]. unfold parse_number.
  destruct c as [[] [] [] [] [] [] [] []]; try done; by destruct s.
Qed.

Lemma substring_all s : String.substring 0 (String.length s) s = s.
Proof. induction s; cbn; [done|]. by f_equal. Qed.
Lemma write_name s : String.prefix "write_" ("write_" +:+ s) = true ∧
  String.substring 6 (String.length ("write_" +:+ s) - 6) ("write_" +:+ s) = s.
Proof. split; [by destruct s|]. change (String.substring 0 (String.length s - 0) s = s). rewrite Nat.sub_0_r. apply substring_all. Qed.
Lemma staging_fh_path m fh : staging_fh (cache_dir (m_journal m)) (staging_path m fh) = Some fh.
Proof.
  unfold staging_fh, staging_path, is_staging, file_name, join. rewrite last_snoc. cbn [mbind option_bind].
  destruct (write_name (pretty.pretty fh)) as [-> ->]. rewrite bool_decide_true by apply Naming.parent_snoc. apply parse_number_pretty.
Qed.

(** Where things are: staging files in the cache directory itself, under [write_] or
    [adopted_], each handle's under its own number; copies below their two folders. *)
Record layout m : Prop := {
  ly_dirs : kept_dir = join (cache_dir (m_journal m)) ["kept"%string] ∧ auto_cache_dir = join (cache_dir (m_journal m)) ["cache"%string];
  ly_staged : ∀ e sp, e ∈ entries (m_journal m) → op_staging (op e) = Some sp → ∃ n, sp = join (cache_dir (m_journal m)) [n] ∧ n ≠ "kept"%string ∧ n ≠ "cache"%string;
  ly_handles : ∀ fh o wp, m_files m !! fh = Some o → write_path o = Some wp → wp = staging_path m fh;
  ly_copies : ∀ p fc, file_cache (m_cache m) !! p = Some fc →
    starts_with (fc_local_path fc) kept_dir = true ∨ starts_with (fc_local_path fc) auto_cache_dir = true;
}.
(** A file a save still needs: queued, or the staging file of an open handle. *)
Definition needed m (sp : PathBuf) : Prop :=
  (∃ e, e ∈ entries (m_journal m) ∧ op_staging (op e) = Some sp) ∨ ∃ fh o, m_files m !! fh = Some o ∧ write_path o = Some sp.

Lemma needed_not_copy m sp p : layout m → needed m sp → starts_with p kept_dir = true ∨ starts_with p auto_cache_dir = true → p ≠ sp.
Proof.
  intros L Hn Hp ->. assert (Hs : ∃ n, sp = join (cache_dir (m_journal m)) [n] ∧ n ≠ "kept"%string ∧ n ≠ "cache"%string).
  { destruct Hn as [(e & He & Ho)|(fh & o & Ho & Hw)]; [by eapply ly_staged|]. rewrite (ly_handles _ L _ _ _ Ho Hw).
    eexists. split; [done|]. by split; intros [=]. }
  destruct Hs as (n & -> & H1 & H2). destruct (ly_dirs _ L) as [Ek Ec]. rewrite Ek, Ec in Hp. unfold join in *.
  destruct Hp as [[q E]%starts_with_prefix|[q E]%starts_with_prefix]; rewrite <- app_assoc in E; apply app_inv_head in E; injection E; congruence.
Qed.

(** The ways local files are taken away while the daemon runs; a purge with nothing in
    between, an eviction with anything that keeps the layout. *)
Inductive reclaims : Local → Local → Prop :=
| rc_cleanup now max_bytes days accessed files l : files ≡ₚ walk_dir accessed (m_disk (lc_mount l)) →
    reclaims l (run_cache_cleanup now max_bytes days files l)
| rc_evict during p l : layout (lc_mount (during l)) → reclaims (during l) (evict_callback during p l)
| rc_purge l : reclaims l (purge_callback (λ l, l) l).

(** The queue and the handles as they were, and every file a save needs. *)
Definition spares m m' : Prop :=
  cache_dir (m_journal m') = cache_dir (m_journal m) ∧ entries (m_journal m') = entries (m_journal m) ∧ m_files m' = m_files m ∧
  ∀ sp, needed m sp → m_disk m' !! sp = m_disk m !! sp.
Lemma spares_refl m : spares m m.
Proof. by split_and!. Qed.
Lemma spares_trans m1 m2 m3 : spares m1 m2 → spares m2 m3 → spares m1 m3.
Proof.
  intros (A0 & A1 & A2 & A3) (B0 & B1 & B2 & B3). split_and!; [congruence|congruence|congruence|]. intros sp Hn. rewrite B3; [by apply A3|].
  unfold needed. by rewrite A1, A2.
Qed.
(** Steps that leave files, queue and handles alone, and the removal of a copy. *)
Lemma spares_same m m' : m_journal m' = m_journal m → m_files m' = m_files m → spares m m'.
Proof. intros Ej Ef. unfold spares, m_disk. rewrite Ej. by split_and!. Qed.
Lemma spares_drop m p : layout m → starts_with p kept_dir = true ∨ starts_with p auto_cache_dir = true → spares m (drop_file p m).
Proof.
  intros L Hp. split_and!; [done|done|done|]. intros sp Hn. apply (lookup_delete_ne (m_disk m)). by apply (needed_not_copy m).
Qed.

Lemma strip_starts p base rel : strip_prefix p base = Some rel → starts_with p base = true.
Proof. intros ->%strip_prefix_Some. apply starts_with_prefix. by eexists. Qed.

Lemma spares_cleanup now max_bytes days accessed fs l : layout (lc_mount l) → fs ≡ₚ walk_dir accessed (m_disk (lc_mount l)) →
  spares (lc_mount l) (lc_mount (run_cache_cleanup now max_bytes days fs l)).
Proof.
  intros L Hw. set (m := lc_mount l) in *. destruct (purge_phase now days fs m) as (fs1 & sk & c1 & E & Hc1 & _ & _ & _).
  destruct (size_phase max_bytes fs m fs1 sk c1 Hc1) as (rest & new & Hc & _). cbv zeta in Hc.
  assert (Hm : lc_mount (run_cache_cleanup now max_bytes days fs l) = cl_mount (clean now max_bytes days fs m)).
  { unfold run_cache_cleanup. by case_bool_decide. }
  rewrite Hm. unfold clean. fold m. rewrite E. destruct Hc as [C1 _ _ [E1 _ _ (E4 & E5 & E6)]].
  split_and!; try done. intros sp Hn. rewrite E1. destruct (m_disk m !! sp) as [f|] eqn:Ef; [|by apply map_lookup_filter_None; left].
  apply map_lookup_filter_Some. split; [done|]. cbn. intros (g & -> & Hg)%list_elem_of_fmap.
  assert (Hin : g ∈ fs) by (rewrite C1; apply elem_of_app; by left). rewrite Hw, walk_elem in Hin. destruct Hin as (lf & rel & _ & Hs & _).
  apply strip_starts in Hs. by destruct (needed_not_copy m (cf_path g) (cf_path g) L Hn (or_intror Hs)).
Qed.

(** [m'] spares what [m] needs and lists no new copy, so that the layout stays. *)
Definition gives m m' : Prop := spares m m' ∧ file_cache (m_cache m') ⊆ file_cache (m_cache m).
Lemma gives_trans m1 m2 m3 : gives m1 m2 → gives m2 m3 → gives m1 m3.
Proof. intros [S1 F1] [S2 F2]. split; [by eapply spares_trans|by etrans]. Qed.
Lemma gives_layout m m' : gives m m' → layout m → layout m'.
Proof.
  intros [(A0 & A1 & A2 & _) F] [L1 L2 L3 L4]. split; rewrite ?A0, ?A1, ?A2; [done|done| |].
  - intros fh o wp Ho Hw. unfold staging_path. rewrite A0. by eapply L3.
  - intros p fc Hp. eapply L4, lookup_weaken; done.
Qed.
Definition is_copy (q : PathBuf * FileCacheEntry) : Prop :=
  starts_with (fc_local_path q.2) kept_dir = true ∨ starts_with (fc_local_path q.2) auto_cache_dir = true.
Lemma gives_fold (f : Mount W → PathBuf * FileCacheEntry → Mount W) l m :
  (∀ m q, layout m → is_copy q → gives m (f m q)) → layout m → Forall is_copy l → gives m (foldl f m l) ∧ layout (foldl f m l).
Proof.
  intros Hf. revert m. induction l as [|q l IH]; intros m L Hl; cbn [foldl]; [by split; [split; [apply spares_refl|]|]|].
  apply Forall_cons in Hl as [Hq Hl]. pose proof (Hf m q L Hq) as G. destruct (IH (f m q)) as [G' L']; [by eapply gives_layout|done|].
  split; [by eapply gives_trans|done].
Qed.
Lemma gives_drop m q : layout m → is_copy q → gives m (drop_file (fc_local_path q.2) m).
Proof. intros L Hq. split; [by apply spares_drop|done]. Qed.
Lemma gives_forget m p : gives m (forget_copy p m).
Proof. split; [by apply spares_same|apply (delete_subseteq (file_cache (m_cache m)))]. Qed.
Lemma gives_same m m' : m_journal m' = m_journal m → m_files m' = m_files m → file_cache (m_cache m') = file_cache (m_cache m) → gives m m'.
Proof. intros Ej Ef Ec. split; [by apply spares_same|by rewrite Ec]. Qed.

Lemma listed_copies m (P : PathBuf * FileCacheEntry → bool) : layout m → Forall is_copy (List.filter P (map_to_list (file_cache (m_cache m)))).
Proof.
  intros L. apply Forall_forall. intros [p fc] [Hin _]%list_elem_of_In%filter_In. apply list_elem_of_In, elem_of_map_to_list in Hin.
  by apply (ly_copies _ L) in Hin.
Qed.

Lemma gives_evict during p l : layout (lc_mount (during l)) → gives (lc_mount (during l)) (lc_mount (evict_callback during p l)).
Proof.
  intros L. unfold evict_callback. set (m := lc_mount (during l)) in *. set (under := List.filter _ _).
  assert (Hu : Forall is_copy under) by (by apply listed_copies). cbn [save_file_cache on_lc lc_mount]. fold m.
  destruct (gives_fold (λ m q, forget_copy q.1 m) under m) as [G1 L1]; [intros; apply gives_forget|done|done|]. set (m1 := foldl _ m under) in *.
  destruct (gives_fold (λ m q, if rm (fc_local_path q.2) then drop_file (fc_local_path q.2) m else m) under m1) as [G2 L2]; [|done|done|].
  { intros m' q L' Hq. destruct (rm _); [by apply gives_drop|by apply gives_same]. }
  set (m2 := foldl _ m1 under) in *. destruct (gives_fold (λ m q, now_remote q.1 m) under m2) as [G3 L3]; [by intros; apply gives_same|done|done|].
  eapply gives_trans; [exact G1|]. eapply gives_trans; [exact G2|]. case_bool_decide; [exact G3|]. eapply gives_trans; [exact G3|by apply gives_same].
Qed.

Lemma needed_not_purged m staged_ sp : layout m → (∀ e p, e ∈ entries (m_journal m) → op_staging (op e) = Some p → p ∈ staged_) →
  needed m sp → purges staged_ (m_files m) (cache_dir (m_journal m)) sp = false.
Proof.
  intros L Hs Hn. unfold purges. destruct Hn as [(e & He & Ho)|(fh & o & Ho & Hw)].
  - destruct (staging_fh _ sp); [|done]. by rewrite bool_decide_false by (intros Hx; by apply Hx, (Hs e)).
  - rewrite (ly_handles _ L _ _ _ Ho Hw), staging_fh_path. rewrite (bool_decide_false (m_files m !! fh = None)) by congruence.
    by rewrite andb_false_r.
Qed.
Lemma spares_purge_staging m staged_ : layout m → (∀ e p, e ∈ entries (m_journal m) → op_staging (op e) = Some p → p ∈ staged_) →
  spares m (purge_staging staged_ m).
Proof.
  intros L Hs. split_and!; [done|done|done|]. intros sp Hn. pose proof (needed_not_purged m staged_ sp L Hs Hn) as Hp.
  change (filter (λ q : PathBuf * LocalFile, purges staged_ (m_files m) (cache_dir (m_journal m)) q.1 = false) (m_disk m) !! sp = m_disk m !! sp).
  apply option_eq. intros f. rewrite map_lookup_filter_Some. naive_solver.
Qed.

Lemma spares_purge l : layout (lc_mount l) → spares (lc_mount l) (lc_mount (purge_callback (λ l, l) l)).
Proof.
  intros L. unfold purge_callback. destruct (purge_survey (lc_mount l)) as [protected staged_] eqn:E. cbn [lc_mount on_lc save_file_cache].
  set (m := lc_mount l) in *.
  assert (Hs : ∀ e p, e ∈ entries (m_journal m) → op_staging (op e) = Some p → p ∈ staged_).
  { injection E as _ <-. intros e p He Ho. apply elem_of_list_to_set, list_elem_of_omap. by exists e. }
  assert (G : gives m (purge_copies protected m) ∧ layout (purge_copies protected m)).
  { apply gives_fold; [|done|by apply listed_copies]. intros m' q L' Hq. destruct (_ || _); [|by apply gives_same].
    eapply gives_trans; [by apply gives_drop|]. eapply gives_trans; [apply gives_forget|by apply gives_same]. }
  destruct G as [[Sp F] L1]. eapply spares_trans; [exact Sp|]. destruct Sp as (_ & Ee & _ & _).
  eapply spares_trans; [apply spares_purge_staging; [done|by rewrite Ee]|by apply spares_same].
Qed.

(** C14: No housekeeping takes the bytes of a save.  However the periodic cleanup, freeing up
    space on any file or folder (whatever runs between its look at the journal and its turn
    on the cache) and an undisturbed purge run: the queue and the open handles stay as they
    were, and every staging file that a queued change still has to send, or that an open
    handle writes to, is there as before. *)
Theorem reclaims_spare l l' : layout (lc_mount l) → reclaims l l' →
  let m := lc_mount l in let m' := lc_mount l' in
  entries (m_journal m') = entries (m_journal m) ∧ m_files m' = m_files m ∧
  (∀ e sp, e ∈ entries (m_journal m) → op_staging (op e) = Some sp → m_disk m' !! sp = m_disk m !! sp) ∧
  (∀ fh o wp, m_files m !! fh = Some o → write_path o = Some wp → m_disk m' !! wp = m_disk m !! wp).
Proof.
  intros L Hr m m'. assert (Hsp : spares m m').
  { destruct Hr as [now mx days acc fs l Hw|during p l _|l]; [by eapply spares_cleanup|by apply gives_evict|by apply spares_purge]. }
  destruct Hsp as (_ & ? & ? & Hn). split_and!; [done|done| |]; intros; apply Hn; [left|right]; naive_solver.
Qed.
End local.

(** ** The runs behind the theorems *)

Definition hk_cfg : KeepConfig :=
  {| auto_keep_locally_modified_files := true; kept_dir := ["cache"; "kept"]%string; auto_cache_dir := ["cache"; "cache"]%string |}.
Definition hk_copy (n : string) : PathBuf := ["cache"; "cache"; n]%string.
Definition hk_copies : gmap PathBuf FileCacheEntry :=
  {[ ["a"%string] := Build_FileCacheEntry (hk_copy "a") None (Some "1"%string) false 2;
     ["b"%string] := Build_FileCacheEntry (hk_copy "b") None (Some "2"%string) false 2 ]}.
(** Two copies in the cache, of two bytes each, and the unsaved handle of [sv_mount]. *)
Definition hk_mount : Mount Srv :=
  let m := upd_cache (λ c, with_file_cache c hk_copies)
             (sv_mount (Some "5"%string)) in
  upd_j (λ j, set_files j (<[hk_copy "a" := Build_LocalFile [Byte.x41; Byte.x42] 0]> (<[hk_copy "b" := Build_LocalFile [Byte.x43; Byte.x44] 0]> (files (disk j))))) m.
Definition hk_accessed (p : PathBuf) : SystemTime := if bool_decide (p = hk_copy "a") then secs 100 else secs 200.
Definition hk_walk : list CachedFile := walk_dir (H := hk_cfg) hk_accessed (m_disk hk_mount).
Definition hk_local : Local (W := Srv) := {| lc_mount := hk_mount; lc_json := ∅ |}.

(** A limit of three bytes takes the copy used longest ago, and that one only. *)
Definition hk_cleaned : Cleaning := clean (λ _, true) (secs 300) 3 0 hk_walk hk_mount.
Definition hk_left : list CachedFile := walk_dir (H := hk_cfg) hk_accessed (m_disk (cl_mount hk_cleaned)).
Lemma cleanup_within_witness : cf_remote <$> cl_evicted hk_cleaned = [["a"%string]] ∧ cf_remote <$> hk_left = [["b"%string]] ∧ total_of hk_left ≤ 3.
Proof.
  pose proof (cleanup_within (H := hk_cfg) (λ _, true) (secs 300) 3 0 hk_accessed hk_walk hk_mount (reflexivity _)) as Hc.
  cbv zeta in Hc. change (clean _ (secs 300) 3 0 hk_walk hk_mount) with hk_cleaned in Hc.
  change (walk_dir hk_accessed (m_disk (cl_mount hk_cleaned))) with hk_left in Hc. destruct Hc as (_ & _ & _ & _ & _ & Hl & _).
  assert (El : cf_remote <$> hk_left = [["b"%string]]) by (by vm_compute). split; [by vm_compute|]. split; [exact El|].
  destruct (Hl eq_refl) as [?|Hn]; [done|]. destruct hk_left as [|f l]; [done|]. by specialize (Hn f (list_elem_of_here _ _)).
Defined.

Lemma hk_layout : layout (H := hk_cfg) hk_mount.
Proof.
  split; [done|by intros e sp ?%elem_of_nil| |].
  - intros fh o wp Ho Hw. change (({[ 1%nat := sv_handle (Some "5"%string) ]} : gmap nat OpenFile) !! fh = Some o) in Ho.
    apply lookup_singleton_Some in Ho as [<- <-]. injection Hw as <-. by vm_compute.
  - intros p fc Hp. right. change (hk_copies !! p = Some fc) in Hp.
    unfold hk_copies in Hp. apply lookup_insert_Some in Hp as [[_ <-]|[_ [_ <-]%lookup_singleton_Some]]; by vm_compute.
Qed.

(** The purge takes both copies and leaves what the open handle has written. *)
Definition hk_purged : Local (W := Srv) := purge_callback (λ _, true) (λ l, l) hk_local.
Lemma reclaims_spare_witness :
  m_disk (lc_mount hk_purged) !! hk_copy "a" = None ∧ m_disk (lc_mount hk_purged) !! sv_staging = Some sv_file.
Proof.
  split; [by vm_compute|].
  pose proof (reclaims_spare (H := hk_cfg) (λ _, true) hk_local (purge_callback (λ _, true) (λ l, l) hk_local) hk_layout
                (rc_purge (H := hk_cfg) (λ _, true) hk_local)) as Hr.
  cbv zeta in Hr. change (purge_callback (λ _, true) (λ l, l) hk_local) with hk_purged in Hr.
  change (lc_mount hk_local) with hk_mount in Hr. destruct Hr as (_ & _ & _ & Hh).
  rewrite (Hh 1%nat (sv_handle (Some "5"%string)) sv_staging); [by vm_compute|by vm_compute|done].
Defined.

(** A handle released while the purge removes copies is in neither of its two sets: the
    journal had been looked at before, the open handles are looked at afterwards.  Its save is
    queued and the bytes are gone. *)
Lemma purge_races_release :
  let m := lc_mount (purge_callback (λ _, true) (on_lc (release sv_clock true 1)) hk_local) in
  (op <$> entries (m_journal m)) = [Put sv_path sv_staging (Some "5"%string)] ∧ m_disk m !! sv_staging = None.
Proof. by vm_compute. Qed.
