(* ===== verification/Refresh.v ===== *)
(** [notify_push.rs]: what a change on the server does here.  A push event or a read of a
    cached folder makes the folder be asked again; the new listing is compared with what was
    shown before, and the difference told to the kernel, the file manager and the cache.

    The websocket that delivers events is not modelled, an event is an argument.  [during] is
    what runs between the server's answer and the lock of the cache it is merged under.  The
    sets the code iterates over come in some order, [ord].  Kernel notifications are recorded
    where they are queued. *)
From Stdlib Require Import Ascii String.
From S2P Require Import Prelude Paths Backend Errors Backoff Server FsCache Journal Replay ChunkUpload Versions AppLocks Attr IoMode PathSeq Mount LiveUpload.
From S2P Require Import Namespace Local.
Local Open Scope Z_scope.

(* notify_push.rs:17-17 REFRESH_DEBOUNCE *)
Definition REFRESH_DEBOUNCE : Duration := secs 3.
(* notify_push.rs:20-20 REFRESH_DEBOUNCE_NO_CHANGE *)
Definition REFRESH_DEBOUNCE_NO_CHANGE : Duration := secs 30.
(* notify_push.rs:22-24 debounce_cooldown *)
Definition debounce_cooldown (had_changes : bool) : Duration := if had_changes then REFRESH_DEBOUNCE else REFRESH_DEBOUNCE_NO_CHANGE.
(* notify_push.rs:26-29 DebounceState *)
Record DebounceState := { last_refresh : Instant; had_changes : bool }.

(** ** What changed *)

(* notify_push.rs:264-269 OldDirSnapshot *)
Record OldDirSnapshot := { sn_names : list PathBuf; sn_etags : gmap PathBuf (option Etag); sn_fileids : gmap PathBuf Z; sn_is_dir : gmap PathBuf bool }.
(** [collect] into a map: the last one of a key stays. *)
Definition collect {A} (f : RemoteEntry → option (PathBuf * A)) (l : list RemoteEntry) : gmap PathBuf A :=
  foldl (λ m e, match f e with Some (k, v) => <[k := v]> m | None => m end) ∅ l.
(* notify_push.rs:272-285 OldDirSnapshot::of *)
Definition snapshot_of (files : list RemoteEntry) : OldDirSnapshot :=
  {| sn_names := map e_path files; sn_etags := collect (λ f, Some (e_path f, e_change_token f)) files;
     sn_fileids := collect (λ f, (λ i, (e_path f, i)) <$> ext_int (e_ext f) "fileid") files;
     sn_is_dir := collect (λ f, Some (e_path f, e_is_dir f)) files |}.

(* notify_push.rs:288-293 DirDiff *)
Record DirDiff := { df_removed : list PathBuf; df_added : list PathBuf; df_modified : list PathBuf; df_renames : list (PathBuf * PathBuf * bool) }.
(** The paths by file id; the last of an id stays. *)
Definition fids_of (files : list RemoteEntry) : gmap Z PathBuf :=
  foldl (λ m f, match ext_int (e_ext f) "fileid" with Some i => <[i := e_path f]> m | None => m end) ∅ files.
(* notify_push.rs:303-311 compute_dir_diff *)
Definition content_changed (old : OldDirSnapshot) (f : RemoteEntry) : option PathBuf :=
  if e_is_dir f then None
  else match sn_etags old !! e_path f with
       | Some old_etag => if bool_decide (old_etag ≠ e_change_token f) then Some (e_path f) else None
       | None => None
       end.
(** Where the file of a path that is gone has turned up. *)
(* notify_push.rs:320-331 compute_dir_diff *)
Definition moved_to (old : OldDirSnapshot) (fids : gmap Z PathBuf) (added : gset PathBuf) (p : PathBuf) : option PathBuf :=
  i ← sn_fileids old !! p; q ← fids !! i; if bool_decide (q ∈ added) then Some q else None.
(* notify_push.rs:295-337 compute_dir_diff *)
Definition compute_dir_diff (ord : gset PathBuf → list PathBuf) (old : OldDirSnapshot) (fresh : list RemoteEntry) : DirDiff :=
  let new_names : gset PathBuf := list_to_set (map e_path fresh) in
  let old_set : gset PathBuf := list_to_set (sn_names old) in
  let raw_removed := ord (old_set ∖ new_names) in
  let raw_added := ord (new_names ∖ old_set) in
  let to := moved_to old (fids_of fresh) (list_to_set raw_added) in
  let renames := omap (λ p, (λ q, (p, q, default false (sn_is_dir old !! p))) <$> to p) raw_removed in
  let removed := List.filter (λ p, bool_decide (to p = None)) raw_removed in
  let targets : gset PathBuf := list_to_set (map (λ r, r.1.2) renames) in
  {| df_removed := removed; df_added := List.filter (λ p, bool_decide (p ∉ targets)) raw_added;
     df_modified := omap (content_changed old) fresh; df_renames := renames |}.

(* ipc.rs:122-129 FileChangeKind *)
Inductive FileChangeKind := Added | Removed | Modified | DirAdded | DirRemoved | Renamed (from : PathBuf).
(* ipc.rs:132-135 FileChange *)
Record FileChange := { fc_kind : FileChangeKind; fc_path : PathBuf }.

(** What the kernel is told. *)
Inductive KernelNote := InvalInode (ino : nat) | Deleted (parent child : nat) (name : string).

Section refresh.
Context {W : Type} `{CloudBackend W} `{KeepConfig} (clock : W → Z) (mono : W → Instant) (tracker_ignore honor_locks : bool).
Context (ord : gset PathBuf → list PathBuf) (rm : PathBuf → bool) (slot : call W bool).
Context (dir_change_token : PathBuf → call W (result (option Etag) BackendReadError)) (draw : Z).
Implicit Types (m : Mount W).

(** The mount and what the push side keeps beside it. *)
Record Push := {
  pu_local : Local (W := W);
  pu_queue : list FileChange;
  pu_debounce : gmap PathBuf DebounceState;
  pu_pairs : nat;
  pu_notes : list KernelNote;
  pu_health : BreakerState * PathBackoff;
  pu_claims : gset PathBuf;
  pu_deferred : bool;
}.
Definition pu_mount (s : Push) : Mount W := lc_mount (pu_local s).
Definition on_mount (f : Mount W → Mount W) (s : Push) : Push :=
  Build_Push (on_lc f (pu_local s)) (pu_queue s) (pu_debounce s) (pu_pairs s) (pu_notes s) (pu_health s) (pu_claims s) (pu_deferred s).
Definition save_copies (s : Push) : Push :=
  Build_Push (save_file_cache (pu_local s)) (pu_queue s) (pu_debounce s) (pu_pairs s) (pu_notes s) (pu_health s) (pu_claims s) (pu_deferred s).
Definition feed (l : list FileChange) (n : list KernelNote) (s : Push) : Push :=
  Build_Push (pu_local s) (pu_queue s ++ l) (pu_debounce s) (pu_pairs s) (pu_notes s ++ n) (pu_health s) (pu_claims s) (pu_deferred s).
Definition set_pairs (n : nat) (s : Push) : Push :=
  Build_Push (pu_local s) (pu_queue s) (pu_debounce s) n (pu_notes s) (pu_health s) (pu_claims s) (pu_deferred s).
Definition set_health (h : BreakerState * PathBackoff) (s : Push) : Push :=
  Build_Push (pu_local s) (pu_queue s) (pu_debounce s) (pu_pairs s) (pu_notes s) h (pu_claims s) (pu_deferred s).
Definition set_claims (c : gset PathBuf) (s : Push) : Push :=
  Build_Push (pu_local s) (pu_queue s) (pu_debounce s) (pu_pairs s) (pu_notes s) (pu_health s) c (pu_deferred s).
Definition set_deferred (s : Push) : Push :=
  Build_Push (pu_local s) (pu_queue s) (pu_debounce s) (pu_pairs s) (pu_notes s) (pu_health s) (pu_claims s) true.
Definition pu_now (s : Push) : Instant := Mount.now mono (pu_mount s).
Definition pu_call {A} (r : call W A) (s : Push) : A * Push :=
  let '(a, w) := r (m_world (pu_mount s)) in (a, on_mount (log_world w) s).
Definition refreshed (dir : PathBuf) (changed : bool) (s : Push) : Push :=
  Build_Push (pu_local s) (pu_queue s) (<[dir := {| last_refresh := pu_now s; had_changes := changed |}]> (pu_debounce s))
    (pu_pairs s) (pu_notes s) (pu_health s) (pu_claims s) (pu_deferred s).
Definition cooling (s : Push) (dir : PathBuf) : bool :=
  match pu_debounce s !! dir with
  | Some d => duration_since (pu_now s) (last_refresh d) <? debounce_cooldown (had_changes d)
  | None => false
  end.

(** ** Merging a listing *)

(* notify_push.rs:791-799 apply_listing *)
Definition move_copy (x : FsCache * bool) (r : PathBuf * PathBuf * bool) : FsCache * bool :=
  let '(old_path, new_path, is_dir) := r in
  if (is_dir : bool) then x
  else match file_cache x.1 !! old_path with
       | Some e => (with_file_cache x.1 (<[new_path := e]> (delete old_path (file_cache x.1))), true)
       | None => x
       end.
(* notify_push.rs:808-818 apply_listing *)
Definition drop_stale (x : Mount W * bool) (p : PathBuf) : Mount W * bool :=
  match file_cache (m_cache x.1) !! p with
  | Some e => let m := forget_copy p x.1 in (if rm (fc_local_path e) then drop_file (fc_local_path e) m else m, true)
  | None => x
  end.
Definition ghost (k : GhostKind) (pair : option nat) m : GhostEntry := {| g_kind := k; g_created_at := Mount.now mono m; g_rename_pair_id := pair |}.
Definition put_ghost (p : PathBuf) (g : GhostEntry) m : Mount W := with_ghosts (<[p := g]> (m_ghosts m)) m.
Definition gone_attr (old : RemoteEntry) (p : PathBuf) m : FileAttr :=
  make_file_attr honor_locks (m_locks m) (default 1%nat (get_inode (m_cache m) p)) old.
(* notify_push.rs:824-837 apply_listing *)
Definition ghost_removed (old : list RemoteEntry) (m : Mount W) (p : PathBuf) : Mount W :=
  match find (has_path p) old with
  | Some e => put_ghost p (ghost (VisibleDelete (gone_attr e p m)) None m) m
  | None => m
  end.
(* notify_push.rs:839-858 apply_listing *)
Definition ghost_renamed (old : list RemoteEntry) (x : Mount W * nat) (r : PathBuf * PathBuf * bool) : Mount W * nat :=
  let '(m, id) := x in let '(old_path, new_path, _) := r in
  (match find (has_path old_path) old with
   | Some e => put_ghost new_path (ghost HiddenAdd (Some id) m) (put_ghost old_path (ghost (VisibleDelete (gone_attr e old_path m)) (Some id) m) m)
   | None => m
   end, S id).

(* notify_push.rs:755-761 AppliedListing *)
Record AppliedListing := {
  ap_diff : DirDiff; ap_parent_ino : nat; ap_delete_targets : list (nat * string); ap_modified_inodes : list nat; ap_added_is_dir : gmap PathBuf bool;
}.
(* notify_push.rs:765-895 apply_listing *)
Definition apply_listing (dir : PathBuf) (old_snap : OldDirSnapshot) (etag : option Etag) (self_entry : option RemoteEntry)
    (fresh : list RemoteEntry) (s : Push) : AppliedListing * Push :=
  let diff := compute_dir_diff ord old_snap fresh in
  let parent_ino := default 1%nat (get_inode (m_cache (pu_mount s)) dir) in
  let '(c, moved) := foldl move_copy (m_cache (pu_mount s), false) (df_renames diff) in
  let '(m, file_cache_changed) := foldl drop_stale (upd_cache (λ _, c) (pu_mount s), moved) (df_modified diff) in
  let '(old_entries, c) := get_cached_dir_readonly (m_cache m) dir in
  let m := upd_cache (λ _, c) m in
  let old := default [] old_entries in
  let m := foldl (ghost_removed old) m (df_removed diff) in
  let '(m, pairs) := foldl (ghost_renamed old) (m, pu_pairs s) (df_renames diff) in
  let ino p := get_inode (m_cache m) p in
  let delete_targets := omap (λ p, (λ n, (default 0%nat (ino p), n)) <$> file_name p) (df_removed diff) in
  let modified_inodes := omap ino (df_modified diff) in
  let added_is_dir := collect (λ f, if bool_decide (e_path f ∈ df_added diff) then Some (e_path f, e_is_dir f) else None) fresh in
  let m := upd_cache (λ c, put_dir_cache c tracker_ignore (Mount.now mono m) (now_system clock m) dir etag self_entry fresh) m in
  let m := foldl (λ m p, put_ghost p (ghost HiddenAdd None m) m) m (df_added diff) in
  let s := set_pairs pairs (on_mount (λ _, m) s) in
  let s := if file_cache_changed then save_copies s else s in
  ({| ap_diff := diff; ap_parent_ino := parent_ino; ap_delete_targets := delete_targets; ap_modified_inodes := modified_inodes;
      ap_added_is_dir := added_is_dir |}, s).

(** ** Asking again *)

(* notify_push.rs:565-582 ServerHealth::note *)
Definition note (dir : PathBuf) (r : result unit BackendReadError) (s : Push) : Push :=
  let '(b, f) := pu_health s in let now := pu_now s in
  set_health
    match r with
    | Ok _ => (Backoff.record b false now draw, Backoff.clear f dir)
    | Err (RServer code _) =>
        if is_struggling code then (Backoff.record b true now draw, (record_failure f dir code now draw).2)
        else (Backoff.record b false now draw, f)
    | Err RNotFound => (Backoff.record b false now draw, f)
    | Err (RTruncated _) => (Backoff.record b true now draw, f)
    | Err _ => (b, f)
    end s.
Definition note_if {A} (health : bool) (dir : PathBuf) (r : result A BackendReadError) (s : Push) : Push :=
  if health then note dir (map_ok (λ _, tt) r) s else s.

(** The changes a file manager is told of, in this order. *)
(* notify_push.rs:702-723 refresh_one_dir *)
Definition changes_of (old_snap : OldDirSnapshot) (ap : AppliedListing) : list FileChange :=
  let d := ap_diff ap in
  map (λ p, {| fc_kind := if default false (ap_added_is_dir ap !! p) then DirAdded else Added; fc_path := p |}) (df_added d) ++
  map (λ p, {| fc_kind := if default false (sn_is_dir old_snap !! p) then DirRemoved else Removed; fc_path := p |}) (df_removed d) ++
  map (λ p, {| fc_kind := Modified; fc_path := p |}) (df_modified d) ++
  map (λ r, {| fc_kind := Renamed r.1.1; fc_path := r.1.2 |}) (df_renames d).
(* notify_push.rs:699-740 refresh_one_dir *)
Definition notes_of (ap : AppliedListing) : list KernelNote :=
  let d := ap_diff ap in
  let listing_changed := negb (bool_decide (df_added d = []) && bool_decide (df_removed d = []) && bool_decide (df_renames d = [])) in
  (if listing_changed then [InvalInode (ap_parent_ino ap)] else []) ++
  map (λ t, Deleted (ap_parent_ino ap) t.1 t.2) (ap_delete_targets ap) ++ map InvalInode (ap_modified_inodes ap).
Definition changed (d : DirDiff) : bool :=
  negb (bool_decide (df_added d = []) && bool_decide (df_removed d = []) && bool_decide (df_renames d = []) && bool_decide (df_modified d = [])).
(* notify_push.rs:694-747 refresh_one_dir *)
Definition refresh_apply (dir : PathBuf) (old_snap : OldDirSnapshot) (l : option Etag * option RemoteEntry * list RemoteEntry) (s : Push) : Push :=
  let '(etag, self_entry, fresh) := l in
  let '(ap, s) := apply_listing dir old_snap etag self_entry fresh s in
  let s := feed (changes_of old_snap ap) (notes_of ap) s in
  refreshed dir (changed (ap_diff ap)) (on_mount (upd_core (mark_dirty [dir])) s).

(** [None]: the folder is left as it is. *)
(* notify_push.rs:643-681 refresh_one_dir *)
Definition probe (health : bool) (dir : PathBuf) (s : Push) : option unit * Push :=
  match cached_dir_etag (m_cache (pu_mount s)) dir with
  | None => (Some tt, s)
  | Some cached =>
      let '(got, s) := pu_call slot s in
      if negb got then (None, refreshed dir false s)
      else
        let '(r, s) := pu_call (dir_change_token dir) s in
        let s := note_if health dir r s in
        match r with
        | Ok current =>
            if bool_decide (current = Some cached)
            then (None, refreshed dir false (on_mount (λ m, upd_cache (λ c, touch_dir_cache c dir (Mount.now mono m) (now_system clock m)) m) s))
            else (Some tt, s)
        | Err (RServer code _) => if is_struggling code then (None, refreshed dir false s) else (Some tt, s)
        | Err _ => (Some tt, s)
        end
  end.
(* notify_push.rs:609-753 refresh_one_dir *)
Definition refresh_one_dir (during : Push → Push) (health : bool) (dir : PathBuf) (old_snap : OldDirSnapshot) (s : Push) : Push :=
  if cooling s dir then s
  else match probe health dir s with
       | (None, s) => s
       | (Some _, s) =>
           let '(got, s) := pu_call slot s in
           if negb got then refreshed dir false s
           else
             let '(r, s) := pu_call (list_dir dir) s in
             let s := note_if health dir r s in
             match r with
             | Ok l => refresh_apply dir old_snap l (during s)
             | Err _ => refreshed dir false s
             end
       end.

(** ** Push events *)

(* backend.rs:347-351 ChangeEvent *)
Record ChangeEvent := { ce_dirs : list PathBuf; ce_all : bool }.
Definition mark_stale (d : DirCacheEntry) : DirCacheEntry :=
  Build_DirCacheEntry (d_files d) (d_self_entry d) (d_etag d) (d_at d) (d_fetched_at d) false true (d_hard_expired d)
    (d_expiry_retry_after d) (d_last_access d).
(** One folder of an event; a listing fetched within the last second is not marked stale. *)
(* notify_push.rs:408-434 invalidate_dirs_by_path *)
Definition invalidate_dir (recent : gset PathBuf) (x : Mount W * list (PathBuf * OldDirSnapshot) * gset PathBuf) (dir : PathBuf) :
    Mount W * list (PathBuf * OldDirSnapshot) * gset PathBuf :=
  let '(m, l, fresh) := x in
  match dir_cache (m_cache m) !! dir with
  | None => x
  | Some d =>
      if bool_decide (dir ∈ recent) then x
      else
        let l := l ++ [(dir, snapshot_of (d_files d))] in
        if duration_since (Mount.now mono m) (d_at d) <? secs 1 then (m, l, {[dir]} ∪ fresh)
        else (upd_cache (λ c, put_entry c dir (mark_stale d)) m, l, fresh)
  end.
(* notify_push.rs:384-467 invalidate_dirs_by_path *)
Definition invalidate_dirs_by_path (dirs : list PathBuf) (s : Push) : list (PathBuf * OldDirSnapshot) * Push :=
  let recent : gset PathBuf := list_to_set (List.filter (cooling s) (elements (dom (pu_debounce s)))) in
  let '(m, l, fresh) := foldl (invalidate_dir recent) (pu_mount s, [], ∅) dirs in
  let notes := omap (λ q : PathBuf * OldDirSnapshot, if bool_decide (q.1 ∈ fresh) then None else InvalInode <$> get_inode (m_cache m) q.1) l in
  (l, feed [] notes (on_mount (λ _, upd_core (mark_dirty (map fst l)) m) s)).
(** The folders are refreshed one after the other here; the code runs a few at a time, each
    under the locks its steps take.  [busy]: a file is being streamed to a reader. *)
(* notify_push.rs:341-380 handle_change_event *)
Definition handle_change_event (during : Push → Push) (busy : bool) (e : ChangeEvent) (s : Push) : Push :=
  if busy then set_deferred s
  else if ce_all e then
    let inodes := omap (get_inode (m_cache (pu_mount s))) (map_to_list (dir_cache (m_cache (pu_mount s)))).*1 in
    feed [] (map InvalInode inodes) (on_mount invalidate_all_dirs s)
  else let '(l, s) := invalidate_dirs_by_path (ce_dirs e) s in
       foldl (λ s q, refresh_one_dir during false q.1 q.2 s) s l.

(** ** Asking again because it was read *)

(** [Some]: a job is submitted, holding the folder's claim. *)
(* notify_push.rs:484-538 revalidate_dir_on_read *)
Definition revalidate_dir_on_read (busy : bool) (dir : PathBuf) (s : Push) : option OldDirSnapshot * Push :=
  if busy then (None, s)
  else
    let '(open_, b) := Backoff.is_open (pu_health s).1 (pu_now s) in
    let s := set_health (b, (pu_health s).2) s in
    if open_ || bool_decide (is_Some (blocked (pu_health s).2 dir (pu_now s))) || cooling s dir then (None, s)
    else match dir_cache (m_cache (pu_mount s)) !! dir with
         | None => (None, s)
         | Some d =>
             if d_refreshing d || (duration_since (pu_now s) (d_at d) <? secs 2) || bool_decide (dir ∈ pu_claims s) then (None, s)
             else (Some (snapshot_of (d_files d)), set_claims ({[dir]} ∪ pu_claims s) s)
         end.
(** The job, and the claim it gives back, which a full pool gives back without running it. *)
(* notify_push.rs:549-554 revalidate_dir_on_read *)
Definition run_revalidation (during : Push → Push) (ran : bool) (dir : PathBuf) (old_snap : OldDirSnapshot) (s : Push) : Push :=
  let s := if ran then refresh_one_dir during true dir old_snap s else s in set_claims (pu_claims s ∖ {[dir]}) s.
End refresh.

(** ** The difference is exact *)

Section collect.
Context {A : Type} (f : RemoteEntry → option (PathBuf * A)).
Lemma collect_snoc l e : collect f (l ++ [e]) = match f e with Some (k, v) => <[k := v]> (collect f l) | None => collect f l end.
Proof. unfold collect. by rewrite foldl_app. Qed.
Lemma collect_Some l k v : collect f l !! k = Some v → ∃ e, e ∈ l ∧ f e = Some (k, v).
Proof.
  induction l as [|e l IH] using rev_ind; [done|]. rewrite collect_snoc. destruct (f e) as [[k' v']|] eqn:E.
  - rewrite lookup_insert_Some. intros [[-> ->]|[_ Hl]]; [exists e; split; [set_solver|done]|]. destruct (IH Hl) as (e' & ? & ?). exists e'. split; [set_solver|done].
  - intros Hl. destruct (IH Hl) as (e' & ? & ?). exists e'. split; [set_solver|done].
Qed.
Lemma collect_is_Some l k : is_Some (collect f l !! k) ↔ ∃ e v, e ∈ l ∧ f e = Some (k, v).
Proof.
  split; [intros [v (e & ? & ?)%collect_Some]; eauto|]. intros (e & v & He & Hf). induction l as [|e' l IH] using rev_ind; [by apply elem_of_nil in He|].
  rewrite collect_snoc. apply elem_of_app in He as [He|He%list_elem_of_singleton].
  - destruct (f e') as [[k' v']|]; [|by apply IH]. destruct (decide (k' = k)) as [->|?]; [by rewrite lookup_insert_eq|]. rewrite lookup_insert_ne by done. by apply IH.
  - subst e'. rewrite Hf, lookup_insert_eq. done.
Qed.
End collect.
Lemma fids_Some l i q : fids_of l !! i = Some q → ∃ e, e ∈ l ∧ ext_int (e_ext e) "fileid" = Some i ∧ e_path e = q.
Proof.
  unfold fids_of. induction l as [|e l IH] using rev_ind; [done|]. rewrite foldl_app. cbn. destruct (ext_int (e_ext e) "fileid") as [j|] eqn:E.
  - rewrite lookup_insert_Some. intros [[-> <-]|[_ Hl]]; [exists e; split_and!; [set_solver|done|done]|].
    destruct (IH Hl) as (e' & ? & ? & ?). exists e'. split_and!; [set_solver|done|done].
  - intros Hl. destruct (IH Hl) as (e' & ? & ? & ?). exists e'. split_and!; [set_solver|done|done].
Qed.

Definition names_in (l : list RemoteEntry) : gset PathBuf := list_to_set (map e_path l).
Lemma names_in_elem l p : p ∈ names_in l ↔ ∃ e, e ∈ l ∧ e_path e = p.
Proof. unfold names_in. rewrite elem_of_list_to_set, list_elem_of_fmap. naive_solver. Qed.

Section diff.
Context (ord : gset PathBuf → list PathBuf) (Hord : ∀ s, ord s ≡ₚ elements s).
Context (old fresh : list RemoteEntry).
Local Abbreviation d := (compute_dir_diff ord (snapshot_of old) fresh).

Lemma ord_elem s p : p ∈ ord s ↔ p ∈ s.
Proof. by rewrite Hord, elem_of_elements. Qed.

Definition turned_up (p : PathBuf) : option PathBuf := moved_to (snapshot_of old) (fids_of fresh) (list_to_set (ord (names_in fresh ∖ names_in old))) p.
Lemma renames_elem r : r ∈ df_renames d ↔ r.1.1 ∈ names_in old ∖ names_in fresh ∧ turned_up r.1.1 = Some r.1.2 ∧ r.2 = default false (sn_is_dir (snapshot_of old) !! r.1.1).
Proof.
  cbn [df_renames compute_dir_diff]. rewrite list_elem_of_omap. setoid_rewrite ord_elem. destruct r as [[a b] k]. cbn [fst snd]. split.
  - intros (p & Hp & Hr). destruct (moved_to _ _ _ p) as [q|] eqn:E; [|done]. injection Hr as <- <- <-. done.
  - intros (Ha & Ht & ->). exists a. split; [done|]. unfold turned_up, names_in in Ht. cbn [sn_names snapshot_of]. by rewrite Ht.
Qed.
Lemma removed_elem p : p ∈ df_removed d ↔ p ∈ names_in old ∖ names_in fresh ∧ turned_up p = None.
Proof. cbn [df_removed compute_dir_diff]. rewrite list_elem_of_In, filter_In, <- list_elem_of_In, ord_elem, bool_decide_eq_true. done. Qed.
Lemma added_elem p : p ∈ df_added d ↔ p ∈ names_in fresh ∖ names_in old ∧ ∀ r, r ∈ df_renames d → r.1.2 ≠ p.
Proof.
  cbn [df_added compute_dir_diff]. rewrite list_elem_of_In, filter_In, <- list_elem_of_In, ord_elem, bool_decide_eq_true, elem_of_list_to_set, list_elem_of_fmap.
  split; intros [H1 H2]; (split; [done|]); [intros r Hr <-; apply H2; by exists r|intros (r & -> & Hr); by apply (H2 r)].
Qed.
(** What turned up is new, and has the file id of what is gone. *)
Lemma turned_up_new p q : turned_up p = Some q → q ∈ names_in fresh ∖ names_in old ∧
  ∃ i e e', e ∈ old ∧ e_path e = p ∧ ext_int (e_ext e) "fileid" = Some i ∧ e' ∈ fresh ∧ e_path e' = q ∧ ext_int (e_ext e') "fileid" = Some i.
Proof.
  unfold turned_up, moved_to. intros (i & Hi & (q' & Hq & Hr)%bind_Some)%bind_Some. case_bool_decide as Hin; [|done]. injection Hr as ->.
  apply elem_of_list_to_set in Hin. rewrite ord_elem in Hin. split; [done|]. apply collect_Some in Hi as (e & He & Ef).
  destruct (ext_int (e_ext e) "fileid") as [j|] eqn:Ej; [|done]. injection Ef as <- ->. apply fids_Some in Hq as (e' & ? & ? & ?). by exists i, e, e'.
Qed.
Lemma modified_elem p : p ∈ df_modified d ↔
  ∃ f t, f ∈ fresh ∧ e_path f = p ∧ e_is_dir f = false ∧ sn_etags (snapshot_of old) !! p = Some t ∧ t ≠ e_change_token f.
Proof.
  cbn [df_modified compute_dir_diff]. rewrite list_elem_of_omap. unfold content_changed. split.
  - intros (f & Hf & Hc). destruct (e_is_dir f) eqn:Ed; [done|]. destruct (sn_etags _ !! e_path f) as [t|] eqn:Et; [|done].
    case_bool_decide; [|done]. injection Hc as <-. by exists f, t.
  - intros (f & t & Hf & <- & Hd & Ht & Hne). exists f. split; [done|]. by rewrite Hd, Ht, bool_decide_true.
Qed.
Lemma modified_old p : p ∈ df_modified d → p ∈ names_in old.
Proof.
  rewrite modified_elem. intros (f & t & _ & _ & _ & Ht & _). apply collect_Some in Ht as (e & He & [= <- _]). apply names_in_elem. by exists e.
Qed.
End diff.

(** A file manager that keeps the names of a folder by the changes it is told. *)
Definition follow (s : gset PathBuf) (c : FileChange) : gset PathBuf :=
  match fc_kind c with
  | Added | DirAdded => {[fc_path c]} ∪ s
  | Removed | DirRemoved => s ∖ {[fc_path c]}
  | Modified => s
  | Renamed from => {[fc_path c]} ∪ (s ∖ {[from]})
  end.
Section follow.
Implicit Types (s : gset PathBuf).
Lemma follow_added (k : PathBuf → bool) l s : foldl follow s (map (λ p, {| fc_kind := if k p then DirAdded else Added; fc_path := p |}) l) = list_to_set l ∪ s.
Proof. revert s. induction l as [|p l IH]; intros s; cbn; [set_solver|]. rewrite IH. unfold follow. cbn. destruct (k p); set_solver. Qed.
Lemma follow_removed (k : PathBuf → bool) l s : foldl follow s (map (λ p, {| fc_kind := if k p then DirRemoved else Removed; fc_path := p |}) l) = s ∖ list_to_set l.
Proof. revert s. induction l as [|p l IH]; intros s; cbn; [set_solver|]. rewrite IH. unfold follow. cbn. destruct (k p); set_solver. Qed.
Lemma follow_modified l s : foldl follow s (map (λ p, {| fc_kind := Modified; fc_path := p |}) l) = s.
Proof. revert s. induction l as [|p l IH]; intros s; cbn; [done|]. by rewrite IH. Qed.
Lemma follow_renamed (l : list (PathBuf * PathBuf * bool)) s : (∀ r r', r ∈ l → r' ∈ l → r.1.2 ≠ r'.1.1) →
  foldl follow s (map (λ r, {| fc_kind := Renamed r.1.1; fc_path := r.1.2 |}) l) = list_to_set (map (λ r, r.1.2) l) ∪ (s ∖ list_to_set (map (λ r, r.1.1) l)).
Proof.
  revert s. induction l as [|r l IH]; intros s Hd; cbn; [set_solver|]. rewrite IH; [|intros r1 r2 H1 H2; apply Hd; by right]. unfold follow. cbn.
  assert (Hr : r.1.2 ∉ (list_to_set (map (λ r, r.1.1) l) : gset PathBuf)).
  { rewrite elem_of_list_to_set, list_elem_of_fmap. intros (r' & E & Hr'). by apply (Hd r r'); [left|right|]. }
  set_solver.
Qed.
End follow.

Lemma copies_put_dir_cache c ti t w p e se f : file_cache (put_dir_cache c ti t w p e se f) = file_cache c.
Proof.
  unfold put_dir_cache. destruct (match se with Some _ => _ | None => _ end); [done|]. destruct (next_access_tick _) as [tick c'] eqn:E.
  injection E as _ <-. unfold evict_dir_cache. cbv zeta. by destruct (_ || _).
Qed.
Lemma copies_readonly c p : file_cache (get_cached_dir_readonly c p).2 = file_cache c.
Proof. unfold get_cached_dir_readonly. by destruct (dir_cache c !! p). Qed.

Section merged.
Context {W : Type} `{CloudBackend W} `{KeepConfig} (clock : W → Z) (mono : W → Instant) (tracker_ignore honor_locks : bool).
Context (ord : gset PathBuf → list PathBuf) (rm : PathBuf → bool).
Local Abbreviation Push := (Push (W := W)).
Local Abbreviation apply_listing := (apply_listing clock mono tracker_ignore honor_locks ord rm).
Local Abbreviation drop_stale := (drop_stale rm).
Implicit Types (m : Mount W) (s : Push).

Lemma drop_stale_gone l (x : Mount W * bool) p : p ∈ l → file_cache (m_cache (foldl drop_stale x l).1) !! p = None.
Proof.
  assert (Hk : ∀ l (x : Mount W * bool), file_cache (m_cache x.1) !! p = None → file_cache (m_cache (foldl drop_stale x l).1) !! p = None).
  { clear. induction l as [|q l IH]; intros x Hx; [done|]. cbn [foldl]. apply IH. unfold Refresh.drop_stale. destruct (file_cache (m_cache x.1) !! q) as [e|]; [|done].
    destruct (rm _); apply lookup_delete_None; by right. }
  revert x. induction l as [|q l IH]; intros x; [by intros ?%elem_of_nil|]. intros [->|Hp]%elem_of_cons; cbn [foldl]; [|by apply IH].
  apply Hk. unfold Refresh.drop_stale. destruct (file_cache (m_cache x.1) !! q) as [e|] eqn:E; [|done]. destruct (rm _); apply lookup_delete_eq.
Qed.

(** What stays as it is when the ghosts are put. *)
Definition ghostly m m' : Prop := m_core m' = m_core m ∧ m_files m' = m_files m.
Lemma ghosts_removed_same old l m : ghostly m (foldl (ghost_removed mono honor_locks old) m l).
Proof.
  revert m. induction l as [|p l IH]; intros m; [done|]. cbn [foldl]. destruct (IH (ghost_removed mono honor_locks old m p)) as [E1 E2].
  unfold ghostly. rewrite E1, E2. unfold ghost_removed. by destruct (find _ old).
Qed.
Lemma ghosts_renamed_same old l (x : Mount W * nat) : ghostly x.1 (foldl (ghost_renamed mono honor_locks old) x l).1.
Proof.
  revert x. induction l as [|[[a b] k] l IH]; intros [m n]; [done|]. cbn [foldl]. destruct (IH (ghost_renamed mono honor_locks old (m, n) (a, b, k))) as [E1 E2].
  unfold ghostly. rewrite E1, E2. cbn. by destruct (find _ old).
Qed.
Lemma ghosts_added_same l m : ghostly m (foldl (λ m p, put_ghost p (ghost mono HiddenAdd None m) m) m l).
Proof.
  revert m. induction l as [|p l IH]; intros m; [done|]. cbn [foldl]. destruct (IH (put_ghost p (ghost mono HiddenAdd None m) m)) as [E1 E2].
  unfold ghostly. by rewrite E1, E2.
Qed.

Lemma apply_spec dir old_snap etag se fresh s : let '(ap, s') := apply_listing dir old_snap etag se fresh s in
  let d := compute_dir_diff ord old_snap fresh in
  ap_diff ap = d ∧
  ap_added_is_dir ap = collect (λ f, if bool_decide (e_path f ∈ df_added d) then Some (e_path f, e_is_dir f) else None) fresh ∧
  (∀ p, p ∈ df_modified d → file_cache (m_cache (pu_mount s')) !! p = None) ∧
  pu_queue s' = pu_queue s ∧ pu_notes s' = pu_notes s ∧ pu_debounce s' = pu_debounce s ∧ pu_claims s' = pu_claims s ∧
  m_world (pu_mount s') = m_world (pu_mount s).
Proof.
  unfold Refresh.apply_listing. set (d := compute_dir_diff ord old_snap fresh).
  destruct (foldl move_copy _ (df_renames d)) as [c moved]. destruct (foldl drop_stale _ (df_modified d)) as [m1 ch] eqn:E1.
  destruct (get_cached_dir_readonly (m_cache m1) dir) as [oe c1] eqn:Ec. set (old := default [] oe).
  set (m2 := foldl (ghost_removed mono honor_locks old) _ (df_removed d)). destruct (foldl (ghost_renamed mono honor_locks old) _ (df_renames d)) as [m3 prs] eqn:E3.
  set (m4 := foldl _ _ (df_added d)).
  assert (Hcore : m_core m4 = m_core (upd_cache (λ c, put_dir_cache c tracker_ignore (Mount.now mono m3) (now_system clock m3) dir etag se fresh) m3)).
  { apply ghosts_added_same. }
  assert (H3 : m_core m3 = m_core (upd_cache (λ _, c1) m1)).
  { pose proof (ghosts_renamed_same old (df_renames d) (m2, pu_pairs s)) as [E _]. rewrite E3 in E. cbn in E. rewrite E. apply ghosts_removed_same. }
  assert (Hworld : m_world m1 = m_world (pu_mount s)).
  { assert (Hw : ∀ l (x : Mount W * bool), m_world (foldl drop_stale x l).1 = m_world x.1).
    { induction l as [|q l IH]; intros x; [done|]. cbn [foldl]. rewrite IH. unfold Refresh.drop_stale. destruct (file_cache (m_cache x.1) !! q); [|done]. by destruct (rm _). }
    pose proof (Hw (df_modified d) (upd_cache (λ _, c) (pu_mount s), moved)) as E. by rewrite E1 in E. }
  assert (Hgone : ∀ p, p ∈ df_modified d → file_cache (m_cache m4) !! p = None).
  { intros p Hp. unfold m_cache. rewrite Hcore. change (file_cache (put_dir_cache (r_cache (m_core m3)) tracker_ignore (Mount.now mono m3) (now_system clock m3) dir etag se fresh) !! p = None).
    rewrite copies_put_dir_cache, H3. change (file_cache c1 !! p = None). pose proof (copies_readonly (m_cache m1) dir) as Er. rewrite Ec in Er. cbn in Er. rewrite Er.
    pose proof (drop_stale_gone (df_modified d) (upd_cache (λ _, c) (pu_mount s), moved) p Hp) as Hd. by rewrite E1 in Hd. }
  assert (Hw4 : m_world m4 = m_world (pu_mount s)).
  { unfold m_world. rewrite Hcore. cbn. rewrite H3. exact Hworld. }
  destruct ch; split_and!; done.
Qed.

Context (Hord : ∀ t : gset PathBuf, ord t ≡ₚ elements t).
Local Abbreviation refresh_apply := (refresh_apply clock mono tracker_ignore honor_locks ord rm).

(** The diff's changes lead a follower from the old names to the new ones. *)
Lemma changes_follow old fresh ap : ap_diff ap = compute_dir_diff ord (snapshot_of old) fresh →
  foldl follow (names_in old) (changes_of (snapshot_of old) ap) = names_in fresh.
Proof.
  intros Hd. unfold changes_of. rewrite Hd, !foldl_app, follow_added, follow_removed, follow_modified, follow_renamed.
  2: { intros r r' (_ & Ht & _)%renames_elem (Hr' & _)%renames_elem E; [|done|done]. apply turned_up_new in Ht as [Ht _]; [|done]. rewrite E in Ht. set_solver. }
  apply leibniz_equiv. intros p. rewrite elem_of_union, elem_of_difference, elem_of_difference, elem_of_union, !elem_of_list_to_set, !list_elem_of_fmap.
  setoid_rewrite (renames_elem ord Hord). rewrite (removed_elem ord Hord), (added_elem ord Hord). setoid_rewrite (renames_elem ord Hord).
  assert (Hto : ∀ a b, turned_up ord old fresh a = Some b → b ∈ names_in fresh ∖ names_in old) by (intros a b Ht; by apply turned_up_new in Ht as [? _]).
  split.
  - intros [(r & -> & _ & Ht & _)|[[[[Hf _]|Hold] Hnr] Hnm]]; [by apply Hto in Ht; set_solver|set_solver|].
    destruct (decide (p ∈ names_in fresh)) as [|Hn]; [done|]. exfalso. destruct (turned_up ord old fresh p) as [q|] eqn:Et.
    + apply Hnm. exists (p, q, default false (sn_is_dir (snapshot_of old) !! p)). split; [done|]. cbn. split_and!; [set_solver|done|done].
    + apply Hnr. split; [set_solver|done].
  - intros Hf. destruct (decide (p ∈ names_in old)) as [Ho|Ho].
    + right. split; [split; [by right|intros [? _]; set_solver]|]. intros (r & -> & Hr & _). set_solver.
    + destruct (decide (p ∈ map (λ r : PathBuf * PathBuf * bool, r.1.2) (df_renames (compute_dir_diff ord (snapshot_of old) fresh)))) as [Hr|Hn];
        rewrite list_elem_of_fmap in *.
      * left. destruct Hr as (r & E & Hr). exists r. by apply (renames_elem ord Hord) in Hr.
      * right. split; [split; [left; split; [set_solver|]|intros [? _]; set_solver]|intros (r & -> & Hr & _); set_solver].
        intros r Hr E. apply Hn. exists r. by rewrite (renames_elem ord Hord).
Qed.

Lemma changed_changes snap ap : changed (ap_diff ap) = negb (bool_decide (changes_of snap ap = [])).
Proof.
  unfold changed, changes_of. f_equal. destruct (df_added _), (df_removed _), (df_modified _), (df_renames _); done.
Qed.
Lemma change_inv snap ap c : c ∈ changes_of snap ap →
  match fc_kind c with
  | Renamed from => ∃ k, (from, fc_path c, k) ∈ df_renames (ap_diff ap)
  | Modified => fc_path c ∈ df_modified (ap_diff ap)
  | _ => True
  end.
Proof.
  unfold changes_of. rewrite !elem_of_app, !list_elem_of_fmap. intros [(p & -> & _)|[(p & -> & _)|[(p & -> & ?)|(r & -> & ?)]]]; cbn.
  - by destruct (default _ _).
  - by destruct (default _ _).
  - done.
  - exists r.2. by destruct r as [[? ?] ?].
Qed.

(** A refresh takes no bytes a save needs. *)
Lemma moved_copies l (x : FsCache * bool) p e : file_cache (foldl move_copy x l).1 !! p = Some e → ∃ p0, file_cache x.1 !! p0 = Some e.
Proof.
  revert x. induction l as [|[[a b] k] l IH]; intros x Hp; cbn [foldl] in Hp; [by exists p|]. apply IH in Hp as [p0 Hp]. revert Hp. unfold move_copy.
  destruct k; [by exists p0|]. destruct (file_cache x.1 !! a) as [e'|] eqn:Ea; [|by exists p0]. cbn.
  intros [[_ <-]|[_ [_ Hp]%lookup_delete_Some]]%lookup_insert_Some; [by exists a|by exists p0].
Qed.
Lemma drop_stale_gives l (x : Mount W * bool) : layout x.1 → gives x.1 (foldl drop_stale x l).1.
Proof.
  revert x. induction l as [|p l IH]; intros x L; [split; [apply spares_refl|done]|]. cbn [foldl].
  assert (G : gives x.1 (drop_stale x p).1).
  { unfold Refresh.drop_stale. destruct (file_cache (m_cache x.1) !! p) as [e|] eqn:E; [|split; [apply spares_refl|done]]. cbn.
    destruct (rm _); [|apply gives_forget]. eapply gives_trans; [apply gives_forget|]. apply (gives_drop (forget_copy p x.1) (p, e)); [|by eapply ly_copies].
    eapply gives_layout; [apply gives_forget|done]. }
  eapply gives_trans; [exact G|]. apply IH. by eapply gives_layout.
Qed.
Lemma refresh_spares dir old_snap etag se fresh s : layout (pu_mount s) →
  spares (pu_mount s) (pu_mount (apply_listing dir old_snap etag se fresh s).2).
Proof.
  intros L. unfold Refresh.apply_listing. destruct (foldl move_copy _ _) as [c moved] eqn:E0.
  set (m0 := upd_cache (λ _, c) (pu_mount s)). assert (L0 : layout m0).
  { destruct L as [L1 L2 L3 L4]. split; [done|done|done|]. intros p e Hp.
    match type of E0 with foldl _ _ ?l = _ => pose proof (moved_copies l (m_cache (pu_mount s), false) p e) as Hm end.
    rewrite E0 in Hm. destruct (Hm Hp) as [p0 Hp0]. by eapply L4. }
  destruct (foldl drop_stale (m0, moved) _) as [m1 ch] eqn:E1. pose proof (drop_stale_gives (df_modified (compute_dir_diff ord old_snap fresh)) (m0, moved) L0) as G.
  rewrite E1 in G. destruct G as [Sp _].
  destruct (get_cached_dir_readonly (m_cache m1) dir) as [oe c1]. match goal with |- context [foldl (ghost_renamed ?a ?b ?o) ?x ?l] => destruct (foldl (ghost_renamed a b o) x l) as [m3 prs] eqn:E3 end. set (m4 := foldl _ _ _).
  assert (Sp4 : spares m1 m4).
  { destruct (ghosts_added_same (df_added (compute_dir_diff ord old_snap fresh)) (upd_cache (λ c, put_dir_cache c tracker_ignore (Mount.now mono m3) (now_system clock m3) dir etag se fresh) m3)) as [C4 F4].
    fold m4 in C4, F4. match type of E3 with foldl ?f ?x ?l = _ => pose proof (ghosts_renamed_same (default [] oe) l x) as [C3 F3] end. rewrite E3 in C3, F3. cbn in C3, F3.
    match type of C3 with _ = m_core (foldl _ ?x ?l) => pose proof (ghosts_removed_same (default [] oe) l x) as [C2 F2] end.
    apply spares_same; [unfold m_journal; rewrite C4; cbn; by rewrite C3, C2|by rewrite F4; cbn; rewrite F3, F2]. }
  assert (Sp0 : spares (pu_mount s) m0) by (by apply spares_same). destruct ch; (eapply spares_trans; [exact Sp0|]; eapply spares_trans; [exact Sp|exact Sp4]).
Qed.

(** C29: What a refresh tells the file manager is exact.  Whatever the old listing it started
    from, and whatever happened since: the changes it adds to the queue, followed in their
    order, turn the names that were shown into the names the server has; a rename is told
    only of a name that is gone and a new one with the same file id; every file whose version
    is not the one shown is told as modified, and no cached copy of it is left listed; and
    the folder's cooldown starts, the short one exactly if something was told. *)
Theorem refresh_tells dir old etag se fresh (s : Push) :
  let s' := refresh_apply dir (snapshot_of old) (etag, se, fresh) s in
  ∃ l, pu_queue s' = pu_queue s ++ l ∧ foldl follow (names_in old) l = names_in fresh ∧
    (∀ from p, {| fc_kind := Renamed from; fc_path := p |} ∈ l →
       from ∈ names_in old ∖ names_in fresh ∧ p ∈ names_in fresh ∖ names_in old ∧
       ∃ i e e', e ∈ old ∧ e_path e = from ∧ ext_int (e_ext e) "fileid" = Some i ∧
                 e' ∈ fresh ∧ e_path e' = p ∧ ext_int (e_ext e') "fileid" = Some i) ∧
    (∀ f, f ∈ fresh → e_is_dir f = false → e_path f ∈ names_in old →
       (∀ e, e ∈ old → e_path e = e_path f → e_change_token e ≠ e_change_token f) →
       {| fc_kind := Modified; fc_path := e_path f |} ∈ l) ∧
    (∀ p, {| fc_kind := Modified; fc_path := p |} ∈ l → file_cache (m_cache (pu_mount s')) !! p = None) ∧
    pu_debounce s' !! dir = Some {| last_refresh := pu_now mono s'; had_changes := negb (bool_decide (l = [])) |}.
Proof.
  intros s'. pose proof (apply_spec dir (snapshot_of old) etag se fresh s) as Ha. unfold s', Refresh.refresh_apply.
  destruct (apply_listing dir (snapshot_of old) etag se fresh s) as [ap s1]. destruct Ha as (Hd & _ & Hc & Hq & _ & _ & _ & _).
  exists (changes_of (snapshot_of old) ap). cbn [pu_queue refreshed feed on_mount]. rewrite Hq. split_and!; [done|by apply changes_follow| | | |].
  - intros from p (k & Hr)%change_inv. cbn [fc_path] in Hr. rewrite Hd in Hr. apply renames_elem in Hr as (H1 & H2 & _); [|done].
    by apply turned_up_new in H2.
  - intros f Hf Hfd Hn Hne. unfold changes_of. rewrite !elem_of_app. right. right. left. apply list_elem_of_fmap. exists (e_path f). split; [done|].
    rewrite Hd, modified_elem. apply names_in_elem in Hn as (e & He & Ep).
    destruct (proj2 (collect_is_Some (λ f, Some (e_path f, e_change_token f)) old (e_path f))) as [t Ht]; [exists e, (e_change_token e); by rewrite Ep|].
    exists f, t. split_and!; try done. apply collect_Some in Ht as (e' & He' & [= E1 <-]). by apply Hne.
  - intros p Hp%change_inv. cbn [fc_kind fc_path] in Hp. rewrite Hd in Hp. by apply Hc.
  - rewrite <- changed_changes. apply lookup_insert_eq.
Qed.
End merged.

(** ** A folder is not asked again at once *)

Section paced.
Context {W : Type} `{CloudBackend W} `{KeepConfig} (clock : W → Z) (mono : W → Instant) (tracker_ignore honor_locks : bool).
Context (ord : gset PathBuf → list PathBuf) (rm : PathBuf → bool) (slot : call W bool).
Context (dir_change_token : PathBuf → call W (result (option Etag) BackendReadError)) (draw : Z).
Local Abbreviation refresh_one_dir := (refresh_one_dir clock mono tracker_ignore honor_locks ord rm slot dir_change_token draw).
Local Abbreviation pu_now := (pu_now (W := W) mono).
Implicit Types (s t : Push (W := W)).

Definition marked dir s : Prop := ∃ ch, pu_debounce s !! dir = Some {| last_refresh := pu_now s; had_changes := ch |}.
Lemma refreshed_marked dir ch s : marked dir (refreshed mono dir ch s).
Proof. exists ch. apply lookup_insert_eq. Qed.
Lemma probe_stops health dir s s' : probe clock mono slot dir_change_token draw health dir s = (None, s') → marked dir s'.
Proof.
  unfold probe. destruct (cached_dir_etag _ _) as [cached|]; [|done]. destruct (pu_call slot s) as [got s1].
  destruct got; cbn [negb]; [|intros [= <-]; apply refreshed_marked]. destruct (pu_call (dir_change_token dir) s1) as [r s2].
  destruct r as [current|e]; [case_bool_decide; [intros [= <-]; apply refreshed_marked|done]|].
  destruct e as [| | |code msg|]; try done. destruct (is_struggling code); [intros [= <-]; apply refreshed_marked|done].
Qed.
Lemma refresh_marks during health dir snap s : cooling mono s dir = false → marked dir (refresh_one_dir during health dir snap s).
Proof.
  intros Hc. unfold Refresh.refresh_one_dir. rewrite Hc. destruct (probe _ _ _ _ _ _ _ s) as [[[]|] s1] eqn:E; [|by eapply probe_stops].
  destruct (pu_call slot s1) as [got s2]. destruct got; cbn [negb]; [|apply refreshed_marked].
  destruct (pu_call (list_dir dir) s2) as [[[[etag se] fresh]|e] s3]; [|apply refreshed_marked].
  unfold refresh_apply. destruct (apply_listing _ _ _ _ _ _ _ _ _ _ _ _) as [ap s4]. apply refreshed_marked.
Qed.

(** C30: The server is not asked about a folder again at once, whatever it answered.  A
    refresh either finds the folder cooling down and does nothing at all, or leaves its time
    on record, a failure, a refused request slot and an unchanged etag included; and until
    three seconds have passed, every refresh of the folder, started by an event or a read,
    with any snapshot, does nothing. *)
Theorem refresh_paced during health dir snap s :
  let s' := refresh_one_dir during health dir snap s in
  (cooling mono s dir = true ∧ s' = s) ∨
  (marked dir s' ∧
   ∀ during' health' snap' t, pu_debounce t !! dir = pu_debounce s' !! dir → pu_now t < pu_now s' + REFRESH_DEBOUNCE →
     refresh_one_dir during' health' dir snap' t = t).
Proof.
  intros s'. destruct (cooling mono s dir) eqn:Hc; [left; split; [done|]; unfold s', Refresh.refresh_one_dir; by rewrite Hc|right].
  pose proof (refresh_marks during health dir snap s Hc) as Hm. split; [exact Hm|]. destruct Hm as [ch Hm]. fold s' in Hm.
  intros during' health' snap' t Ht Hnow. unfold Refresh.refresh_one_dir. assert (Hct : cooling mono t dir = true).
  { unfold cooling. rewrite Ht, Hm. cbn. unfold duration_since, sat_sub, debounce_cooldown, REFRESH_DEBOUNCE_NO_CHANGE, REFRESH_DEBOUNCE, secs in *. apply Z.ltb_lt. destruct ch; lia. }
  by rewrite Hct.
Qed.
End paced.

(** ** The runs behind the theorems *)

Definition rf_push (m : Mount Srv) : Push (W := Srv) :=
  Build_Push {| lc_mount := m; lc_json := ∅ |} [] ∅ 1 [] (Backoff.closed, ∅) ∅ false.
Definition rf_file (n : string) (i : Z) : RemoteEntry :=
  {| e_path := ["d"; n]%string; e_is_dir := false; e_size := 1; e_modified := None; e_change_token := Some "0"%string;
     e_content_type := None; e_ext := set_int ext_default "fileid" i |}.
Definition rf_old : list RemoteEntry := [rf_file "f" 7; rf_file "g" 8].
Definition rf_new : list RemoteEntry := [rf_file "h" 7; rf_file "g" 8; rf_file "i" 9].
Definition rf_applied : Push (W := Srv) :=
  refresh_apply no_clock no_clock false true elements (λ _, true) ["d"%string] (snapshot_of rf_old) (None, None, rf_new) (rf_push (demo_mount false)).
(** A file renamed on the server, and a new one. *)
Lemma refresh_tells_witness :
  pu_queue rf_applied = [{| fc_kind := Added; fc_path := ["d"; "i"]%string |}; {| fc_kind := Renamed ["d"; "f"]%string; fc_path := ["d"; "h"]%string |}] ∧
  foldl follow (names_in rf_old) (pu_queue rf_applied) = names_in rf_new.
Proof.
  split; [by vm_compute|].
  pose proof (refresh_tells no_clock no_clock false true elements (λ _, true) (λ t, reflexivity (elements t)) ["d"%string] rf_old None None rf_new (rf_push (demo_mount false))) as Hr.
  cbv zeta in Hr. change (refresh_apply _ _ _ _ _ _ _ _ _ _) with rf_applied in Hr. destruct Hr as (l & -> & Hl & _).
  exact Hl.
Defined.

(** A file of our own, created and not uploaded yet, is in the old listing and not on the
    server: the file manager and the kernel are told that it was removed, though the listing
    still shows it, and for ten seconds a program's unlink of it is answered and dropped. *)
Lemma own_file_taken_for_removed :
  let listed m := map e_path (default [] (d_files <$> dir_cache (m_cache m) !! ["d"%string])) in
  let files := default [] (d_files <$> dir_cache (m_cache dm2) !! ["d"%string]) in
  let s := refresh_one_dir no_clock no_clock false true elements (λ _, true) (λ w, (true, w)) (λ _ w, (Ok None, w)) 0 (λ s, s) false ["d"%string]
             (snapshot_of files) (rf_push dm2) in
  let '(r, m) := unlink no_clock no_clock 2 "x" (pu_mount s) in
  pu_queue s = [{| fc_kind := Removed; fc_path := ["d"; "x"]%string |}] ∧ pu_notes s = [InvalInode 2; Deleted 2 3 "x"] ∧
  listed (pu_mount s) = [["d"; "f"]; ["d"; "x"]]%string ∧
  r = Done ∧ map op (entries (m_journal m)) = map op (entries (m_journal dm2)) ∧ listed m = listed (pu_mount s).
Proof. by vm_compute. Qed.
