(* ===== verification/Copies.v ===== *)
(** [lib.rs], copies of whole files: the download that makes one ([ensure_file_cached]), keeping
    a file or folder, the copies named in the saved cache map at a start and their validation.

    [download] is the server's GET into a file, [slot] the wait for a download slot, both
    given the time they may take; the throttle's slots are part of the world.  [mkdirs],
    [create], [rm] and [ren] say which file system calls succeed.  Other threads run while an
    attempt is on the wire: [during i] is what they do to the mount in the [i]-th. *)
From stdpp Require Import pretty.
From Stdlib Require Import Ascii String.
From S2P Require Import Prelude Paths Backend Server FsCache Journal Replay ChunkUpload Versions AppLocks Attr IoMode PathSeq Mount LiveUpload Errors Local.
From S2P Require ReadDir.
Local Open Scope Z_scope.

(* lib.rs:165-165 DOWNLOAD_TIMEOUT *)
Definition DOWNLOAD_TIMEOUT : Duration := secs 120.
(* lib.rs:167-167 DOWNLOAD_SLOT_WAIT *)
Definition DOWNLOAD_SLOT_WAIT : Duration := secs 30.
(** [dl_delay]: its first value and its ceiling. *)
Definition FIRST_DELAY : Duration := 500 * ms.
Definition MAX_DELAY : Duration := secs 4.

(* lib.rs:3031-3035 replacement_path *)
Definition replacement_path (pid n : nat) (p : PathBuf) : PathBuf :=
  join (default root (parent p)) [("." +:+ default "" (file_name p) +:+ ".ncrs-part-" +:+ pretty pid +:+ "-" +:+ pretty n)%string].

Section copies.
Context {W : Type} `{KeepConfig} (clock : W → Z) (mono : W → Instant).
Context (download : PathBuf → Duration → call W (result (bytes * option Etag) (bytes * BackendReadError))).
Context (slot : Duration → call W bool) (sleep : Duration → W → W).
Context (mkdirs create rm : PathBuf → bool) (ren : PathBuf → PathBuf → bool) (pid : nat).
Context (during : nat → Mount W → Mount W).
Implicit Types (m : Mount W).

(** The mount with [file_cache.json], the progress rows of whole files, and [NEXT]. *)
Record Copies := { cp_local : Local (W := W); cp_transfers : gset PathBuf; cp_next : nat }.
Implicit Types (s : Copies).
Definition cp_mount s : Mount W := lc_mount (cp_local s).
Definition on_cp (f : Mount W → Mount W) s : Copies :=
  {| cp_local := on_lc f (cp_local s); cp_transfers := cp_transfers s; cp_next := cp_next s |}.
Definition set_transfers (t : gset PathBuf) s : Copies := {| cp_local := cp_local s; cp_transfers := t; cp_next := cp_next s |}.
Definition save_copies s : Copies :=
  {| cp_local := save_file_cache (cp_local s); cp_transfers := cp_transfers s; cp_next := cp_next s |}.
Definition part_taken s : Copies := {| cp_local := cp_local s; cp_transfers := cp_transfers s; cp_next := S (cp_next s) |}.

Definition on_disk (f : Files → Files) : Mount W → Mount W := upd_j (λ j, set_files j (f (files (disk j)))).
Definition put_bytes (p : PathBuf) (bs : bytes) m : Mount W :=
  on_disk (insert p (Build_LocalFile bs (now_system clock m))) m.
(** [fs::rename]. *)
Definition move_bytes (from to : PathBuf) (fs : Files) : Files :=
  match fs !! from with Some f => <[to := f]> (delete from fs) | None => fs end.
Definition remove_bytes (p : PathBuf) m : Mount W := if rm p then on_disk (delete p) m else m.
Definition tell (p : PathBuf) (st : FileStatus) (m : Mount W) : Mount W := upd_core (mark_dirty [p]) (put_status p st m).

(** ** One download *)

(* lib.rs:3056-3056 open_file_within *)
Definition left (deadline : option Instant) (cap : Duration) (w : W) : Duration :=
  match deadline with Some d => Z.min cap (sat_sub d (mono w)) | None => cap end.
(** An error comes with the bytes written before it. *)
(* lib.rs:3048-3076 open_file_within *)
Definition open_file_within (path : PathBuf) (deadline : option Instant) : call W (result (bytes * option Etag) (bytes * string)) :=
  λ w, let '(got, w) := slot (left deadline DOWNLOAD_SLOT_WAIT w) w in
       if negb got then (Err ([], "WebDAV download timeout (no download slot)"%string), w) else
       let timeout := left deadline DOWNLOAD_TIMEOUT w in
       if timeout =? 0 then (Err ([], "WebDAV download timeout (no time left)"%string), w) else
       let '(r, w) := download path timeout w in
       (match r with Ok x => Ok x | Err (bs, e) => Err (bs, render e) end, w).

(** The body goes into [part], which is renamed over [local] once it is whole. *)
(* lib.rs:4527-4530 ensure_file_cached_within *)
Definition fetch_into (path part local : PathBuf) (deadline : option Instant) (i : nat) s : result (option Etag) string * Copies :=
  let '(r, w) := open_file_within path deadline (m_world (cp_mount s)) in
  let s := on_cp (λ m, log_world w (during i m)) s in
  match r with
  | Ok (bs, etag) =>
      let s := on_cp (put_bytes part bs) s in
      if ren part local then (Ok etag, on_cp (on_disk (move_bytes part local)) s) else (Err "install cache file: "%string, s)
  | Err (bs, e) => (Err e, on_cp (put_bytes part bs) s)
  end.

(** After a failure neither the part nor the previous copy, which is stale, is left. *)
(* lib.rs:4534-4539 ensure_file_cached_within *)
Definition failed (path part local : PathBuf) s : Copies :=
  on_cp (λ m, remove_bytes local (remove_bytes part m)) (set_transfers (cp_transfers s ∖ {[path]}) s).
(* lib.rs:4540-4540 ensure_file_cached_within *)
Definition time_left (deadline : option Instant) (delay : Duration) s : bool :=
  match deadline with Some d => delay <? sat_sub d (mono (m_world (cp_mount s))) | None => true end.
(* lib.rs:4544-4552 ensure_file_cached_within *)
Definition wait_again (path : PathBuf) (delay : Duration) s : Copies :=
  on_cp (λ m, log_world (sleep delay (m_world m)) m) (set_transfers (cp_transfers s ∪ {[path]}) s).
(* lib.rs:4557-4560 ensure_file_cached_within *)
Definition dropped (path : PathBuf) : Copies → Copies := on_cp (λ m, tell path Remote (forget_copy path m)).
(** [retries]: how often it may still be tried again, [2 - dl_attempt]. *)
(* lib.rs:4518-4563 ensure_file_cached_within *)
Fixpoint attempts (retries : nat) (path part local : PathBuf) (deadline : option Instant) (delay : Duration) (i : nat) s :
    result (option Etag) string * Copies :=
  if negb (create part) then (Err "create cache file: "%string, s) else
  match fetch_into path part local deadline i (on_cp (put_bytes part []) s) with
  | (Ok etag, s) => (Ok etag, s)
  | (Err e, s) =>
      let s := failed path part local s in
      match retries with
      | S retries =>
          if time_left deadline delay s && is_transient_network_err e
          then attempts retries path part local deadline (Z.min (delay * 2) MAX_DELAY) (S i) (wait_again path delay s)
          else (Err e, dropped path s)
      | O => (Err e, dropped path s)
      end
  end.

(** ** Making a copy *)

Definition target_dir (kept : bool) : PathBuf := if kept then kept_dir else auto_cache_dir.

(** A copy that is there, not empty, and as old as the listing says the file is. *)
(* lib.rs:4466-4480 ensure_file_cached_within *)
Definition usable_copy (path : PathBuf) m : option FileCacheEntry :=
  e ← file_cache (m_cache m) !! path; f ← m_disk m !! fc_local_path e;
  if (0 <? blen (lf_bytes f)) && bool_decide (fc_remote_modified e = remote_modified_for (m_cache m) path) then Some e else None.

Definition kept_at (new : PathBuf) (e : FileCacheEntry) : FileCacheEntry :=
  Build_FileCacheEntry new (fc_remote_modified e) (fc_etag e) true (fc_size e).
(* lib.rs:4482-4505 ensure_file_cached_within *)
Definition reuse_copy (path : PathBuf) (kept : bool) (e : FileCacheEntry) s : result PathBuf string * Copies :=
  let local := fc_local_path e in
  let new := join (target_dir kept) path in
  if kept && negb (fc_kept e) && bool_decide (local ≠ new) && ren local new then
    let s := on_cp (on_disk (move_bytes local new)) s in
    let s := on_cp (upd_cache (λ c, with_file_cache c (alter (kept_at new) path (file_cache c)))) s in
    (Ok new, on_cp (tell path Replay.Kept) (save_copies s))
  else (Ok local, s).

(* lib.rs:4571-4587 ensure_file_cached_within *)
Definition record_copy (path local : PathBuf) (kept : bool) (got : option Etag) s : Copies :=
  let s := on_cp (λ m, upd_cache (λ c, with_file_cache c (<[path :=
    {| fc_local_path := local; fc_remote_modified := remote_modified_for c path;
       fc_etag := or_else (remote_etag_for c path) got; fc_kept := kept;
       fc_size := default 0 ((λ f, blen (lf_bytes f)) <$> m_disk m !! local) |}]> (file_cache c))) m) s in
  on_cp (tell path (if kept then Replay.Kept else Replay.Cached)) (save_copies s).

(* lib.rs:4507-4517 ensure_file_cached_within *)
Definition started (path : PathBuf) s : Copies := on_cp (tell path Downloading) (set_transfers (cp_transfers s ∪ {[path]}) s).

(* lib.rs:4456-4589 ensure_file_cached_within *)
Definition ensure_file_cached_within (path : PathBuf) (kept : bool) (deadline : option Instant) s : result PathBuf string * Copies :=
  match usable_copy path (cp_mount s) with
  | Some e => reuse_copy path kept e s
  | None =>
      let s := started path s in
      let local := join (target_dir kept) path in
      if negb (mkdirs (default root (parent local))) then (Err "create directories"%string, s) else
      let part := replacement_path pid (cp_next s) local in
      match attempts 2 path part local deadline FIRST_DELAY 0 (part_taken s) with
      | (Err e, s) => (Err e, s)
      | (Ok got, s) =>
          (Ok local, record_copy path local kept got (set_transfers (cp_transfers s ∖ {[path]}) s))
      end
  end.
(* lib.rs:4440-4450 ensure_file_cached *)
Definition ensure_file_cached (path : PathBuf) (kept : bool) s : result PathBuf string * Copies :=
  ensure_file_cached_within path kept None s.

(** ** Keeping a file or folder *)

(** [chunks(KEEP_SCOPE_WIDTH)]: the downloads of a chunk run at once; one after the other here,
    what they do to each other being [during]. *)
(* bg.rs:359-359 KEEP_SCOPE_WIDTH *)
Fixpoint chunks_of_two (l : list PathBuf) : list (list PathBuf) :=
  match l with
  | p :: q :: l' => [p; q] :: chunks_of_two l'
  | [p] => [[p]]
  | [] => []
  end.
(* lib.rs:4656-4667 keep_locally_recursive *)
Definition keep_files (files : list PathBuf) s : Copies :=
  foldl (λ s chunk, on_cp (λ m, log_world (sleep (50 * ms) (m_world m)) m) (foldl (λ s p, (ensure_file_cached p true s).2) s chunk)) s (chunks_of_two files).
(* lib.rs:4642-4655 keep_locally_recursive *)
Definition children (path : PathBuf) (dirs : bool) (entries : list RemoteEntry) : list PathBuf :=
  omap (λ e, if Bool.eqb (e_is_dir e) dirs then (λ n, join path [n]) <$> file_name (e_path e) else None) entries.

(** [listing]: what get_or_list_dir answers, whatever runs meanwhile. *)
Section keep.
Context (listing : PathBuf → Copies → result (list RemoteEntry * option RemoteEntry) string * Copies).
(* lib.rs:4603-4614 keep_locally_recursive *)
Definition keep_file (path : PathBuf) s : bool * Copies :=
  let '(r, s) := ensure_file_cached path true s in (is_ok r, s).
(* lib.rs:4593-4673 keep_locally_recursive *)
Fixpoint keep_locally_recursive (fuel : nat) (path : PathBuf) s : option (bool * Copies) :=
  match fuel with
  | O => None
  | S fuel =>
      let known_dir := is_known_directory (m_cache (cp_mount s)) path in
      if bool_decide (known_dir = Some false) then Some (keep_file path s) else
      match listing path s with
      | (Err _, s) => Some (if bool_decide (known_dir = None) then keep_file path s else (false, s))
      | (Ok (entries, self_entry), s) =>
          if default false ((λ se, negb (e_is_dir se)) <$> self_entry)
          then Some (keep_file path (on_cp (upd_cache (λ c, with_dirs c (delete path (dir_cache c)))) s)) else
          let s := keep_files (children path false entries) s in
          s ← foldl (λ os dir, s ← os; snd <$> keep_locally_recursive fuel dir s) (Some s) (children path true entries);
          Some (true, s)
      end
  end.
End keep.

(** What one attempt leads to. *)
Lemma attempts_cases retries path part local deadline delay i s :
  let a := attempts retries path part local deadline delay i s in
  (create part = false ∧ a = (Err "create cache file: "%string, s)) ∨
  (create part = true ∧ ∃ r s1, fetch_into path part local deadline i (on_cp (put_bytes part []) s) = (r, s1) ∧
     ((∃ etag, r = Ok etag ∧ a = (Ok etag, s1)) ∨
      (∃ e, r = Err e ∧
        let s2 := failed path part local s1 in
        ((∃ n, retries = S n ∧ time_left deadline delay s2 = true ∧ is_transient_network_err e = true ∧
            a = attempts n path part local deadline (Z.min (delay * 2) MAX_DELAY) (S i) (wait_again path delay s2)) ∨
         a = (Err e, dropped path s2))))).
Proof.
  cbv zeta. destruct (create part) eqn:Hc; [right; split; [done|]|left; split; [done|]; destruct retries; cbn [attempts]; by rewrite Hc].
  destruct (fetch_into _ _ _ _ _ _) as [r s1] eqn:Hf. exists r, s1. split; [done|].
  destruct r as [etag|e]; [left; exists etag|right; exists e]; (split; [done|]); destruct retries; cbn [attempts]; rewrite Hc, Hf; cbn [negb];
    try done; [by right|]. destruct (time_left _ _ _) eqn:?; [|by right]. destruct (is_transient_network_err e) eqn:?; [|by right].
  left. by exists retries.
Qed.

(** ** In time *)

Section timed.
Context (late : Duration) (Hlate : 0 <= late).
Context (Hslot : ∀ d w, 0 <= d → mono w <= mono (slot d w).2 <= mono w + d + late).
Context (Hdown : ∀ p d w, 0 < d → mono w <= mono (download p d w).2 <= mono w + d + late).
Context (Hsleep : ∀ d w, 0 <= d → mono w <= mono (sleep d w) <= mono w + d + late).

Lemma left_bound deadline cap w : 0 <= cap → 0 <= left deadline cap w <= cap ∧ ∀ d, deadline = Some d → left deadline cap w <= sat_sub d (mono w).
Proof using. intros Hc. unfold left, sat_sub. destruct deadline as [d|]; split; try lia; [intros ? [= ->]; lia|by intros]. Qed.

Definition download_ends (deadline : option Instant) (t : Instant) : Instant :=
  match deadline with Some d => Z.max t d + late | None => t + DOWNLOAD_SLOT_WAIT + DOWNLOAD_TIMEOUT + 2 * late end.
Lemma open_file_time path deadline w : mono w <= mono (open_file_within path deadline w).2 <= download_ends deadline (mono w).
Proof using Hdown Hlate Hslot.
  assert (0 <= DOWNLOAD_SLOT_WAIT) as H1 by done. assert (0 <= DOWNLOAD_TIMEOUT) as H2 by done.
  unfold open_file_within, download_ends. destruct (left_bound deadline DOWNLOAD_SLOT_WAIT w H1) as [L1 L2].
  pose proof (Hslot _ w (proj1 L1)) as Hs. destruct (slot _ w) as [got w1]. cbn in Hs.
  assert (Hw1 : mono w1 <= match deadline with Some d => Z.max (mono w) d | None => mono w + DOWNLOAD_SLOT_WAIT end + late).
  { destruct deadline as [d|]; [specialize (L2 d eq_refl); unfold sat_sub in L2|]; lia. }
  destruct got; cbn [negb]; [|cbn; destruct deadline; lia]. destruct (left_bound deadline DOWNLOAD_TIMEOUT w1 H2) as [M1 M2].
  destruct (_ =? 0) eqn:Hz; [cbn; destruct deadline; lia|]. bool_prop.
  pose proof (Hdown path (left deadline DOWNLOAD_TIMEOUT w1) w1 ltac:(lia)) as Hd. destruct (download path _ w1) as [r w2].
  cbn in Hd. destruct deadline as [d|]; [specialize (M2 d eq_refl); unfold sat_sub in *|]; destruct r as [|[]]; cbn; lia.
Qed.

Local Abbreviation clk s := (mono (m_world (cp_mount s))).
Lemma fetch_time path part local deadline i s :
  clk s <= clk (fetch_into path part local deadline i s).2 <= download_ends deadline (clk s).
Proof using Hdown Hlate Hslot.
  pose proof (open_file_time path deadline (m_world (cp_mount s))) as Ho. unfold fetch_into.
  destruct (open_file_within _ _ _) as [[[bs etag]|[bs e]] w]; cbn [snd] in Ho; [|exact Ho]. by destruct (ren _ _).
Qed.

Lemma remove_world p m : m_world (remove_bytes p m) = m_world m.
Proof. unfold remove_bytes. by destruct (rm p). Qed.

Fixpoint delays (retries : nat) (delay : Duration) : Duration :=
  match retries with O => 0 | S n => delay + delays n (Z.min (delay * 2) MAX_DELAY) end.
(** When the attempts end: with a deadline, when there is none. *)
Definition attempts_end (retries : nat) (deadline : option Instant) (delay : Duration) (t : Instant) : Instant :=
  match deadline with
  | Some d => Z.max t (d + late) + late
  | None => t + (Z.of_nat retries + 1) * (DOWNLOAD_SLOT_WAIT + DOWNLOAD_TIMEOUT + 2 * late) + delays retries delay + Z.of_nat retries * late
  end.
Lemma delays_pos n d : 0 <= d → 0 <= delays n d.
Proof using.
  assert (0 <= MAX_DELAY) as HM by done. revert d. induction n as [|n IH]; intros d Hd; cbn [delays]; [done|].
  specialize (IH (Z.min (d * 2) MAX_DELAY)). lia.
Qed.
Lemma attempts_end_ge retries deadline delay t : 0 <= delay → download_ends deadline t <= attempts_end retries deadline delay t.
Proof using Hlate.
  intros Hd. unfold attempts_end, download_ends. pose proof (delays_pos retries delay Hd). destruct deadline as [d|]; [lia|].
  assert (0 <= DOWNLOAD_SLOT_WAIT + DOWNLOAD_TIMEOUT) by done. nia.
Qed.
Lemma attempts_end_wait n deadline delay t t1 t2 : t1 <= download_ends deadline t → t2 <= t1 + delay + late →
  (∀ d, deadline = Some d → t1 + delay < d) →
  attempts_end n deadline (Z.min (delay * 2) MAX_DELAY) t2 <= attempts_end (S n) deadline delay t.
Proof using Hlate.
  unfold attempts_end, download_ends. intros H1 H2 H3. destruct deadline as [d|]; [specialize (H3 d eq_refl); lia|].
  cbn [delays]. rewrite Nat2Z.inj_succ. unfold Z.succ. lia.
Qed.

Lemma attempts_time retries path part local deadline delay i s : 0 <= delay →
  clk s <= clk (attempts retries path part local deadline delay i s).2 <= attempts_end retries deadline delay (clk s).
Proof using Hdown Hlate Hsleep Hslot.
  assert (0 <= MAX_DELAY) as HM by done. revert delay i s. induction retries as [retries IH] using lt_wf_ind. intros delay i s Hde.
  pose proof (attempts_end_ge retries deadline delay (clk s) Hde) as Hge.
  assert (Hst : clk s <= download_ends deadline (clk s)) by (unfold download_ends; assert (0 <= DOWNLOAD_SLOT_WAIT + DOWNLOAD_TIMEOUT) by done; destruct deadline; lia).
  destruct (attempts_cases retries path part local deadline delay i s) as [[_ ->]|(_ & r & s1 & Hf & Hc)]; [cbn [snd]; lia|].
  pose proof (fetch_time path part local deadline i (on_cp (put_bytes part []) s)) as Ht. rewrite Hf in Ht. cbn [snd] in Ht.
  change (clk (on_cp (put_bytes part []) s)) with (clk s) in Ht.
  assert (Hfail : clk (failed path part local s1) = clk s1).
  { change (mono (m_world (remove_bytes local (remove_bytes part (cp_mount s1)))) = clk s1). by rewrite !remove_world. }
  destruct Hc as [(etag & _ & ->)|(e & _ & [(n & -> & Hl & _ & ->)| ->])]; [cbn [snd]; lia| |].
  2: { change (clk s <= clk (failed path part local s1) <= attempts_end retries deadline delay (clk s)). rewrite Hfail. lia. }
  assert (Hw : clk s1 <= clk (wait_again path delay (failed path part local s1)) <= clk s1 + delay + late).
  { pose proof (Hsleep delay (m_world (cp_mount (failed path part local s1))) Hde) as Hw. by rewrite Hfail in Hw. }
  pose proof (IH n ltac:(lia) (Z.min (delay * 2) MAX_DELAY) (S i) (wait_again path delay (failed path part local s1)) ltac:(lia)) as Hi.
  pose proof (attempts_end_wait n deadline delay (clk s) (clk s1) _ (proj2 Ht) (proj2 Hw)) as He. split; [lia|].
  etransitivity; [apply Hi|]. apply He. intros d ->. unfold time_left in Hl. rewrite Hfail in Hl. unfold sat_sub in Hl. bool_prop. lia.
Qed.

Lemma record_world path local kept got s : m_world (cp_mount (record_copy path local kept got s)) = m_world (cp_mount s).
Proof. done. Qed.
(** C99: A download for a caller that holds a reply ends by the caller's deadline, and one
    without a deadline ends.  Every wait for a slot, attempt and pause together: whichever
    attempts fail and however, the call is over at the deadline, at once when that is past,
    each of two calls overrunning by at most [late]; without a deadline it is over after three
    times 150 seconds and pauses of a second and a half. *)
Theorem download_in_time path kept deadline s :
  let s' := (ensure_file_cached_within path kept deadline s).2 in
  clk s <= clk s' ∧
  match deadline with
  | Some d => clk s' <= Z.max (clk s) (d + late) + late
  | None => clk s' <= clk s + secs 451 + 500 * ms + 8 * late
  end.
Proof using Hdown Hlate Hsleep Hslot.
  cbv zeta. unfold ensure_file_cached_within. destruct (usable_copy path (cp_mount s)) as [e|].
  { assert (E : clk (reuse_copy path kept e s).2 = clk s) by (unfold reuse_copy; by destruct (_ && _)).
    rewrite E. split; [done|]. destruct deadline; [lia|]. unfold secs, ms. lia. }
  assert (E : clk (started path s) = clk s) by done. cbv zeta. destruct (mkdirs _); cbn [negb].
  2: { cbn [snd]. rewrite E. split; [done|]. destruct deadline; unfold secs, ms; lia. }
  match goal with |- context [attempts 2 path ?part ?local deadline FIRST_DELAY 0 ?s0] =>
    pose proof (attempts_time 2 path part local deadline FIRST_DELAY 0 s0 ltac:(done)) as Ha;
    destruct (attempts 2 path part local deadline FIRST_DELAY 0 s0) as [r s1] end.
  change (clk (part_taken (started path s))) with (clk s) in Ha. cbn [snd] in Ha.
  assert (E1 : ∀ x, clk (match r with Ok got => (Ok (E := string) x, record_copy path x kept got (set_transfers (cp_transfers s1 ∖ {[path]}) s1)) | Err e => (Err e, s1) end).2 = clk s1)
    by (intros; by destruct r).
  rewrite E1. split; [lia|]. destruct Ha as [_ Ha]. unfold attempts_end in Ha. destruct deadline; [done|].
  change (delays 2 FIRST_DELAY) with (1500 * ms) in Ha. unfold secs, ms, DOWNLOAD_SLOT_WAIT, DOWNLOAD_TIMEOUT, secs in *. lia.
Qed.
End timed.

(** ** What becomes of a copy *)

Lemma shorter_string a b : (String.length a ≤ String.length (a +:+ b))%nat.
Proof. induction a as [|c a IH]; [apply Nat.le_0_l|]. by apply le_n_S. Qed.
Lemma replacement_ne n p : replacement_path pid n p ≠ p.
Proof.
  unfold replacement_path, join, file_name. destruct p as [|x p _] using rev_ind; [done|].
  rewrite last_snoc, Naming.parent_snoc. cbn [default]. intros [= E]%app_inv_head. apply (f_equal String.length) in E.
  set (t := (".ncrs-part-" +:+ pretty pid +:+ "-" +:+ pretty n)%string) in E. change (S (String.length (x +:+ t)) = String.length x) in E.
  pose proof (shorter_string x t). lia.
Qed.

Lemma remove_disk p q m : m_disk (remove_bytes p m) !! q = if bool_decide (p = q) && rm p then None else m_disk m !! q.
Proof.
  unfold remove_bytes. destruct (rm p); rewrite ?andb_true_r, ?andb_false_r; [|done].
  change (delete p (m_disk m) !! q = if bool_decide (p = q) then None else m_disk m !! q). case_bool_decide; subst; [apply lookup_delete_eq|by apply lookup_delete_ne].
Qed.

(** Nothing but the part and the copy it becomes changes on the disk. *)
Lemma fetch_frame path part local deadline i s q : (∀ m, m_disk (during i m) !! q = m_disk m !! q) → q ≠ part → q ≠ local →
  m_disk (cp_mount (fetch_into path part local deadline i s).2) !! q = m_disk (cp_mount s) !! q.
Proof.
  intros Hd Hp Hl. unfold fetch_into. destruct (open_file_within _ _ _) as [[[bs etag]|[bs e]] w]; cbn [snd].
  - assert (Hq : m_disk (cp_mount (on_cp (put_bytes part bs) (on_cp (λ m, log_world w (during i m)) s))) !! q = m_disk (cp_mount s) !! q).
    { change (<[part := Build_LocalFile bs (now_system clock (log_world w (during i (cp_mount s))))]> (m_disk (during i (cp_mount s))) !! q = m_disk (cp_mount s) !! q).
      rewrite lookup_insert_ne by done. apply Hd. }
    destruct (ren part local); cbn [snd]; [|exact Hq]. rewrite <- Hq. generalize (on_cp (put_bytes part bs) (on_cp (λ m, log_world w (during i m)) s)).
    intros x. change (move_bytes part local (m_disk (cp_mount x)) !! q = m_disk (cp_mount x) !! q). unfold move_bytes.
    destruct (_ !! part); [|done]. by rewrite lookup_insert_ne, lookup_delete_ne.
  - change (<[part := Build_LocalFile bs (now_system clock (log_world w (during i (cp_mount s))))]> (m_disk (during i (cp_mount s))) !! q = m_disk (cp_mount s) !! q).
    rewrite lookup_insert_ne by done. apply Hd.
Qed.

Lemma attempts_frame retries path part local deadline delay i s q : (∀ i m, m_disk (during i m) !! q = m_disk m !! q) → q ≠ part → q ≠ local →
  m_disk (cp_mount (attempts retries path part local deadline delay i s).2) !! q = m_disk (cp_mount s) !! q.
Proof.
  intros Hd Hp Hl. revert delay i s. induction retries as [retries IH] using lt_wf_ind. intros delay i s.
  destruct (attempts_cases retries path part local deadline delay i s) as [[_ ->]|(_ & r & s1 & Hf & Hc)]; [done|].
  pose proof (fetch_frame path part local deadline i (on_cp (put_bytes part []) s) q (Hd i) Hp Hl) as Hq. rewrite Hf in Hq. cbn [snd] in Hq.
  assert (H0 : m_disk (cp_mount (on_cp (put_bytes part []) s)) !! q = m_disk (cp_mount s) !! q) by (by apply (lookup_insert_ne (m_disk (cp_mount s)))).
  assert (H1 : m_disk (cp_mount (failed path part local s1)) !! q = m_disk (cp_mount s1) !! q).
  { change (m_disk (remove_bytes local (remove_bytes part (cp_mount s1))) !! q = m_disk (cp_mount s1) !! q). rewrite !remove_disk. by rewrite !bool_decide_false by congruence. }
  rewrite <- H0, <- Hq. destruct Hc as [(etag & _ & ->)|(e & _ & [(n & -> & _ & _ & ->)| ->])]; [done| |exact H1].
  rewrite IH by lia. exact H1.
Qed.

(** What the attempts leave: a whole body under the copy's name, or nothing. *)
Definition installed (path part local : PathBuf) (got : option Etag) s : Prop :=
  m_disk (cp_mount s) !! part = None ∧
  ∃ w t w' bs, download path t w = (Ok (bs, got), w') ∧ lf_bytes <$> m_disk (cp_mount s) !! local = Some bs.
Definition abandoned (path part local : PathBuf) s : Prop :=
  file_cache (m_cache (cp_mount s)) !! path = None ∧ r_status (m_core (cp_mount s)) !! path = Some Remote ∧ path ∈ r_dirty (m_core (cp_mount s)) ∧
  path ∉ cp_transfers s ∧ (rm part = true → m_disk (cp_mount s) !! part = None) ∧ (rm local = true → m_disk (cp_mount s) !! local = None).

Lemma fetch_ok path part local deadline i s got s' : part ≠ local →
  fetch_into path part local deadline i s = (Ok got, s') → installed path part local got s'.
Proof.
  intros Hne. unfold fetch_into. destruct (open_file_within _ _ _) as [r w] eqn:Ho. destruct r as [[bs etag]|[bs e]]; [|done].
  destruct (ren part local); [|done]. intros [= -> <-].
  assert (Hd : ∃ t w0, download path t w0 = (Ok (bs, got), w)).
  { unfold open_file_within in Ho. destruct (slot _ _) as [[] w1]; [|done]. cbn [negb] in Ho. case_match; [done|].
    destruct (download path _ w1) as [[[bs' g']|[bs' e]] w2] eqn:Hd; [|done]. injection Ho as -> -> ->. by eexists _, _. }
  destruct Hd as (t & w0 & Hd). generalize (on_cp (λ m, log_world w (during i m)) s). intros x.
  set (f := Build_LocalFile bs (now_system clock (cp_mount x))).
  assert (E : m_disk (cp_mount (on_cp (on_disk (move_bytes part local)) (on_cp (put_bytes part bs) x))) = move_bytes part local (<[part := f]> (m_disk (cp_mount x)))) by done.
  unfold installed. rewrite E. unfold move_bytes. rewrite lookup_insert_eq. split.
  - by rewrite lookup_insert_ne, lookup_delete_eq by done.
  - exists w0, t, w, bs. split; [done|]. by rewrite lookup_insert_eq.
Qed.

Lemma abandoned_after path part local s : part ≠ local → abandoned path part local (dropped path (failed path part local s)).
Proof.
  intros Hne. unfold abandoned. set (s' := failed path part local s).
  assert (Hd : ∀ q, m_disk (cp_mount (dropped path s')) !! q = m_disk (remove_bytes local (remove_bytes part (cp_mount s))) !! q) by done.
  split_and!.
  - apply (lookup_delete_eq (file_cache (m_cache (cp_mount s')))).
  - apply (lookup_insert_eq (r_status (m_core (cp_mount s')))).
  - change (path ∈ ({[path]} ∪ ∅) ∪ r_dirty (m_core (cp_mount s'))). set_solver.
  - change (path ∉ cp_transfers s ∖ {[path]}). set_solver.
  - intros Hr. rewrite Hd, !remove_disk, Hr, (bool_decide_true (part = part)) by done. by destruct (_ && _).
  - intros Hr. by rewrite Hd, remove_disk, Hr, bool_decide_true.
Qed.

Lemma attempts_outcome retries path part local deadline delay i s : part ≠ local →
  match attempts retries path part local deadline delay i s with
  | (Ok got, s') => installed path part local got s'
  | (Err e, s') => create part = false ∨ abandoned path part local s'
  end.
Proof.
  intros Hne. revert delay i s. induction retries as [retries IH] using lt_wf_ind. intros delay i s.
  destruct (attempts_cases retries path part local deadline delay i s) as [[? ->]|(_ & r & s1 & Hf & Hc)]; [by left|].
  destruct Hc as [(etag & -> & ->)|(e & -> & [(n & -> & _ & _ & ->)| ->])]; [by eapply fetch_ok| |].
  - apply IH. lia.
  - right. by apply abandoned_after.
Qed.
Lemma usable_spec path m e : usable_copy path m = Some e → file_cache (m_cache m) !! path = Some e ∧ ∃ f, m_disk m !! fc_local_path e = Some f.
Proof.
  unfold usable_copy. destruct (file_cache (m_cache m) !! path) as [e'|]; [|done]. cbn. destruct (m_disk m !! fc_local_path e') as [f|] eqn:Hf; [|done].
  cbn. destruct (_ && _); [|done]. intros [= <-]. split; [done|by exists f].
Qed.

Lemma reuse_outcome path kept e s : usable_copy path (cp_mount s) = Some e →
  let '(r, s') := reuse_copy path kept e s in
  ∃ p fc f, r = Ok p ∧ file_cache (m_cache (cp_mount s')) !! path = Some fc ∧ fc_local_path fc = p ∧ fc_etag fc = fc_etag e ∧
    m_disk (cp_mount s) !! fc_local_path e = Some f ∧ m_disk (cp_mount s') !! p = Some f ∧
    (p = join (target_dir kept) path ∨ p = fc_local_path e) ∧
    ∀ q, q ≠ fc_local_path e → q ≠ join (target_dir kept) path → m_disk (cp_mount s') !! q = m_disk (cp_mount s) !! q.
Proof.
  intros (He & f & Hf)%usable_spec. unfold reuse_copy. destruct (_ && _) eqn:Hb.
  2: { exists (fc_local_path e), e, f. split_and!; try done. by right. }
  bool_prop. exists (join (target_dir kept) path), (kept_at (join (target_dir kept) path) e), f. split_and!; try done.
  - change (alter (kept_at (join (target_dir kept) path)) path (file_cache (m_cache (cp_mount s))) !! path = Some (kept_at (join (target_dir kept) path) e)).
    by rewrite lookup_alter_eq, He.
  - change (move_bytes (fc_local_path e) (join (target_dir kept) path) (m_disk (cp_mount s)) !! join (target_dir kept) path = Some f).
    unfold move_bytes. by rewrite Hf, lookup_insert_eq.
  - by left.
  - intros q Hq1 Hq2. change (move_bytes (fc_local_path e) (join (target_dir kept) path) (m_disk (cp_mount s)) !! q = m_disk (cp_mount s) !! q).
    unfold move_bytes. by rewrite Hf, lookup_insert_ne, lookup_delete_ne.
Qed.

Lemma record_outcome path local kept got s :
  let s' := record_copy path local kept got s in
  (∃ fc, file_cache (m_cache (cp_mount s')) !! path = Some fc ∧ fc_local_path fc = local ∧ fc_kept fc = kept ∧
     fc_size fc = default 0 ((λ f, blen (lf_bytes f)) <$> m_disk (cp_mount s) !! local) ∧
     fc_etag fc = or_else (remote_etag_for (m_cache (cp_mount s')) path) got) ∧
  r_status (m_core (cp_mount s')) !! path = Some (if kept then Replay.Kept else Replay.Cached) ∧
  m_disk (cp_mount s') = m_disk (cp_mount s) ∧ cp_transfers s' = cp_transfers s.
Proof.
  split_and!; [|apply (lookup_insert_eq (r_status (m_core (cp_mount s))))|done|done].
  eexists. split; [apply (lookup_insert_eq (file_cache (m_cache (cp_mount s))))|]. by split_and!.
Qed.

(** C99: [ensure_file_cached] answers with a whole copy or leaves none.  Whatever the server
    answers in whichever attempt and whatever other threads do meanwhile: a path that is
    answered holds the bytes of the copy that was there, as old as the listing says, or the
    whole body of one download; the copy listed under the remote path is that file, labelled
    with the listing's version, or the download's when the listing has none, and the status
    says so.  When it fails after it began to write, no copy is listed, the status is Remote, and
    neither a part of the body nor the stale copy stays.  Every other file is left alone. *)
Theorem download_outcome path kept deadline s :
  let '(r, s') := ensure_file_cached_within path kept deadline s in
  let m := cp_mount s in let m' := cp_mount s' in
  let local := join (target_dir kept) path in
  let part := replacement_path pid (cp_next s) local in
  match r with
  | Ok p => ∃ fc f, file_cache (m_cache m') !! path = Some fc ∧ fc_local_path fc = p ∧ m_disk m' !! p = Some f ∧
      ((∃ e, usable_copy path m = Some e ∧ m_disk m !! fc_local_path e = Some f ∧ fc_etag fc = fc_etag e ∧
          (p = local ∨ p = fc_local_path e)) ∨
       (p = local ∧ m_disk m' !! part = None ∧ path ∉ cp_transfers s' ∧ fc_kept fc = kept ∧
        fc_size fc = blen (lf_bytes f) ∧ r_status (m_core m') !! path = Some (if kept then Replay.Kept else Replay.Cached) ∧
        ∃ w t w' got, download path t w = (Ok (lf_bytes f, got), w') ∧ fc_etag fc = or_else (remote_etag_for (m_cache m') path) got))
  | Err _ => usable_copy path m = None ∧
      (mkdirs (default root (parent local)) = false ∨ create part = false ∨ abandoned path part local s')
  end ∧
  (∀ q, q ≠ part → q ≠ local → (∀ e, usable_copy path m = Some e → q ≠ fc_local_path e) →
     (∀ i m, m_disk (during i m) !! q = m_disk m !! q) → m_disk m' !! q = m_disk m !! q).
Proof.
  unfold ensure_file_cached_within. destruct (usable_copy path (cp_mount s)) as [e|] eqn:Hu.
  { pose proof (reuse_outcome path kept e s Hu) as Hr. destruct (reuse_copy path kept e s) as [r s'].
    destruct Hr as (p & fc & f & -> & R1 & R2 & R3 & R4 & R5 & R6 & R7). split.
    - exists fc, f. split_and!; try done. left. by exists e.
    - intros q _ Hq He _. apply R7; [by apply He|done]. }
  destruct (mkdirs _) eqn:Hm; cbn [negb]; [|split; [split; [done|by left]|done]].
  change (cp_next (started path s)) with (cp_next s).
  set (local := join (target_dir kept) path). set (part := replacement_path pid (cp_next s) local).
  pose proof (replacement_ne (cp_next s) local) as Hne. fold part in Hne.
  pose proof (attempts_outcome 2 path part local deadline FIRST_DELAY 0 (part_taken (started path s)) Hne) as Ho.
  pose proof (λ q, attempts_frame 2 path part local deadline FIRST_DELAY 0 (part_taken (started path s)) q) as Hfr.
  destruct (attempts _ _ _ _ _ _ _ _) as [[got|e] s1]; cbn [snd] in Hfr.
  - destruct Ho as (Hp & w & t & w' & bs & Hd & Hb). destruct (m_disk (cp_mount s1) !! local) as [f|] eqn:Hf; [|done]. injection Hb as <-.
    destruct (record_outcome path local kept got (set_transfers (cp_transfers s1 ∖ {[path]}) s1)) as ((fc & R1 & R2 & R3 & R4 & R5) & R6 & R7 & R8).
    change (cp_mount (set_transfers ?t s1)) with (cp_mount s1) in *. rewrite Hf in R4. cbn in R4. rewrite R7. split.
    + exists fc, f. split_and!; try done. right. split_and!; try done; [rewrite R8; cbn; set_solver|]. by exists w, t, w', got.
    + intros q Hq1 Hq2 _ Hd'. by apply Hfr.
  - split; [|intros q Hq1 Hq2 _ Hd'; by apply Hfr]. split; [done|]. destruct Ho as [?|?]; [right; by left|by right; right].
Qed.

(** ** Keeping a folder keeps what is in it *)

Section reach.
Context (tree : PathBuf → list RemoteEntry).
Definition answer (path : PathBuf) s : result (list RemoteEntry * option RemoteEntry) string * Copies := (Ok (tree path, None), s).

(** The files at any depth below a folder. *)
Inductive below : PathBuf → PathBuf → Prop :=
| below_file path f : f ∈ children path false (tree path) → below path f
| below_dir path d f : d ∈ children path true (tree path) → below d f → below path f.
Fixpoint within (height : nat) (path : PathBuf) : Prop :=
  match height with
  | O => children path true (tree path) = []
  | S n => ∀ d, d ∈ children path true (tree path) → within n d
  end.

Definition place (f : PathBuf) (e : FileCacheEntry) : PathBuf := join (target_dir (fc_kept e)) f.
Definition kept_copy s (f : PathBuf) : Prop :=
  ∃ fc, file_cache (m_cache (cp_mount s)) !! f = Some fc ∧ fc_kept fc = true ∧ fc_local_path fc = join kept_dir f ∧
    is_Some (m_disk (cp_mount s) !! join kept_dir f).
(** Copies are where they belong, and no listing is in memory. *)
Record placed s : Prop := {
  pl_place : ∀ f e, file_cache (m_cache (cp_mount s)) !! f = Some e → fc_local_path e = place f e;
  pl_dirs : dir_cache (m_cache (cp_mount s)) = ∅;
}.

Context (Hslot : ∀ d w, (slot d w).1 = true).
Context (Hdown : ∀ p t w, is_ok (download p t w).1 = true).
Context (Hfs : ∀ p q, mkdirs p = true ∧ create p = true ∧ ren p q = true) (Hquiet : ∀ i m, during i m = m).
Context (Hapart : ∀ p q, join kept_dir p ≠ join auto_cache_dir q).
(** No file of the server is named like a part. *)
Context (Hnames : ∀ top f n q, below top f → join kept_dir f ≠ replacement_path pid n q).

Lemma fetch_succeeds path part local i s : ∃ got, (fetch_into path part local None i s).1 = Ok got ∧
  m_cache (cp_mount (fetch_into path part local None i s).2) = m_cache (cp_mount s).
Proof using Hdown Hfs Hquiet Hslot.
  unfold fetch_into, open_file_within. set (w0 := m_world (cp_mount s)). pose proof (Hslot (left None DOWNLOAD_SLOT_WAIT w0) w0) as Hs.
  destruct (slot _ w0) as [got w1]. cbn in Hs. subst got. cbn [negb]. change (left None DOWNLOAD_TIMEOUT w1 =? 0) with false. cbv iota.
  pose proof (Hdown path (left None DOWNLOAD_TIMEOUT w1) w1) as Hd. destruct (download path _ w1) as [[[bs got]|[]] w2]; [|done].
  destruct (Hfs part local) as (_ & _ & ->). exists got. split; [done|]. change (m_cache (during i (cp_mount s)) = m_cache (cp_mount s)). by rewrite Hquiet.
Qed.

Lemma attempts_succeed path part local s : ∃ got s', attempts 2 path part local None FIRST_DELAY 0 s = (Ok got, s') ∧
  m_cache (cp_mount s') = m_cache (cp_mount s).
Proof using Hdown Hfs Hquiet Hslot.
  destruct (fetch_succeeds path part local 0 (on_cp (put_bytes part []) s)) as (got & Hg & Hc).
  destruct (attempts_cases 2 path part local None FIRST_DELAY 0 s) as [[Hn _]|(_ & r & s1 & Hf & Ha)].
  { destruct (Hfs part part) as (_ & E & _). congruence. }
  rewrite Hf in Hg, Hc. cbn in Hg. subst r. cbn [snd] in Hc. destruct Ha as [(etag & _ & ->)|(e & ? & _)]; [|done]. by exists etag, s1.
Qed.
Lemma move_frame from to fs q : q ≠ from → q ≠ to → move_bytes from to fs !! q = fs !! q.
Proof. intros H1 H2. unfold move_bytes. destruct (fs !! from); [|done]. by rewrite lookup_insert_ne, lookup_delete_ne. Qed.

Lemma reuse_kept path e s : placed s → usable_copy path (cp_mount s) = Some e →
  let s' := (reuse_copy path true e s).2 in
  is_ok (reuse_copy path true e s).1 = true ∧ placed s' ∧ kept_copy s' path ∧ ∀ f, kept_copy s f → kept_copy s' f.
Proof using Hfs Hapart.
  intros [Hp Hd] (He & f & Hf)%usable_spec. unfold reuse_copy. pose proof (Hp path e He) as Hl. unfold place in Hl.
  destruct (fc_kept e) eqn:Hk; cbn [negb andb target_dir] in *.
  { split_and!; [done|by split| |done]. exists e. rewrite Hl in Hf. by split_and!. }
  rewrite bool_decide_true by (rewrite Hl; intros E; by apply (Hapart path path)). destruct (Hfs (fc_local_path e) (join kept_dir path)) as (_ & _ & ->).
  cbn [andb fst snd is_ok]. set (s' := on_cp (tell path Replay.Kept) _).
  assert (Ec : file_cache (m_cache (cp_mount s')) = alter (kept_at (join kept_dir path)) path (file_cache (m_cache (cp_mount s)))) by done.
  assert (Em : m_disk (cp_mount s') = move_bytes (fc_local_path e) (join kept_dir path) (m_disk (cp_mount s))) by done.
  assert (Hq : kept_copy s' path).
  { exists (kept_at (join kept_dir path) e). rewrite Ec, Em, lookup_alter_eq, He. split_and!; try done. unfold move_bytes. by rewrite Hf, lookup_insert_eq. }
  split_and!; [done| |done|].
  - split; [|done]. intros g e'. rewrite Ec. destruct (decide (g = path)) as [->|Hne]; [rewrite lookup_alter_eq, He; by intros [= <-]|].
    rewrite lookup_alter_ne by done. apply Hp.
  - intros g (fc & G1 & G2 & G3 & G4). destruct (decide (g = path)) as [->|Hne]; [done|]. exists fc. rewrite Ec, Em, lookup_alter_ne by done.
    split_and!; try done. rewrite move_frame; [done|rewrite Hl; by apply Hapart|]. by intros E%app_inv_head.
Qed.

Lemma ensure_kept path s : placed s →
  let s' := (ensure_file_cached path true s).2 in
  is_ok (ensure_file_cached path true s).1 = true ∧ placed s' ∧ kept_copy s' path ∧ ∀ top f, below top f → kept_copy s f → kept_copy s' f.
Proof using Hapart Hdown Hfs Hnames Hquiet Hslot.
  intros Hs. unfold ensure_file_cached, ensure_file_cached_within. destruct (usable_copy path (cp_mount s)) as [e|] eqn:Hu.
  { destruct (reuse_kept path e s Hs Hu) as (R1 & R2 & R3 & R4). split_and!; eauto. }
  destruct (Hfs (default root (parent (join (target_dir true) path))) path) as (-> & _ & _). cbn [negb]. cbv zeta.
  change (target_dir true) with kept_dir. change (cp_next (started path s)) with (cp_next s).
  set (part := replacement_path pid (cp_next s) (join kept_dir path)).
  destruct (attempts_succeed path part (join kept_dir path) (part_taken (started path s))) as (got & s1 & Ha & Hc).
  pose proof (attempts_outcome 2 path part (join kept_dir path) None FIRST_DELAY 0 (part_taken (started path s)) (replacement_ne _ _)) as Ho.
  pose proof (λ q, attempts_frame 2 path part (join kept_dir path) None FIRST_DELAY 0 (part_taken (started path s)) q) as Hfr.
  rewrite Ha in Ho, Hfr |- *. cbn [fst snd] in *. destruct Ho as (_ & w & t & w' & bs & _ & Hb).
  set (s2 := set_transfers (cp_transfers s1 ∖ {[path]}) s1). set (s' := record_copy path (join kept_dir path) true got s2).
  destruct (record_outcome path (join kept_dir path) true got s2) as ((fc & R1 & R2 & R3 & _ & _) & _ & R7 & _). fold s' in R1, R7.
  assert (Hd : m_disk (cp_mount s') = m_disk (cp_mount s1)) by done. clear R7.
  assert (Hfc : ∀ g, g ≠ path → file_cache (m_cache (cp_mount s')) !! g = file_cache (m_cache (cp_mount s)) !! g).
  { intros g Hg. etransitivity; [by apply (lookup_insert_ne (file_cache (m_cache (cp_mount s1))))|]. by rewrite Hc. }
  assert (Hq : kept_copy s' path).
  { exists fc. rewrite Hd. split_and!; try done. by destruct (m_disk (cp_mount s1) !! _). }
  split_and!; [done| |done|].
  - destruct Hs as [Hp Hdc]. split.
    + intros g e'. destruct (decide (g = path)) as [->|Hne]; [rewrite R1; intros [= <-]; unfold place; by rewrite R2, R3|]. rewrite Hfc by done. apply Hp.
    + change (dir_cache (m_cache (cp_mount s1)) = ∅). by rewrite Hc.
  - intros top g Hb' (fc' & G1 & G2 & G3 & G4). destruct (decide (g = path)) as [->|Hne]; [done|]. exists fc'. rewrite Hfc, Hd by done.
    split_and!; try done. rewrite Hfr; [done| |by eapply Hnames|by intros E%app_inv_head]. intros i m. by rewrite Hquiet.
Qed.

Definition keeps s s' : Prop := placed s' ∧ ∀ top f, below top f → kept_copy s f → kept_copy s' f.
Lemma keeps_trans s1 s2 s3 : keeps s1 s2 → keeps s2 s3 → keeps s1 s3.
Proof using. intros [_ H1] [H2 H3]. split; [done|]. eauto. Qed.

Lemma chunk_kept l s : placed s → let s' := foldl (λ s p, (ensure_file_cached p true s).2) s l in
  keeps s s' ∧ ∀ top f, below top f → f ∈ l → kept_copy s' f.
Proof using Hapart Hdown Hfs Hnames Hquiet Hslot.
  revert s. induction l as [|p l IH]; intros s Hs; cbn [foldl]; [split; [by split|by intros ? ? _ ?%elem_of_nil]|].
  destruct (ensure_kept p s Hs) as (_ & E1 & E2 & E3). destruct (IH _ E1) as [K1 K2]. split; [by eapply keeps_trans; [|exact K1]|].
  intros top f Hb [->|Hf]%elem_of_cons; [|by eapply K2]. by eapply K1.
Qed.

Definition pause s : Copies := on_cp (λ m, log_world (sleep (50 * ms) (m_world m)) m) s.
Lemma chunks_kept cs s : placed s → let s' := foldl (λ s chunk, pause (foldl (λ s p, (ensure_file_cached p true s).2) s chunk)) s cs in
  keeps s s' ∧ ∀ top f, below top f → f ∈ mjoin cs → kept_copy s' f.
Proof using Hapart Hdown Hfs Hnames Hquiet Hslot.
  revert s. induction cs as [|c cs IH]; intros s Hs; cbn [foldl]; [split; [by split|by intros ? ? _ ?%elem_of_nil]|].
  destruct (chunk_kept c s Hs) as [C1 C2]. set (s1 := foldl _ s c) in *.
  assert (Hp : keeps s1 (pause s1)) by (split; [destruct C1 as [[] _]; by split|done]).
  destruct (IH _ (proj1 Hp)) as [K1 K2]. split; [exact (keeps_trans _ _ _ C1 (keeps_trans _ _ _ Hp K1))|].
  intros top f Hb [Hf|Hf]%elem_of_app; [|by eapply K2]. eapply K1; [done|]. eapply Hp; [done|]. by eapply C2.
Qed.

Lemma chunks_join n (l : list PathBuf) : (length l ≤ n)%nat → mjoin (chunks_of_two l) = l.
Proof using.
  revert l. induction n as [|n IH]; intros [|x [|y l']] Hn; try done; cbn in Hn; [lia..|].
  change (x :: y :: mjoin (chunks_of_two l') = x :: y :: l'). f_equal. f_equal. apply IH. lia.
Qed.
Lemma keep_files_kept l s : placed s → keeps s (keep_files l s) ∧ ∀ top f, below top f → f ∈ l → kept_copy (keep_files l s) f.
Proof using Hapart Hdown Hfs Hnames Hquiet Hslot.
  intros Hs. destruct (chunks_kept (chunks_of_two l) s Hs) as [K1 K2]. split; [exact K1|]. intros top f Hb Hf.
  eapply K2; [done|]. by rewrite (chunks_join (length l)).
Qed.

Lemma keep_below n fuel path s : within n path → (n < fuel)%nat → placed s → ∃ s', keep_locally_recursive answer fuel path s = Some (true, s') ∧
  keeps s s' ∧ ∀ f, below path f → kept_copy s' f.
Proof using Hapart Hdown Hfs Hnames Hquiet Hslot.
  revert fuel path s. induction n as [n IH] using lt_wf_ind. intros [|fuel] path s Hw Hn Hs; [lia|]. cbn [keep_locally_recursive].
  assert (Hk : is_known_directory (m_cache (cp_mount s)) path = None).
  { unfold is_known_directory. rewrite (pl_dirs _ Hs). destruct (parent path); [|done]. cbn. by destruct (file_name path). }
  rewrite Hk, bool_decide_false by done. unfold answer at 1. cbn [default]. cbv zeta.
  destruct (keep_files_kept (children path false (tree path)) s Hs) as [F1 F2]. set (s1 := keep_files _ s) in *.
  assert (Hdirs : ∀ l s1, placed s1 → (∀ d, d ∈ l → d ∈ children path true (tree path)) →
    ∃ s', foldl (λ os dir, s ← os; snd <$> keep_locally_recursive answer fuel dir s) (Some s1) l = Some s' ∧ keeps s1 s' ∧
      ∀ d f, d ∈ l → below d f → kept_copy s' f).
  { clear s Hs Hk s1 F1 F2. intros l. induction l as [|d l IHl]; intros s Hs Hl; cbn [foldl].
    { exists s. split_and!; [done|by split|by intros ? ? ?%elem_of_nil]. }
    destruct n as [|n]; [cbn in Hw; specialize (Hl d (list_elem_of_here _ _)); rewrite Hw in Hl; by apply elem_of_nil in Hl|].
    destruct (IH n ltac:(lia) fuel d s) as (s2 & E & K1 & K2); [apply Hw, Hl; left|lia|done|]. cbn [mbind option_bind]. rewrite E. cbn [fmap option_fmap option_map snd].
    destruct (IHl s2 (proj1 K1)) as (s3 & E3 & K3 & K4); [intros; apply Hl; by right|]. exists s3. split_and!; [done|by eapply keeps_trans|].
    intros d' f [->|Hd]%elem_of_cons Hb; [|by eapply K4]. eapply K3; [done|]. by apply K2. }
  destruct (Hdirs (children path true (tree path)) s1 (proj1 F1)) as (s' & E & K1 & K2); [done|]. rewrite E. exists s'. split_and!; [done|by eapply keeps_trans|].
  intros f Hb. inversion Hb as [? ? Hf|? d ? Hd Hb']; subst; [|by eapply K2]. eapply K1; [done|]. by eapply F2.
Qed.

(** C99: Keeping a folder keeps every file below it, at any depth, and says so.  When nothing
    fails: the call returns true, with each of those files downloaded into the kept directory
    or moved there from the cache, listed as kept, and still so when the last one is done.
    It needs no more fuel than the tree is high. *)
Theorem keep_reaches height fuel path s : within height path → (height < fuel)%nat → placed s →
  ∃ s', keep_locally_recursive answer fuel path s = Some (true, s') ∧ ∀ f, below path f → kept_copy s' f.
Proof using Hapart Hdown Hfs Hnames Hquiet Hslot.
  intros Hw Hf Hs. destruct (keep_below height fuel path s Hw Hf Hs) as (s' & E & _ & K). by exists s'.
Qed.
End reach.
End copies.

(** ** Runs *)

(** The world is the clock; the server's file is at version 2. *)
Definition ck_bytes : bytes := [Byte.x41; Byte.x42].
Definition ck_down (p : PathBuf) (d : Duration) (w : Z) : result (bytes * option Etag) (bytes * BackendReadError) * Z :=
  (Ok (ck_bytes, Some "2"%string), w + secs 1).
Definition ck_broken (p : PathBuf) (d : Duration) (w : Z) : result (bytes * option Etag) (bytes * BackendReadError) * Z :=
  (Err ([Byte.x41], RNetwork "connection reset"), w + Z.min d (secs 25)).
Definition ck_slot (d : Duration) (w : Z) : bool * Z := (true, w).
Definition ck_sleep (d : Duration) (w : Z) : Z := w + d.
Definition ck_entry (etag : Etag) : RemoteEntry :=
  {| e_path := sv_path; e_is_dir := false; e_size := 2; e_modified := Some (secs 7); e_change_token := Some etag; e_content_type := None; e_ext := ext_default |}.
Definition ck_listing (etag : Etag) : DirCacheEntry :=
  {| d_files := [ck_entry etag]; d_self_entry := None; d_etag := Some ("d" +:+ etag)%string; d_at := 0; d_fetched_at := 0; d_refreshing := false;
     d_invalidated := false; d_hard_expired := false; d_expiry_retry_after := None; d_last_access := 0 |}.
Definition ck_cache (etag : Etag) (copies : gmap PathBuf FileCacheEntry) : FsCache :=
  Build_FsCache {[ 1%nat := root ]} {[ root := 1%nat ]} 2 {[ root := ck_listing etag ]} 100 ∅ copies ∅ ∅ ∅ true 1.
Definition ck_mount (etag : Etag) (copies : gmap PathBuf FileCacheEntry) (disk : Files) : Mount Z :=
  Build_Mount (Build_RState (load_or_create 0 ["cache"%string] (Build_Disk (Some []) None disk true)) (ck_cache etag copies) ∅ ∅ [] 0)
    ∅ ∅ ∅ ∅ ∅ ∅ 1 ∅ no_uploads ∅ ∅ false PathSeq.init [].
Definition ck_start (etag : Etag) (copies : gmap PathBuf FileCacheEntry) (disk : Files) : Copies (W := Z) :=
  {| cp_local := {| lc_mount := ck_mount etag copies disk; lc_json := ∅ |}; cp_transfers := ∅; cp_next := 0 |}.
Definition ck_ensure down during (kept : bool) (deadline : option Instant) (s : Copies (W := Z)) :=
  ensure_file_cached_within (H := sv_cfg) (λ w, w) (λ w, w) down ck_slot ck_sleep (λ _, true) (λ _, true) (λ _, true) (λ _ _, true) 7 during
    sv_path kept deadline s.

(** A connection that breaks after 25 seconds: with a minute there is time for two attempts and
    what is left of a third. *)
Definition ck_timed : Copies := (ck_ensure ck_broken (λ _ m, m) false (Some (secs 60)) (ck_start "2" ∅ ∅)).2.
Lemma download_in_time_witness : secs 50 <= m_world (cp_mount ck_timed) <= secs 60.
Proof.
  split; [by vm_compute|].
  pose proof (download_in_time (H := sv_cfg) (λ w, w) (λ w, w) ck_broken ck_slot ck_sleep (λ _, true) (λ _, true) (λ _, true) (λ _ _, true) 7 (λ _ m, m)
                0 (reflexivity _)) as Ht.
  destruct (Ht ltac:(intros; cbn; lia) ltac:(intros; cbn; unfold secs; lia) ltac:(intros; unfold ck_sleep; lia) sv_path false (Some (secs 60)) (ck_start "2" ∅ ∅)) as [_ He].
  change (ensure_file_cached_within _ _ ck_broken _ _ _ _ _ _ _ _ _ false _ _).2 with ck_timed in He. etransitivity; [exact He|]. by vm_compute.
Defined.

(** A whole body arrives: it is the copy, and the row and the part are gone. *)
Lemma download_outcome_witness :
  let '(r, s) := ck_ensure ck_down (λ _ m, m) true None (ck_start "2" ∅ ∅) in
  r = Ok ["kept"; "f"]%string ∧ file_cache_matches_remote (m_cache (cp_mount s)) sv_path = true ∧
  ∃ f, m_disk (cp_mount s) !! ["kept"; "f"]%string = Some f ∧ lf_bytes f = ck_bytes.
Proof.
  pose proof (download_outcome (H := sv_cfg) (λ w, w) (λ w, w) ck_down ck_slot ck_sleep (λ _, true) (λ _, true) (λ _, true) (λ _ _, true) 7 (λ _ m, m)
                sv_path true None (ck_start "2" ∅ ∅)) as Ho.
  change (ensure_file_cached_within _ _ ck_down _ _ _ _ _ _ _ _ _ true _ _) with (ck_ensure ck_down (λ _ m, m) true None (ck_start "2" ∅ ∅)) in Ho.
  assert (E : (ck_ensure ck_down (λ _ m, m) true None (ck_start "2" ∅ ∅)).1 = Ok ["kept"; "f"]%string) by (by vm_compute).
  assert (Em : file_cache_matches_remote (m_cache (cp_mount (ck_ensure ck_down (λ _ m, m) true None (ck_start "2" ∅ ∅)).2)) sv_path = true) by (by vm_compute).
  destruct (ck_ensure ck_down _ true None _) as [r s]. cbn [fst snd] in *. subst r. destruct Ho as [(fc & f & _ & _ & Hf & [(e & He & _)|(_ & _ & _ & _ & _ & _ & w & t & w' & got & Hd & _)]) _].
  - by vm_compute in He.
  - split; [done|]. split; [exact Em|]. exists f. split; [exact Hf|]. by injection Hd.
Defined.

(** The listing is refreshed to version 3 while version 2 is downloaded: the copy is labelled with
    version 3 and counts as current, with the bytes of version 2. *)
Lemma label_overtakes_download :
  let s := (ck_ensure ck_down (λ _, upd_cache (λ c, put_dir_cache c false 0 0 root (Some "d3"%string) None [ck_entry "3"])) true None (ck_start "2" ∅ ∅)).2 in
  file_cache_matches_remote (m_cache (cp_mount s)) sv_path = true ∧ (fc_etag <$> file_cache (m_cache (cp_mount s)) !! sv_path) = Some (Some "3"%string) ∧
  (ck_down sv_path 0 0).1 = Ok (ck_bytes, Some "2"%string).
Proof. by vm_compute. Qed.

Definition ck_old : FileCacheEntry :=
  {| fc_local_path := ["auto"; "f"]%string; fc_remote_modified := Some (secs 7); fc_etag := Some "1"%string; fc_kept := false; fc_size := 1 |}.
Definition ck_old_disk : Files := {[ ["auto"; "f"]%string := Build_LocalFile [Byte.x40] 0 ]}.
(** An edit that leaves the modification time as it was: the copy is known to be out of date,
    and is kept and answered all the same. *)
Lemma same_time_not_downloaded :
  let s := ck_start "2" {[ sv_path := ck_old ]} ck_old_disk in
  file_cache_matches_remote (m_cache (cp_mount s)) sv_path = false ∧
  (ck_ensure ck_down (λ _ m, m) false None s).1 = Ok ["auto"; "f"]%string ∧ (ck_ensure ck_down (λ _ m, m) false None s).2 = s.
Proof. by vm_compute. Qed.

(** The part cannot be created: the file is shown as downloading, with a row of progress, for good. *)
Lemma downloading_for_good :
  let '(r, s) := ensure_file_cached_within (H := sv_cfg) (λ w, w) (λ w, w) ck_down ck_slot ck_sleep (λ _, true) (λ _, false) (λ _, true) (λ _ _, true) 7 (λ _ m, m)
    sv_path true None (ck_start "2" ∅ ∅) in
  is_ok r = false ∧ r_status (m_core (cp_mount s)) !! sv_path = Some Downloading ∧ cp_transfers s = {[ sv_path ]}.
Proof. by vm_compute. Qed.

Definition ck_older : FileCacheEntry :=
  {| fc_local_path := ["auto"; "f"]%string; fc_remote_modified := Some (secs 6); fc_etag := Some "1"%string; fc_kept := false; fc_size := 1 |}.
(** A stale copy lies in the other directory than the one it is to be kept in, and the download
    fails: it is forgotten but not removed, and the next readdir takes it for the version it
    lists. *)
Lemma stale_copy_taken_again :
  let s := (ck_ensure ck_broken (λ _ m, m) true None (ck_start "2" {[ sv_path := ck_older ]} ck_old_disk)).2 in
  file_cache (m_cache (cp_mount s)) !! sv_path = None ∧ m_disk (cp_mount s) !! ["auto"; "f"]%string = ck_old_disk !! ["auto"; "f"]%string ∧
  (fc_etag <$> (ReadDir.local_copy (H := sv_cfg) (m_disk (cp_mount s)) sv_path (ck_entry "2")).2) = Some (Some "2"%string).
Proof. by vm_compute. Qed.

(** A folder with a file and a folder with a file. *)
Definition ck_node (p : PathBuf) (dir : bool) : RemoteEntry :=
  {| e_path := p; e_is_dir := dir; e_size := 2; e_modified := None; e_change_token := Some "2"%string; e_content_type := None; e_ext := ext_default |}.
Definition ck_tree (p : PathBuf) : list RemoteEntry :=
  if decide (p = root) then [ck_node ["f"%string] false; ck_node ["d"%string] true]
  else if decide (p = ["d"%string]) then [ck_node ["d"; "g"]%string false] else [].
Definition ck_empty : Copies (W := Z) := on_cp (upd_cache (λ c, with_dirs c ∅)) (ck_start "2" ∅ ∅).
Definition ck_keep (fuel : nat) : option (bool * Copies (W := Z)) :=
  keep_locally_recursive (H := sv_cfg) (λ w, w) (λ w, w) ck_down ck_slot ck_sleep (λ _, true) (λ _, true) (λ _, true) (λ _ _, true) 7 (λ _ m, m)
    (answer ck_tree) fuel root ck_empty.
Lemma ck_names top f : below ck_tree top f → last f = Some "f"%string ∨ last f = Some "g"%string.
Proof.
  induction 1 as [p f Hf|p d f Hd Hb IH]; [|done]. unfold ck_tree in Hf. destruct (decide (p = root)) as [->|]; [|destruct (decide (p = _)) as [->|]].
  - vm_compute in Hf. apply list_elem_of_singleton in Hf as ->. by left.
  - vm_compute in Hf. apply list_elem_of_singleton in Hf as ->. by right.
  - by apply elem_of_nil in Hf.
Qed.
Lemma keep_reaches_witness : ∃ s, ck_keep 2 = Some (true, s) ∧ ∃ fc, file_cache (m_cache (cp_mount s)) !! ["d"; "g"]%string = Some fc ∧ fc_kept fc = true.
Proof.
  destruct (keep_reaches (H := sv_cfg) (λ w, w) (λ w, w) ck_down ck_slot ck_sleep (λ _, true) (λ _, true) (λ _, true) (λ _ _, true) 7 (λ _ m, m) ck_tree
              (λ _ _, eq_refl) (λ _ _ _, eq_refl) (λ _ _, conj eq_refl (conj eq_refl eq_refl)) (λ _ _, eq_refl) ltac:(by intros p q [=]))
    with (height := 1%nat) (fuel := 2%nat) (path := root) (s := ck_empty) as (s & E & K).
  - intros top f n q Hb E. apply (f_equal last) in E. unfold replacement_path, join in E. rewrite last_snoc, last_app in E.
    destruct (ck_names top f Hb) as [Hl|Hl]; by rewrite Hl in E.
  - intros d Hd. vm_compute in Hd. apply list_elem_of_singleton in Hd as ->. by vm_compute.
  - lia.
  - split; [|done]. intros f e He. by vm_compute in He.
  - exists s. split; [exact E|]. destruct (K ["d"; "g"]%string) as (fc & H1 & H2 & _); [|by exists fc].
    apply (below_dir ck_tree root ["d"%string]); [|apply below_file]; vm_compute; left.
Defined.
