(* ===== verification/Validate.v ===== *)
(** [lib.rs], [validate_subtree]: after a start or a lost push connection the cached listings are
    compared with the server's, one request per level: a child folder whose version is the
    cached one is confirmed, another is listed again.

    The clocks are read once.  The run is alone: what other threads do to the cache between
    its locks is not modelled. *)
From S2P Require Import Prelude Paths Backend Server FsCache Errors Listing.
From S2P Require Backoff.
Local Open Scope Z_scope.

Section validate.
Context {W : Type} `{CloudBackend W} (slot : call W bool) (ti paused : bool) (now : Instant) (wall : SystemTime).
Implicit Types (c : FsCache) (x : LState * W).

(** A child folder of the fresh listing: confirmed, or among the changed. *)
(* lib.rs:10756-10779 validate_subtree *)
Definition check_child (q : list PathBuf * FsCache) (entry : RemoteEntry) : list PathBuf * FsCache :=
  let '(changed, c) := q in
  if negb (e_is_dir entry) then q else
  match dir_cache c !! e_path entry with
  | None => q
  | Some d =>
      match e_change_token entry, d_etag d with
      | Some f, Some e => if bool_decide (f = e) then (changed, (confirm_dir_fresh c (e_path entry) now wall).2) else (changed ++ [e_path entry], c)
      | _, _ => (changed ++ [e_path entry], c)
      end
  end.
Definition forget_dir c (p : PathBuf) : FsCache := with_dirs c (delete p (dir_cache c)).
Definition down x : bool := shutdown (l_conn x.1) || is_offline (l_conn x.1).

(* lib.rs:10797-10815 validate_subtree *)
Definition relist_changed (descend : option (PathBuf → LState * W → bool * (LState * W))) x (p : PathBuf) : LState * W :=
  match descend with
  | Some go =>
      let '(ok, x) := go p x in
      if (ok : bool) then x else if down x then x
      else (start_background_propfind paused now p false (upd_lcache (λ c, forget_dir c p) x.1), x.2)
  | None => (start_background_propfind paused now p false x.1, x.2)
  end.

(** [descend]: the run one level deeper, while the depth allows. *)
(* lib.rs:10740-10821 validate_subtree *)
Definition validate_level (descend : option (PathBuf → LState * W → bool * (LState * W))) (path : PathBuf) x : bool * (LState * W) :=
  if down x then (false, x) else
  if bool_decide (dir_cache (l_cache x.1) !! path = None) then (false, x) else
  let '(r, w) := list_dir_propfind slot path x.2 in
  match r with
  | Err _ => (false, (x.1, w))
  | Ok (etag, self_entry, fresh_files) =>
      let '(changed, c) := foldl check_child ([], l_cache x.1) fresh_files in
      let c := foldl (if descend then invalidate_dir else forget_dir) c changed in
      let c := put_dir_cache c ti now wall path etag self_entry fresh_files in
      (true, foldl (relist_changed descend) (upd_lcache (λ _, c) x.1, w) changed)
  end.
(* lib.rs:10740-10821 validate_subtree *)
Fixpoint validate_subtree (depth : nat) (path : PathBuf) x : bool * (LState * W) :=
  validate_level (match depth with S (S _ as d) => Some (validate_subtree d) | _ => None end) path x.

(* lib.rs:10823-10826 boot_validate_root *)
Definition boot_validate_root x : LState * W := (validate_subtree 1 root x).2.
(* lib.rs:10731-10731 RECONNECT_VALIDATE_DEPTH *)
Definition RECONNECT_VALIDATE_DEPTH : nat := 3.
(* lib.rs:10838-10841 revalidate_after_reconnect *)
Definition revalidate_after_reconnect x : LState * W := (validate_subtree RECONNECT_VALIDATE_DEPTH root x).2.
End validate.
